(* ===== verification/_CoqProject ===== *)
-Q . S2P
Prelude.v
GoLang.v
GoJson.v
JsonText.v
JsonSpec.v
World.v
RpcClient.v
Nvmf.v
Iscsi.v
SpdkNode.v
Util.v
UtilSpec.v
VolumeLocks.v
LocksSpec.v
CsiCommon.v
CsiCommonSpec.v
Server.v
Controller.v
ControllerOps.v
ControllerFacts.v
Initiator.v
InitiatorSpec.v
Sma.v
Opi.v
Sysfs.v
SysfsSpec.v
Xpu.v
BackendSpec.v
OpiSpec.v
XpuSpec.v
XpuContext.v
NodeServer.v
NodeOps.v
Driver.v
Service.v
ServiceSpec.v
NodeWorld.v
NodeSpec.v
NodeRefine.v
Target.v
TargetCalls.v
RpcSpec.v
NvmfSpec.v
IscsiSpec.v
ControllerSpec.v
VolumesSpec.v
CreationSpec.v
SnapshotSpec.v
EndToEnd.v
RefNode.v
RefTarget.v
TargetWitnesses.v
ControllerWitnesses.v
NodeWitnesses.v
XpuWitnesses.v
DriverWitnesses.v
