(* ===== verification/Prelude.v ===== *)
(** * SPDK-CSI driver: a verification development

    The driver connects Kubernetes to SPDK storage nodes.  Its controller service makes,
    publishes and deletes logical volumes by JSON-RPC requests to the storage nodes; its
    node service connects a published volume to the machine it runs on and mounts it,
    either by the kernel's own initiators or by an xPU (a SmartNIC or DPU).  This
    development models all of the Go code under src/pkg and proves what its parts promise.

    ** How the code is modelled

    A Go function with effects is a [proc] (World): a finite tree of operations on the
    outside world, each continued by its answer.  Methods that change their receiver are
    [st S] functions, which pass the receiver's state; errors are values ([gores], or an
    optional [goerror]); a panic, and [klog.Fatal], is the end [Panic].  Integers keep
    their width ([int32], [int64], [uint32] wrap around).  Definitions bear the names of
    the functions they model and stand in a Module named after the receiver's type.
    [wp step p Q w] says that whatever the world answers, by the relation [step], [p] run
    in [w] ends in [Q]; it counts panics among the ends, and since trees are finite it
    speaks of termination too.  What the code relies on of other programs are classes of
    laws over [step]; the files RefTarget and RefNode hold worlds that run, obey all of
    the laws, and are where the witnesses of the theorems are evaluated.

    ** The parts, their files and their sources

    - Go and its library: GoLang (errors, integers, strings), GoJson (JSON trees and their
      decoding into Go values), JsonText (JSON as text), World (operations, [proc], [wp]).
    - Client of a storage node: RpcClient and SpdkNode (util/jsonrpc.go), Nvmf
      (util/nvmf.go), Iscsi (util/iscsi.go).  [SpdkNode] is the class of the Go interface;
      both kinds of node are instances, and so is the interface value, which may be nil.
    - Controller service: Controller (spdk/controllerserver.go), VolumeLocks
      (util/idlocker.go, and TryLock of util/util.go), CsiCommon (csi-common without its
      server).
    - Node service: NodeServer (spdk/nodeserver.go), Util (util/config.go and the stashed
      contexts of util/util.go), Initiator (util/initiator.go), Xpu
      (util/xpuinitiator.go) over the back ends Sma (util/smainitiator.go) and Opi
      (util/opiinitiator.go), Sysfs (devices and PCI functions of util/util.go).
    - The driver: Driver (spdk/driver.go, identityserver.go and the constructor of the
      node service), Server (csi-common/server.go), Service (which method answers which
      RPC of the three services).

    The controller calls storage nodes through [SpdkNode]; what [VolumeInfo] tells becomes
    the volume context, from which the node service makes an initiator.  The xPU
    initiator calls its back end through [XpuInitiator].  Both services take the lock of
    the volume of an RPC, and xPU connections one more, [phyIDLock].

    ** The laws

    [Transport], [VolumeLaws], [SnapshotLaws], [NvmfLaws], [IscsiLaws] (Target): a request
    gets one answer in the form of JSON-RPC 2.0, or none, and the documented effects of
    the SPDK methods on a target's volumes, subsystems and target nodes; [Undisturbed]
    (ControllerSpec): targets change by requests only; [Answering] (VolumesSpec): every
    request gets an answer.  [FileLaws] (UtilSpec), [MountLaws] and [CommandLaws]
    (NodeWorld): files, mount points and the commands of the initiators.  [XpuLaws]
    (BackendSpec): objects on an xPU come from the calls that make them and are gone after
    a deletion that answers success; a call that answers an error, a time-out included,
    may have made its object, which nobody knows the name of ([lost]).  [Logged] (World)
    is a world with a log of the calls, so that theorems can name what failed; every world
    can be given one ([logged]).  Theorems about failures assume only [Transport] and the
    effects: requests without an answer are covered unless [Answering], or [¬ unreliable],
    is assumed; [deletable] (CreationSpec) says that the target will not refuse one
    deletion.

    ** What the theorems show

    - Publication (NvmfSpec, IscsiSpec): publishing and unpublishing refine abstract
      specifications on the target's state, undo each other, leave everything else alone;
      the leftover of a crash makes publication fail for ever.
    - Controller (ControllerSpec, ControllerFacts, VolumesSpec, CreationSpec,
      SnapshotSpec): the answers of the handlers against the targets: created volumes are
      published, creation is idempotent, deletion removes, scheduling is sound and
      complete, snapshots; and the failure that deletes a volume it did not make.
    - Node (NodeSpec, NodeRefine): the four handlers refine specifications on mount
      points, files and commands; staging and unstaging undo each other; two failures
      after which a retry goes wrong.
    - Initiators (InitiatorSpec): a world with a clock, in which a command takes up to its
      time-out; after their commands [Connect] and [Disconnect] succeed exactly when a
      device comes, or goes, in time, and they end.  EndToEnd: the context a volume is created with leads the
      initiator to it, whatever the parameters of the request.
    - xPU (BackendSpec, OpiSpec, XpuSpec, XpuContext, SysfsSpec): the back ends keep the
      contract [BackendContract], that what is made is recorded, or lost, and removed
      again; the initiator's theorems are proved from the contract; the context file
      restores an initiator unless it cannot be read; the search for free functions.
    - Concurrency (LocksSpec, ControllerOps, NodeOps, ServiceSpec): RPCs interleaved at
      every operation, as a step relation on pools of threads with a trace: the work on a
      volume, and what goes from the search for a free xPU function to the call that takes
      it, never overlap, told by the operations of the threads and not by their locks; no
      deadlock, termination.  ServiceSpec has the start of the driver, too.
    - Data (UtilSpec, JsonSpec, CsiCommonSpec, RpcSpec): sizes, stashed contexts, JSON
      text, endpoints, single calls.

    BackendSpec's and TargetCalls' lemmas serve several of these.  The files whose names
    end in Witnesses run the code at concrete inputs, where the hypotheses hold.

    ** Bounds

    Recursion is structural nearly everywhere.  The JSON parser has fuel, twice the length
    of its text and one more, for at most two calls per character; that it is enough for
    what the driver prints is part of [stash_lookup_roundtrip].  The waiting loops have one round for each
    second from 0 to the time-out, which is how often the Go loops run.  [hex_digits] has
    8 digits: it prints 32-bit numbers.

    ** What is not modelled

    Logging (klog, and logGRPC, which only logs), contexts and the time-outs of requests
    (a request that times out is one without an answer), the gRPC, HTTP and Kubernetes
    mount libraries (operations of the world), the race of the goroutine that stores
    [server] against [Stop], the flags of src/cmd/main.go, and the tests of src/e2e.
    Strings are bytes and case is ASCII case.  The content of commands' output is not
    modelled beyond what the code reads.  The laws for xPU hardware do not say which
    device appears for which function. *)

From Stdlib Require Import Ascii.
From stdpp Require Export base tactics list strings gmap sets fin_maps.
From Stdlib Require Export ZArith Lia.

#[global] Set Default Goal Selector "!".

(** ** Automation *)

(** Facts the components' proofs close without naming them. *)
Create HintDb spdk discriminated.
Create Rewrite HintDb spdk.

(** Split conjunctions and destruct the tuples and existentials of the context. *)
Ltac destruct_and_ex :=
  repeat match goal with
  | H : _ ∧ _ |- _ => destruct H
  | H : ∃ _, _ |- _ => destruct H
  | p : _ * _ |- _ => destruct p
  end.

(** Case analysis on the scrutinee of the innermost [match] or [if] of the goal,
    remembering its value. *)
Ltac case_goal :=
  match goal with
  | |- context [match ?x with _ => _ end] =>
      lazymatch x with
      | context [match _ with _ => _ end] => fail
      | _ => destruct x eqn:?
      end
  end.

(** ** Generic lemmas *)

(** The first element of a list that satisfies a decidable test. *)
Definition find_first {A} (f : A → bool) : list A → option A :=
  fix go l :=
    match l with
    | [] => None
    | x :: l' => if f x then Some x else go l'
    end.

Section find_first.
Context {A : Type} (f : A → bool).
Implicit Types l : list A.

Lemma find_first_Some l x :
  find_first f l = Some x ↔
  ∃ l1 l2, l = l1 ++ x :: l2 ∧ f x = true ∧ Forall (λ y, f y = false) l1.
Proof.
  induction l as [|y l IH]; simpl.
  - split; [done|]. intros ([|??] & ? & ? & ?); done.
  - destruct (f y) eqn:Hy; split.
    + intros [= ->]. by exists [], l.
    + intros ([|z l1] & l2 & Heq & Hf & Hall); simplify_eq/=; [done|].
      apply Forall_cons in Hall as [? _]. congruence.
    + rewrite IH. intros (l1 & l2 & -> & ? & ?). exists (y :: l1), l2. auto.
    + intros ([|z l1] & l2 & Heq & Hf & Hall); simplify_eq/=; [congruence|].
      apply Forall_cons in Hall as [_ ?]. apply IH. eauto.
Qed.

Lemma find_first_None l :
  find_first f l = None ↔ Forall (λ y, f y = false) l.
Proof.
  induction l as [|y l IH]; simpl; [done|].
  rewrite Forall_cons. destruct (f y).
  - split; [done|]. intros [? _]. done.
  - rewrite IH. split; [done|]. by intros [_ ?].
Qed.

Lemma find_first_elem l x : find_first f l = Some x → x ∈ l ∧ f x = true.
Proof.
  rewrite find_first_Some. intros (l1 & l2 & -> & ? & _).
  split; [|done]. apply elem_of_app. right. apply elem_of_cons. by left.
Qed.
End find_first.

Lemma append_assoc_s (a b c : string) : (a +:+ b) +:+ c = a +:+ (b +:+ c).
Proof. induction a as [|x a IH]; simpl; [done|]. unfold String.append in *. simpl. by rewrite IH. Qed.

Lemma append_nil_r (a : string) : a +:+ "" = a.
Proof. induction a as [|x a IH]; simpl; [done|]. unfold String.append in *. simpl. by rewrite IH. Qed.
