(* ===== verification/GoLang.v ===== *)
(** The part of Go and of its standard library the driver relies on: error
    values and [errors.Is], machine integers, [strings] and [strconv].
    Strings are byte strings; [ToLower], [TrimSpace] act on the ASCII range
    (the driver applies them to transport names, error tags and sysfs text). *)

From Stdlib Require Import DecimalString DecimalZ Ascii.
From S2P Require Import Prelude.

(** ** Machine integers *)

Definition wrap_s (w z : Z) : Z := (z + 2 ^ (w - 1)) `mod` 2 ^ w - 2 ^ (w - 1).
Definition int64 (z : Z) : Z := wrap_s 64 z.
Definition int32 (z : Z) : Z := wrap_s 32 z.
Definition uint32 (z : Z) : Z := z `mod` 2 ^ 32.

Definition in_int64 (z : Z) : bool := (- 2 ^ 63 <=? z)%Z && (z <? 2 ^ 63)%Z.
Definition in_int32 (z : Z) : bool := (- 2 ^ 31 <=? z)%Z && (z <? 2 ^ 31)%Z.

(** Go's [/] on integers truncates towards zero. *)
Definition quot64 (a b : Z) : Z := int64 (Z.quot a b).
Definition mul64 (a b : Z) : Z := int64 (a * b).
Definition add64 (a b : Z) : Z := int64 (a + b).
Definition sub64 (a b : Z) : Z := int64 (a - b).

(** ** Errors *)

(** The package-level error values that are compared by identity. *)
Variant sentinel :=
  | ErrJSONNoSpaceLeft | ErrJSONNoSuchDevice | ErrInvalidParameters
  | ErrVolumeDeleted | ErrVolumePublished | ErrVolumeUnpublished
  | ErrNotExist | ErrDeadlineExceeded.

(** gRPC status codes the driver uses. *)
Variant code := Internal | Unimplemented | InvalidArgument | Unavailable.

(** - [ESentinel]: a package-level [errors.New] value;
    - [ENew]: an error made on the spot ([fmt.Errorf] without [%w], or a
      library error that is only printed);
    - [EWrap p e]: [fmt.Errorf("p%w", e)];
    - [ESys]: an operating-system error, with the answer of [os.IsNotExist];
    - [EStatus]: [status.Error]. *)
Inductive goerror :=
  | ESentinel (s : sentinel)
  | ENew (msg : string)
  | EWrap (prefix : string) (e : goerror)
  | ESys (notexist : bool) (msg : string)
  | EStatus (c : code) (msg : string).

#[export] Instance sentinel_eq_dec : EqDecision sentinel.
Proof. solve_decision. Defined.
#[export] Instance code_eq_dec : EqDecision code.
Proof. solve_decision. Defined.
#[export] Instance goerror_eq_dec : EqDecision goerror.
Proof. solve_decision. Defined.

Definition sentinel_string (s : sentinel) : string :=
  match s with
  | ErrJSONNoSpaceLeft => "json: No space left"
  | ErrJSONNoSuchDevice => "json: No such device"
  | ErrInvalidParameters => "json: Invalid parameters"
  | ErrVolumeDeleted => "volume deleted"
  | ErrVolumePublished => "volume already published"
  | ErrVolumeUnpublished => "volume not published"
  | ErrNotExist => "file does not exist"
  | ErrDeadlineExceeded => "i/o timeout"
  end.

Definition code_string (c : code) : string :=
  match c with
  | Internal => "Internal"
  | Unimplemented => "Unimplemented"
  | InvalidArgument => "InvalidArgument"
  | Unavailable => "Unavailable"
  end.

(** [err.Error()] *)
Fixpoint error_string (e : goerror) : string :=
  match e with
  | ESentinel s => sentinel_string s
  | ENew m => m
  | EWrap p e' => p +:+ error_string e'
  | ESys _ m => m
  | EStatus c m => "rpc error: code = " +:+ code_string c +:+ " desc = " +:+ m
  end.

(** [errors.Is(err, s)] for a non-nil [err]: follows the [%w] chain. *)
Fixpoint errors_Is (e : goerror) (s : sentinel) : bool :=
  match e with
  | ESentinel s' => bool_decide (s' = s)
  | EWrap _ e' => errors_Is e' s
  | _ => false
  end.

(** [errors.Is] on a possibly nil error. *)
Definition errors_Is_opt (e : option goerror) (s : sentinel) : bool :=
  match e with Some e => errors_Is e s | None => false end.

(** [os.IsNotExist]: does not look through [%w]. *)
Definition IsNotExist (e : goerror) : bool :=
  match e with
  | ESys b _ => b
  | ESentinel ErrNotExist => true
  | _ => false
  end.

(** A Go result [(A, error)] whose value is not used when the error is set. *)
Abbreviation gores A := (sum goerror A).

(** What the run-time says when a nil pointer is used. *)
Definition nil_dereference : string := "invalid memory address or nil pointer dereference".

(** ** Strings *)

Definition lower_char (a : ascii) : ascii :=
  let n := N_of_ascii a in
  if (65 <=? n)%N && (n <=? 90)%N then ascii_of_N (n + 32) else a.

(** [strings.ToLower] *)
Fixpoint ToLower (s : string) : string :=
  match s with
  | EmptyString => EmptyString
  | String a s' => String (lower_char a) (ToLower s')
  end.

(** [strings.HasPrefix s p] *)
Fixpoint HasPrefix (s p : string) : bool :=
  match p, s with
  | EmptyString, _ => true
  | String a p', String b s' => bool_decide (a = b) && HasPrefix s' p'
  | String _ _, EmptyString => false
  end.

(** [strings.Contains s sub] *)
Fixpoint Contains (s sub : string) : bool :=
  HasPrefix s sub ||
  match s with
  | EmptyString => false
  | String _ s' => Contains s' sub
  end.

Fixpoint drop_prefix (p s : string) : string :=
  match p, s with
  | String _ p', String _ s' => drop_prefix p' s'
  | _, _ => s
  end.

(** [strings.TrimPrefix s p] *)
Definition TrimPrefix (s p : string) : string :=
  if HasPrefix s p then drop_prefix p s else s.

Definition is_space (a : ascii) : bool :=
  let n := N_of_ascii a in ((9 <=? n)%N && (n <=? 13)%N) || (n =? 32)%N.

Fixpoint trim_left (s : string) : string :=
  match s with
  | String a s' => if is_space a then trim_left s' else s
  | EmptyString => EmptyString
  end.

Fixpoint trim_right (s : string) : string :=
  match s with
  | EmptyString => EmptyString
  | String a s' =>
      match trim_right s' with
      | EmptyString => if is_space a then EmptyString else String a EmptyString
      | t => String a t
      end
  end.

(** [strings.TrimSpace] *)
Definition TrimSpace (s : string) : string := trim_right (trim_left s).

(** [strings.Split s sep] for a separator of one byte: never empty. *)
Fixpoint Split (sep : ascii) (s : string) : list string :=
  match s with
  | EmptyString => [EmptyString]
  | String a s' =>
      if bool_decide (a = sep) then EmptyString :: Split sep s'
      else match Split sep s' with
           | [] => [String a EmptyString]
           | p :: ps => String a p :: ps
           end
  end.

(** [true] when the byte [c] does not occur in [s]. *)
Fixpoint no_char (c : ascii) (s : string) : bool :=
  match s with
  | EmptyString => true
  | String a s' => negb (bool_decide (a = c)) && no_char c s'
  end.

(** ** strconv *)

(** [strconv.FormatInt z 10], and [%d]. *)
Definition FormatInt (z : Z) : string := NilZero.string_of_int (Z.to_int z).

Definition is_plus (a : ascii) : bool := (N_of_ascii a =? 43)%N.

(** The syntax [strconv.ParseInt s 10 _] accepts: an optional sign and digits. *)
Definition parse_Z (s : string) : option Z :=
  match s with
  | String a s' =>
      if is_plus a then (λ u, Z.of_int (Decimal.Pos u)) <$> NilZero.uint_of_string s'
      else Z.of_int <$> NilZero.int_of_string s
  | EmptyString => None
  end.

Definition quote : string := String (ascii_of_N 34) EmptyString.

(** [%q] on the strings the driver prints. *)
Definition quoted (s : string) : string := quote +:+ s +:+ quote.

(** [strconv.ParseInt s 10 64] *)
Definition ParseInt (s : string) : gores Z :=
  match parse_Z s with
  | None => inl (ENew ("strconv.ParseInt: parsing " +:+ quoted s +:+ ": invalid syntax"))
  | Some z =>
      if in_int64 z then inr z
      else inl (ENew ("strconv.ParseInt: parsing " +:+ quoted s +:+ ": value out of range"))
  end.

(** ** Lemmas *)

Lemma wrap_s_small w z : (0 < w)%Z → (- 2 ^ (w - 1) ≤ z < 2 ^ (w - 1))%Z → wrap_s w z = z.
Proof.
  intros Hw Hz. unfold wrap_s.
  assert (2 ^ w = 2 * 2 ^ (w - 1))%Z as Hp.
  { rewrite <- Z.pow_succ_r by lia. f_equal. lia. }
  rewrite Z.mod_small; lia.
Qed.

Lemma int64_small z : (- 2 ^ 63 ≤ z < 2 ^ 63)%Z → int64 z = z.
Proof. intros. apply wrap_s_small; [lia|done]. Qed.

Lemma int32_small z : (- 2 ^ 31 ≤ z < 2 ^ 31)%Z → int32 z = z.
Proof. intros. apply wrap_s_small; [lia|done]. Qed.

Lemma wrap_s_range w z : (0 < w)%Z → (- 2 ^ (w - 1) ≤ wrap_s w z < 2 ^ (w - 1))%Z.
Proof.
  intros Hw. unfold wrap_s.
  assert (2 ^ w = 2 * 2 ^ (w - 1))%Z as Hp.
  { rewrite <- Z.pow_succ_r by lia. f_equal. lia. }
  assert (0 < 2 ^ (w - 1))%Z by (apply Z.pow_pos_nonneg; lia).
  pose proof (Z.mod_pos_bound (z + 2 ^ (w - 1)) (2 ^ w)). lia.
Qed.

Lemma int64_range z : (- 2 ^ 63 ≤ int64 z < 2 ^ 63)%Z.
Proof. by apply (wrap_s_range 64). Qed.

Lemma int32_range z : (- 2 ^ 31 ≤ int32 z < 2 ^ 31)%Z.
Proof. by apply (wrap_s_range 32). Qed.

Lemma in_int64_spec z : in_int64 z = true ↔ (- 2 ^ 63 ≤ z < 2 ^ 63)%Z.
Proof. unfold in_int64. rewrite andb_true_iff, Z.leb_le, Z.ltb_lt. done. Qed.

Lemma in_int32_spec z : in_int32 z = true ↔ (- 2 ^ 31 ≤ z < 2 ^ 31)%Z.
Proof. unfold in_int32. rewrite andb_true_iff, Z.leb_le, Z.ltb_lt. done. Qed.

Lemma to_int_nonnil z : Z.to_int z ≠ Decimal.Pos Decimal.Nil ∧ Z.to_int z ≠ Decimal.Neg Decimal.Nil.
Proof.
  destruct z as [|p|p]; simpl; [done|..];
    pose proof (DecimalPos.Unsigned.to_uint_nonnil p); split; congruence.
Qed.

Lemma FormatInt_first z a s : FormatInt z = String a s → is_plus a = false.
Proof.
  unfold FormatInt. destruct (Z.to_int z) as [u|u]; [destruct u|]; simpl;
    intros H; injection H; intros; by subst.
Qed.

(** [strconv] reads back what it prints. *)
Lemma parse_Z_FormatInt z : parse_Z (FormatInt z) = Some z.
Proof.
  destruct (to_int_nonnil z) as [H1 H2].
  assert (NilZero.int_of_string (FormatInt z) = Some (Z.to_int z)) as Hi
    by (by apply NilZero.isi).
  unfold parse_Z. destruct (FormatInt z) as [|a s] eqn:Hf; [done|].
  rewrite (FormatInt_first z a s Hf), Hi. simpl. by rewrite DecimalZ.of_to.
Qed.

Lemma ParseInt_FormatInt z : in_int64 z = true → ParseInt (FormatInt z) = inr z.
Proof. intros H. unfold ParseInt. by rewrite parse_Z_FormatInt, H. Qed.

Lemma Split_no_char sep s : no_char sep s = true → Split sep s = [s].
Proof.
  induction s as [|a s IH]; simpl; [done|].
  rewrite andb_true_iff, negb_true_iff. intros [Ha Hs].
  by rewrite Ha, (IH Hs).
Qed.

Lemma Split_app sep a b :
  no_char sep a = true → Split sep (a +:+ String sep b) = a :: Split sep b.
Proof.
  induction a as [|c a IH]; simpl.
  - intros _. by rewrite bool_decide_true by done.
  - rewrite andb_true_iff, negb_true_iff. intros [Hc Ha].
    by rewrite Hc, (IH Ha).
Qed.

Lemma Split_cons sep s : ∃ p ps, Split sep s = p :: ps.
Proof. destruct s; simpl; repeat case_match; eauto. Qed.

Lemma Split_one sep s b : Split sep s = [b] → s = b ∧ no_char sep b = true.
Proof.
  revert b. induction s as [|c s IH]; simpl; intros b; [by intros [= <-]|].
  destruct (Split_cons sep s) as (p & ps & Hs). rewrite Hs in *.
  case_bool_decide as Hc; intros [= <- ?]; subst ps.
  destruct (IH p eq_refl) as [-> Hp]. simpl. by rewrite bool_decide_false, Hp.
Qed.

(** Two parts: the separator occurs exactly once. *)
Lemma Split_two sep s a b :
  Split sep s = [a; b] ↔
  s = a +:+ String sep b ∧ no_char sep a = true ∧ no_char sep b = true.
Proof.
  split; [|by intros (-> & Ha & Hb); rewrite Split_app, (Split_no_char sep b)].
  revert a. induction s as [|c s IH]; simpl; intros a; [done|].
  destruct (Split_cons sep s) as (p & ps & Hs). rewrite Hs in *.
  case_bool_decide as Hc; intros [= <- Hps].
  - subst c ps. rewrite Hps in Hs. by apply Split_one in Hs as [-> ?].
  - subst ps. destruct (IH p eq_refl) as (-> & Hp & Hb). simpl.
    by rewrite bool_decide_false, Hp.
Qed.

#[export] Hint Resolve parse_Z_FormatInt : spdk.
#[export] Hint Rewrite parse_Z_FormatInt : spdk.
