(* ===== verification/GoJson.v ===== *)
(** JSON as the driver uses [encoding/json]: the value tree, the encoders of Go
    values and the decoding of a tree into a typed Go value.

    Decoding follows [json.Unmarshal]: it starts from the current content of the
    destination, unknown members are skipped, member names match exactly or else
    up to (ASCII) case, [null] leaves scalars and structs alone, and a member of
    the wrong type is recorded as an error while decoding goes on. *)

From S2P Require Import Prelude.
From S2P Require Import GoLang.

(** Numbers keep the literal's text, as the decoder of integers sees it. *)
Inductive json :=
  | JNull
  | JBool (b : bool)
  | JNum (lit : string)
  | JStr (s : string)
  | JArr (js : list json)
  | JObj (kvs : list (string * json)).

(** ** Encoders *)

Definition jint (z : Z) : json := JNum (FormatInt z).

(** ** Decoders *)

(** The new value of the destination, and whether no member had the wrong type. *)
Definition decoder (A : Type) : Type := json → A → A * bool.

Definition dec_any {A} : decoder A := λ _ a, (a, true).

Definition dec_string : decoder string := λ j a,
  match j with JStr s => (s, true) | JNull => (a, true) | _ => (a, false) end.

Definition dec_bool : decoder bool := λ j a,
  match j with JBool b => (b, true) | JNull => (a, true) | _ => (a, false) end.

(** Integers: the literal must be an integer in the range of the Go type. *)
Definition dec_int (in_range : Z → bool) : decoder Z := λ j a,
  match j with
  | JNum lit =>
      match parse_Z lit with
      | Some z => if in_range z then (z, true) else (a, false)
      | None => (a, false)
      end
  | JNull => (a, true)
  | _ => (a, false)
  end.
Definition dec_int64 : decoder Z := dec_int in_int64.
Definition dec_int32 : decoder Z := dec_int in_int32.

(** A field of a struct, seen through its projection and its update. *)
Definition dec_field {A B} (get : A → B) (set : B → A → A) (d : decoder B) : decoder A :=
  λ j a, let '(b, ok) := d j (get a) in (set b a, ok).

Definition fold_eq (a b : string) : bool := bool_decide (ToLower a = ToLower b).

Definition pick_field {A} (fs : list (string * decoder A)) (k : string) : option (decoder A) :=
  match find_first (λ f, bool_decide (f.1 = k)) fs with
  | Some f => Some f.2
  | None => snd <$> find_first (λ f, fold_eq f.1 k) fs
  end.

Fixpoint dec_members {A} (fs : list (string * decoder A)) (kvs : list (string * json)) (a : A)
    : A * bool :=
  match kvs with
  | [] => (a, true)
  | (k, j) :: kvs' =>
      let '(a1, ok1) := match pick_field fs k with Some d => d j a | None => (a, true) end in
      let '(a2, ok2) := dec_members fs kvs' a1 in
      (a2, ok1 && ok2)
  end.

Definition dec_struct {A} (fs : list (string * decoder A)) : decoder A := λ j a,
  match j with
  | JObj kvs => dec_members fs kvs a
  | JNull => (a, true)
  | _ => (a, false)
  end.

(** Slices: elements are decoded into zero values; [null] gives the nil slice. *)
Fixpoint dec_elems {A} (zero : A) (d : decoder A) (js : list json) : list A * bool :=
  match js with
  | [] => ([], true)
  | j :: js' =>
      let '(x, ok1) := d j zero in
      let '(xs, ok2) := dec_elems zero d js' in
      (x :: xs, ok1 && ok2)
  end.

Definition dec_slice {A} (zero : A) (d : decoder A) : decoder (list A) := λ j a,
  match j with
  | JArr js => dec_elems zero d js
  | JNull => ([], true)
  | _ => (a, false)
  end.

(** Pointers: [null] gives nil, anything else is decoded into the pointee. *)
Definition dec_ptr {A} (zero : A) (d : decoder A) : decoder (option A) := λ j a,
  match j with
  | JNull => (None, true)
  | _ => let '(x, ok) := d j (default zero a) in (Some x, ok)
  end.

(** An [interface{}] that holds a pointer to the destination: [null] replaces the
    pointer and leaves the destination alone. *)
Definition dec_iface {A} (d : decoder A) : decoder A := λ j a,
  match j with JNull => (a, true) | _ => d j a end.
