(* ===== verification/JsonText.v ===== *)
(** The text of JSON: [json.Marshal] of a value tree and the syntax
    [json.Unmarshal] accepts.

    Strings are escaped as Go does it (including the HTML characters).  The two
    functions copy bytes from 128 up; Go does too when they form valid UTF-8 other
    than U+2028 and U+2029, so the theorems keep to ASCII text. *)

From Stdlib Require Import Ascii DecimalString.
From S2P Require Import Prelude.
From S2P Require Import GoLang.
From S2P Require Import GoJson.

(** ** Printing *)

Definition chr (n : N) : ascii := ascii_of_N n.
Definition one (n : N) : string := String (chr n) EmptyString.

Definition hex_digit (n : N) : ascii := if (n <? 10)%N then chr (48 + n) else chr (87 + n).

(** The escaped form of one byte inside a string. *)
Definition escape_byte (a : ascii) : string :=
  let n := N_of_ascii a in
  if (n =? 34)%N || (n =? 92)%N then String (chr 92) (String a EmptyString)
  else if (n =? 10)%N then "\n"
  else if (n =? 13)%N then "\r"
  else if (n =? 9)%N then "\t"
  else if (n <? 32)%N || (n =? 60)%N || (n =? 62)%N || (n =? 38)%N
  then "\u00" +:+ String (hex_digit (n / 16)) (String (hex_digit (n `mod` 16)) EmptyString)
  else String a EmptyString.

Fixpoint escape (s : string) : string :=
  match s with
  | EmptyString => EmptyString
  | String a s' => escape_byte a +:+ escape s'
  end.

Definition print_string (s : string) : string := one 34 +:+ escape s +:+ one 34.

Fixpoint join (sep : string) (l : list string) : string :=
  match l with
  | [] => ""
  | [x] => x
  | x :: l' => x +:+ sep +:+ join sep l'
  end.

Fixpoint print (j : json) : string :=
  match j with
  | JNull => "null"
  | JBool true => "true"
  | JBool false => "false"
  | JNum lit => lit
  | JStr s => print_string s
  | JArr js => "[" +:+ join "," (print <$> js) +:+ "]"
  | JObj kvs => "{" +:+ join "," ((λ '(k, j), print_string k +:+ ":" +:+ print j) <$> kvs) +:+ "}"
  end.

(** ** Parsing *)

Definition is_ws (a : ascii) : bool :=
  let n := N_of_ascii a in (n =? 32)%N || (n =? 9)%N || (n =? 10)%N || (n =? 13)%N.

Fixpoint skip_ws (s : string) : string :=
  match s with
  | String a s' => if is_ws a then skip_ws s' else s
  | EmptyString => EmptyString
  end.

Definition hex_val (a : ascii) : option N :=
  let n := N_of_ascii a in
  if (48 <=? n)%N && (n <=? 57)%N then Some (n - 48)%N
  else if (97 <=? n)%N && (n <=? 102)%N then Some (n - 87)%N
  else if (65 <=? n)%N && (n <=? 70)%N then Some (n - 55)%N
  else None.

Definition hex4 (a b c d : ascii) : option N :=
  a ← hex_val a; b ← hex_val b; c ← hex_val c; d ← hex_val d;
  Some (a * 4096 + b * 256 + c * 16 + d)%N.

(** The UTF-8 form of a code point. *)
Definition utf8 (n : N) : string :=
  if (n <? 128)%N then one n
  else if (n <? 2048)%N then one (192 + n / 64) +:+ one (128 + n `mod` 64)
  else if (n <? 65536)%N then
    one (224 + n / 4096) +:+ one (128 + n / 64 `mod` 64) +:+ one (128 + n `mod` 64)
  else one (240 + n / 262144) +:+ one (128 + n / 4096 `mod` 64)
       +:+ one (128 + n / 64 `mod` 64) +:+ one (128 + n `mod` 64).

Definition is_high (n : N) : bool := (55296 <=? n)%N && (n <=? 56319)%N.
Definition is_low (n : N) : bool := (56320 <=? n)%N && (n <=? 57343)%N.

Definition prepend (p : string) (r : option (string * string)) : option (string * string) :=
  '(s, rest) ← r; Some (p +:+ s, rest).

(** The rest of a string after its opening quote: the value and what follows the
    closing quote.  A surrogate without its partner becomes U+FFFD. *)
Fixpoint unquote (s : string) : option (string * string) :=
  match s with
  | EmptyString => None
  | String a s1 =>
    let n := N_of_ascii a in
    if (n =? 34)%N then Some (EmptyString, s1)
    else if (n =? 92)%N then
      match s1 with
      | EmptyString => None
      | String e s2 =>
        let m := N_of_ascii e in
        if (m =? 34)%N || (m =? 92)%N || (m =? 47)%N then prepend (one m) (unquote s2)
        else if (m =? 98)%N then prepend (one 8) (unquote s2)
        else if (m =? 102)%N then prepend (one 12) (unquote s2)
        else if (m =? 110)%N then prepend (one 10) (unquote s2)
        else if (m =? 114)%N then prepend (one 13) (unquote s2)
        else if (m =? 116)%N then prepend (one 9) (unquote s2)
        else if (m =? 117)%N then
          match s2 with
          | String h1 (String h2 (String h3 (String h4 s3))) =>
            match hex4 h1 h2 h3 h4 with
            | None => None
            | Some cp =>
              if is_high cp then
                match s3 with
                | String b (String u (String l1 (String l2 (String l3 (String l4 s4))))) =>
                  if (N_of_ascii b =? 92)%N && (N_of_ascii u =? 117)%N then
                    match hex4 l1 l2 l3 l4 with
                    | Some lo =>
                        if is_low lo
                        then prepend (utf8 (65536 + (cp - 55296) * 1024 + (lo - 56320))) (unquote s4)
                        else prepend (utf8 65533) (unquote s3)
                    | None => prepend (utf8 65533) (unquote s3)
                    end
                  else prepend (utf8 65533) (unquote s3)
                | _ => prepend (utf8 65533) (unquote s3)
                end
              else if is_low cp then prepend (utf8 65533) (unquote s3)
              else prepend (utf8 cp) (unquote s3)
            end
          | _ => None
          end
        else None
      end
    else if (n <? 32)%N then None
    else prepend (String a EmptyString) (unquote s1)
  end.

Definition is_digit (a : ascii) : bool :=
  let n := N_of_ascii a in (48 <=? n)%N && (n <=? 57)%N.

(** The longest prefix of digits, and the rest. *)
Fixpoint digits (s : string) : string * string :=
  match s with
  | String a s' =>
      if is_digit a then let '(d, rest) := digits s' in (String a d, rest) else (EmptyString, s)
  | EmptyString => (EmptyString, EmptyString)
  end.

Definition starts (n : N) (s : string) : bool :=
  match s with String a _ => (N_of_ascii a =? n)%N | EmptyString => false end.
Definition tail (s : string) : string :=
  match s with String _ s' => s' | EmptyString => EmptyString end.
Definition nonempty (s : string) : bool :=
  match s with EmptyString => false | _ => true end.

(** [-? (0 | [1-9][0-9]* ) (. [0-9]+)? ([eE] [+-]? [0-9]+)?] *)
Definition scan_number (s : string) : option (string * string) :=
  let '(sign, s1) := if starts 45 s then ("-", tail s) else ("", s) in
  let '(ip, s2) := if starts 48 s1 then ("0", tail s1) else digits s1 in
  if negb (nonempty ip) then None else
  let '(okf, fp, s3) :=
    if starts 46 s2 then let '(d, r) := digits (tail s2) in (nonempty d, "." +:+ d, r)
    else (true, "", s2) in
  if negb okf then None else
  let '(oke, ep, s4) :=
    if starts 101 s3 || starts 69 s3 then
      let e := match s3 with String a _ => String a EmptyString | EmptyString => "" end in
      let r := tail s3 in
      let '(sg, r1) := if starts 43 r then ("+", tail r) else if starts 45 r then ("-", tail r) else ("", r) in
      let '(d, r2) := digits r1 in (nonempty d, e +:+ sg +:+ d, r2)
    else (true, "", s3) in
  if negb oke then None else
  Some (sign +:+ ip +:+ fp +:+ ep, s4).

Definition keyword (kw : string) (v : json) (s : string) : option (json * string) :=
  if HasPrefix s kw then Some (v, drop_prefix kw s) else None.

Fixpoint parse_value (fuel : nat) (s : string) : option (json * string) :=
  match fuel with
  | O => None
  | S fuel =>
    let s := skip_ws s in
    match s with
    | EmptyString => None
    | String a s1 =>
      let n := N_of_ascii a in
      if (n =? 34)%N then '(v, r) ← unquote s1; Some (JStr v, r)
      else if (n =? 91)%N then
        let s2 := skip_ws s1 in
        if starts 93 s2 then Some (JArr [], tail s2)
        else '(js, r) ← parse_elems fuel s1; Some (JArr js, r)
      else if (n =? 123)%N then
        let s2 := skip_ws s1 in
        if starts 125 s2 then Some (JObj [], tail s2)
        else '(kvs, r) ← parse_members fuel s1; Some (JObj kvs, r)
      else if (n =? 110)%N then keyword "null" JNull s
      else if (n =? 116)%N then keyword "true" (JBool true) s
      else if (n =? 102)%N then keyword "false" (JBool false) s
      else '(lit, r) ← scan_number s; Some (JNum lit, r)
    end
  end
with parse_elems (fuel : nat) (s : string) : option (list json * string) :=
  match fuel with
  | O => None
  | S fuel =>
    '(j, r) ← parse_value fuel s;
    let r := skip_ws r in
    if starts 44 r then '(js, r') ← parse_elems fuel (tail r); Some (j :: js, r')
    else if starts 93 r then Some ([j], tail r)
    else None
  end
with parse_members (fuel : nat) (s : string) : option (list (string * json) * string) :=
  match fuel with
  | O => None
  | S fuel =>
    let s := skip_ws s in
    if negb (starts 34 s) then None else
    '(k, r) ← unquote (tail s);
    let r := skip_ws r in
    if negb (starts 58 r) then None else
    '(j, r) ← parse_value fuel (tail r);
    let r := skip_ws r in
    if starts 44 r then '(kvs, r') ← parse_members fuel (tail r); Some ((k, j) :: kvs, r')
    else if starts 125 r then Some ([(k, j)], tail r)
    else None
  end.

(** Enough fuel for any text: a call consumes a byte or is the first on its value. *)
Definition parse_fuel (s : string) : nat := S (2 * String.length s).

(** [json.Unmarshal]'s syntax: one value, with white space around it. *)
Definition parse (s : string) : option json :=
  '(j, r) ← parse_value (parse_fuel s) s;
  if nonempty (skip_ws r) then None else Some j.
