(* ===== verification/JsonSpec.v ===== *)
(** What the JSON text functions promise: a flat object of ASCII strings, as the stash
    files hold, is read back as it was printed. *)

From Stdlib Require Import Ascii.
From S2P Require Import Prelude.
From S2P Require Import GoLang.
From S2P Require Import GoJson.
From S2P Require Import JsonText.

(** ** Strings *)

(** One escaped byte is read back. *)
Lemma unquote_escape_byte a s :
  unquote (escape_byte a +:+ s) = prepend (String a EmptyString) (unquote s).
Proof. destruct a as [[] [] [] [] [] [] [] []]; reflexivity. Qed.

Lemma prepend_Some p s rest : prepend p (Some (s, rest)) = Some (p +:+ s, rest).
Proof. done. Qed.

Lemma unquote_escape s rest :
  unquote (escape s +:+ one 34 +:+ rest) = Some (s, rest).
Proof.
  induction s as [|a s IH]; [done|]. cbn [escape].
  rewrite append_assoc_s, unquote_escape_byte, IH. by rewrite prepend_Some.
Qed.

(** ** Flat objects *)

Definition member (kv : string * string) : string :=
  print_string kv.1 +:+ ":" +:+ print_string kv.2.
Definition string_member (kv : string * string) : string * json := (kv.1, JStr kv.2).

Lemma print_object kvs :
  print (JObj (string_member <$> kvs)) = "{" +:+ join "," (member <$> kvs) +:+ "}".
Proof. cbn [print]. f_equal. f_equal. f_equal. rewrite <-list_fmap_compose. apply list_fmap_ext. by intros i []. Qed.

Lemma parse_value_quote fuel s v r :
  unquote s = Some (v, r) → parse_value (S fuel) (String (chr 34) s) = Some (JStr v, r).
Proof.
  intros H. transitivity ('(v, r) ← unquote s; Some (JStr v, r)); [reflexivity|by rewrite H].
Qed.

Lemma print_string_app v rest :
  print_string v +:+ rest = String (chr 34) (escape v +:+ one 34 +:+ rest).
Proof. unfold print_string. by rewrite !append_assoc_s. Qed.

(** A printed string is read as a value. *)
Lemma parse_value_string fuel v rest :
  parse_value (S fuel) (print_string v +:+ rest) = Some (JStr v, rest).
Proof. rewrite print_string_app. apply parse_value_quote, unquote_escape. Qed.

Lemma join_cons sep x l : l ≠ [] → join sep (x :: l) = x +:+ sep +:+ join sep l.
Proof. by destruct l. Qed.

(** One member, and what follows it. *)
Lemma parse_members_step fuel s k s1 v s2 :
  unquote s = Some (k, String (chr 58) s1) →
  parse_value fuel s1 = Some (v, s2) →
  parse_members (S fuel) (String (chr 34) s) =
    (let r := skip_ws s2 in
     if starts 44 r then '(kvs, r') ← parse_members fuel (tail r); Some ((k, v) :: kvs, r')
     else if starts 125 r then Some ([(k, v)], tail r)
     else None).
Proof.
  intros Hk Hv.
  transitivity ('(k, r) ← unquote s;
    let r := skip_ws r in
    if negb (starts 58 r) then None else
    '(j, r) ← parse_value fuel (tail r);
    let r := skip_ws r in
    if starts 44 r then '(kvs, r') ← parse_members fuel (tail r); Some ((k, j) :: kvs, r')
    else if starts 125 r then Some ([(k, j)], tail r)
    else None); [reflexivity|].
  rewrite Hk. cbn [mbind option_bind].
  change (skip_ws (String (chr 58) s1)) with (String (chr 58) s1).
  change (starts 58 (String (chr 58) s1)) with true. cbn [negb tail]. by rewrite Hv.
Qed.

Lemma member_app kv r :
  member kv +:+ r =
  String (chr 34) (escape kv.1 +:+ one 34 +:+ String (chr 58) (print_string kv.2 +:+ r)).
Proof. unfold member. by rewrite append_assoc_s, print_string_app, append_assoc_s. Qed.

Lemma parse_members_print kvs fuel rest :
  kvs ≠ [] → length kvs < fuel →
  parse_members fuel (join "," (member <$> kvs) +:+ "}" +:+ rest) =
    Some (string_member <$> kvs, rest).
Proof.
  revert fuel. induction kvs as [|[k v] kvs IH]; intros [|[|fuel]] Hne Hf; simpl in Hf;
    try done; try lia.
  assert (∀ r, parse_members (S (S fuel)) (member (k, v) +:+ r) =
    (let r := skip_ws r in
     if starts 44 r then '(kvs, r') ← parse_members (S fuel) (tail r); Some ((k, JStr v) :: kvs, r')
     else if starts 125 r then Some ([(k, JStr v)], tail r)
     else None)) as Hm.
  { intros r. rewrite member_app. eapply parse_members_step; [apply unquote_escape|].
    apply parse_value_string. }
  destruct (decide (kvs = [])) as [->|Hkvs].
  - cbn [fmap list_fmap join]. rewrite Hm. reflexivity.
  - rewrite fmap_cons, join_cons, !append_assoc_s, Hm by (by destruct kvs).
    change (skip_ws ("," +:+ ?x)) with (String "," x).
    cbn -[parse_members join]. rewrite IH by (done || lia). reflexivity.
Qed.

Lemma length_append a b : String.length (a +:+ b) = String.length a + String.length b.
Proof. induction a as [|x a IH]; simpl; [done|]. unfold String.append in *. simpl. by rewrite IH. Qed.

Lemma length_join kvs : length kvs ≤ String.length (join "," (member <$> kvs)).
Proof.
  assert (∀ kv, 1 ≤ String.length (member kv)) as H1.
  { intros kv. unfold member, print_string. rewrite !length_append. simpl. lia. }
  induction kvs as [|kv kvs IH]; [done|]. destruct kvs as [|kv' kvs]; [apply H1|].
  rewrite fmap_cons, join_cons by done. rewrite !length_append. specialize (H1 kv).
  cbn [length] in *. lia.
Qed.

Lemma parse_value_object fuel s kvs r :
  starts 125 (skip_ws s) = false → parse_members fuel s = Some (kvs, r) →
  parse_value (S fuel) (String (chr 123) s) = Some (JObj kvs, r).
Proof.
  intros Hs H.
  transitivity (if starts 125 (skip_ws s) then Some (JObj [], tail (skip_ws s))
                else '(kvs, r) ← parse_members fuel s; Some (JObj kvs, r)); [reflexivity|].
  by rewrite Hs, H.
Qed.

Lemma print_object_text kv kvs :
  starts 125 (skip_ws (join "," (member <$> kv :: kvs) +:+ "}")) = false.
Proof.
  destruct kvs as [|kv' kvs].
  - cbn [fmap list_fmap join]. rewrite member_app. reflexivity.
  - rewrite fmap_cons, join_cons, append_assoc_s, member_app by done. reflexivity.
Qed.

(** Flat objects are read back as they were printed. *)
Lemma parse_print_object kvs :
  parse (print (JObj (string_member <$> kvs))) = Some (JObj (string_member <$> kvs)).
Proof.
  rewrite print_object. unfold parse, parse_fuel.
  destruct kvs as [|kv kvs]; [reflexivity|].
  change ("{" +:+ ?x) with (String (chr 123) x).
  erewrite parse_value_object; [|apply print_object_text|].
  2:{ apply (parse_members_print _ _ EmptyString); [done|].
      cbn [String.length]. rewrite length_append. pose proof (length_join (kv :: kvs)). lia. }
  reflexivity.
Qed.
