(* ===== verification/World.v ===== *)
(** The driver's interaction with everything outside its own code, and the
    program logic the components share.

    A Go function with effects is a [proc]: a finite tree of operations ([op])
    on the outside world, each continued by the answer ([reply]).  Methods that
    mutate the fields of an object are [st S] functions: they take and return the
    object's state.  [wp] gives the meaning of a tree over any relation that says
    how the world answers; the laws of a service are hypotheses on that relation. *)

From S2P Require Import Prelude.
From S2P Require Import GoLang.
From S2P Require Import GoJson.

(** ** Operations of the outside world *)

(** The answer of [http.Client.Do] (with the request built by [NewRequest]) and of
    the JSON decoder on the body: no response; or a status and either a syntax
    error or the first JSON value of the body. *)
Variant http_reply :=
  | HttpFail (msg : string)
  | HttpResp (status : Z) (body : string + json).

(** Requests to the storage management agent of an xPU. *)
Record nvmf_params := mkNvmfParams {
  np_hostnqn : string;
  np_trtype : string;
  np_traddr : string;
  np_trsvcid : string
}.

Variant sma_device :=
  | DeviceNvmfTcp (subnqn adrfam traddr trsvcid : string) (allow_any_host : bool)
  | DeviceNvme (physical_id virtual_id : Z)
  | DeviceVirtioBlk (physical_id virtual_id : Z).

Variant sma_request :=
  | SmaCreateDevice (volume : option (option string * nvmf_params)) (params : sma_device)
  | SmaAttachVolume (volume_id : option string) (params : nvmf_params) (handle : string)
  | SmaDetachVolume (volume_id : option string) (handle : string)
  | SmaDeleteDevice (handle : string).

(** A gRPC answer of the agent: an error, a nil response, or a response with the
    device handle (empty for the calls that have none). *)
Variant sma_reply := SmaErr (msg : string) | SmaNil | SmaOk (handle : string).

(** Requests to the OPI bridge of an xPU. *)
Variant opi_kind :=
  | OpiRemoteController | OpiPath | OpiSubsystem | OpiController | OpiNamespace | OpiVirtioBlk.

Variant opi_request :=
  | OpiCreateRemoteController (id : string)
  | OpiCreatePath (id traddr : string) (trsvcid : Z) (subnqn hostnqn controller : string)
  | OpiCreateSubsystem (id nqn : string)
  | OpiCreateController (id subsystem : string) (physical virtual : Z)
  | OpiCreateNamespace (id subsystem : string) (host_nsid : Z) (volume : string)
  | OpiCreateVirtioBlk (id : string) (physical virtual : Z) (volume : string)
  | OpiDelete (kind : opi_kind) (name : string) (allow_missing : bool).

(** The answer of a file-system call. *)
Abbreviation sysres A := (sum (bool * string) A).

Variant op :=
  (* net/http *)
  | HttpDo (url user pass : string) (body : json)
  (* the order in which [range] visits a map *)
  | MapRange (keys : list string)
  | TimeNow
  | Sleep (seconds : Z)
  | Getenv (name : string)
  (* sync.Mutex, sync.Map *)
  | NewMutex
  | MapLoadOrStore (vl : nat) (key : string) (m : nat)
  | MutexLock (m : nat)
  | MutexUnlock (m : nat)
  (* crypto/rand, github.com/google/uuid *)
  | RandInt (max : Z)
  | UuidParse (s : string)
  (* net, google.golang.org/grpc: the driver's own server *)
  | NetListen (proto addr : string)
  | GrpcServe (proto addr : string)
  | GrpcStop (graceful : bool)
  (* the xPU's services *)
  | GrpcDial (addr : string)
  | SmaCall (req : sma_request)
  | OpiCall (req : opi_request)
  (* os, path/filepath *)
  | OsReadFile (path : string)
  | OsWriteFile (path content : string)
  | OsAppendFile (path content : string)
  | OsStat (path : string)
  | OsMkdirAll (path : string)
  | OsRemove (path : string)
  | OsRemoveAll (path : string)
  | OsReadDir (path : string)
  | OsReadlink (path : string)
  | FilepathGlob (pattern : string)
  (* os/exec with a timeout *)
  | ExecCommand (argv : list string) (seconds : Z)
  (* k8s.io/utils/mount *)
  | IsNotMountPoint (path : string)
  | MountUnmount (path : string)
  | MountMount (source target fstype : string) (options : list string)
  | FormatAndMount (source target fstype : string) (options : list string).

(** What running a command yields: it timed out, or it ended with or without error. *)
Variant exec_reply := ExecTimeout | ExecOk | ExecErr (msg : string).

Definition reply (o : op) : Type :=
  match o with
  | HttpDo _ _ _ _ => http_reply
  | MapRange _ => list string
  | TimeNow => Z
  | Sleep _ => unit
  | Getenv _ => string
  | NewMutex => nat
  | MapLoadOrStore _ _ _ => nat
  | MutexLock _ | MutexUnlock _ => unit
  | RandInt _ => string + Z
  | UuidParse _ => string + string
  | NetListen _ _ | GrpcServe _ _ => option string
  | GrpcStop _ => unit
  | GrpcDial _ => option string
  | SmaCall _ => sma_reply
  | OpiCall _ => string + string
  | OsReadFile _ => sysres string
  | OsWriteFile _ _ | OsAppendFile _ _ => sysres unit
  | OsStat _ | OsMkdirAll _ | OsRemove _ | OsRemoveAll _ => sysres unit
  | OsReadDir _ => sysres (list string)
  | OsReadlink _ => sysres string
  | FilepathGlob _ => sysres (list string)
  | ExecCommand _ _ => exec_reply
  | IsNotMountPoint _ => bool * option (bool * string)
  | MountUnmount _ | MountMount _ _ _ _ | FormatAndMount _ _ _ _ => option string
  end.

(** What the Go language and its standard library promise of an answer. *)
Definition go_ok (o : op) : reply o → Prop :=
  match o with
  | MapRange keys => λ r, r ≡ₚ keys
  | RandInt max => λ r, match r with inr z => (0 ≤ z < max)%Z | inl _ => True end
  | _ => λ _, True
  end.

(** ** Programs *)

Inductive proc (A : Type) : Type :=
  | Ret (a : A)
  | Panic (why : string)
  | Vis (o : op) (k : reply o → proc A).
Arguments Ret {A} a.
Arguments Panic {A} why.
Arguments Vis {A} o k.

Fixpoint proc_bind {A B} (f : A → proc B) (p : proc A) : proc B :=
  match p with
  | Ret a => f a
  | Panic m => Panic m
  | Vis o k => Vis o (λ r, proc_bind f (k r))
  end.
#[export] Instance proc_mret : MRet proc := @Ret.
#[export] Instance proc_mbind : MBind proc := @proc_bind.

Definition perform (o : op) : proc (reply o) := Vis o Ret.

(** [defer d()]: [d] runs when the body returns and when it panics. *)
Fixpoint with_defer {A} (d : proc unit) (p : proc A) : proc A :=
  match p with
  | Ret a => proc_bind (λ _, Ret a) d
  | Panic m => proc_bind (λ _, Panic m) d
  | Vis o k => Vis o (λ r, with_defer d (k r))
  end.

(** Methods on an object of state [S]. *)
Definition st (S A : Type) : Type := S → proc (A * S).
#[export] Instance st_mret {S} : MRet (st S) := λ A a s, Ret (a, s).
#[export] Instance st_mbind {S} : MBind (st S) :=
  λ A B f m s, proc_bind (λ '(a, s'), f a s') (m s).
Definition lift {S A} (p : proc A) : st S A := λ s, proc_bind (λ a, Ret (a, s)) p.
Definition get {S} : st S S := λ s, Ret (s, s).
Definition put {S} (s : S) : st S unit := λ _, Ret (tt, s).

(** A method of a field of the object. *)
Definition zoom {S T A} (proj : T → S) (set : S → T → T) (m : st S A) : st T A :=
  λ t, proc_bind (λ '(a, s'), Ret (a, set s' t)) (m (proj t)).

(** [x, err := p; if err != nil { return err }] *)
Notation "x ←? p ; q" :=
  (mbind (λ r_, match r_ with inl e_ => mret (inl e_) | inr x => q end) p)
  (at level 20, p at level 100, q at level 200, right associativity) : stdpp_scope.
Notation "' x ←? p ; q" :=
  (mbind (λ r_, match r_ with inl e_ => mret (inl e_) | inr x => q end) p)
  (at level 20, x pattern, p at level 100, q at level 200, right associativity) : stdpp_scope.

(** [err := p; if err != nil { return err }] for a bare [error] result. *)
Notation "p ;? q" :=
  (mbind (λ r_, match r_ with Some e_ => mret (Some e_) | None => q end) p)
  (at level 100, q at level 200, right associativity) : stdpp_scope.

(** ** Meaning *)

Inductive outcome (A : Type) : Type :=
  | Done (a : A)
  | Panicked (why : string).
Arguments Done {A} a.
Arguments Panicked {A} why.

Section wp.
Context {S : Type} (step : S → ∀ o : op, reply o → S → Prop).

(** Whatever the world answers, the run ends with an outcome and a world state
    that satisfy [Q]. *)
Fixpoint wp {A} (p : proc A) (Q : outcome A → S → Prop) (s : S) : Prop :=
  match p with
  | Ret a => Q (Done a) s
  | Panic m => Q (Panicked m) s
  | Vis o k => ∀ r s', go_ok o r → step s o r s' → wp (k r) Q s'
  end.

Definition bind_post {A B} (f : A → proc B) (Q : outcome B → S → Prop)
    : outcome A → S → Prop :=
  λ out s, match out with Done a => wp (f a) Q s | Panicked m => Q (Panicked m) s end.

Lemma wp_mono {A} (p : proc A) (Q Q' : outcome A → S → Prop) s :
  wp p Q s → (∀ out s', Q out s' → Q' out s') → wp p Q' s.
Proof. intros H HQ. revert s H. induction p; simpl; eauto. Qed.

Lemma wp_bind {A B} (f : A → proc B) (p : proc A) Q s :
  wp p (bind_post f Q) s ↔ wp (proc_bind f p) Q s.
Proof.
  revert s. induction p as [a|m|o k IH]; simpl; intros s; [done..|].
  split; intros H r s' Hok Hs; apply IH; auto.
Qed.

Lemma wp_true {A} (p : proc A) s : wp p (λ _ _, True) s.
Proof. revert s. induction p; simpl; auto. Qed.

Lemma wp_conj {A} (p : proc A) Q1 Q2 s :
  wp p Q1 s → wp p Q2 s → wp p (λ out s', Q1 out s' ∧ Q2 out s') s.
Proof. revert s. induction p; simpl; eauto. Qed.

Lemma wp_defer {A} d (p : proc A) Q s :
  wp p (λ out s', wp d (λ dout s'',
          match dout with
          | Done _ => Q out s''
          | Panicked m => Q (Panicked m) s''
          end) s') s →
  wp (with_defer d p) Q s.
Proof.
  revert s. induction p as [a|m|o k IH]; simpl; intros s H.
  - apply wp_bind. eapply wp_mono; [exact H|]. by intros [?|?].
  - apply wp_bind. eapply wp_mono; [exact H|]. by intros [?|?].
  - eauto.
Qed.

Lemma wp_proc_bind {A B} (f : A → proc B) (p : proc A) Q s :
  wp p (bind_post f Q) s → wp (p ≫= f) Q s.
Proof. apply wp_bind. Qed.

Lemma wp_mret {A} (a : A) Q s : Q (Done a) s → wp (mret a) Q s.
Proof. done. Qed.

Lemma wp_st_bind {T A B} (f : A → st T B) (m : st T A) t Q s :
  wp (m t) (bind_post (λ '(a, t'), f a t') Q) s → wp ((m ≫= f) t) Q s.
Proof. apply (wp_bind (λ '(a, t'), f a t')). Qed.

Lemma wp_st_get {T A} (f : T → st T A) t Q s : wp (f t t) Q s → wp ((get ≫= f) t) Q s.
Proof. done. Qed.

Lemma wp_lift {T A} (p : proc A) (t : T) Q s :
  wp p (bind_post (λ a, Ret (a, t)) Q) s → wp (lift p t) Q s.
Proof. apply wp_bind. Qed.

Lemma wp_zoom {T U A} (proj : U → T) (set : T → U → U) (m : st T A) u Q s :
  wp (m (proj u)) (bind_post (λ '(a, t'), Ret (a, set t' u)) Q) s → wp (zoom proj set m u) Q s.
Proof. apply wp_bind. Qed.

#[export] Instance wp_proper {A} (p : proc A) :
  Proper (pointwise_relation _ (pointwise_relation _ iff) ==> eq ==> iff) (wp p).
Proof.
  intros Q Q' HQ s ? <-. split; intros H; eapply wp_mono; try done; intros; by apply HQ.
Qed.
End wp.

(** ** The operations of a program *)

(** Every operation the program may perform satisfies [P]. *)
Fixpoint ops {A} (P : op → Prop) (p : proc A) : Prop :=
  match p with
  | Vis o k => P o ∧ ∀ r, ops P (k r)
  | _ => True
  end.

(** The same of a method. *)
Definition ops_st {S A} (P : op → Prop) (m : st S A) : Prop := ∀ s, ops P (m s).

Section ops.
Context (P : op → Prop).

Lemma ops_mono {A} (P' : op → Prop) (p : proc A) : (∀ o, P o → P' o) → ops P p → ops P' p.
Proof. intros HP. induction p as [a|m|o k IH]; simpl; [done..|]. intros [? ?]. auto. Qed.

Lemma ops_perform o : P o → ops P (perform o).
Proof. by split. Qed.

Lemma ops_bind {A B} (f : A → proc B) (p : proc A) :
  ops P p → (∀ a, ops P (f a)) → ops P (p ≫= f).
Proof.
  intros Hp Hf. induction p as [a|m|o k IH]; simpl; [by apply Hf|done|].
  destruct Hp as [Ho Hk]. split; [done|]. intros r. by apply IH.
Qed.

Lemma ops_ret {A} (a : A) : ops P (mret a).
Proof. done. Qed.

Lemma ops_st_bind {S A B} (f : A → st S B) (m : st S A) :
  ops_st P m → (∀ a, ops_st P (f a)) → ops_st P (m ≫= f).
Proof.
  intros Hm Hf s. apply (ops_bind (λ '(a, s'), f a s') (m s)); [apply Hm|].
  intros [a s']. apply Hf.
Qed.

Lemma ops_st_ret {S A} (a : A) : ops_st P (mret a : st S A).
Proof. done. Qed.

Lemma ops_st_get {S} : ops_st P (get : st S S).
Proof. done. Qed.

Lemma ops_st_put {S} (s : S) : ops_st P (put s).
Proof. done. Qed.

Lemma ops_st_lift {S A} (p : proc A) : ops P p → ops_st P (lift p : st S A).
Proof. intros Hp s. by apply (ops_bind (λ a, Ret (a, s)) p). Qed.

Lemma ops_st_zoom {S T A} (proj : T → S) (set : S → T → T) (m : st S A) :
  ops_st P m → ops_st P (zoom proj set m).
Proof. intros Hm t. apply (ops_bind (λ '(a, s'), Ret (a, set s' t)) (m (proj t))); [apply Hm|]. by intros []. Qed.

Lemma ops_st_run {S A} (m : st S A) s : ops_st P m → ops P (m s).
Proof. by intros H. Qed.
End ops.

(** What every operation respects the whole program does. *)
Lemma wp_ops {W A} (step : W → ∀ o : op, reply o → W → Prop) (P : op → Prop)
    (R : W → W → Prop) `{!Reflexive R, !Transitive R} (p : proc A) w :
  ops P p → (∀ w1 o r w2, P o → step w1 o r w2 → R w1 w2) → wp step p (λ _ w', R w w') w.
Proof.
  intros Hp HR. revert w. induction p as [a|why|o k IH]; intros w; simpl; [reflexivity..|].
  destruct Hp as [Ho Hk]. intros r w' _ Hstep. eapply wp_mono; [by apply IH|].
  simpl. intros _ w'' Hw''. etrans; [by eapply HR|done].
Qed.

#[export] Hint Resolve ops_ret ops_st_ret ops_st_get ops_st_put : spdk.

(** Follow the binds and the tests of a program to its operations. *)
Ltac ops_follow :=
  repeat first
    [ assumption
    | solve [auto 2 with spdk nocore]
    | match goal with
      | |- ops _ (_ ≫= _) => apply ops_bind; [|intros]
      | |- ops_st _ (_ ≫= _) => apply ops_st_bind; [|intros]
      | |- ops_st _ (zoom _ _ _) => apply ops_st_zoom
      | |- ops_st _ (lift _) => apply ops_st_lift
      | |- ops _ (perform _) => apply ops_perform
      end
    | case_goal ].

(** ** Running against a deterministic world *)

Section run.
Context {S : Type} (h : ∀ o : op, S → reply o * S).

Fixpoint run {A} (p : proc A) (s : S) : outcome A * S :=
  match p with
  | Ret a => (Done a, s)
  | Panic m => (Panicked m, s)
  | Vis o k => let '(r, s') := h o s in run (k r) s'
  end.

Definition handler_step : S → ∀ o : op, reply o → S → Prop := λ s o r s', h o s = (r, s').

(** What [wp] promises holds of the run. *)
Lemma wp_run {A} (p : proc A) Q s :
  (∀ o s, go_ok o (h o s).1) →
  wp handler_step p Q s → Q (run p s).1 (run p s).2.
Proof.
  intros Hh. revert s. induction p as [a|m|o k IH]; simpl; [done..|].
  intros s H. specialize (Hh o s). destruct (h o s) as [r s'] eqn:Hr.
  apply IH, H; [done|]. done.
Qed.
End run.

(** ** Logs *)

(** An operation with its answer. *)
Record event := Ev { ev_op : op; ev_reply : reply ev_op }.

(** A world with a record of what it was asked and what it answered, oldest first. *)
Class Logged {W} (step : W → ∀ o : op, reply o → W → Prop) := {
  calls : W → list event;
  calls_law w o r w' : step w o r w' → calls w' = calls w ++ [Ev o r]
}.

(** The event happened between two states. *)
Definition during {W} {step : W → ∀ o : op, reply o → W → Prop} `{!Logged step}
    (w w' : W) (ev : event) : Prop :=
  ∃ tr, calls w' = calls w ++ tr ∧ ev ∈ tr.

Section log.
Context {W : Type} (step : W → ∀ o : op, reply o → W → Prop).

Lemma during_step `{!Logged step} w o r w' : step w o r w' → during w w' (Ev o r).
Proof. intros Hstep. exists [Ev o r]. split; [by eapply calls_law|by apply list_elem_of_singleton]. Qed.

(** The log only grows. *)
Definition grows `{!Logged step} (w w' : W) : Prop := calls w `prefix_of` calls w'.

#[export] Instance grows_preorder `{!Logged step} : PreOrder grows.
Proof. split; unfold grows; [by intros w|]. intros w1 w2 w3 H1 H2. by etrans. Qed.

Lemma step_grows `{!Logged step} w o r w' : step w o r w' → grows w w'.
Proof. intros Hstep. exists [Ev o r]. by eapply calls_law. Qed.

Lemma wp_grows `{!Logged step} {A} (p : proc A) w : wp step p (λ _ w', grows w w') w.
Proof.
  apply (wp_ops step (λ _, True) grows); [|intros w1 o r w2 _; apply step_grows].
  induction p; simpl; auto.
Qed.

Lemma during_grows `{!Logged step} w w1 w2 ev : during w w1 ev → grows w1 w2 → during w w2 ev.
Proof.
  intros (tr & Htr & Hev) [tr' Hg]. exists (tr ++ tr'). rewrite Hg, Htr, app_assoc.
  split; [done|]. apply elem_of_app. by left.
Qed.

(** Any world can keep a log. *)
Definition logged : W * list event → ∀ o : op, reply o → W * list event → Prop :=
  λ s o r s', step s.1 o r s'.1 ∧ s'.2 = s.2 ++ [Ev o r].

#[export] Instance logged_Logged : Logged logged.
Proof. refine {| calls := snd |}. by intros s o r s' []. Defined.
End log.

(** A run against a deterministic world, with its log. *)
Definition log_handler {S} (h : ∀ o : op, S → reply o * S) (o : op) (s : S * list event)
    : reply o * (S * list event) :=
  let '(r, s') := h o s.1 in (r, (s', s.2 ++ [Ev o r])).

Lemma wp_logged_run {S A} (h : ∀ o : op, S → reply o * S) (p : proc A) Q s :
  (∀ o s, go_ok o (h o s).1) →
  wp (logged (handler_step h)) p Q s → Q (run (log_handler h) p s).1 (run (log_handler h) p s).2.
Proof.
  intros Hh. revert s. induction p as [a|m|o k IH]; simpl; [done..|].
  intros s H. specialize (Hh o s.1). unfold log_handler in *.
  destruct (h o s.1) as [r s'] eqn:Hr. apply IH, H; [done|]. by split.
Qed.
