(* ===== verification/RpcClient.v ===== *)
(** The JSON-RPC client of the storage node: pkg/util/jsonrpc.go.

    [rpcClient.call] sends one request and interprets the answer; the other
    methods are the SPDK calls on logical volumes, volume stores and snapshots. *)

From S2P Require Import Prelude.
From S2P Require Import GoLang.
From S2P Require Import GoJson.
From S2P Require Import World.

(** ** Data *)

Definition cfgLvolClearMethod : string := "unmap".
Definition cfgLvolThinProvision : bool := true.

Record LvStore := mkLvStore {
  LvStore_Name : string;
  LvStore_UUID : string;
  LvStore_TotalSizeMiB : Z;
  LvStore_FreeSizeMiB : Z
}.

(** [DriverSpecific] is the optional [driver_specific.lvol.lvol_store_uuid]. *)
Record BDev := mkBDev {
  BDev_Name : string;
  BDev_UUID : string;
  BDev_BlockSize : Z;
  BDev_NumBlocks : Z;
  BDev_DriverSpecific : option string
}.
Definition BDev_zero : BDev := mkBDev "" "" 0 0 None.

(** One element of the answer of [bdev_lvol_get_lvstores]. *)
Record lvstore_raw := mkLvstoreRaw {
  raw_FreeClusters : Z;
  raw_ClusterSize : Z;
  raw_TotalClusters : Z;
  raw_Name : string;
  raw_UUID : string
}.
Definition lvstore_raw_zero : lvstore_raw := mkLvstoreRaw 0 0 0 "" "".

Record rpcClient := mkRpcClient {
  rpcURL : string;
  rpcUser : string;
  rpcPass : string;
  rpcID : Z
}.

#[export] Instance LvStore_eq_dec : EqDecision LvStore.
Proof. solve_decision. Defined.
#[export] Instance BDev_eq_dec : EqDecision BDev.
Proof. solve_decision. Defined.

(** The envelope of a response; [Result] goes to the caller's destination. *)
Record rpcResponse (A : Type) := mkRpcResponse {
  resp_ID : Z;
  resp_Code : Z;
  resp_Message : string;
  resp_Result : A
}.
Arguments mkRpcResponse {A}.
Arguments resp_ID {A}. Arguments resp_Code {A}.
Arguments resp_Message {A}. Arguments resp_Result {A}.

(** ** Decoders of the answers *)

Definition dec_BDev : decoder BDev := dec_struct [
  ("name", dec_field BDev_Name (λ v b, mkBDev v (BDev_UUID b) (BDev_BlockSize b) (BDev_NumBlocks b) (BDev_DriverSpecific b)) dec_string);
  ("uuid", dec_field BDev_UUID (λ v b, mkBDev (BDev_Name b) v (BDev_BlockSize b) (BDev_NumBlocks b) (BDev_DriverSpecific b)) dec_string);
  ("block_size", dec_field BDev_BlockSize (λ v b, mkBDev (BDev_Name b) (BDev_UUID b) v (BDev_NumBlocks b) (BDev_DriverSpecific b)) dec_int64);
  ("num_blocks", dec_field BDev_NumBlocks (λ v b, mkBDev (BDev_Name b) (BDev_UUID b) (BDev_BlockSize b) v (BDev_DriverSpecific b)) dec_int64);
  ("driver_specific", dec_field BDev_DriverSpecific (λ v b, mkBDev (BDev_Name b) (BDev_UUID b) (BDev_BlockSize b) (BDev_NumBlocks b) v)
     (dec_ptr "" (dec_struct [("lvol", dec_struct [("lvol_store_uuid", dec_string)])])))
].

Definition dec_lvstore_raw : decoder lvstore_raw := dec_struct [
  ("free_clusters", dec_field raw_FreeClusters (λ v r, mkLvstoreRaw v (raw_ClusterSize r) (raw_TotalClusters r) (raw_Name r) (raw_UUID r)) dec_int64);
  ("cluster_size", dec_field raw_ClusterSize (λ v r, mkLvstoreRaw (raw_FreeClusters r) v (raw_TotalClusters r) (raw_Name r) (raw_UUID r)) dec_int64);
  ("total_data_clusters", dec_field raw_TotalClusters (λ v r, mkLvstoreRaw (raw_FreeClusters r) (raw_ClusterSize r) v (raw_Name r) (raw_UUID r)) dec_int64);
  ("name", dec_field raw_Name (λ v r, mkLvstoreRaw (raw_FreeClusters r) (raw_ClusterSize r) (raw_TotalClusters r) v (raw_UUID r)) dec_string);
  ("uuid", dec_field raw_UUID (λ v r, mkLvstoreRaw (raw_FreeClusters r) (raw_ClusterSize r) (raw_TotalClusters r) (raw_Name r) v) dec_string)
].

Definition dec_response {A} (d : decoder A) : decoder (rpcResponse A) := dec_struct [
  ("id", dec_field resp_ID (λ v r, mkRpcResponse v (resp_Code r) (resp_Message r) (resp_Result r)) dec_int32);
  ("error", dec_struct [
     ("code", dec_field resp_Code (λ v r, mkRpcResponse (resp_ID r) v (resp_Message r) (resp_Result r)) dec_int64);
     ("message", dec_field resp_Message (λ v r, mkRpcResponse (resp_ID r) (resp_Code r) v (resp_Result r)) dec_string)]);
  ("result", dec_field resp_Result (λ v r, mkRpcResponse (resp_ID r) (resp_Code r) (resp_Message r) v) (dec_iface d))
].

(** ** Errors *)

Definition errorMatches (errFull : option goerror) (errJSON : sentinel) : bool :=
  match errFull with
  | None => false
  | Some e =>
      let strFull := ToLower (error_string e) in
      let strJSON := ToLower (error_string (ESentinel errJSON)) in
      let strJSON := TrimPrefix strJSON "json:" in
      let strJSON := TrimSpace strJSON in
      Contains strFull strJSON
  end.

(** ** The client *)

(** The request body: [params] is left out when there are no arguments. *)
Definition rpc_request (id : Z) (method : string) (args : option json) : json :=
  JObj ([("jsonrpc", JStr "2.0"); ("id", jint id); ("method", JStr method)] ++
        match args with Some params => [("params", params)] | None => [] end).

(** What [call] makes of the answer to request [id]: the destination of the
    result, and the error. *)
Definition call_reply {A} (method : string) (id : Z) (dec : decoder A) (result : A)
    (resp : http_reply) : A * option goerror :=
  match resp with
  | HttpFail msg => (result, Some (EWrap (method +:+ ": ") (ENew msg)))
  | HttpResp status body =>
      if (400 <=? status)%Z then
        (result, Some (ENew (method +:+ ": HTTP error code: " +:+ FormatInt status)))
      else match body with
      | inl msg => (result, Some (EWrap (method +:+ ": ") (ENew msg)))
      | inr j =>
          let '(response, ok) := dec_response dec j (mkRpcResponse 0 0 "" result) in
          (resp_Result response,
           if negb ok then
             Some (EWrap (method +:+ ": ") (ENew "json: cannot unmarshal into Go value"))
           else if negb (resp_ID response =? id)%Z then
             Some (ENew (method +:+ ": json response ID mismatch"))
           else if negb (resp_Code response =? 0)%Z then
             Some (ENew (method +:+ ": json response error: " +:+ resp_Message response))
           else None)
      end
  end.

Module rpcClient.

Definition set_rpcID (id : Z) (client : rpcClient) : rpcClient :=
  mkRpcClient (rpcURL client) (rpcUser client) (rpcPass client) id.

Definition info (client : rpcClient) : string := rpcURL client.

(** Returns what the destination holds after the call, and the error. *)
Definition call {A} (method : string) (args : option json) (dec : decoder A) (result : A)
    : st rpcClient (A * option goerror) := λ client,
  let id := int32 (rpcID client + 1) in
  resp ← perform (HttpDo (rpcURL client) (rpcUser client) (rpcPass client)
                         (rpc_request id method args));
  mret (call_reply method id dec result resp, set_rpcID id client).

(** A call whose result is not looked at. *)
Definition call_ (method : string) (args : option json) : st rpcClient (option goerror) :=
  '(_, err) ← call method args (@dec_any unit) tt;
  mret err.

Definition LvStore_of_raw (r : lvstore_raw) : LvStore :=
  mkLvStore (raw_Name r) (raw_UUID r)
    (quot64 (quot64 (mul64 (raw_TotalClusters r) (raw_ClusterSize r)) 1024) 1024)
    (quot64 (quot64 (mul64 (raw_FreeClusters r) (raw_ClusterSize r)) 1024) 1024).

Definition lvStores : st rpcClient (gores (list LvStore)) :=
  '(result, err) ← call "bdev_lvol_get_lvstores" None (dec_slice lvstore_raw_zero dec_lvstore_raw) [];
  match err with
  | Some e => mret (inl e)
  | None => mret (inr (LvStore_of_raw <$> result))
  end.

Definition createVolume (lvolName lvsName : string) (sizeMiB : Z)
    : st rpcClient (string * option goerror) :=
  let params := JObj [
    ("lvol_name", JStr lvolName);
    ("size", jint (mul64 (mul64 sizeMiB 1024) 1024));
    ("lvs_name", JStr lvsName);
    ("clear_method", JStr cfgLvolClearMethod);
    ("thin_provision", JBool cfgLvolThinProvision)] in
  '(lvolID, err) ← call "bdev_lvol_create" (Some params) dec_string "";
  let err := if errorMatches err ErrJSONNoSpaceLeft
             then Some (ESentinel ErrJSONNoSpaceLeft) else err in
  mret (lvolID, err).

Definition cloneVolume (lvolName snapshotName : string)
    : st rpcClient (string * option goerror) :=
  let params := JObj [("clone_name", JStr lvolName); ("snapshot_name", JStr snapshotName)] in
  call "bdev_lvol_clone" (Some params) dec_string "".

(** Indexing the empty result panics: it happens on every error but "No such device". *)
Definition getVolume (lvolID : string) : st rpcClient (gores BDev) :=
  let params := JObj [("name", JStr lvolID)] in
  '(result, err) ← call "bdev_get_bdevs" (Some params) (dec_slice BDev_zero dec_BDev) [];
  if errorMatches err ErrJSONNoSuchDevice then mret (inl (ESentinel ErrJSONNoSuchDevice))
  else match result with
  | b :: _ => mret (inr b)
  | [] => lift (Panic "index out of range [0] with length 0")
  end.

Definition isVolumeCreated (lvolID : string) : st rpcClient (gores bool) :=
  r ← getVolume lvolID;
  match r with
  | inl err =>
      if errors_Is err ErrJSONNoSuchDevice then mret (inr false) else mret (inl err)
  | inr _ => mret (inr true)
  end.

Definition deleteVolume (lvolID : string) : st rpcClient (option goerror) :=
  let params := JObj [("name", JStr lvolID)] in
  err ← call_ "bdev_lvol_delete" (Some params);
  mret (if errorMatches err ErrJSONNoSuchDevice
        then Some (ESentinel ErrJSONNoSuchDevice) else err).

Definition snapshot (lvolName snapShotName : string) : st rpcClient (string * option goerror) :=
  let params := JObj [("lvol_name", JStr lvolName); ("snapshot_name", JStr snapShotName)] in
  call "bdev_lvol_snapshot" (Some params) dec_string "".

Definition getLvstore (lvolID : string) : st rpcClient (gores string) :=
  lvol ←? getVolume lvolID;
  match BDev_DriverSpecific lvol with
  | None => mret (inl (ENew ("no driver_specific for " +:+ lvolID)))
  | Some lvstoreUUID =>
      lvstores ←? lvStores;
      match find_first (λ l, bool_decide (LvStore_UUID l = lvstoreUUID)) lvstores with
      | Some l => mret (inr (LvStore_Name l))
      | None => mret (inl (ENew ("lvstore for " +:+ lvolID +:+ " not found")))
      end
  end.

End rpcClient.
