(* ===== verification/Nvmf.v ===== *)
(** The NVMe-oF storage node: pkg/util/nvmf.go.  A volume is published by a
    subsystem of its own, with one namespace and one listener. *)

From S2P Require Import Prelude.
From S2P Require Import GoLang.
From S2P Require Import GoJson.
From S2P Require Import World.
From S2P Require Import RpcClient.

(** ** Data *)

Definition cfgNVMfSvcPort : string := "4420".
Definition cfgAllowAnyHost : bool := true.
Definition cfgAddrFamily : string := "IPv4".

Record nodeNVMf := mkNodeNVMf {
  nvmf_client : rpcClient;
  nvmf_targetType : string;
  nvmf_targetAddr : string;
  nvmf_targetPort : string;
  nvmf_transCreated : Z
}.

(** A listener of a subsystem, as [nvmf_subsystem_get_listeners] answers it. *)
Record listener := mkListener {
  TrType : string;
  AdrFam : string;
  TrAddr : string;
  TrSvcID : string
}.
Definition listener_zero : listener := mkListener "" "" "" "".
#[export] Instance listener_eq_dec : EqDecision listener.
Proof. solve_decision. Defined.

Record namespace := mkNamespace { NSID : Z; ns_BdevName : string }.
Record subsystem := mkSubsystem { ss_Nqn : string; ss_Namespace : list namespace }.
#[export] Instance namespace_eq_dec : EqDecision namespace.
Proof. solve_decision. Defined.

Definition dec_listener : decoder listener := dec_struct [
  ("address", dec_struct [
    ("trtype", dec_field TrType (λ v l, mkListener v (AdrFam l) (TrAddr l) (TrSvcID l)) dec_string);
    ("adrfam", dec_field AdrFam (λ v l, mkListener (TrType l) v (TrAddr l) (TrSvcID l)) dec_string);
    ("traddr", dec_field TrAddr (λ v l, mkListener (TrType l) (AdrFam l) v (TrSvcID l)) dec_string);
    ("trsvcid", dec_field TrSvcID (λ v l, mkListener (TrType l) (AdrFam l) (TrAddr l) v) dec_string)])
].

Definition dec_namespace : decoder namespace := dec_struct [
  ("nsid", dec_field NSID (λ v n, mkNamespace v (ns_BdevName n)) dec_int64);
  ("bdev_name", dec_field ns_BdevName (λ v n, mkNamespace (NSID n) v) dec_string)
].

Definition dec_subsystem : decoder subsystem := dec_struct [
  ("nqn", dec_field ss_Nqn (λ v x, mkSubsystem v (ss_Namespace x)) dec_string);
  ("namespaces", dec_field ss_Namespace (λ v x, mkSubsystem (ss_Nqn x) v)
     (dec_slice (mkNamespace 0 "") dec_namespace))
].

Definition newNVMf (client : rpcClient) (targetType targetAddr : string) : nodeNVMf :=
  mkNodeNVMf client targetType targetAddr cfgNVMfSvcPort 0.

(** ** Operations *)

Module nodeNVMf.

Definition set_client (c : rpcClient) (node : nodeNVMf) : nodeNVMf :=
  mkNodeNVMf c (nvmf_targetType node) (nvmf_targetAddr node) (nvmf_targetPort node)
             (nvmf_transCreated node).
Definition set_transCreated (v : Z) (node : nodeNVMf) : nodeNVMf :=
  mkNodeNVMf (nvmf_client node) (nvmf_targetType node) (nvmf_targetAddr node)
             (nvmf_targetPort node) v.

(** [node.client.m(...)] *)
Definition client {A} (m : st rpcClient A) : st nodeNVMf A := zoom nvmf_client set_client m.

Definition Info (node : nodeNVMf) : string := rpcClient.info (nvmf_client node).

Definition LvStores : st nodeNVMf (gores (list LvStore)) := client rpcClient.lvStores.

Definition getVolumeModel (lvolID : string) : string := lvolID.
Definition getVolumeNqn (lvolID : string) : string :=
  "nqn.2020-04.io.spdk.csi:uuid:" +:+ getVolumeModel lvolID.

Definition VolumeInfo (lvolID : string) : st nodeNVMf (gores (gmap string string)) :=
  lvol ←? client (rpcClient.getVolume lvolID);
  lvStore ←? client (rpcClient.getLvstore lvolID);
  node ← get;
  mret (inr (list_to_map [
    ("targetType", nvmf_targetType node);
    ("targetAddr", nvmf_targetAddr node);
    ("targetPort", nvmf_targetPort node);
    ("nqn", getVolumeNqn lvolID);
    ("model", getVolumeModel lvolID);
    ("lvolSize", FormatInt (mul64 (BDev_BlockSize lvol) (BDev_NumBlocks lvol)));
    ("lvstore", lvStore)])).

(** The alias of a volume: [lvsName/lvolName]. *)
Definition alias (lvsName lvolName : string) : string := lvsName +:+ "/" +:+ lvolName.

Definition CreateVolume (lvolName lvsName : string) (sizeMiB : Z) : st nodeNVMf (gores string) :=
  r ← client (rpcClient.getVolume (alias lvsName lvolName));
  match r with
  | inr lvol => mret (inr (BDev_UUID lvol))
  | inl _ =>
      '(lvolID, err) ← client (rpcClient.createVolume lvolName lvsName sizeMiB);
      match err with
      | Some e => mret (inl e)
      | None => mret (inr lvolID)
      end
  end.

Definition CloneVolume (lvolName lvsName sourceLvolID : string) : st nodeNVMf (gores string) :=
  r ← client (rpcClient.getVolume (alias lvsName lvolName));
  match r with
  | inr lvol => mret (inr (BDev_UUID lvol))
  | inl _ =>
      '(lvolID, err) ← client (rpcClient.cloneVolume lvolName sourceLvolID);
      match err with
      | Some e => mret (inl e)
      | None => mret (inr lvolID)
      end
  end.

Definition GetVolume (lvolName lvsName : string) : st nodeNVMf (gores string) :=
  lvol ←? client (rpcClient.getVolume (alias lvsName lvolName));
  mret (inr (BDev_UUID lvol)).

Definition isVolumeCreated (lvolID : string) : st nodeNVMf (gores bool) :=
  client (rpcClient.isVolumeCreated lvolID).

Definition CreateSnapshot (lvolName snapshotName : string) : st nodeNVMf (gores string) :=
  lvsName ←? client (rpcClient.getLvstore lvolName);
  r ← client (rpcClient.getVolume (alias lvsName snapshotName));
  match r with
  | inr lvol => mret (inr (BDev_UUID lvol))
  | inl _ =>
      '(snapshotID, err) ← client (rpcClient.snapshot lvolName snapshotName);
      match err with
      | Some e => mret (inl e)
      | None => mret (inr snapshotID)
      end
  end.

Definition DeleteVolume (lvolID : string) : st nodeNVMf (option goerror) :=
  client (rpcClient.deleteVolume lvolID).

(** The listener the node adds to a volume's subsystem. *)
Definition listenAddress (node : nodeNVMf) : listener :=
  mkListener (nvmf_targetType node) cfgAddrFamily (nvmf_targetAddr node) (nvmf_targetPort node).

Definition isVolumePublished (lvolID : string) : st nodeNVMf (gores bool) :=
  let params := JObj [("nqn", JStr (getVolumeNqn lvolID))] in
  '(result, err) ← client (rpcClient.call "nvmf_subsystem_get_listeners" (Some params)
                             (dec_slice listener_zero dec_listener) []);
  match err with
  | Some e =>
      if errorMatches err ErrInvalidParameters then mret (inr false) else mret (inl e)
  | None =>
      node ← get;
      mret (inr (existsb (λ l,
        bool_decide (TrType l = nvmf_targetType node) &&
        bool_decide (TrAddr l = nvmf_targetAddr node) &&
        bool_decide (TrSvcID l = nvmf_targetPort node) &&
        bool_decide (AdrFam l = cfgAddrFamily)) result))
  end.

Definition createSubsystem (lvolID : string) : st nodeNVMf (option goerror) :=
  let params := JObj [
    ("nqn", JStr (getVolumeNqn lvolID));
    ("allow_any_host", JBool cfgAllowAnyHost);
    ("serial_number", JStr "spdkcsi-sn");
    ("model_number", JStr (getVolumeModel lvolID))] in
  client (rpcClient.call_ "nvmf_create_subsystem" (Some params)).

Definition subsystemAddNs (lvolID : string) : st nodeNVMf (Z * option goerror) :=
  let params := JObj [
    ("nqn", JStr (getVolumeNqn lvolID));
    ("namespace", JObj [("bdev_name", JStr lvolID)])] in
  client (rpcClient.call "nvmf_subsystem_add_ns" (Some params) dec_int64 0%Z).

(** The first namespace for the volume's bdev in a subsystem of the volume's name. *)
Definition find_nsid (nqn lvolID : string) (results : list subsystem) : option Z :=
  NSID <$> find_first (λ n, bool_decide (ns_BdevName n = lvolID))
    (concat (ss_Namespace <$> filter (λ x, ss_Nqn x = nqn) results)).

Definition subsystemGetNsID (lvolID : string) : st nodeNVMf (gores Z) :=
  '(results, err) ← client (rpcClient.call "nvmf_get_subsystems" None
                              (dec_slice (mkSubsystem "" []) dec_subsystem) []);
  match err with
  | Some e => mret (inl e)
  | None =>
      match find_nsid (getVolumeNqn lvolID) lvolID results with
      | Some nsid => mret (inr nsid)
      | None => mret (inl (ENew "no such namespace"))
      end
  end.

Definition subsystemAddListener (lvolID : string) : st nodeNVMf (option goerror) :=
  node ← get;
  let params := JObj [
    ("nqn", JStr (getVolumeNqn lvolID));
    ("listen_address", JObj [
       ("trtype", JStr (nvmf_targetType node));
       ("adrfam", JStr cfgAddrFamily);
       ("traddr", JStr (nvmf_targetAddr node));
       ("trsvcid", JStr (nvmf_targetPort node))])] in
  client (rpcClient.call_ "nvmf_subsystem_add_listener" (Some params)).

Definition subsystemRemoveNs (lvolID : string) : st nodeNVMf (option goerror) :=
  r ← subsystemGetNsID lvolID;
  match r with
  | inl err => mret (Some err)
  | inr nsID =>
      let params := JObj [("nqn", JStr (getVolumeNqn lvolID)); ("nsid", jint nsID)] in
      client (rpcClient.call_ "nvmf_subsystem_remove_ns" (Some params))
  end.

Definition deleteSubsystem (lvolID : string) : st nodeNVMf (option goerror) :=
  let params := JObj [("nqn", JStr (getVolumeNqn lvolID))] in
  client (rpcClient.call_ "nvmf_delete_subsystem" (Some params)).

Definition createTransport : st nodeNVMf (option goerror) :=
  node ← get;
  if negb (nvmf_transCreated node =? 0)%Z then mret None
  else
    let params := JObj [("trtype", JStr (nvmf_targetType node))] in
    err ← client (rpcClient.call_ "nvmf_create_transport" (Some params));
    node ← get;
    match err with
    | None => put (set_transCreated 1 node);; mret None
    | Some e =>
        if Contains (error_string e) "already exists"
        then put (set_transCreated 1 node);; mret None
        else mret (Some e)
    end.

Definition PublishVolume (lvolID : string) : st nodeNVMf (option goerror) :=
  r ← isVolumeCreated lvolID;
  match r with
  | inl err => mret (Some err)
  | inr false => mret (Some (ESentinel ErrVolumeDeleted))
  | inr true =>
    r ← isVolumePublished lvolID;
    match r with
    | inl err => mret (Some err)
    | inr true => mret None
    | inr false =>
        createTransport ;?
        createSubsystem lvolID ;?
        '(_, err) ← subsystemAddNs lvolID;
        match err with
        | Some e => deleteSubsystem lvolID;; mret (Some e)
        | None =>
            err ← subsystemAddListener lvolID;
            match err with
            | Some e => subsystemRemoveNs lvolID;; deleteSubsystem lvolID;; mret (Some e)
            | None => mret None
            end
        end
    end
  end.

(** A failure to remove the namespace is logged, and the subsystem is deleted anyway. *)
Definition UnpublishVolume (lvolID : string) : st nodeNVMf (option goerror) :=
  r ← isVolumeCreated lvolID;
  match r with
  | inl err => mret (Some err)
  | inr false => mret (Some (ESentinel ErrVolumeDeleted))
  | inr true =>
    r ← isVolumePublished lvolID;
    match r with
    | inl err => mret (Some err)
    | inr false => mret None
    | inr true =>
        subsystemRemoveNs lvolID;;
        deleteSubsystem lvolID
    end
  end.

End nodeNVMf.
