(* ===== verification/Iscsi.v ===== *)
(** The iSCSI storage node: pkg/util/iscsi.go.  A volume is published by a target
    node of its own, attached to the one portal group and initiator group. *)

From S2P Require Import Prelude.
From S2P Require Import GoLang.
From S2P Require Import GoJson.
From S2P Require Import World.
From S2P Require Import RpcClient.

(** ** Data *)

Definition cfgISCSISvcPort : string := "3260".
Definition numberPortalGroupTag : Z := 1.
Definition numberInitiatorGroupTag : Z := 1.
Definition targetQueueDepth : Z := 64.
Definition iqnPrefixName : string := "iqn.2016-06.io.spdk:".

Record nodeISCSI := mkNodeISCSI {
  iscsi_client : rpcClient;
  iscsi_targetAddr : string;
  iscsi_targetPort : string
}.

(** A target node, as [iscsi_get_target_nodes] answers it. *)
Record target_node := mkTargetNode { tn_Name : string; tn_AliasName : string }.
#[export] Instance target_node_eq_dec : EqDecision target_node.
Proof. solve_decision. Defined.

Definition dec_target_node : decoder target_node := dec_struct [
  ("name", dec_field tn_Name (λ v t, mkTargetNode v (tn_AliasName t)) dec_string);
  ("alias_name", dec_field tn_AliasName (λ v t, mkTargetNode (tn_Name t) v) dec_string)
].

(** An element of the group lists: only its tag is looked at. *)
Definition dec_tag : decoder Z := dec_struct [("tag", dec_int64)].

Definition newISCSI (client : rpcClient) (targetAddr : string) : nodeISCSI :=
  mkNodeISCSI client targetAddr cfgISCSISvcPort.

(** ** Operations *)

Module nodeISCSI.

Definition set_client (c : rpcClient) (node : nodeISCSI) : nodeISCSI :=
  mkNodeISCSI c (iscsi_targetAddr node) (iscsi_targetPort node).

(** [node.client.m(...)] *)
Definition client {A} (m : st rpcClient A) : st nodeISCSI A := zoom iscsi_client set_client m.

Definition Info (node : nodeISCSI) : string := rpcClient.info (iscsi_client node).

Definition LvStores : st nodeISCSI (gores (list LvStore)) := client rpcClient.lvStores.

Definition isVolumeCreated (lvolID : string) : st nodeISCSI (gores bool) :=
  client (rpcClient.isVolumeCreated lvolID).

Definition VolumeInfo (lvolID : string) : st nodeISCSI (gores (gmap string string)) :=
  exists_ ←? isVolumeCreated lvolID;
  if negb exists_ then mret (inl (ENew ("volume not exists: " +:+ lvolID)))
  else
    lvStore ←? client (rpcClient.getLvstore lvolID);
    node ← get;
    mret (inr (list_to_map [
      ("targetAddr", iscsi_targetAddr node);
      ("targetPort", iscsi_targetPort node);
      ("iqn", iqnPrefixName +:+ lvolID);
      ("targetType", "iscsi");
      ("lvstore", lvStore)])).

(** The alias of a volume: [lvsName/lvolName]. *)
Definition alias (lvsName lvolName : string) : string := lvsName +:+ "/" +:+ lvolName.

Definition CreateVolume (lvolName lvsName : string) (sizeMiB : Z) : st nodeISCSI (gores string) :=
  r ← client (rpcClient.getVolume (alias lvsName lvolName));
  match r with
  | inr lvol => mret (inr (BDev_UUID lvol))
  | inl _ =>
      '(lvolID, err) ← client (rpcClient.createVolume lvolName lvsName sizeMiB);
      match err with
      | Some e => mret (inl e)
      | None => mret (inr lvolID)
      end
  end.

Definition CloneVolume (lvolName lvsName sourceLvolID : string) : st nodeISCSI (gores string) :=
  r ← client (rpcClient.getVolume (alias lvsName lvolName));
  match r with
  | inr lvol => mret (inr (BDev_UUID lvol))
  | inl _ =>
      '(lvolID, err) ← client (rpcClient.cloneVolume lvolName sourceLvolID);
      match err with
      | Some e => mret (inl e)
      | None => mret (inr lvolID)
      end
  end.

Definition GetVolume (lvolName lvsName : string) : st nodeISCSI (gores string) :=
  lvol ←? client (rpcClient.getVolume (alias lvsName lvolName));
  mret (inr (BDev_UUID lvol)).

Definition CreateSnapshot (lvolName snapshotName : string) : st nodeISCSI (gores string) :=
  lvsName ←? client (rpcClient.getLvstore lvolName);
  r ← client (rpcClient.getVolume (alias lvsName snapshotName));
  match r with
  | inr lvol => mret (inr (BDev_UUID lvol))
  | inl _ =>
      '(snapshotID, err) ← client (rpcClient.snapshot lvolName snapshotName);
      match err with
      | Some e => mret (inl e)
      | None => mret (inr snapshotID)
      end
  end.

Definition DeleteVolume (lvolID : string) : st nodeISCSI (option goerror) :=
  client (rpcClient.deleteVolume lvolID).

Definition isVolumePublished (lvolID : string) : st nodeISCSI (gores bool) :=
  '(result, err) ← client (rpcClient.call "iscsi_get_target_nodes" None
                             (dec_slice (mkTargetNode "" "") dec_target_node) []);
  match err with
  | Some e => mret (inl e)
  | None => mret (inr (existsb (λ t, bool_decide (tn_AliasName t = lvolID)) result))
  end.

(** A call that answers a boolean, where [false] is a failure too. *)
Definition call_bool (method : string) (params : json) (failure : string)
    : st nodeISCSI (option goerror) :=
  '(result, err) ← client (rpcClient.call method (Some params) dec_bool false);
  match err with
  | Some e => mret (Some e)
  | None => mret (if (result : bool) then None else Some (ENew failure))
  end.

Definition iscsiGetPortalGroups : st nodeISCSI (option goerror) :=
  '(results, err) ← client (rpcClient.call "iscsi_get_portal_groups" None (dec_slice 0%Z dec_tag) []);
  match err with
  | Some e => mret (Some e)
  | None =>
      if existsb (Z.eqb numberPortalGroupTag) results then mret None
      else mret (Some (ENew "port group not available"))
  end.

Definition iscsiGetInitiatorGroups : st nodeISCSI (option goerror) :=
  '(results, err) ← client (rpcClient.call "iscsi_get_initiator_groups" None (dec_slice 0%Z dec_tag) []);
  match err with
  | Some e => mret (Some e)
  | None =>
      if existsb (Z.eqb numberInitiatorGroupTag) results then mret None
      else mret (Some (ENew "initiator group not available"))
  end.

Definition iscsiCreatePortalGroup : st nodeISCSI (option goerror) :=
  node ← get;
  let params := JObj [
    ("portals", JArr [JObj [("host", JStr (iscsi_targetAddr node));
                            ("port", JStr (iscsi_targetPort node))]]);
    ("tag", jint numberPortalGroupTag)] in
  call_bool "iscsi_create_portal_group" params "create iscsi portal group failure".

Definition iscsiCreateInitiatorGroup (initiators netmasks : list string)
    : st nodeISCSI (option goerror) :=
  let params := JObj [
    ("initiators", JArr (JStr <$> initiators));
    ("tag", jint numberInitiatorGroupTag);
    ("netmasks", JArr (JStr <$> netmasks))] in
  call_bool "iscsi_create_initiator_group" params "create iscsi initiator group failure".

(** [PgIgMaps{numberPortalGroupTag, numberInitiatorGroupTag}] is positional, and the
    struct's first field is the initiator group's tag. *)
Definition iscsiCreateTargetNode (targetName bdevName : string) : st nodeISCSI (option goerror) :=
  let params := JObj [
    ("luns", JArr [JObj [("lun_id", jint 0); ("bdev_name", JStr bdevName)]]);
    ("name", JStr targetName);
    ("alias_name", JStr targetName);
    ("pg_ig_maps", JArr [JObj [("ig_tag", jint numberPortalGroupTag);
                               ("pg_tag", jint numberInitiatorGroupTag)]]);
    ("disable_chap", JBool true);
    ("queue_depth", jint targetQueueDepth)] in
  call_bool "iscsi_create_target_node" params "create iscsi target node failure".

Definition iscsiDeleteTargetNode (targetName : string) : st nodeISCSI (option goerror) :=
  let params := JObj [("name", JStr (iqnPrefixName +:+ targetName))] in
  call_bool "iscsi_delete_target_node" params "delete iscsi target node failure".

Definition createPortalGroup : st nodeISCSI (option goerror) :=
  err ← iscsiGetPortalGroups;
  match err with
  | None => mret None
  | Some _ =>
      err ← iscsiCreatePortalGroup;
      match err with
      | None => mret None
      | Some _ => iscsiGetPortalGroups
      end
  end.

Definition createInitiatorGroup : st nodeISCSI (option goerror) :=
  err ← iscsiGetInitiatorGroups;
  match err with
  | None => mret None
  | Some _ =>
      err ← iscsiCreateInitiatorGroup ["ANY"] ["ANY"];
      match err with
      | None => mret None
      | Some _ => iscsiGetInitiatorGroups
      end
  end.

Definition PublishVolume (lvolID : string) : st nodeISCSI (option goerror) :=
  r ← isVolumeCreated lvolID;
  match r with
  | inl err => mret (Some err)
  | inr false => mret (Some (ESentinel ErrVolumeDeleted))
  | inr true =>
    r ← isVolumePublished lvolID;
    match r with
    | inl err => mret (Some err)
    | inr true => mret None
    | inr false =>
        createPortalGroup ;?
        createInitiatorGroup ;?
        iscsiCreateTargetNode lvolID lvolID ;?
        mret None
    end
  end.

Definition UnpublishVolume (lvolID : string) : st nodeISCSI (option goerror) :=
  r ← isVolumeCreated lvolID;
  match r with
  | inl err => mret (Some err)
  | inr false => mret (Some (ESentinel ErrVolumeDeleted))
  | inr true =>
    r ← isVolumePublished lvolID;
    match r with
    | inl err => mret (Some err)
    | inr false => mret None
    | inr true => iscsiDeleteTargetNode lvolID
    end
  end.

End nodeISCSI.
