(* ===== verification/SpdkNode.v ===== *)
(** The [SpdkNode] interface of pkg/util/jsonrpc.go, its two implementations and
    its constructor [NewSpdkNode].

    The interface is a type class; a value of the Go interface type is a
    [spdkNode]: an NVMe-oF node, an iSCSI node, or the nil interface, whose
    methods panic. *)

From S2P Require Import Prelude.
From S2P Require Import GoLang.
From S2P Require Import GoJson.
From S2P Require Import World.
From S2P Require Import RpcClient.
From S2P Require Import Nvmf.
From S2P Require Import Iscsi.

Class SpdkNode (N : Type) := {
  Info : st N string;
  LvStores : st N (gores (list LvStore));
  VolumeInfo : string → st N (gores (gmap string string));
  CreateVolume : string → string → Z → st N (gores string);
  CloneVolume : string → string → string → st N (gores string);
  GetVolume : string → string → st N (gores string);
  DeleteVolume : string → st N (option goerror);
  PublishVolume : string → st N (option goerror);
  UnpublishVolume : string → st N (option goerror);
  CreateSnapshot : string → string → st N (gores string)
}.

#[export] Instance nodeNVMf_SpdkNode : SpdkNode nodeNVMf := {
  Info := node ← get; mret (nodeNVMf.Info node);
  LvStores := nodeNVMf.LvStores;
  VolumeInfo := nodeNVMf.VolumeInfo;
  CreateVolume := nodeNVMf.CreateVolume;
  CloneVolume := nodeNVMf.CloneVolume;
  GetVolume := nodeNVMf.GetVolume;
  DeleteVolume := nodeNVMf.DeleteVolume;
  PublishVolume := nodeNVMf.PublishVolume;
  UnpublishVolume := nodeNVMf.UnpublishVolume;
  CreateSnapshot := nodeNVMf.CreateSnapshot
}.

#[export] Instance nodeISCSI_SpdkNode : SpdkNode nodeISCSI := {
  Info := node ← get; mret (nodeISCSI.Info node);
  LvStores := nodeISCSI.LvStores;
  VolumeInfo := nodeISCSI.VolumeInfo;
  CreateVolume := nodeISCSI.CreateVolume;
  CloneVolume := nodeISCSI.CloneVolume;
  GetVolume := nodeISCSI.GetVolume;
  DeleteVolume := nodeISCSI.DeleteVolume;
  PublishVolume := nodeISCSI.PublishVolume;
  UnpublishVolume := nodeISCSI.UnpublishVolume;
  CreateSnapshot := nodeISCSI.CreateSnapshot
}.

(** A value of the interface type. *)
Inductive spdkNode :=
  | NodeNVMf (n : nodeNVMf)
  | NodeISCSI (n : nodeISCSI)
  | NodeNil.

(** Dynamic dispatch. *)
Definition dispatch {A} (m : ∀ N, SpdkNode N → st N A) : st spdkNode A := λ node,
  match node with
  | NodeNVMf n => '(a, n') ← m nodeNVMf _ n; mret (a, NodeNVMf n')
  | NodeISCSI n => '(a, n') ← m nodeISCSI _ n; mret (a, NodeISCSI n')
  | NodeNil => Panic nil_dereference
  end.

#[export] Instance spdkNode_SpdkNode : SpdkNode spdkNode := {
  Info := dispatch (λ N _, Info);
  LvStores := dispatch (λ N _, LvStores);
  VolumeInfo lvolID := dispatch (λ N _, VolumeInfo lvolID);
  CreateVolume lvolName lvsName sizeMiB := dispatch (λ N _, CreateVolume lvolName lvsName sizeMiB);
  CloneVolume lvolName lvsName src := dispatch (λ N _, CloneVolume lvolName lvsName src);
  GetVolume lvolName lvsName := dispatch (λ N _, GetVolume lvolName lvsName);
  DeleteVolume lvolID := dispatch (λ N _, DeleteVolume lvolID);
  PublishVolume lvolID := dispatch (λ N _, PublishVolume lvolID);
  UnpublishVolume lvolID := dispatch (λ N _, UnpublishVolume lvolID);
  CreateSnapshot lvolName snapshotName := dispatch (λ N _, CreateSnapshot lvolName snapshotName)
}.

Definition NewSpdkNode (rpcURL rpcUser rpcPass targetType targetAddr : string) : gores spdkNode :=
  let client := mkRpcClient rpcURL rpcUser rpcPass 0 in
  let t := ToLower targetType in
  if bool_decide (t = "nvme-rdma") then inr (NodeNVMf (newNVMf client "RDMA" targetAddr))
  else if bool_decide (t = "nvme-tcp") then inr (NodeNVMf (newNVMf client "TCP" targetAddr))
  else if bool_decide (t = "iscsi") then inr (NodeISCSI (newISCSI client targetAddr))
  else inl (ENew ("unknown transport: " +:+ targetType)).
