(* ===== verification/Util.v ===== *)
(** Configuration, secrets and the stashed volume context: pkg/util/config.go and
    the parts of pkg/util/util.go on files, sizes and maps. *)

From Stdlib Require Import Ascii.
From stdpp Require Import sorting.
From S2P Require Import Prelude.
From S2P Require Import GoLang.
From S2P Require Import GoJson.
From S2P Require Import JsonText.
From S2P Require Import World.

(** ** Go maps and paths *)

(** A [map[string]string]; [None] is the nil map. *)
Abbreviation gomap := (option (gmap string string)).

(** [m[k]]: the empty string when the key is missing or the map is nil. *)
Definition mget (m : gomap) (k : string) : string :=
  default "" (m ≫= λ m, m !! k).

Fixpoint join_with (sep : string) (l : list string) : string :=
  match l with
  | [] => ""
  | [x] => x
  | x :: l' => x +:+ sep +:+ join_with sep l'
  end.

Fixpoint clean_comps (rooted : bool) (stack : list string) (comps : list string) : list string :=
  match comps with
  | [] => rev stack
  | c :: comps' =>
      if bool_decide (c = "") || bool_decide (c = ".") then clean_comps rooted stack comps'
      else if bool_decide (c = "..") then
        match stack with
        | t :: stack' =>
            if bool_decide (t = "..") then clean_comps rooted (c :: stack) comps'
            else clean_comps rooted stack' comps'
        | [] => if rooted then clean_comps rooted [] comps' else clean_comps rooted [c] comps'
        end
      else clean_comps rooted (c :: stack) comps'
  end.

(** [filepath.Clean] on slash-separated paths. *)
Definition filepath_Clean (p : string) : string :=
  let rooted := HasPrefix p "/" in
  let body := join_with "/" (clean_comps rooted [] (Split (chr 47) p)) in
  if rooted then "/" +:+ body else if nonempty body then body else ".".

(** [filepath.Join a b]: empty elements are ignored. *)
Definition filepath_Join (a b : string) : string :=
  match nonempty a, nonempty b with
  | true, true => filepath_Clean (a +:+ "/" +:+ b)
  | true, false => filepath_Clean a
  | false, true => filepath_Clean b
  | false, false => ""
  end.

(** ** encoding/json *)

(** [json.Unmarshal(text, &a)] *)
Definition Unmarshal {A} (dec : decoder A) (text : string) (a : A) : A * option goerror :=
  match parse text with
  | None => (a, Some (ENew "invalid JSON"))
  | Some j =>
      let '(a', ok) := dec j a in
      (a', if (ok : bool) then None else Some (ENew "json: cannot unmarshal into Go value"))
  end.

Definition string_le (a b : string) : Prop := String.leb a b = true.
#[export] Instance string_le_dec : RelDecision string_le.
Proof. intros a b. unfold string_le. apply _. Defined.

(** The keys in the order [json.Marshal] and [MapRange] list them. *)
Definition sorted_keys {A} (m : gmap string A) : list string :=
  merge_sort string_le (map_to_list m).*1.

(** [json.Marshal] of a [map[string]string]: the members in key order. *)
Definition Marshal_map (m : gomap) : string :=
  match m with
  | None => print JNull
  | Some m => print (JObj ((λ k, (k, JStr (default "" (m !! k)))) <$> sorted_keys m))
  end.

(** ** Files *)

Definition sys_error (e : bool * string) : goerror := ESys e.1 e.2.

Definition sys_result {A} (r : sysres A) : gores A :=
  match r with inl e => inl (sys_error e) | inr a => inr a end.

Definition sys_err (r : sysres unit) : option goerror :=
  match r with inl e => Some (sys_error e) | inr _ => None end.

(** [os.Open] and [io.ReadAll] are one read. *)
Definition ParseJSONFile {A} (fileName : string) (dec : decoder A) (a : A)
    : proc (A * option goerror) :=
  r ← perform (OsReadFile fileName);
  match r with
  | inl e => mret (a, Some (sys_error e))
  | inr bytes => mret (Unmarshal dec bytes a)
  end.

Definition FromEnv (env def : string) : proc string :=
  s ← perform (Getenv env);
  mret (if bool_decide (s = "") then def else s).

Definition ToMiB (bytes : Z) : Z :=
  let mi := 1048576%Z in quot64 (sub64 (add64 bytes mi) 1) mi.

(** ** Configuration *)

Record Config := mkConfig {
  DriverName : string;
  DriverVersion : string;
  Endpoint : string;
  NodeID : string;
  IsControllerServer : bool;
  IsNodeServer : bool
}.

Record SpdkNodeConfig := mkSpdkNodeConfig {
  cfg_Name : string;
  cfg_URL : string;
  cfg_TargetType : string;
  cfg_TargetAddr : string
}.

Record SpdkToken := mkSpdkToken { tok_Name : string; tok_UserName : string; tok_Password : string }.

Definition dec_SpdkNodeConfig : decoder SpdkNodeConfig := dec_struct [
  ("name", dec_field cfg_Name (λ v c, mkSpdkNodeConfig v (cfg_URL c) (cfg_TargetType c) (cfg_TargetAddr c)) dec_string);
  ("rpcURL", dec_field cfg_URL (λ v c, mkSpdkNodeConfig (cfg_Name c) v (cfg_TargetType c) (cfg_TargetAddr c)) dec_string);
  ("targetType", dec_field cfg_TargetType (λ v c, mkSpdkNodeConfig (cfg_Name c) (cfg_URL c) v (cfg_TargetAddr c)) dec_string);
  ("targetAddr", dec_field cfg_TargetAddr (λ v c, mkSpdkNodeConfig (cfg_Name c) (cfg_URL c) (cfg_TargetType c) v) dec_string)
].

(** [CSIControllerConfig] has the one field [Nodes]. *)
Definition dec_CSIControllerConfig : decoder (list SpdkNodeConfig) := dec_struct [
  ("Nodes", dec_slice (mkSpdkNodeConfig "" "" "" "") dec_SpdkNodeConfig)
].

Definition NewCSIControllerConfig (env def : string) : proc (gores (list SpdkNodeConfig)) :=
  configFile ← FromEnv env def;
  '(config, err) ← ParseJSONFile configFile dec_CSIControllerConfig [];
  match err with
  | Some e => mret (inl e)
  | None => mret (inr config)
  end.

Definition dec_SpdkToken : decoder SpdkToken := dec_struct [
  ("name", dec_field tok_Name (λ v t, mkSpdkToken v (tok_UserName t) (tok_Password t)) dec_string);
  ("username", dec_field tok_UserName (λ v t, mkSpdkToken (tok_Name t) v (tok_Password t)) dec_string);
  ("password", dec_field tok_Password (λ v t, mkSpdkToken (tok_Name t) (tok_UserName t) v) dec_string)
].

(** [SpdkSecrets] has the one field [Tokens]. *)
Definition dec_SpdkSecrets : decoder (list SpdkToken) := dec_struct [
  ("rpcTokens", dec_slice (mkSpdkToken "" "" "") dec_SpdkToken)
].

Definition NewSpdkSecrets (jsonSecrets : string) : gores (list SpdkToken) :=
  match Unmarshal dec_SpdkSecrets jsonSecrets [] with
  | (_, Some e) => inl e
  | (secs, None) => inr secs
  end.

(** ** The stashed context *)

Definition volumeContextFileName : string := "volume-context.json".
Definition xpuContextFileName : string := "xpu-context.json".

(** The map a JSON object decodes to: of members with the same name the last wins. *)
Definition object_map (kvs : list (string * json)) : gmap string json :=
  foldl (λ m kv, <[kv.1 := kv.2]> m) ∅ kvs.

Definition is_string (j : json) : bool := match j with JStr _ => true | _ => false end.

Definition json_str (j : json) : string := match j with JStr s => s | _ => "" end.

(** The error names the first key, in iteration order, whose value is no string. *)
Definition ConvertInterfaceToMap (data : json) : proc (gores (gmap string string)) :=
  match data with
  | JObj kvs =>
      let dataMap := object_map kvs in
      keys ← perform (MapRange (map_to_list dataMap).*1);
      match find_first (λ k, negb (is_string (default JNull (dataMap !! k)))) keys with
      | Some key => mret (inl (ENew ("the value for key " +:+ key +:+ " is not a string")))
      | None => mret (inr (json_str <$> dataMap))
      end
  | _ => mret (inl (ENew "the data is not a map[string]interface{}"))
  end.

Definition stashContext (data : gomap) (folder fileName : string) : proc (option goerror) :=
  let encodedBytes := Marshal_map data in
  r ← perform (OsStat folder);
  err ← match r with
        | inl (true, _) => r' ← perform (OsMkdirAll folder); mret (sys_err r')
        | _ => mret None
        end;
  match err with
  | Some e => mret (Some e)
  | None =>
      let fPath := filepath_Join folder fileName in
      r ← perform (OsWriteFile fPath encodedBytes);
      match sys_err r with
      | Some e =>
          mret (Some (EWrap ("failed to marshall context JSON at path (" +:+ fPath +:+ "): ") e))
      | None => mret None
      end
  end.

Definition lookupContext (folder fileName : string) : proc (gores json) :=
  let fPath := filepath_Join folder fileName in
  r ← perform (OsReadFile fPath);
  match r with
  | inl (notexist, msg) =>
      if negb notexist then
        mret (inl (EWrap ("failed to read stashed context JSON from path (" +:+ fPath +:+ "): ")
                         (ESys notexist msg)))
      else mret (inl (ENew "volume context JSON file not found"))
  | inr encodedBytes =>
      match parse encodedBytes with
      | None =>
          mret (inl (EWrap ("failed to unmarshall stashed context JSON from path (" +:+ fPath +:+ "): ")
                           (ENew "invalid JSON")))
      | Some data => mret (inr data)
      end
  end.

Definition cleanUpContext (folder fileName : string) : proc (option goerror) :=
  let fPath := filepath_Join folder fileName in
  r ← perform (OsRemove fPath);
  match sys_err r with
  | Some e => mret (Some (EWrap ("failed to cleanup volume context stash (" +:+ fPath +:+ "): ") e))
  | None => mret None
  end.

Definition StashVolumeContext (volumeContext : gomap) (path : string) : proc (option goerror) :=
  stashContext volumeContext path volumeContextFileName.

Definition LookupVolumeContext (path : string) : proc (gores (gmap string string)) :=
  data ←? lookupContext path volumeContextFileName;
  ConvertInterfaceToMap data.

Definition CleanUpVolumeContext (path : string) : proc (option goerror) :=
  cleanUpContext path volumeContextFileName.

Definition StashXPUContext (xpuContext : gomap) (path : string) : proc (option goerror) :=
  stashContext xpuContext path xpuContextFileName.

Definition LookupXPUContext (path : string) : proc (gores (gmap string string)) :=
  data ←? lookupContext path xpuContextFileName;
  ConvertInterfaceToMap data.

Definition CleanUpXPUContext (path : string) : proc (option goerror) :=
  cleanUpContext path xpuContextFileName.
