(* ===== verification/UtilSpec.v ===== *)
(** What pkg/util/util.go promises: sizes in MiB, and the contexts stashed in files. *)

From Stdlib Require Import Ascii.
From stdpp Require Import sorting.
From S2P Require Import Prelude.
From S2P Require Import GoLang.
From S2P Require Import GoJson.
From S2P Require Import JsonText.
From S2P Require Import JsonSpec.
From S2P Require Import World.
From S2P Require Import Util.

(** ** Sizes *)

Lemma quot64_pos a b : (0 ≤ a < 2 ^ 63)%Z → (0 < b)%Z → quot64 a b = (a `div` b)%Z.
Proof.
  intros Ha Hb. unfold quot64. rewrite Z.quot_div_nonneg by lia.
  apply int64_small. split; [|apply Z.div_lt_upper_bound; nia].
  pose proof (Z.div_pos a b). lia.
Qed.

Lemma int64_over z : (2 ^ 63 ≤ z < 2 ^ 64)%Z → int64 z = (z - 2 ^ 64)%Z.
Proof.
  intros Hz. unfold int64, wrap_s. change (64 - 1)%Z with 63%Z.
  rewrite <-(Zmod_unique (z + 2 ^ 63) (2 ^ 64) 1 (z - 2 ^ 63)); lia.
Qed.

(** The product of two products does not overflow: [ToMiB] and back. *)
Lemma ToMiB_small b :
  (0 ≤ b ≤ 2 ^ 63 - 2 ^ 20)%Z → ToMiB b = ((b + 1048575) `div` 1048576)%Z.
Proof.
  intros Hb. unfold ToMiB, sub64, add64.
  destruct (decide (b = 2 ^ 63 - 2 ^ 20)%Z) as [->|Hne]; [by vm_compute|].
  rewrite (int64_small (b + 1048576)) by lia. rewrite int64_small by lia.
  rewrite quot64_pos by lia. f_equal. lia.
Qed.

Lemma ToMiB_large b : (2 ^ 63 - 2 ^ 20 < b < 2 ^ 63)%Z → (ToMiB b < 0)%Z.
Proof.
  intros Hb. unfold ToMiB, sub64, add64. rewrite (int64_over (b + 1048576)) by lia.
  rewrite (int64_small (b + 1048576 - 2 ^ 64 - 1)) by lia. unfold quot64.
  rewrite <-(Z.opp_involutive (b + 1048576 - 2 ^ 64 - 1)), Z.quot_opp_l by lia.
  rewrite Z.quot_div_nonneg by lia.
  assert (1 ≤ (- (b + 1048576 - 2 ^ 64 - 1)) `div` 1048576 ≤ 2 ^ 43)%Z as Hq.
  { split; [apply Z.div_le_lower_bound; lia|apply Z.div_le_upper_bound; lia]. }
  rewrite int64_small; lia.
Qed.

(** C38: [ToMiB] rounds a size up to whole mebibytes, as long as the size is at least a
    mebibyte away from the largest [int64]; nearer to it the addition overflows and the
    result is negative. *)
Theorem ToMiB_ceiling b :
  (0 ≤ b < 2 ^ 63)%Z →
  if (b <=? 2 ^ 63 - 2 ^ 20)%Z
  then (2 ^ 20 * (ToMiB b - 1) < b ≤ 2 ^ 20 * ToMiB b)%Z
  else (ToMiB b < 0)%Z.
Proof.
  intros Hb. destruct (Z.leb_spec b (2 ^ 63 - 2 ^ 20)).
  - rewrite ToMiB_small by lia.
    pose proof (Z.div_mod (b + 1048575) 1048576). pose proof (Z.mod_pos_bound (b + 1048575) 1048576).
    lia.
  - apply ToMiB_large. lia.
Qed.

Lemma ToMiB_ceiling_witness : (2 ^ 20 * (ToMiB 1048577 - 1) < 1048577 ≤ 2 ^ 20 * ToMiB 1048577)%Z.
Proof. apply (ToMiB_ceiling 1048577). lia. Defined.

(** ** Files *)

(** The operations that leave every file of the driver's alone. *)
Definition keeps_files (o : op) : bool :=
  match o with
  | OsWriteFile _ _ | OsAppendFile _ _ | OsRemove _ | OsRemoveAll _
  | MountUnmount _ | MountMount _ _ _ _ | FormatAndMount _ _ _ _ => false
  | _ => true
  end.

(** The directory an operation removes, covers or uncovers. *)
Definition tree_of (o : op) : option string :=
  match o with
  | OsRemoveAll p | MountUnmount p | MountMount _ p _ _ | FormatAndMount _ p _ _ => Some p
  | _ => None
  end.

(** The file [q] is not inside the directory [p], nor [p] itself. *)
Definition outside (p q : string) : bool :=
  negb (HasPrefix (filepath_Clean q) (filepath_Clean p)).

(** What the driver relies on of the files it writes. *)
Class FileLaws {W} (step : W → ∀ o : op, reply o → W → Prop) := {
  file : W → string → option string;
  read_law w p r w' : step w (OsReadFile p) r w' →
    match r with
    | inr c => file w p = Some c
    | inl (true, _) => file w p = None
    | inl (false, _) => True
    end;
  write_law w p c r w' : step w (OsWriteFile p c) r w' →
    (∀ q, q ≠ p → file w' q = file w q) ∧
    match r with inr _ => file w' p = Some c | inl _ => True end;
  remove_law w p r w' : step w (OsRemove p) r w' →
    (∀ q, q ≠ p → file w' q = file w q) ∧
    match r with inr _ => file w' p = None | inl _ => True end;
  tree_law w o r w' p q : step w o r w' → tree_of o = Some p →
    outside p q = true → file w' q = file w q;
  keeps_law w o r w' : step w o r w' → keeps_files o = true → ∀ q, file w' q = file w q
}.

(** They are promised with a log, too. *)
#[export] Instance logged_files {W} (step : W → ∀ o : op, reply o → W → Prop) `{!FileLaws step} :
  FileLaws (logged step).
Proof.
  refine {| file s := file (step := step) s.1 |}.
  - intros s p r s' [H _]. by apply read_law in H.
  - intros s p c r s' [H _]. by apply write_law in H.
  - intros s p r s' [H _]. by apply remove_law in H.
  - intros s o r s' p q [H _]. by eapply tree_law.
  - intros s o r s' [H _]. by eapply keeps_law.
Defined.

(** ** The stashed contexts *)

Fixpoint is_ascii (s : string) : bool :=
  match s with
  | EmptyString => true
  | String a s' => (N_of_ascii a <? 128)%N && is_ascii s'
  end.

(** The keys and the values are ASCII text. *)
Definition ascii_map (m : gmap string string) : Prop :=
  map_Forall (λ k v, is_ascii k = true ∧ is_ascii v = true) m.

#[export] Instance ascii_map_dec m : Decision (ascii_map m).
Proof. unfold ascii_map. apply _. Defined.

(** The members [json.Marshal] prints. *)
Definition members (m : gmap string string) : list (string * string) :=
  (λ k, (k, default "" (m !! k))) <$> sorted_keys m.

Lemma members_Permutation m : members m ≡ₚ map_to_list m.
Proof.
  unfold members, sorted_keys. rewrite (merge_sort_Permutation string_le (map_to_list m).*1).
  rewrite <-list_fmap_compose. apply Permutation_refl'.
  etrans; [|apply list_fmap_id]. apply list_fmap_ext. intros i [k v] Hkv. simpl.
  apply list_elem_of_lookup_2, elem_of_map_to_list in Hkv. by rewrite Hkv.
Qed.

Lemma Marshal_members m : Marshal_map (Some m) = print (JObj (string_member <$> members m)).
Proof. unfold Marshal_map, members. by rewrite <-list_fmap_compose. Qed.

Lemma object_map_lookup kvs k :
  NoDup kvs.*1 → object_map (string_member <$> kvs) !! k = JStr <$> (list_to_map kvs : gmap _ _) !! k.
Proof.
  unfold object_map. assert (∀ acc : gmap string json, NoDup kvs.*1 →
    foldl (λ m kv, <[kv.1:=kv.2]> m) acc (string_member <$> kvs) !! k =
    match (list_to_map kvs : gmap string string) !! k with Some v => Some (JStr v) | None => acc !! k end) as H.
  { induction kvs as [|[k' v] kvs IH]; intros acc; simpl; [done|].
    rewrite NoDup_cons. intros [Hk' Hnd]. rewrite IH by done.
    destruct (decide (k = k')) as [->|Hne].
    - assert ((list_to_map kvs : gmap string string) !! k' = None) as ->
        by by apply not_elem_of_list_to_map_1.
      by rewrite !lookup_insert_eq.
    - by rewrite !lookup_insert_ne by done. }
  intros Hnd. rewrite H by done. by destruct (_ !! k).
Qed.

Lemma object_map_members m : object_map (string_member <$> members m) = JStr <$> m.
Proof.
  apply map_eq. intros k. rewrite object_map_lookup.
  - rewrite lookup_fmap. f_equal. rewrite <-(list_to_map_to_list m) at 2.
    by rewrite (list_to_map_proper (members m) (map_to_list m)); [|
      rewrite members_Permutation; apply NoDup_fst_map_to_list|apply members_Permutation].
  - rewrite members_Permutation. apply NoDup_fst_map_to_list.
Qed.

Section stash.
Context {W : Type} (step : W → ∀ o : op, reply o → W → Prop) `{!FileLaws step}.

(** An object of strings is converted, in whatever order its keys are visited. *)
Lemma wp_ConvertInterfaceToMap kvs (m : gmap string string) Q w :
  object_map kvs = JStr <$> m →
  (∀ w', (∀ q, file w' q = file w q) → Q (Done (inr m)) w') →
  wp step (ConvertInterfaceToMap (JObj kvs)) Q w.
Proof.
  intros Hm HQ keys w' Hkeys Hstep. simpl in Hkeys. pose proof (keeps_law _ _ _ _ Hstep eq_refl) as Hw'.
  rewrite Hm in *. simpl.
  replace (find_first _ keys) with (@None string).
  - rewrite <-map_fmap_compose, (map_fmap_ext _ id), map_fmap_id by done. by apply HQ.
  - symmetry. apply find_first_None, Forall_forall. intros k Hk.
    rewrite Hkeys in Hk. apply list_elem_of_fmap in Hk as ([k' j] & -> & Hj%elem_of_map_to_list).
    simpl. rewrite Hj. apply lookup_fmap_Some in Hj as (v & <- & _). done.
Qed.

Lemma wp_stashContext data folder name Q w :
  (∀ err w',
     (err = None → file w' (filepath_Join folder name) = Some (Marshal_map data)) →
     (∀ q, q ≠ filepath_Join folder name → file w' q = file w q) → Q (Done err) w') →
  wp step (stashContext data folder name) Q w.
Proof.
  intros HQ. unfold stashContext.
  assert (∀ w1, (∀ q, file w1 q = file w q) →
    wp step (r ← perform (OsWriteFile (filepath_Join folder name) (Marshal_map data));
             match sys_err r with
             | Some e => mret (Some (EWrap ("failed to marshall context JSON at path (" +:+
                                            filepath_Join folder name +:+ "): ") e))
             | None => mret None
             end) Q w1) as Hwrite.
  { intros w1 Hw1 r w2 _ Hstep. apply write_law in Hstep as [Hother Hr].
    destruct r as [e|u]; apply HQ; try done;
      intros q Hq; by rewrite Hother, Hw1. }
  intros r w1 _ Hstat. pose proof (keeps_law _ _ _ _ Hstat eq_refl) as Hw1.
  destruct r as [[[] msg]|u]; [|by apply Hwrite..].
  intros r2 w2 _ Hmk. assert (∀ q, file w2 q = file w q) as Hw2.
  { intros q. pose proof (keeps_law _ _ _ _ Hmk eq_refl q) as ->. apply Hw1. }
  destruct r2 as [e|u]; [by apply HQ|by apply Hwrite].
Qed.

(** What a lookup finds in a file of the driver's. *)
Lemma wp_lookupContext folder name j Q w :
  file w (filepath_Join folder name) = Some (print j) → parse (print j) = Some j →
  (∀ r w', (∀ q, file w' q = file w q) → (r = inr j ∨ ∃ p msg, r = inl (EWrap p (ESys false msg)) ∧
                 step w (OsReadFile (filepath_Join folder name)) (inl (false, msg)) w') →
     Q (Done r) w') →
  wp step (lookupContext folder name) Q w.
Proof.
  intros Hf Hparse HQ r w' _ Hstep. pose proof (keeps_law _ _ _ _ Hstep eq_refl) as Hw'.
  apply read_law in Hstep as Hr.
  destruct r as [[[] msg]|c]; simpl in *; [congruence|apply HQ; [done|right; by do 2 eexists]|].
  rewrite Hf in Hr. injection Hr as <-. rewrite Hparse. apply HQ; [done|by left].
Qed.

(** C31: a context that was stashed in a directory is the one that is looked up there at
    any later time its file is as it was; when the file cannot be read the lookup says
    so, and never answers another context. *)
Theorem stash_lookup_roundtrip m path w :
  ascii_map m →
  let f := filepath_Join path volumeContextFileName in
  wp step (StashVolumeContext (Some m) path)
    (λ out w1, out = Done None → ∀ w2, file w2 f = file w1 f →
       wp step (LookupVolumeContext path)
         (λ out' _, out' = Done (inr m) ∨ ∃ p msg, out' = Done (inl (EWrap p (ESys false msg)))) w2) w.
Proof.
  intros _ f. apply wp_stashContext. intros err w1 Hfile _ [= ->] w2 Hw2.
  subst f. rewrite Hfile, Marshal_members in Hw2 by done. apply wp_proc_bind.
  apply (wp_lookupContext _ _ _ _ _ Hw2); [apply parse_print_object|].
  intros r w3 _ [->|(p & msg & -> & _)]; [|right; by do 2 eexists].
  apply (wp_ConvertInterfaceToMap _ m); [apply object_map_members|]. intros w4 _. by left.
Qed.
End stash.
