(* ===== verification/VolumeLocks.v ===== *)
(** Locks by volume id: pkg/util/idlocker.go, and [TryLock] of pkg/util/util.go. *)

From S2P Require Import Prelude.
From S2P Require Import GoLang.
From S2P Require Import World.

(** ** VolumeLocks *)

(** A [VolumeLocks] object is known by the address of its [sync.Map]. *)
Record VolumeLocks := mkVolumeLocks { mutexes : nat }.

(** Returns the function that unlocks: a fresh mutex is offered to the map, and the
    one the map keeps for the id is locked. *)
Definition Lock (vl : VolumeLocks) (volumeID : string) : proc (proc unit) :=
  fresh ← perform NewMutex;
  mtx ← perform (MapLoadOrStore (mutexes vl) volumeID fresh);
  perform (MutexLock mtx);;
  mret (perform (MutexUnlock mtx) : proc unit).

(** [unlock := vl.Lock(id); defer unlock(); body] *)
Definition with_lock {A} (vl : VolumeLocks) (id : string) (body : proc A) : proc A :=
  unlock ← Lock vl id;
  with_defer unlock body.

(** ** TryLock *)

Module TryLock.
(** [atomic.CompareAndSwapInt32(&lock.locked, 0, 1)]: whether it swapped, and the
    new content. *)
Definition Lock (locked : Z) : bool * Z :=
  if (locked =? 0)%Z then (true, 1%Z) else (false, locked).
Definition Unlock (locked : Z) : Z := 0.
End TryLock.
