(* ===== verification/LocksSpec.v ===== *)
(** The volume locks under concurrency: handlers run by the threads of the server,
    interleaved at every operation.

    A [pool] is a list of running handlers over one lock state, and [pool_run] a run of it
    with its trace.  What must not overlap is told by the operations the handlers perform,
    not by their locks ([between]): the work of two handlers of one volume, and what two
    handlers do from their search for a free function of the xPU to the call that takes it.

    A handler that follows the locking protocol ([guarded]) takes one lock of the table, by
    its key, works, and gives it back; in its work it may take one more mutex [g], the same
    for all, and give it back, any number of times, and it has searched and may still take a
    function only while it holds [g].  [with_lock] makes such handlers.  For pools of guarded
    handlers and handlers without locks: nothing overlaps that must not, no deadlock, and
    termination of every schedule. *)

From Stdlib Require Import Wellfounded.
From S2P Require Import Prelude.
From S2P Require Import GoLang.
From S2P Require Import World.
From S2P Require Import VolumeLocks.

(** ** Lock states *)

(** The next fresh mutex, the contents of the [sync.Map]s, and the locked mutexes. *)
Record lock_state := mkLockState {
  ls_next : nat;
  ls_table : gmap (nat * string) nat;
  ls_held : gset nat
}.

Definition is_lock_op (o : op) : bool :=
  match o with
  | NewMutex | MapLoadOrStore _ _ _ | MutexLock _ | MutexUnlock _ => true
  | _ => false
  end.

(** [sync.Mutex] and [sync.Map]; everything else answers as it likes. *)
Definition lock_step (l : lock_state) (o : op) : reply o → lock_state → Prop :=
  match o return reply o → lock_state → Prop with
  | NewMutex => λ m l',
      m = ls_next l ∧ l' = mkLockState (S (ls_next l)) (ls_table l) (ls_held l)
  | MapLoadOrStore vl key m => λ m' l',
      match ls_table l !! (vl, key) with
      | Some m1 => m' = m1 ∧ l' = l
      | None =>
          m' = m ∧ l' = mkLockState (ls_next l) (<[(vl, key) := m]> (ls_table l)) (ls_held l)
      end
  | MutexLock m => λ _ l',
      (m ∉ ls_held l) ∧ l' = mkLockState (ls_next l) (ls_table l) ({[m]} ∪ ls_held l)
  | MutexUnlock m => λ _ l',
      (m ∈ ls_held l) ∧ l' = mkLockState (ls_next l) (ls_table l) (ls_held l ∖ {[m]})
  | o => λ r l', go_ok o r ∧ l' = l
  end.

(** One thread performs one operation. *)
Definition pool : Type := lock_state * list (proc unit).

Inductive pool_step : pool → pool → Prop :=
  | pool_act l ps i o k r l' :
      ps !! i = Some (Vis o k) → lock_step l o r l' →
      pool_step (l, ps) (l', <[i := k r]> ps).

(** The same with the trace: who performed which operation, oldest first. *)
Inductive pool_run (s : pool) : list (nat * op) → pool → Prop :=
  | run_start : pool_run s [] s
  | run_act tr l ps i o k r l' :
      pool_run s tr (l, ps) → ps !! i = Some (Vis o k) → lock_step l o r l' →
      pool_run s (tr ++ [(i, o)]) (l', <[i := k r]> ps).

(** [g] is a mutex of its own, outside the table: the package's. *)
Definition initial_locks (g : nat) : lock_state := mkLockState (S g) ∅ ∅.

(** ** What must not overlap *)

(** What one thread has done, in a trace. *)
Definition history (tr : list (nat * op)) (i : nat) : list op :=
  omap (λ '(j, o), if decide (j = i) then Some o else None) tr.

(** The next operation is such a one; some run of the program has such a one; none has. *)
Definition at_op {A} (P : op → bool) (p : proc A) : Prop :=
  match p with Vis o _ => P o = true | _ => False end.

Fixpoint may {A} (P : op → bool) (p : proc A) : Prop :=
  match p with Vis o k => P o = true ∨ ∃ r, may P (k r) | _ => False end.

Definition never {A} (P : op → bool) : proc A → Prop := ops (λ o, P o = false).

Lemma never_may {A} P (p : proc A) : never P p → ¬ may P p.
Proof.
  induction p as [a|why|o k IH]; [intros _ H; exact H..|].
  intros [Ho Hk] [Ho'|[r Hr]]; [by rewrite Ho in Ho'|]. exact (IH r (Hk r) Hr).
Qed.

(** A thread with history [h] that goes on as [p] is at, or past, its first operation of
    one sort, and not yet past its last of another. *)
Definition between {A} (first last : op → bool) (h : list op) (p : proc A) : Prop :=
  (Exists (λ o, first o = true) h ∨ at_op first p) ∧ may last p.

(** Work is everything but locking. *)
Definition work (o : op) : bool := negb (is_lock_op o).

(** At work: from the first such operation to the last. *)
Definition working {A} : list op → proc A → Prop := between work work.

(** The search for a free function of the xPU: it lists the PCI devices, or looks for a
    device in a slot of a KVM bridge. *)
Definition searches_function (o : op) : bool :=
  match o with
  | OsReadDir p => bool_decide (p = "/sys/bus/pci/devices")
  | FilepathGlob g => HasPrefix g "/sys/bus/pci/devices/0000:"
  | _ => false
  end.

(** The calls that take a function for a device. *)
Definition takes_function (o : op) : bool :=
  match o with
  | SmaCall (SmaCreateDevice _ (DeviceNvme _ _ | DeviceVirtioBlk _ _)) => true
  | OpiCall (OpiCreateController _ _ _ _ | OpiCreateVirtioBlk _ _ _ _) => true
  | _ => false
  end.

(** From the search for a function to the call that takes it. *)
Definition choosing {A} : list op → proc A → Prop := between searches_function takes_function.

(** ** The protocol of a handler *)

(** A program that does not choose, when [s] says whether it has searched before. *)
Definition calm {A} (s : bool) (p : proc A) : Prop :=
  s = false ∧ ¬ at_op searches_function p ∨ never takes_function p.

Section protocol.
Context (g : nat) {A : Type}.

(** The handler has finished. *)
Definition finished (p : proc A) : Prop := match p with Vis _ _ => False | _ => True end.

(** Inside the critical section of mutex [m]: work, which may hold [g] for a time
    ([n] says that it does), then unlock, then nothing.  [s] says whether the search for
    a function has begun. *)
Fixpoint inside (n s : bool) (m : nat) (p : proc A) : Prop :=
  match p with
  | Vis o k =>
      (n = false → calm s (Vis o k)) ∧
      ((is_lock_op o = false ∧ ∀ r, inside n (s || searches_function o) m (k r)) ∨
       match o return (reply o → proc A) → Prop with
       | MutexLock m' => λ k, m' = g ∧ n = false ∧ inside true s m (k tt)
       | MutexUnlock m' => λ k,
           if n then m' = g ∧ inside false s m (k tt) else m' = m ∧ finished (k tt)
       | _ => λ _, False
       end k)
  | _ => False
  end.

Definition locking (m : nat) (p : proc A) : Prop :=
  match p with
  | Vis o k =>
      match o return (reply o → proc A) → Prop with
      | MutexLock m' => λ k, m' = m ∧ inside false false m (k tt)
      | _ => λ _, False
      end k
  | _ => False
  end.

Definition storing (key : nat * string) (m : nat) (p : proc A) : Prop :=
  match p with
  | Vis o k =>
      match o return (reply o → proc A) → Prop with
      | MapLoadOrStore vl id m1 => λ k, (vl, id) = key ∧ m1 = m ∧ ∀ m', locking m' (k m')
      | _ => λ _, False
      end k
  | _ => False
  end.

(** A handler that has not begun. *)
Definition guarded (key : nat * string) (p : proc A) : Prop :=
  match p with
  | Vis o k =>
      match o return (reply o → proc A) → Prop with
      | NewMutex => λ k, ∀ m, storing key m (k m)
      | _ => λ _, False
      end k
  | _ => False
  end.

(** The body of a handler: it locks and unlocks [g] in turns, and ends with [g] free. *)
Fixpoint bracketed (n s : bool) (p : proc A) : Prop :=
  match p with
  | Vis o k =>
      (n = false → calm s (Vis o k)) ∧
      ((is_lock_op o = false ∧ ∀ r, bracketed n (s || searches_function o) (k r)) ∨
       match o return (reply o → proc A) → Prop with
       | MutexLock m' => λ k, m' = g ∧ n = false ∧ bracketed true s (k tt)
       | MutexUnlock m' => λ k, m' = g ∧ n = true ∧ bracketed false s (k tt)
       | _ => λ _, False
       end k)
  | _ => n = false
  end.
End protocol.

Definition no_locks {A} : proc A → Prop := ops (λ o, is_lock_op o = false).

(** Operations that neither lock nor take a function; or neither lock nor search one. *)
Definition untaking (o : op) : Prop := is_lock_op o || takes_function o = false.
Definition unsearching (o : op) : Prop := is_lock_op o || searches_function o = false.

Lemma untaking_no_locks {A} (p : proc A) : ops untaking p → no_locks p.
Proof. apply ops_mono. by intros o [? _]%orb_false_iff. Qed.
Lemma untaking_never {A} (p : proc A) : ops untaking p → never takes_function p.
Proof. apply ops_mono. by intros o [_ ?]%orb_false_iff. Qed.

(** A handler's answer, forgotten. *)
Definition thread {A} (p : proc A) : proc unit := proc_bind (λ _, Ret tt) p.

Section threads.
Context (g : nat).

Lemma calm_bind {A B} s (f : A → proc B) o k :
  calm s (Vis o k) → (∀ a, never takes_function (f a)) → calm s (Vis o (λ r, proc_bind f (k r))).
Proof.
  intros [[-> Ho]|Hn] Hf; [by left|right]. by apply (ops_bind _ f (Vis o k)).
Qed.

(** A handler whose result is only worked on follows the protocol as the handler does. *)
Section result.
Context {A B : Type} (f : A → proc B).
Hypothesis f_pure : ∀ a, finished (f a).

Lemma pure_never a : never takes_function (f a).
Proof. specialize (f_pure a). by destruct (f a). Qed.

Lemma inside_result n s m (p : proc A) : inside g n s m p → inside g n s m (proc_bind f p).
Proof.
  revert n s. induction p as [a|why|o k IH]; simpl; [done..|]. intros n s [Hcalm Hp].
  split; [intros Hn; apply (calm_bind s f); [auto|apply pure_never]|]. destruct Hp as [[Ho Hk]|Hu].
  - left. split; [done|]. intros r. apply IH, Hk.
  - right. destruct o; try done.
    + destruct Hu as (? & ? & Hk). split_and!; [done..|]. by apply IH.
    + destruct n, Hu as [? Hf]; (split; [done|]); [by apply IH|].
      destruct (k tt); [apply f_pure|done..].
Qed.

Lemma guarded_result key (p : proc A) : guarded g key p → guarded g key (p ≫= f).
Proof.
  destruct p as [a|why|o k]; [done..|]. destruct o; try done. simpl. intros Hk m.
  specialize (Hk m). destruct (k m) as [a|why|o k1]; [done..|]. destruct o; try done.
  destruct Hk as (? & ? & Hk). simpl. split_and!; [done..|]. intros m'. specialize (Hk m').
  destruct (k1 m') as [a|why|o k2]; [done..|]. destruct o; try done.
  destruct Hk as [? Hk]. simpl. split; [done|]. by apply inside_result.
Qed.
End result.

Lemma guarded_thread {A} key (p : proc A) : guarded g key p → guarded g key (thread p).
Proof. by apply (guarded_result (λ _, Ret tt)). Qed.

(** ** Bodies *)

(** Nothing is taken, or nothing searched. *)
Lemma bracketed_untaking {A} s (p : proc A) : ops untaking p → bracketed g false s p.
Proof.
  revert s. induction p as [a|why|o k IH]; [done..|]. intros s Hp. split.
  { intros _. right. by apply untaking_never. }
  left. destruct Hp as [[Ho _]%orb_false_iff Hk]. split; [done|]. intros r. apply IH, Hk.
Qed.

Lemma bracketed_before {A B} (f : A → proc B) (p : proc A) :
  ops unsearching p → (∀ a, bracketed g false false (f a)) → bracketed g false false (p ≫= f).
Proof.
  intros Hp Hf. induction p as [a|why|o k IH]; [apply Hf|done|].
  destruct Hp as [[Ho Hs]%orb_false_iff Hk]. split.
  { intros _. left. split; [done|]. simpl. by rewrite Hs. }
  left. split; [done|]. intros r. rewrite Hs. by apply IH.
Qed.

Lemma bracketed_unsearching {A} (p : proc A) : ops unsearching p → bracketed g false false p.
Proof.
  induction p as [a|why|o k IH]; [done..|]. intros [[Ho Hs]%orb_false_iff Hk]. split.
  { intros _. left. split; [done|]. simpl. by rewrite Hs. }
  left. split; [done|]. intros r. rewrite Hs. by apply IH.
Qed.

Lemma bracketed_after {A B} (f : A → proc B) (p : proc A) n s :
  bracketed g n s p → (∀ a, ops untaking (f a)) → bracketed g n s (p ≫= f).
Proof.
  intros Hp Hf. revert n s Hp. induction p as [a|why|o k IH]; intros n s Hp.
  - simpl in *. subst. by apply bracketed_untaking.
  - done.
  - destruct Hp as [Hcalm Hp]. split.
    { intros Hn. apply (calm_bind s f); [auto|]. intros a. by apply untaking_never. }
    destruct Hp as [[Ho Hk]|Ho].
    + left. split; [done|]. intros r. by apply IH.
    + right. destruct o; try done; destruct Ho as (? & ? & Hk); (split_and!; [done..|]); by apply IH.
Qed.

Lemma bracketed_st_before {S A B} (f : A → st S B) (m : st S A) s :
  ops unsearching (m s) → (∀ a s', bracketed g false false (f a s')) →
  bracketed g false false ((m ≫= f) s).
Proof. intros Hm Hf. apply (bracketed_before (λ '(a, s'), f a s')); [done|]. by intros []. Qed.

Lemma bracketed_st_after {S A B} (f : A → st S B) (m : st S A) s :
  bracketed g false false (m s) → (∀ a, ops_st untaking (f a)) →
  bracketed g false false ((m ≫= f) s).
Proof.
  intros Hm Hf. apply (bracketed_after (λ '(a, s'), f a s')); [done|]. intros [a s']. apply Hf.
Qed.

Lemma bracketed_st_get {S A} (f : S → st S A) s :
  bracketed g false false (f s s) → bracketed g false false ((get ≫= f) s).
Proof. done. Qed.

(** [g.Lock(); defer g.Unlock(); body] *)
Lemma bracketed_lock {A} (body : proc A) :
  no_locks body →
  bracketed g false false (perform (MutexLock g) ≫= λ _, with_defer (perform (MutexUnlock g)) body).
Proof.
  intros Hbody. split; [intros _; left; by split; [|intros [=]]|]. right. split_and!; [done..|].
  simpl. generalize false at 1. induction body as [a|why|o k IH]; intros s.
  - split; [done|]. by right.
  - split; [done|]. by right.
  - destruct Hbody as [Ho Hk]. split; [done|]. left. split; [done|]. intros r. apply IH, Hk.
Qed.

(** [with_lock] follows the protocol, if its body does. *)
Lemma never_defer {A} P d (p : proc A) : never P p → never P d → never P (with_defer d p).
Proof.
  intros Hp Hd. induction p as [a|why|o k IH]; simpl.
  - by apply (ops_bind _ (λ _, Ret a) d).
  - by apply (ops_bind _ (λ _, Panic why) d).
  - destruct Hp as [Ho Hk]. split; [done|]. intros r. apply IH, Hk.
Qed.

Lemma inside_defer {A} n s m (body : proc A) :
  bracketed g n s body → inside g n s m (with_defer (perform (MutexUnlock m)) body).
Proof.
  revert n s. induction body as [a|why|o k IH]; intros n s Hb.
  - simpl in Hb. subst. split; [by right|by right].
  - simpl in Hb. subst. split; [by right|by right].
  - destruct Hb as [Hcalm Hb]. split.
    { intros Hn. destruct (Hcalm Hn) as [[-> Ho]|Hnever]; [by left|right].
      by apply (never_defer _ _ (Vis o k)). }
    destruct Hb as [[Ho Hk]|Ho].
    + left. split; [done|]. intros r. apply IH, Hk.
    + right. destruct o; try done; destruct Ho as (-> & -> & Hk); (split_and!; [done..|]); by apply IH.
Qed.

Lemma guarded_with_lock {A} vl id (body : proc A) :
  bracketed g false false body → guarded g (mutexes vl, id) (with_lock vl id body).
Proof.
  intros Hbody m. simpl. split_and!; [done..|]. intros m'. simpl. split; [done|].
  by apply inside_defer.
Qed.
End threads.

(** Every operation has an answer. *)
Lemma go_ok_inhabited o : ∃ r, go_ok o r.
Proof.
  destruct o; simpl;
    match goal with
    | |- ∃ _ : list string, _ => by eexists
    | |- ∃ _ : http_reply, _ => by exists (HttpFail "")
    | |- ∃ _ : Z, _ => by exists 0%Z
    | |- ∃ _ : nat, _ => by exists 0
    | |- ∃ _ : unit, _ => by exists tt
    | |- ∃ _ : string, _ => by exists ""
    | |- ∃ _ : sma_reply, _ => by exists SmaNil
    | |- ∃ _ : exec_reply, _ => by exists ExecOk
    | |- ∃ _ : option _, _ => by exists None
    | |- ∃ _ : bool * _, _ => by exists (true, None)
    | |- ∃ _ : sum (bool * _) _, _ => by exists (inl (true, ""))
    | |- ∃ _ : sum string _, _ => by exists (inl "")
    end.
Qed.

(** ** The invariant *)

(** How far a thread is; inside, [n] says whether it holds [g]; and a thread that takes
    no lock (any more) is [Over] with them. *)
Variant phase := Begin | Fresh (m : nat) | Locking (m : nat) | Inside (n : bool) (m : nat) | Over.

Section invariant.
Context (g : nat).

(** A thread that has only dealt with locks. *)
Definition idle (h : list op) : Prop := Forall (λ o, is_lock_op o = true) h.

(** A thread with its history, by the key of its lock if it takes one. *)
Definition at_phase (key : option (nat * string)) (ph : phase) (t : list op * proc unit) : Prop :=
  match key, ph with
  | Some key, Begin => guarded g key t.2 ∧ idle t.1
  | Some key, Fresh m => storing g key m t.2 ∧ idle t.1
  | Some key, Locking m => locking g m t.2 ∧ idle t.1
  | Some key, Inside n m =>
      ∃ s, inside g n s m t.2 ∧ (s = false → Forall (λ o, searches_function o = false) t.1)
  | Some _, Over => finished t.2
  | None, Over => ops untaking t.2
  | None, _ => False
  end.

(** The mutex a thread got from the table. *)
Definition has_mutex (ph : phase) (m : nat) : Prop := ph = Locking m ∨ ∃ n, ph = Inside n m.

(** The fresh mutexes are nobody else's; the table gives each key a mutex of its own,
    and never [g]; the mutexes inside are locked, and by one thread each, and so is
    [g]; and no mutex else is. *)
Record locks_inv (keys : list (option (nat * string))) (phs : list phase) (l : lock_state) : Prop := {
  inv_global : g < ls_next l;
  inv_fresh i m : phs !! i = Some (Fresh m) →
    m ≠ g ∧ m < ls_next l ∧ (∀ key, ls_table l !! key ≠ Some m) ∧
    ∀ j, phs !! j = Some (Fresh m) → j = i;
  inv_table key m : ls_table l !! key = Some m →
    m ≠ g ∧ m < ls_next l ∧ ∀ key', ls_table l !! key' = Some m → key' = key;
  inv_mutex i key ph m : keys !! i = Some (Some key) → phs !! i = Some ph → has_mutex ph m →
    ls_table l !! key = Some m;
  inv_inside i n m : phs !! i = Some (Inside n m) →
    m ≠ g ∧ m ∈ ls_held l ∧ ∀ j n', phs !! j = Some (Inside n' m) → j = i;
  inv_nested i m : phs !! i = Some (Inside true m) →
    g ∈ ls_held l ∧ ∀ j m', phs !! j = Some (Inside true m') → j = i;
  inv_held m : m ∈ ls_held l →
    (∃ i n, phs !! i = Some (Inside n m)) ∨ m = g ∧ ∃ i m', phs !! i = Some (Inside true m')
}.

(** The threads of a run with their histories. *)
Definition histories (tr : list (nat * op)) (ps : list (proc unit)) : list (list op * proc unit) :=
  imap (λ i p, (history tr i, p)) ps.

Definition pool_inv (keys : list (option (nat * string))) (tr : list (nat * op)) (s : pool) : Prop :=
  ∃ phs, locks_inv keys phs s.1 ∧ Forall3 at_phase keys phs (histories tr s.2).

Lemma histories_lookup tr ps i p :
  ps !! i = Some p → histories tr ps !! i = Some (history tr i, p).
Proof. intros Hi. unfold histories. by rewrite list_lookup_imap, Hi. Qed.

Lemma histories_elem tr ps i t :
  histories tr ps !! i = Some t → ∃ p, t = (history tr i, p) ∧ ps !! i = Some p.
Proof. unfold histories. rewrite list_lookup_imap. intros (p & Hp & ->)%fmap_Some. by exists p. Qed.

Lemma history_snoc tr i j o :
  history (tr ++ [(i, o)]) j = history tr j ++ (if decide (i = j) then [o] else []).
Proof. unfold history. rewrite omap_app. simpl. by case_decide. Qed.

Lemma histories_act tr ps i o q :
  histories (tr ++ [(i, o)]) (<[i := q]> ps) = <[i := (history tr i ++ [o], q)]> (histories tr ps).
Proof.
  apply list_eq. intros j. unfold histories. rewrite list_lookup_imap.
  destruct (decide (j = i)) as [->|Hne].
  - destruct (ps !! i) as [p|] eqn:Hi.
    + rewrite !list_lookup_insert_eq;
        [|rewrite length_imap; by eapply lookup_lt_Some|by eapply lookup_lt_Some].
      simpl. by rewrite history_snoc, decide_True.
    + apply lookup_ge_None in Hi.
      by rewrite !list_insert_ge, !list_lookup_imap, lookup_ge_None_2 by (by rewrite ?length_imap).
  - rewrite !list_lookup_insert_ne, list_lookup_imap by done.
    destruct (ps !! j); [|done]. simpl. by rewrite history_snoc, decide_False, app_nil_r.
Qed.

Section preservation.
Context (keys : list (option (nat * string))).
Implicit Types (phs : list phase) (l : lock_state).

Ltac lookup_cases :=
  repeat match goal with
  | H : <[_ := _]> _ !! _ = Some _ |- _ =>
      apply list_lookup_insert_Some in H as [(? & ? & ?)|[? H]]; simplify_eq
  end.

(** A witness among the other threads stays one when thread [i] changes its phase. *)
Lemma held_others phs i ph ph' m :
  phs !! i = Some ph → (∀ n m', ph ≠ Inside n m') →
  (∃ j n, phs !! j = Some (Inside n m)) ∨ m = g ∧ (∃ j m', phs !! j = Some (Inside true m')) →
  (∃ j n, <[i := ph']> phs !! j = Some (Inside n m)) ∨
  m = g ∧ (∃ j m', <[i := ph']> phs !! j = Some (Inside true m')).
Proof.
  intros Hi Hph [(j & n & Hj)|(-> & j & m' & Hj)]; [left|right; split; [done|]];
    do 2 eexists; (rewrite list_lookup_insert_ne; [exact Hj|]); intros ->; congruence.
Qed.

(** The steps of the protocol keep the invariant. *)
Lemma inv_new phs l i :
  phs !! i = Some Begin → locks_inv keys phs l →
  locks_inv keys (<[i := Fresh (ls_next l)]> phs) (mkLockState (S (ls_next l)) (ls_table l) (ls_held l)).
Proof.
  intros Hi [Hg Hf Ht Hm Hin Hn Hh]. split; simpl.
  - lia.
  - intros j m Hj. lookup_cases.
    + split_and!; [lia|lia| |].
      * intros key Hk. apply Ht in Hk. lia.
      * intros j' Hj'. lookup_cases; [done|]. apply Hf in Hj'. lia.
    + destruct (Hf j m Hj) as (? & ? & ? & Hu). split_and!; [done|lia|done|].
      intros j' Hj'. lookup_cases; [lia|auto].
  - intros key m Hk. destruct (Ht key m Hk) as (? & ? & ?). split_and!; [done|lia|done].
  - intros j key ph m Hkey Hj Hmx. lookup_cases; [by destruct Hmx as [|[]]|eauto].
  - intros j n m Hj. lookup_cases. destruct (Hin j n m Hj) as (? & ? & Hu). split_and!; [done..|].
    intros j' n' Hj'. lookup_cases. eauto.
  - intros j m Hj. lookup_cases. destruct (Hn j m Hj) as [? Hu]. split; [done|].
    intros j' m' Hj'. lookup_cases. eauto.
  - intros m Hm'. by eapply held_others; [| |apply Hh].
Qed.

(** The thread has the mutex of its key: the table's, or the fresh one it stores. *)
Lemma inv_load phs l i key m m' :
  keys !! i = Some (Some key) → phs !! i = Some (Fresh m) → ls_table l !! key = Some m' →
  locks_inv keys phs l → locks_inv keys (<[i := Locking m']> phs) l.
Proof.
  intros Hkey Hi Hk [Hg Hf Ht Hm Hin Hn Hh]. split; [done| |done|..].
  - intros j m1 Hj. lookup_cases. destruct (Hf j m1 Hj) as (? & ? & ? & Hu). split_and!; [done..|].
    intros j' Hj'. lookup_cases. auto.
  - intros j key' ph m1 Hkey' Hj Hmx. lookup_cases; [by destruct Hmx as [|[]]; simplify_eq|eauto].
  - intros j n m1 Hj. lookup_cases. destruct (Hin j n m1 Hj) as (? & ? & Hu). split_and!; [done..|].
    intros j' n' Hj'. lookup_cases. eauto.
  - intros j m1 Hj. lookup_cases. destruct (Hn j m1 Hj) as [? Hu]. split; [done|].
    intros j' m2 Hj'. lookup_cases. eauto.
  - intros m1 Hm1. by eapply held_others; [| |apply Hh].
Qed.

Lemma inv_store phs l i key m :
  keys !! i = Some (Some key) → phs !! i = Some (Fresh m) → ls_table l !! key = None →
  locks_inv keys phs l →
  locks_inv keys (<[i := Locking m]> phs)
    (mkLockState (ls_next l) (<[key := m]> (ls_table l)) (ls_held l)).
Proof.
  intros Hkey Hi Hk [Hg Hf Ht Hm Hin Hn Hh].
  destruct (Hf i m Hi) as (Hmg & Hlt & Hnew & Huniq).
  split; simpl; [done|..].
  - intros j m1 Hj. lookup_cases. destruct (Hf j m1 Hj) as (? & ? & Hno & Hu). split_and!; [done..| |].
    + intros key'. destruct (decide (key' = key)) as [->|].
      * rewrite lookup_insert_eq. intros [= ->]. by apply Huniq in Hj.
      * by rewrite lookup_insert_ne.
    + intros j' Hj'. lookup_cases. auto.
  - intros key1 m1 [[<- <-]|[Hne Hk1]]%lookup_insert_Some.
    + split_and!; [done..|]. intros key' [[<- _]|[_ Hk']]%lookup_insert_Some; [done|by apply Hnew in Hk'].
    + destruct (Ht key1 m1 Hk1) as (? & ? & Hu). split_and!; [done..|].
      intros key' [[<- ->]|[_ Hk']]%lookup_insert_Some; [by apply Hnew in Hk1|auto].
  - intros j key' ph m1 Hkey' Hj Hmx. lookup_cases.
    + destruct Hmx as [|[]]; simplify_eq. by rewrite lookup_insert_eq.
    + assert (ls_table l !! key' = Some m1) as Hk' by eauto.
      rewrite lookup_insert_ne; [done|]. intros ->. congruence.
  - intros j n m1 Hj. lookup_cases. destruct (Hin j n m1 Hj) as (? & ? & Hu). split_and!; [done..|].
    intros j' n' Hj'. lookup_cases. eauto.
  - intros j m1 Hj. lookup_cases. destruct (Hn j m1 Hj) as [? Hu]. split; [done|].
    intros j' m2 Hj'. lookup_cases. eauto.
  - intros m1 Hm1. by eapply held_others; [| |apply Hh].
Qed.

Lemma inv_lock phs l i key m :
  keys !! i = Some (Some key) → phs !! i = Some (Locking m) → m ∉ ls_held l → locks_inv keys phs l →
  locks_inv keys (<[i := Inside false m]> phs)
    (mkLockState (ls_next l) (ls_table l) ({[m]} ∪ ls_held l)).
Proof.
  intros Hkey Hi Hfree [Hg Hf Ht Hm Hin Hn Hh].
  assert (i < length phs) as Hlen by by eapply lookup_lt_Some.
  assert (m ≠ g) as Hmg by (eapply Ht, Hm; [done|done|by left]).
  split; simpl; [done| |done|..].
  - intros j m1 Hj. lookup_cases. destruct (Hf j m1 Hj) as (? & ? & ? & Hu). split_and!; [done..|].
    intros j' Hj'. lookup_cases. auto.
  - intros j key' ph m1 Hkey' Hj Hmx. lookup_cases; [|eauto].
    destruct Hmx as [|[n ?]]; simplify_eq. eapply Hm; [done..|by left].
  - intros j n m1 Hj. lookup_cases.
    + split_and!; [done|set_solver|]. intros j' n' Hj'. lookup_cases; [done|].
      by apply Hin in Hj' as (_ & ? & _).
    + destruct (Hin j n m1 Hj) as (? & ? & Hu). split_and!; [done|set_solver|].
      intros j' n' Hj'. lookup_cases; eauto.
  - intros j m1 Hj. lookup_cases. destruct (Hn j m1 Hj) as [? Hu]. split; [set_solver|].
    intros j' m2 Hj'. lookup_cases. eauto.
  - intros m1 [->%elem_of_singleton|Hm1]%elem_of_union.
    + left. exists i, false. by rewrite list_lookup_insert_eq.
    + by eapply held_others; [| |apply Hh].
Qed.

Lemma inv_unlock phs l i m :
  phs !! i = Some (Inside false m) → locks_inv keys phs l →
  locks_inv keys (<[i := Over]> phs)
    (mkLockState (ls_next l) (ls_table l) (ls_held l ∖ {[m]})).
Proof.
  intros Hi [Hg Hf Ht Hm Hin Hn Hh]. destruct (Hin i false m Hi) as (Hmg & Hheld & Huniq).
  split; simpl; [done| |done|..].
  - intros j m1 Hj. lookup_cases. destruct (Hf j m1 Hj) as (? & ? & ? & Hu). split_and!; [done..|].
    intros j' Hj'. lookup_cases. auto.
  - intros j key' ph m1 Hkey' Hj Hmx. lookup_cases; [by destruct Hmx as [|[]]|eauto].
  - intros j n m1 Hj. lookup_cases. destruct (Hin j n m1 Hj) as (? & ? & Hu). split_and!; [done|..].
    + apply elem_of_difference. split; [done|]. intros ->%elem_of_singleton.
      by apply Huniq in Hj.
    + intros j' n' Hj'. lookup_cases; eauto.
  - intros j m1 Hj. lookup_cases. destruct (Hn j m1 Hj) as [? Hu]. split; [set_solver|].
    intros j' m2 Hj'. lookup_cases. eauto.
  - intros m1 [Hm1 Hne]%elem_of_difference.
    destruct (Hh m1 Hm1) as [(j & n & Hj)|(-> & j & m' & Hj)]; [left|right; split; [done|]];
      do 2 eexists; (rewrite list_lookup_insert_ne; [exact Hj|]); intros ->; set_solver.
Qed.

(** [g] taken and given back by a thread inside: [n] is the thread's new state. *)
Lemma inv_inside_insert phs l held i n n' m :
  phs !! i = Some (Inside n m) → locks_inv keys phs l →
  (∀ j n1 m1, phs !! j = Some (Inside n1 m1) → m1 ∈ held) →
  (∀ j m1, phs !! j = Some (Inside true m1) → j ≠ i → n' = false ∧ g ∈ held) →
  (n' = true → g ∈ held) →
  (∀ m1, m1 ∈ held → m1 ∈ ls_held l ∧ (m1 = g → n = false) ∨ m1 = g ∧ n' = true) →
  locks_inv keys (<[i := Inside n' m]> phs) (mkLockState (ls_next l) (ls_table l) held).
Proof.
  intros Hi [Hg Hf Ht Hm Hin Hn Hh] Hin' Hoth Hself Hheld.
  assert (i < length phs) as Hlen by by eapply lookup_lt_Some.
  split; simpl; [done| |done|..].
  - intros j m1 Hj. lookup_cases. destruct (Hf j m1 Hj) as (? & ? & ? & Hu). split_and!; [done..|].
    intros j' Hj'. lookup_cases. auto.
  - intros j key' ph m1 Hkey' Hj Hmx. lookup_cases; [|eauto].
    destruct Hmx as [|[n1 ?]]; simplify_eq. eapply Hm; [done..|right; eauto].
  - intros j n1 m1 Hj. lookup_cases.
    + destruct (Hin j n m1 Hi) as (? & _ & Hu). split_and!; [done|by eapply Hin'|].
      intros j' n2 Hj'. lookup_cases; eauto.
    + destruct (Hin j n1 m1 Hj) as (? & _ & Hu). split_and!; [done|by eapply Hin'|].
      intros j' n2 Hj'. lookup_cases; eauto.
  - intros j m1 Hj. lookup_cases.
    + split; [auto|]. intros j' m2 Hj'. lookup_cases; [done|].
      by destruct (Hoth j' m2 Hj') as [? _]; [congruence|].
    + destruct (Hoth j m1 Hj) as [-> ?]; [congruence|]. split; [done|].
      intros j' m2 Hj'. lookup_cases. destruct (Hn j m1 Hj) as [_ Hu]. eauto.
  - intros m1 [[Hm1 Hng]|[-> ->]]%Hheld.
    + destruct (Hh m1 Hm1) as [(j & n1 & Hj)|(-> & j & m' & Hj)].
      * left. destruct (decide (j = i)) as [->|]; [|exists j, n1; by rewrite list_lookup_insert_ne].
        exists i, n'. rewrite list_lookup_insert_eq by done. congruence.
      * right. split; [done|]. exists j, m'. rewrite list_lookup_insert_ne; [done|].
        intros ->. rewrite Hi in Hj. injection Hj as -> _. by discriminate (Hng eq_refl).
    + right. split; [done|]. exists i, m. by rewrite list_lookup_insert_eq.
Qed.

Lemma inv_enter phs l i m :
  phs !! i = Some (Inside false m) → g ∉ ls_held l → locks_inv keys phs l →
  locks_inv keys (<[i := Inside true m]> phs)
    (mkLockState (ls_next l) (ls_table l) ({[g]} ∪ ls_held l)).
Proof.
  intros Hi Hfree Hinv. apply (inv_inside_insert _ _ _ _ false); [done..| | | |].
  - intros j n1 m1 Hj. apply (inv_inside _ _ _ Hinv) in Hj. set_solver.
  - intros j m1 Hj _. by apply (inv_nested _ _ _ Hinv) in Hj as [? _].
  - set_solver.
  - set_solver.
Qed.

Lemma inv_leave phs l i m :
  phs !! i = Some (Inside true m) → locks_inv keys phs l →
  locks_inv keys (<[i := Inside false m]> phs)
    (mkLockState (ls_next l) (ls_table l) (ls_held l ∖ {[g]})).
Proof.
  intros Hi Hinv. apply (inv_inside_insert _ _ _ _ true); [done..| | |done|].
  - intros j n1 m1 Hj. apply (inv_inside _ _ _ Hinv) in Hj. set_solver.
  - intros j m1 Hj Hji. apply (inv_nested _ _ _ Hinv) in Hi as [_ Hu]. by apply Hu in Hj.
  - intros m1 [? ?]%elem_of_difference. left. split; [done|]. set_solver.
Qed.

Lemma Forall3_insert_mr phs ps i key ph p :
  Forall3 at_phase keys phs ps → keys !! i = Some key → at_phase key ph p →
  Forall3 at_phase keys (<[i := ph]> phs) (<[i := p]> ps).
Proof.
  intros H. revert i. induction H; intros [|i] Hi Hp; simplify_eq/=; constructor; auto.
Qed.

(** One more operation in a history. *)
Lemma idle_snoc h o : idle h → is_lock_op o = true → idle (h ++ [o]).
Proof. intros Hh Ho. apply Forall_app. by split; [|constructor]. Qed.

Lemma idle_unsearched h : idle h → Forall (λ o, searches_function o = false) h.
Proof. intros Hh. eapply Forall_impl; [exact Hh|]. by intros []. Qed.

Lemma unsearched_snoc (s : bool) h o :
  (s = false → Forall (λ o, searches_function o = false) h) →
  s || searches_function o = false → Forall (λ o, searches_function o = false) (h ++ [o]).
Proof. intros Hh [Hs Ho]%orb_false_iff. apply Forall_app. split; [auto|by constructor]. Qed.

(** An operation that is not on locks leaves the locks alone. *)
Lemma lock_step_other l o r l' : lock_step l o r l' → is_lock_op o = false → l' = l.
Proof. intros Hl Ho. destruct o; simpl in Hl; naive_solver. Qed.

(** Every step of a pool of handlers keeps the invariant. *)
Lemma pool_inv_act tr l ps i o k r l' :
  ps !! i = Some (Vis o k) → lock_step l o r l' → pool_inv keys tr (l, ps) →
  pool_inv keys (tr ++ [(i, o)]) (l', <[i := k r]> ps).
Proof.
  intros Hi Hl (phs & Hinv & Hall). unfold pool_inv. cbn [fst snd] in *. rewrite histories_act.
  apply (histories_lookup tr) in Hi. set (h := history tr i) in *.
  destruct (Forall3_lookup_r _ _ _ _ _ _ Hall Hi) as (key & ph & Hkey & Hph & Hat).
  assert (∀ ph', locks_inv keys (<[i := ph']> phs) l' → at_phase key ph' (h ++ [o], k r) →
    ∃ phs', locks_inv keys phs' l' ∧ Forall3 at_phase keys phs' (<[i := (h ++ [o], k r)]> (histories tr ps)))
    as Hto.
  { intros ph' Hinv' Hat'. exists (<[i := ph']> phs). split; [done|].
    by apply (Forall3_insert_mr _ _ _ key). }
  destruct key as [key|]; [|destruct ph; try done].
  2:{ destruct Hat as [[Ho _]%orb_false_iff Hk]. rewrite (lock_step_other _ _ _ _ Hl Ho) in *.
      apply (Hto Over); [by rewrite list_insert_id|]. apply Hk. }
  destruct ph as [|m|m|n m|]; cbn [at_phase fst snd] in Hat.
  - destruct Hat as [Hat Hidle]. destruct o; try done. destruct Hl as [-> ->].
    apply (Hto (Fresh (ls_next l))); [by apply inv_new|]. split; [apply Hat|by apply idle_snoc].
  - destruct Hat as [Hat Hidle]. destruct o; try done. rename key0 into id.
    destruct Hat as (<- & -> & Hk). simpl in Hl.
    apply (Hto (Locking r)); [|split; [apply Hk|by apply idle_snoc]].
    destruct (ls_table l !! (vl, id)) as [m1|] eqn:Ht; destruct Hl as [-> ->].
    + by eapply inv_load.
    + by eapply inv_store.
  - destruct Hat as [Hat Hidle]. destruct o; try done. destruct Hat as [-> Hk]. destruct r, Hl as [Hfree ->].
    apply (Hto (Inside false m)); [by eapply inv_lock|]. exists false. split; [done|].
    intros _. by apply idle_unsearched, idle_snoc.
  - destruct Hat as (s & [_ Hat] & Hs). destruct Hat as [[Ho Hk]|Hu].
    { rewrite (lock_step_other _ _ _ _ Hl Ho) in *.
      apply (Hto (Inside n m)); [by rewrite list_insert_id|].
      exists (s || searches_function o). split; [apply Hk|]. by apply unsearched_snoc. }
    destruct o; try done; destruct r, Hl as [Hheld ->].
    + destruct Hu as (-> & -> & Hk). apply (Hto (Inside true m)); [by apply inv_enter|].
      exists s. split; [done|]. intros Hsf. apply (unsearched_snoc s); [done|]. by rewrite Hsf.
    + destruct n, Hu as [-> Hk].
      * apply (Hto (Inside false m)); [by apply inv_leave|].
        exists s. split; [done|]. intros Hsf. apply (unsearched_snoc s); [done|]. by rewrite Hsf.
      * apply (Hto Over); [by apply inv_unlock|done].
  - done.
Qed.

Lemma pool_inv_run tr s s' : pool_run s tr s' → pool_inv keys [] s → pool_inv keys tr s'.
Proof. induction 1; eauto using pool_inv_act. Qed.

Lemma pool_inv_steps s s' :
  rtc pool_step s s' → ∀ tr, pool_inv keys tr s → ∃ tr', pool_inv keys tr' s'.
Proof.
  induction 1 as [s|s1 s2 s3 [l ps i o k r l' Hi Hl] _ IH]; intros tr Hinv; [by exists tr|].
  eapply IH. by eapply pool_inv_act.
Qed.

Lemma locks_inv_initial phs :
  Forall (λ ph, ph = Begin ∨ ph = Over) phs → locks_inv keys phs (initial_locks g).
Proof.
  intros Hphs.
  assert (∀ i ph, phs !! i = Some ph → ph = Begin ∨ ph = Over) as Hph
    by (intros i ph Hi; by eapply Forall_lookup_1 in Hphs).
  split; simpl.
  - lia.
  - intros i m Hi. by destruct (Hph _ _ Hi).
  - by intros key m.
  - intros i key ph m _ Hi. by destruct (Hph _ _ Hi) as [-> | ->]; intros [|[]].
  - intros i n m Hi. by destruct (Hph _ _ Hi).
  - intros i m Hi. by destruct (Hph _ _ Hi).
  - intros m Hm. set_solver.
Qed.

Lemma pool_inv_initial ps :
  Forall2 (λ key p, match key with Some key => guarded g key p | None => ops untaking p end) keys ps →
  pool_inv keys [] (initial_locks g, ps).
Proof.
  intros Hps.
  exists ((λ key, match key with Some _ => Begin | None => Over end) <$> keys). split.
  { apply locks_inv_initial, Forall_fmap, Forall_true. intros []; [by left|by right]. }
  cbn [snd]. change (histories [] ps) with (imap (const (λ p, ([] : list op, p))) ps).
  rewrite imap_const. induction Hps as [|[key|] p keys' ps' Hp _ IH]; constructor; try done.
  by split; [|constructor].
Qed.
End preservation.

(** ** Mutual exclusion, progress, termination *)

Lemma unsearched_Exists h :
  Forall (λ o, searches_function o = false) h → ¬ Exists (λ o, searches_function o = true) h.
Proof. intros Hh Hex. apply Exists_exists in Hex as (o & Ho & Hs). eapply Forall_forall in Hh; [|done]. congruence. Qed.

Lemma idle_Exists h : idle h → ¬ Exists (λ o, work o = true) h.
Proof.
  intros Hh Hex. apply Exists_exists in Hex as (o & Ho & Hs). eapply Forall_forall in Hh; [|done].
  unfold work in Hs. by rewrite Hh in Hs.
Qed.

(** A thread at work has its lock; one that chooses a function has [g], too. *)
Lemma working_phase key ph h p :
  at_phase (Some key) ph (h, p) → working h p → ∃ n m, ph = Inside n m.
Proof.
  intros Hat [Hfirst Hmay]. destruct ph as [|m|m|n m|]; cbn [at_phase fst snd] in Hat; [..|by exists n, m|by destruct p];
    destruct Hat as [Hat Hidle], Hfirst as [Hex|Hop];
    solve [by apply idle_Exists in Hidle | destruct p as [| |o k]; [done..|]; by destruct o].
Qed.

Lemma choosing_phase key ph h p :
  at_phase key ph (h, p) → choosing h p → ∃ m, ph = Inside true m.
Proof.
  intros Hat [Hfirst Hmay]. destruct key as [key|].
  2:{ destruct ph; try done. exfalso. by eapply never_may, Hmay; apply untaking_never. }
  destruct ph as [|m|m|n m|]; cbn [at_phase fst snd] in Hat; [| | | |by destruct p].
  1-3: destruct Hat as [Hat Hidle%idle_unsearched], Hfirst as [Hex|Hop];
    solve [by apply unsearched_Exists in Hidle | destruct p as [| |o k]; [done..|]; by destruct o].
  destruct Hat as (s & Hin & Hs). destruct n; [by exists m|]. exfalso.
  destruct p as [| |o k]; [done..|]. destruct Hin as [Hcalm _].
  destruct (Hcalm eq_refl) as [[-> Ho]|Hn]; [|by eapply never_may].
  destruct Hfirst as [Hex|Hop]; [|done]. by eapply unsearched_Exists; [apply Hs|].
Qed.

Lemma pool_inv_working keys tr l ps i j key p q :
  pool_inv keys tr (l, ps) →
  keys !! i = Some (Some key) → keys !! j = Some (Some key) →
  ps !! i = Some p → ps !! j = Some q →
  working (history tr i) p → working (history tr j) q → i = j.
Proof.
  intros (phs & Hinv & Hall) Hi Hj Hp Hq Hwp Hwq. cbn [fst snd] in *.
  apply (histories_lookup tr) in Hp, Hq.
  destruct (Forall3_lookup_r _ _ _ _ _ _ Hall Hp) as (? & ph1 & ? & Hph1 & Hat1).
  destruct (Forall3_lookup_r _ _ _ _ _ _ Hall Hq) as (? & ph2 & ? & Hph2 & Hat2).
  simplify_eq.
  destruct (working_phase _ _ _ _ Hat1 Hwp) as (n1 & m1 & ->).
  destruct (working_phase _ _ _ _ Hat2 Hwq) as (n2 & m2 & ->).
  assert (ls_table l !! key = Some m1) as H1
    by (eapply (inv_mutex _ _ _ Hinv i); [done|done|right; by eexists]).
  assert (ls_table l !! key = Some m2) as H2
    by (eapply (inv_mutex _ _ _ Hinv j); [done|done|right; by eexists]).
  simplify_eq. symmetry. by eapply (inv_inside _ _ _ Hinv i).
Qed.

Lemma pool_inv_choosing keys tr l ps i j p q :
  pool_inv keys tr (l, ps) → ps !! i = Some p → ps !! j = Some q →
  choosing (history tr i) p → choosing (history tr j) q → i = j.
Proof.
  intros (phs & Hinv & Hall) Hp Hq Hcp Hcq. cbn [fst snd] in *.
  apply (histories_lookup tr) in Hp, Hq.
  destruct (Forall3_lookup_r _ _ _ _ _ _ Hall Hp) as (? & ph1 & _ & Hph1 & Hat1).
  destruct (Forall3_lookup_r _ _ _ _ _ _ Hall Hq) as (? & ph2 & _ & Hph2 & Hat2).
  destruct (choosing_phase _ _ _ _ Hat1 Hcp) as [m1 ->].
  destruct (choosing_phase _ _ _ _ Hat2 Hcq) as [m2 ->].
  symmetry. by eapply (inv_nested _ _ _ Hinv i).
Qed.

(** An operation other than locking a mutex that is taken can be performed. *)
Lemma lock_step_possible l o :
  match o with MutexLock m => m ∉ ls_held l | MutexUnlock m => m ∈ ls_held l | _ => True end →
  ∃ r l', lock_step l o r l'.
Proof.
  intros Ho. destruct (go_ok_inhabited o) as [r Hr].
  destruct o; simpl in *; try (by exists r, l); try (by exists tt; eexists; split);
    [by eexists _, _|]. case_match; by eexists _, _.
Qed.

(** A thread that has not finished can go on, or waits for a mutex that is held. *)
Lemma thread_progress keys phs tr l ps i key ph p :
  locks_inv keys phs l → keys !! i = Some key → phs !! i = Some ph →
  at_phase key ph (history tr i, p) → ps !! i = Some p → ¬ finished p →
  (∃ s', pool_step (l, ps) s') ∨
  (∃ m, ph = Locking m ∧ m ∈ ls_held l) ∨ (∃ m, ph = Inside false m ∧ g ∈ ls_held l).
Proof.
  intros Hinv Hkey Hph Hat Hp Hunf. destruct p as [a|why|o k]; [by destruct Hunf..|].
  assert (match o with MutexLock m => m ∉ ls_held l | MutexUnlock m => m ∈ ls_held l | _ => True end →
    ∃ s', pool_step (l, ps) s') as Hstep.
  { intros Ho. destruct (lock_step_possible l o Ho) as (r & l' & Hl).
    eexists. by eapply pool_act. }
  destruct key as [key|]; [|destruct ph; try done].
  2:{ left. apply Hstep. destruct Hat as [[Ho _]%orb_false_iff _]. by destruct o. }
  destruct ph as [|m|m|n m|]; cbn [at_phase fst snd] in Hat; [| | | |by destruct Hunf].
  1,2: destruct Hat as [Hat _]; left; apply Hstep; by destruct o.
  - destruct Hat as [Hat _]. destruct o; try done. destruct Hat as [-> _].
    destruct (decide (m ∈ ls_held l)); [|by left; auto]. right. left. by exists m.
  - destruct Hat as (s & [_ Hat] & _). destruct Hat as [[Ho _]|Hat]; [left; apply Hstep; by destruct o|].
    destruct o; try done.
    + destruct Hat as (-> & -> & _). destruct (decide (g ∈ ls_held l)); [|by left; auto].
      right. right. by exists m.
    + left. apply Hstep. destruct n, Hat as [-> _].
      * by eapply (inv_nested _ _ _ Hinv).
      * by eapply (inv_inside _ _ _ Hinv).
Qed.

(** Whoever waits waits for a thread inside, which waits at most for the one that holds
    [g], which does not wait. *)
Lemma pool_inv_progress keys tr l ps i p :
  pool_inv keys tr (l, ps) → ps !! i = Some p → ¬ finished p → ∃ s', pool_step (l, ps) s'.
Proof.
  intros (phs & Hinv & Hall) Hp Hunf. cbn [fst snd] in *.
  assert (∀ j n m, phs !! j = Some (Inside n m) →
    (∃ s', pool_step (l, ps) s') ∨ n = false ∧ g ∈ ls_held l) as Hinside.
  { intros j n m Hj.
    destruct (Forall3_lookup_m _ _ _ _ _ _ Hall Hj) as (key & t & Hkey & Ht & Hat).
    apply histories_elem in Ht as (q & -> & Hq).
    destruct (thread_progress keys phs tr l ps j key (Inside n m) q) as [?|[(?&?&?)|(? & ? & ?)]];
      [done..| |by left|done|by right; simplify_eq].
    destruct key as [key|]; [|done]. destruct Hat as (s & Hin & _). intros Hf. by destruct q. }
  assert (g ∈ ls_held l → ∃ s', pool_step (l, ps) s') as Hg.
  { intros [(j & n & Hj)|(_ & j & m & Hj)]%(inv_held _ _ _ Hinv).
    - by destruct (inv_inside _ _ _ Hinv _ _ _ Hj) as [? _].
    - by destruct (Hinside _ _ _ Hj) as [?|[? _]]. }
  pose proof (histories_lookup tr _ _ _ Hp) as Ht.
  destruct (Forall3_lookup_r _ _ _ _ _ _ Hall Ht) as (key & ph & Hkey & Hph & Hat).
  destruct (thread_progress keys phs tr l ps i key ph p) as [?|[(m & -> & Hm)|(m & _ & ?)]];
    [done..| |by apply Hg].
  destruct (inv_held _ _ _ Hinv m Hm) as [(j & n & Hj)|(-> & _)]; [|by apply Hg].
  destruct (Hinside _ _ _ Hj) as [?|[_ ?]]; [done|by apply Hg].
Qed.
End invariant.

(** One handler of a list goes on with one of its continuations. *)
Definition continues (q p : proc unit) : Prop :=
  match p with Vis o k => ∃ r, q = k r | _ => False end.
Definition advance (ps' ps : list (proc unit)) : Prop :=
  ∃ i p q, ps !! i = Some p ∧ continues q p ∧ ps' = <[i := q]> ps.

Lemma advance_cons p :
  (∀ q, continues q p → ∀ ps, Acc advance ps → Acc advance (q :: ps)) →
  ∀ ps, Acc advance ps → Acc advance (p :: ps).
Proof.
  intros Hp ps Hps. induction Hps as [ps Hps IHps]. constructor.
  intros ps' ([|i] & p' & q & Hi & Hq & ->); simpl in *.
  - injection Hi as <-. apply Hp; [done|]. by constructor.
  - apply IHps. by exists i, p', q.
Qed.

Lemma advance_wf : well_founded advance.
Proof.
  intros ps. induction ps as [|p ps IHps].
  - constructor. by intros ps' (i & p & q & Hi & _).
  - revert ps IHps. induction p as [a|why|o k IHk]; apply advance_cons; [done..|].
    intros q [r ->]. apply IHk.
Qed.

Lemma pool_step_advance s s' : pool_step s s' → advance s'.2 s.2.
Proof. intros [l ps i o k r l' Hi _]. exists i, (Vis o k), (k r). by split_and!; [|exists r|]. Qed.

Lemma pool_step_wf : well_founded (flip pool_step).
Proof.
  apply (wf_incl _ _ (λ s' s, advance s'.2 s.2)).
  - intros s' s. apply pool_step_advance.
  - apply (wf_inverse_image _ _ advance snd), advance_wf.
Qed.
