(* ===== verification/CsiCommon.v ===== *)
(** The driver object, the default services that the driver's services embed, and the
    endpoint parser: pkg/csi-common without its gRPC server.

    The enumerations of the CSI protocol are protobuf [int32] values; the constants
    below are the ones the driver names. *)

From Stdlib Require Import Ascii.
From S2P Require Import Prelude.
From S2P Require Import GoLang.
From S2P Require Import JsonText.

(** ** CSI constants *)

Definition ControllerServiceCapability_RPC_UNKNOWN : Z := 0.
Definition ControllerServiceCapability_RPC_CREATE_DELETE_VOLUME : Z := 1.
Definition ControllerServiceCapability_RPC_CREATE_DELETE_SNAPSHOT : Z := 5.

Definition AccessMode_UNKNOWN : Z := 0.
Definition AccessMode_SINGLE_NODE_WRITER : Z := 1.
Definition AccessMode_SINGLE_NODE_READER_ONLY : Z := 2.
Definition AccessMode_MULTI_NODE_READER_ONLY : Z := 3.
Definition AccessMode_MULTI_NODE_SINGLE_WRITER : Z := 4.
Definition AccessMode_MULTI_NODE_MULTI_WRITER : Z := 5.
Definition AccessMode_SINGLE_NODE_SINGLE_WRITER : Z := 6.
Definition AccessMode_SINGLE_NODE_MULTI_WRITER : Z := 7.

Definition NodeServiceCapability_RPC_UNKNOWN : Z := 0.
Definition NodeServiceCapability_RPC_STAGE_UNSTAGE_VOLUME : Z := 1.
Definition PluginCapability_Service_CONTROLLER_SERVICE : Z := 1.
Definition PluginCapability_VolumeExpansion_UNKNOWN : Z := 0.

(** A volume capability: the access mode and the mount options, both optional. *)
Record VolumeCapability := mkVolumeCapability {
  cap_AccessMode : option Z;
  cap_Mount : option (string * list string)
}.

(** [cap.GetAccessMode().GetMode()] *)
Definition GetMode (cap : VolumeCapability) : Z := default AccessMode_UNKNOWN (cap_AccessMode cap).

(** ** CSIDriver *)

Record CSIDriver := mkCSIDriver {
  drv_name : string;
  drv_nodeID : string;
  drv_version : string;
  drv_cap : list Z;
  drv_vc : list Z
}.

Definition NewCSIDriver (name v nodeID : string) : option CSIDriver :=
  if bool_decide (name = "") then None
  else if bool_decide (nodeID = "") then None
  else if bool_decide (v = "") then None
  else Some (mkCSIDriver name nodeID v [] []).

(** [rpc_String] is the name the protobuf library gives an enumeration value. *)
Definition ValidateControllerServiceRequest (rpc_String : Z → string) (d : CSIDriver) (c : Z)
    : option goerror :=
  if (c =? ControllerServiceCapability_RPC_UNKNOWN)%Z then None
  else if existsb (Z.eqb c) (drv_cap d) then None
  else Some (EStatus InvalidArgument (rpc_String c)).

Definition AddControllerServiceCapabilities (cl : list Z) (d : CSIDriver) : CSIDriver :=
  mkCSIDriver (drv_name d) (drv_nodeID d) (drv_version d) cl (drv_vc d).

Definition AddVolumeCapabilityAccessModes (vc : list Z) (d : CSIDriver) : CSIDriver :=
  mkCSIDriver (drv_name d) (drv_nodeID d) (drv_version d) (drv_cap d) vc.

Definition GetVolumeCapabilityAccessModes (d : CSIDriver) : list Z := drv_vc d.

(** ** Default services *)

(** The default services hold the driver object; a method that is not overridden answers
    that it is not implemented. *)
Definition unimplemented : goerror := EStatus Unimplemented "".

Module DefaultIdentityServer.

Definition GetPluginInfo (d : CSIDriver) : gores (string * string) :=
  if bool_decide (drv_name d = "") then inl (EStatus Unavailable "Driver name not configured")
  else if bool_decide (drv_version d = "") then inl (EStatus Unavailable "Driver is missing version")
  else inr (drv_name d, drv_version d).

Definition Probe : unit := tt.

(** The types of the service capabilities. *)
Definition GetPluginCapabilities : list Z := [PluginCapability_Service_CONTROLLER_SERVICE].

End DefaultIdentityServer.

Module DefaultControllerServer.

Definition CreateVolume : goerror := unimplemented.
Definition DeleteVolume : goerror := unimplemented.
Definition ControllerPublishVolume : goerror := unimplemented.
Definition ControllerUnpublishVolume : goerror := unimplemented.
Definition ValidateVolumeCapabilities : goerror := unimplemented.
Definition ListVolumes : goerror := unimplemented.
Definition GetCapacity : goerror := unimplemented.
Definition ControllerGetVolume : goerror := unimplemented.
Definition ControllerGetCapabilities (d : CSIDriver) : list Z := drv_cap d.
Definition CreateSnapshot : goerror := unimplemented.
Definition DeleteSnapshot : goerror := unimplemented.
Definition ListSnapshots : goerror := unimplemented.
Definition ControllerExpandVolume : goerror := unimplemented.

End DefaultControllerServer.

Module DefaultNodeServer.

Definition NodePublishVolume : goerror := unimplemented.
Definition NodeUnpublishVolume : goerror := unimplemented.
Definition NodeGetInfo (d : CSIDriver) : string := drv_nodeID d.
Definition NodeGetCapabilities : list Z := [NodeServiceCapability_RPC_UNKNOWN].
Definition NodeGetVolumeStats : goerror := unimplemented.
Definition NodeStageVolume : goerror := unimplemented.
Definition NodeUnstageVolume : goerror := unimplemented.
Definition NodeExpandVolume : goerror := unimplemented.

End DefaultNodeServer.

(** ** Endpoint *)

(** [strings.SplitN(ep, "://", 2)]: the text before and after the first separator. *)
Fixpoint cut (sep s : string) : option (string * string) :=
  if HasPrefix s sep then Some (EmptyString, drop_prefix sep s)
  else match s with
  | EmptyString => None
  | String a s' => '(p, q) ← cut sep s'; Some (String a p, q)
  end.

Definition parseEndpoint (ep : string) : gores (string * string) :=
  let bad := inl (ENew ("invalid endpoint: " +:+ ep)) in
  if HasPrefix (ToLower ep) "unix://" || HasPrefix (ToLower ep) "tcp://" then
    match cut "://" ep with
    | Some (proto, addr) => if bool_decide (addr = "") then bad else inr (proto, addr)
    | None => bad
    end
  else bad.
