(* ===== verification/CsiCommonSpec.v ===== *)
(** The endpoint the driver listens on. *)

From Stdlib Require Import Ascii.
From S2P Require Import Prelude.
From S2P Require Import GoLang.
From S2P Require Import JsonText.
From S2P Require Import CsiCommon.

(** Letters apart, lower case changes nothing. *)
Lemma lower_colon a : lower_char a = chr 58 → a = chr 58.
Proof. destruct a as [[] [] [] [] [] [] [] []]; vm_compute; congruence. Qed.
Lemma lower_slash a : lower_char a = chr 47 → a = chr 47.
Proof. destruct a as [[] [] [] [] [] [] [] []]; vm_compute; congruence. Qed.

Lemma HasPrefix_spec s p : HasPrefix s p = true ↔ ∃ r, s = p +:+ r.
Proof.
  split; [|intros [r ->]; induction p as [|a p IH]; simpl; [by destruct r|by rewrite bool_decide_true]].
  revert s. induction p as [|a p IH]; intros s Hs; [by exists s|].
  destruct s as [|b s]; [done|]. cbn [HasPrefix] in Hs.
  apply andb_true_iff in Hs as [->%bool_decide_eq_true (r & ->)%IH]. by exists r.
Qed.

(** A text whose lower case begins with a scheme begins with that scheme in some case. *)
Lemma lower_scheme p s r :
  ToLower s = p +:+ "://" +:+ r →
  ∃ q r', s = q +:+ "://" +:+ r' ∧ ToLower q = p.
Proof.
  revert s. induction p as [|a p IH]; intros s Hs.
  - destruct s as [|c1 [|c2 [|c3 s]]]; try done. cbn in Hs. injection Hs as H1 H2 H3 Hr.
    apply lower_colon in H1. apply lower_slash in H2, H3. subst. by exists "", s.
  - destruct s as [|c s]; [done|]. cbn in Hs. injection Hs as Hc Hs.
    destruct (IH s Hs) as (q & r' & -> & Hq). exists (String c q), r'. split; [done|].
    cbn. by rewrite Hc, Hq.
Qed.

Lemma cut_first q r : no_char (chr 58) q = true → cut "://" (q +:+ "://" +:+ r) = Some (q, r).
Proof.
  induction q as [|a q IH]; cbn [no_char].
  - intros _. destruct r; reflexivity.
  - intros [Ha Hq]%andb_true_iff. apply negb_true_iff, bool_decide_eq_false in Ha.
    change (cut "://" (String a q +:+ "://" +:+ r)) with
      (if HasPrefix (String a q +:+ "://" +:+ r) "://" then Some ("", drop_prefix "://" (String a q +:+ "://" +:+ r))
       else '(p, t) ← cut "://" (q +:+ "://" +:+ r); Some (String a p, t)).
    destruct (HasPrefix _ _) eqn:Hp; [|by rewrite IH].
    apply HasPrefix_spec in Hp as (t & Ht). injection Ht as Ht _. by destruct Ha.
Qed.

Lemma lower_no_colon q p : ToLower q = p → no_char (chr 58) p = true → no_char (chr 58) q = true.
Proof.
  intros <-. induction q as [|a q IH]; [done|]. cbn [ToLower no_char].
  intros [Ha Hq]%andb_true_iff. rewrite (IH Hq), andb_true_r.
  apply negb_true_iff, bool_decide_eq_false in Ha. apply negb_true_iff, bool_decide_eq_false.
  intros ->. by apply Ha.
Qed.

Lemma lower_append a b : ToLower (a +:+ b) = ToLower a +:+ ToLower b.
Proof.
  induction a as [|c a IH]; [done|].
  change (String (lower_char c) (ToLower (a +:+ b)) = String (lower_char c) (ToLower a +:+ ToLower b)).
  by rewrite IH.
Qed.

(** C40: an endpoint is understood exactly when it is a scheme [unix] or [tcp], in upper or
    lower case, then [://] and a text that is not empty; and the two parts are given back
    as they were written. *)
Theorem parseEndpoint_spec ep proto addr :
  parseEndpoint ep = inr (proto, addr) ↔
  ep = proto +:+ "://" +:+ addr ∧ (ToLower proto = "unix" ∨ ToLower proto = "tcp") ∧ addr ≠ "".
Proof.
  assert (∀ q r, ToLower q = "unix" ∨ ToLower q = "tcp" → cut "://" (q +:+ "://" +:+ r) = Some (q, r)) as Hcut.
  { intros q r Hq. apply cut_first. destruct Hq as [Hq|Hq]; by eapply lower_no_colon. }
  unfold parseEndpoint. split.
  - intros H. assert (∃ q r, ep = q +:+ "://" +:+ r ∧ (ToLower q = "unix" ∨ ToLower q = "tcp")) as (q & r & -> & Hq).
    { destruct (HasPrefix (ToLower ep) "unix://") eqn:H1; [|destruct (HasPrefix (ToLower ep) "tcp://") eqn:H2; [|done]].
      - apply HasPrefix_spec in H1 as [r Hr]. destruct (lower_scheme "unix" ep r Hr) as (q & r' & -> & ?). eauto.
      - apply HasPrefix_spec in H2 as [r Hr]. destruct (lower_scheme "tcp" ep r Hr) as (q & r' & -> & ?). eauto. }
    rewrite Hcut in H by done. destruct (_ || _); [|done].
    case_bool_decide; [done|]. by injection H as <- <-.
  - intros (-> & Hp & Ha). rewrite Hcut, !lower_append by done.
    assert (HasPrefix (ToLower proto +:+ ToLower "://" +:+ ToLower addr) "unix://"
      || HasPrefix (ToLower proto +:+ ToLower "://" +:+ ToLower addr) "tcp://" = true) as ->.
    { apply orb_true_iff. destruct Hp as [-> | ->]; [left|right]; apply HasPrefix_spec; by eexists. }
    by rewrite bool_decide_false.
Qed.
