(* ===== verification/Server.v ===== *)
(** The gRPC server of the driver: pkg/csi-common/server.go.

    The gRPC library and the network are operations of the world.  The goroutine that
    [Start] starts is a program of its own; [klog.Fatal] ends the process, and so the
    program it is called in. *)

From S2P Require Import Prelude.
From S2P Require Import GoLang.
From S2P Require Import World.
From S2P Require Import CsiCommon.

(** ** Interface values *)

(** A value of an interface type is nil, or a pointer of some type; the pointer may be nil
    itself, and then the interface value is not. *)
Definition iface (A : Type) : Type := option (option A).

(** A pointer passed where an interface is expected. *)
Definition as_iface {A} (p : option A) : iface A := Some p.

(** ** The server *)

Section server.
Context {Ids C N : Type}.

(** The receivers the services were registered with, if they were. *)
Record grpcServer := mkGrpcServer {
  gs_identity : option (option Ids);
  gs_controller : option (option C);
  gs_node : option (option N)
}.

Record nonBlockingGRPCServer := mkServer { wg : Z; srv : option grpcServer }.

Definition NewNonBlockingGRPCServer : nonBlockingGRPCServer := mkServer 0 None.

(** [if ids != nil { csi.RegisterIdentityServer(server, ids) }] and so on. *)
Definition register (ids : iface Ids) (cs : iface C) (ns : iface N) : grpcServer :=
  mkGrpcServer
    (match ids with Some p => Some p | None => None end)
    (match cs with Some p => Some p | None => None end)
    (match ns with Some p => Some p | None => None end).

(** Up to the registration: what is listened on, and the server. *)
Definition listen (endpoint : string) (ids : iface Ids) (cs : iface C) (ns : iface N)
    : proc (string * string * grpcServer) :=
  match parseEndpoint endpoint with
  | inl err => Panic (error_string err)
  | inr (proto, addr) =>
      addr ← (if bool_decide (proto = "unix") then
                let addr := "/" +:+ addr in
                err ← perform (OsRemove addr);
                match err with
                | inl (false, msg) => Panic ("Failed to remove " +:+ addr +:+ ", error: " +:+ msg)
                | _ => mret addr
                end
              else mret addr);
      err ← perform (NetListen proto addr);
      match err with
      | Some msg => Panic ("Failed to listen: " +:+ msg)
      | None => mret (proto, addr, register ids cs ns)
      end
  end.

Definition serve (endpoint : string) (ids : iface Ids) (cs : iface C) (ns : iface N)
    : proc grpcServer :=
  '(proto, addr, server) ← listen endpoint ids cs ns;
  err ← perform (GrpcServe proto addr);
  match err with
  | Some msg => Panic ("Failed to start GRPC server: " +:+ msg)
  | None => mret server
  end.

(** The server afterwards, and the goroutine; this one stores its gRPC server in [srv]
    once it listens. *)
Definition Start (endpoint : string) (ids : iface Ids) (cs : iface C) (ns : iface N)
    (s : nonBlockingGRPCServer) : nonBlockingGRPCServer * proc grpcServer :=
  (mkServer (wg s + 1) (srv s), serve endpoint ids cs ns).

(** Whether waiting ends: nothing calls [wg.Done]. *)
Definition Wait (s : nonBlockingGRPCServer) : bool := (wg s =? 0)%Z.

Definition stop (graceful : bool) (s : nonBlockingGRPCServer) : proc unit :=
  match srv s with
  | None => Panic nil_dereference
  | Some _ => perform (GrpcStop graceful)
  end.
Definition Stop : nonBlockingGRPCServer → proc unit := stop true.
Definition ForceStop : nonBlockingGRPCServer → proc unit := stop false.
End server.

Arguments grpcServer : clear implicits.
Arguments nonBlockingGRPCServer : clear implicits.
