(* ===== verification/Controller.v ===== *)
(** The CSI controller service: pkg/spdk/controllerserver.go.

    Every RPC takes the lock of the id it is given, builds a client of the storage
    node the id names, and drives it.  [range] over the node configurations visits
    them in an order the run-time chooses ([MapRange]). *)

From Stdlib Require Import Ascii.
From S2P Require Import Prelude.
From S2P Require Import GoLang.
From S2P Require Import GoJson.
From S2P Require Import JsonText.
From S2P Require Import World.
From S2P Require Import RpcClient.
From S2P Require Import SpdkNode.
From S2P Require Import Util.
From S2P Require Import VolumeLocks.
From S2P Require Import CsiCommon.

(** ** Data *)

Record controllerServer := mkControllerServer {
  cs_Driver : CSIDriver;
  spdkNodeConfigs : gmap string SpdkNodeConfig;
  cs_volumeLocks : VolumeLocks
}.

Record spdkVolume := mkSpdkVolume { lvolID : string; nodeName : string }.

(** Where the content of a new volume comes from: a snapshot's id, or another volume. *)
Variant VolumeContentSource := SnapshotSource (snapshot_id : string) | VolumeSource.

Record CreateVolumeRequest := mkCreateVolumeRequest {
  cv_Name : string;
  cv_RequiredBytes : Z;
  cv_Parameters : gomap;
  cv_Secrets : gomap;
  cv_VolumeContentSource : option VolumeContentSource
}.

Record Volume := mkVolume {
  vol_CapacityBytes : Z;
  vol_VolumeId : string;
  vol_VolumeContext : gomap;
  vol_ContentSource : option VolumeContentSource
}.

Record Snapshot := mkSnapshot {
  snap_SizeBytes : Z;
  snap_SnapshotId : string;
  snap_SourceVolumeId : string;
  snap_CreationTime : Z;
  snap_ReadyToUse : bool
}.

(** ** Operations *)

Module controllerServer.
Section ops.
Context (cs : controllerServer).

Definition internal (e : goerror) : goerror := EStatus Internal (error_string e).

Definition getSPDKVol (csiVolumeID : string) : gores spdkVolume :=
  match Split (chr 58) csiVolumeID with
  | [node; lvol] => inr (mkSpdkVolume lvol node)
  | _ => inl (ENew ("missing nodeName in volume: " +:+ csiVolumeID))
  end.

(** An unknown node name dereferences the nil configuration; a configuration whose
    client cannot be built yields the nil node and no error. *)
Definition getSpdkNode (nodeName : string) (secrets : gomap) : proc (gores spdkNode) :=
  match NewSpdkSecrets (mget secrets "secret.json") with
  | inl err => mret (inl err)
  | inr tokens =>
      match spdkNodeConfigs cs !! nodeName with
      | None => Panic nil_dereference
      | Some node =>
          match find_first (λ t, bool_decide (tok_Name t = nodeName)) tokens with
          | Some token =>
              match NewSpdkNode (cfg_URL node) (tok_UserName token) (tok_Password token)
                                (cfg_TargetType node) (cfg_TargetAddr node) with
              | inl _ => mret (inr NodeNil)
              | inr spdkNode => mret (inr spdkNode)
              end
          | None => mret (inl (ENew ("failed to find secret for spdk node " +:+ cfg_Name node)))
          end
      end
  end.

(** The loop over the volume stores of one node. *)
Fixpoint find_volume (name : string) (lvStores : list LvStore) (node : spdkNode)
    : proc (option string) :=
  match lvStores with
  | [] => mret None
  | lvs :: lvStores' =>
      '(r, node) ← SpdkNode.GetVolume name (LvStore_Name lvs) node;
      match r with
      | inr volumeID => mret (Some volumeID)
      | inl _ => find_volume name lvStores' node
      end
  end.

Fixpoint getVolume_loop (req : CreateVolumeRequest) (keys : list string) : proc (gores string) :=
  match keys with
  | [] => mret (inl (ENew "volume not found"))
  | key :: keys' =>
      match spdkNodeConfigs cs !! key with
      | None => getVolume_loop req keys'
      | Some cfg =>
          r ← getSpdkNode (cfg_Name cfg) (cv_Secrets req);
          match r with
          | inl err =>
              mret (inl (ENew ("failed to get spdkNode " +:+ cfg_Name cfg +:+ ": " +:+ error_string err)))
          | inr node =>
              '(r, node) ← SpdkNode.LvStores node;
              match r with
              | inl err =>
                  mret (inl (EWrap ("get lvstores of node:" +:+ cfg_Name cfg +:+ " failed: ") err))
              | inr lvStores =>
                  found ← find_volume (cv_Name req) lvStores node;
                  match found with
                  | Some volumeID => mret (inr (cfg_Name cfg +:+ ":" +:+ volumeID))
                  | None => getVolume_loop req keys'
                  end
              end
          end
      end
  end.

Definition config_keys : list string := (map_to_list (spdkNodeConfigs cs)).*1.

Definition getVolume (req : CreateVolumeRequest) : proc (gores string) :=
  keys ← perform (MapRange config_keys);
  getVolume_loop req keys.

Definition has_space (sizeMiB : Z) (lvs : LvStore) : bool := (sizeMiB <? LvStore_FreeSizeMiB lvs)%Z.

Fixpoint schedule_loop (sizeMiB : Z) (secrets : gomap) (keys : list string)
    : proc (gores (string * string)) :=
  match keys with
  | [] => mret (inl (ENew "failed to find node with enough free space"))
  | key :: keys' =>
      match spdkNodeConfigs cs !! key with
      | None => schedule_loop sizeMiB secrets keys'
      | Some cfg =>
          r ← getSpdkNode (cfg_Name cfg) secrets;
          match r with
          | inl _ => schedule_loop sizeMiB secrets keys'
          | inr spdkNode =>
              '(r, _) ← SpdkNode.LvStores spdkNode;
              match r with
              | inl _ => schedule_loop sizeMiB secrets keys'
              | inr lvstores =>
                  match find_first (has_space sizeMiB) lvstores with
                  | Some lvstore => mret (inr (cfg_Name cfg, LvStore_Name lvstore))
                  | None => schedule_loop sizeMiB secrets keys'
                  end
              end
          end
      end
  end.

Definition schedule (sizeMiB : Z) (secrets : gomap) : proc (gores (string * string)) :=
  keys ← perform (MapRange config_keys);
  schedule_loop sizeMiB secrets keys.

(** Node name, volume store and volume id of the snapshot to clone. *)
Definition getSnapshotInfo (vcs : VolumeContentSource) (secrets : gomap)
    : proc (gores (string * string * string)) :=
  match vcs with
  | VolumeSource =>
      mret (inl (ENew "invalid volume content source, only snapshot source is supported"))
  | SnapshotSource id =>
      match getSPDKVol id with
      | inl err => mret (inl err)
      | inr snapSpdkVol =>
          node ←? getSpdkNode (nodeName snapSpdkVol) secrets;
          '(r, _) ← SpdkNode.VolumeInfo (lvolID snapSpdkVol) node;
          match r with
          | inl err => mret (inl err)
          | inr sourceLvolInfo =>
              mret (inr (nodeName snapSpdkVol, mget (Some sourceLvolInfo) "lvstore",
                         lvolID snapSpdkVol))
          end
      end
  end.

(** The size of the new volume: 1 GiB when the request names none. *)
Definition request_sizeMiB (req : CreateVolumeRequest) : Z :=
  let size := cv_RequiredBytes req in
  let size := if (size =? 0)%Z then (1024 * 1024 * 1024)%Z else size in
  ToMiB size.

Definition createVolume (req : CreateVolumeRequest) : proc (gores Volume) :=
  let sizeMiB := request_sizeMiB req in
  let vol := λ volumeId, mkVolume (mul64 (mul64 sizeMiB 1024) 1024) volumeId
                           (cv_Parameters req) (cv_VolumeContentSource req) in
  r ← getVolume req;
  match r with
  | inr volumeID => mret (inr (vol volumeID))
  | inl _ =>
    match cv_VolumeContentSource req with
    | Some vcs =>
        '(nodeName, lvstore, sourceLvolID) ←? getSnapshotInfo vcs (cv_Secrets req);
        r ← getSpdkNode nodeName (cv_Secrets req);
        match r with
        | inl err2 => mret (inl (internal err2))
        | inr node =>
            '(r, _) ← SpdkNode.CloneVolume (cv_Name req) lvstore sourceLvolID node;
            match r with
            | inl err => mret (inl err)
            | inr lvolID => mret (inr (vol (nodeName +:+ ":" +:+ lvolID)))
            end
        end
    | None =>
        '(nodeName, lvstore) ←? schedule sizeMiB (cv_Secrets req);
        r ← getSpdkNode nodeName (cv_Secrets req);
        match r with
        | inl err2 => mret (inl (internal err2))
        | inr node =>
            '(r, _) ← SpdkNode.CreateVolume (cv_Name req) lvstore sizeMiB node;
            match r with
            | inl err => mret (inl err)
            | inr lvolID => mret (inr (vol (nodeName +:+ ":" +:+ lvolID)))
            end
        end
    end
  end.

Definition deleteVolume (volumeID : string) (secrets : gomap) : proc (option goerror) :=
  match getSPDKVol volumeID with
  | inl err => mret (Some err)
  | inr spdkVol =>
      r ← getSpdkNode (nodeName spdkVol) secrets;
      match r with
      | inl err => mret (Some err)
      | inr node =>
          '(err, _) ← SpdkNode.DeleteVolume (lvolID spdkVol) node;
          mret err
      end
  end.

Definition unpublishVolume (volumeID : string) (secrets : gomap) : proc (option goerror) :=
  match getSPDKVol volumeID with
  | inl err => mret (Some err)
  | inr spdkVol =>
      r ← getSpdkNode (nodeName spdkVol) secrets;
      match r with
      | inl err => mret (Some err)
      | inr node =>
          '(err, _) ← SpdkNode.UnpublishVolume (lvolID spdkVol) node;
          mret err
      end
  end.

Definition publishVolume (volumeID : string) (secrets : gomap)
    : proc (gores (gmap string string)) :=
  match getSPDKVol volumeID with
  | inl err => mret (inl err)
  | inr spdkVol =>
      r ← getSpdkNode (nodeName spdkVol) secrets;
      match r with
      | inl err => mret (inl (internal err))
      | inr node =>
          '(err, node) ← SpdkNode.PublishVolume (lvolID spdkVol) node;
          match err with
          | Some err => mret (inl err)
          | None =>
              '(r, _) ← SpdkNode.VolumeInfo (lvolID spdkVol) node;
              match r with
              | inl err => unpublishVolume volumeID secrets;; mret (inl err)
              | inr volumeInfo => mret (inr volumeInfo)
              end
          end
      end
  end.

(** The volume context of the answer: the request's parameters, overridden by what a
    node needs to reach the volume. *)
Definition merge_context (ctx : gomap) (info : gmap string string) : gomap :=
  match ctx with
  | None => Some info
  | Some m => Some (info ∪ m)
  end.

Definition CreateVolume (req : CreateVolumeRequest) : proc (gores Volume) :=
  with_lock (cs_volumeLocks cs) (cv_Name req) (
    r ← createVolume req;
    match r with
    | inl err => mret (inl (internal err))
    | inr csiVolume =>
        r ← publishVolume (vol_VolumeId csiVolume) (cv_Secrets req);
        match r with
        | inl err =>
            deleteVolume (vol_VolumeId csiVolume) (cv_Secrets req);;
            mret (inl (internal err))
        | inr volumeInfo =>
            mret (inr (mkVolume (vol_CapacityBytes csiVolume) (vol_VolumeId csiVolume)
                                (merge_context (vol_VolumeContext csiVolume) volumeInfo)
                                (vol_ContentSource csiVolume)))
        end
    end).

Definition DeleteVolume (volumeID : string) (secrets : gomap) : proc (option goerror) :=
  with_lock (cs_volumeLocks cs) volumeID (
    let delete :=
      err ← deleteVolume volumeID secrets;
      match err with
      | Some e => if errors_Is e ErrJSONNoSuchDevice then mret None else mret (Some (internal e))
      | None => mret None
      end in
    err ← unpublishVolume volumeID secrets;
    match err with
    | Some e =>
        if errors_Is e ErrVolumeUnpublished then delete
        else if errors_Is e ErrVolumeDeleted then mret None
        else mret (Some (internal e))
    | None => delete
    end).

(** [Some caps] when all are confirmed. *)
Definition ValidateVolumeCapabilities (caps : list VolumeCapability) : option (list VolumeCapability) :=
  if forallb (λ cap, existsb (Z.eqb (GetMode cap)) (GetVolumeCapabilityAccessModes (cs_Driver cs))) caps
  then Some caps else None.

Definition CreateSnapshot (sourceVolumeID name : string) (secrets : gomap) : proc (gores Snapshot) :=
  with_lock (cs_volumeLocks cs) sourceVolumeID (
    match getSPDKVol sourceVolumeID with
    | inl err => mret (inl err)
    | inr spdkVol =>
        r ← getSpdkNode (nodeName spdkVol) secrets;
        match r with
        | inl err => mret (inl (internal err))
        | inr node =>
            '(r, node) ← SpdkNode.CreateSnapshot (lvolID spdkVol) name node;
            match r with
            | inl err => mret (inl (internal err))
            | inr snapshotID =>
                '(r, _) ← SpdkNode.VolumeInfo (lvolID spdkVol) node;
                match r with
                | inl err => mret (inl (internal err))
                | inr volInfo =>
                    match ParseInt (mget (Some volInfo) "lvolSize") with
                    | inl err => mret (inl (internal err))
                    | inr size =>
                        creationTime ← perform TimeNow;
                        mret (inr (mkSnapshot size (nodeName spdkVol +:+ ":" +:+ snapshotID)
                                              (lvolID spdkVol) creationTime true))
                    end
                end
            end
        end
    end).

Definition DeleteSnapshot (snapshotID : string) (secrets : gomap) : proc (option goerror) :=
  with_lock (cs_volumeLocks cs) snapshotID (
    match getSPDKVol snapshotID with
    | inl err => mret (Some err)
    | inr spdkVol =>
        r ← getSpdkNode (nodeName spdkVol) secrets;
        match r with
        | inl err => mret (Some (internal err))
        | inr node =>
            '(err, _) ← SpdkNode.DeleteVolume (lvolID spdkVol) node;
            match err with
            | Some e => mret (Some (internal e))
            | None => mret None
            end
        end
    end).

End ops.

(** Later configurations of the same name replace earlier ones. *)
Definition config_map (nodes : list SpdkNodeConfig) : gmap string SpdkNodeConfig :=
  foldl (λ m c, <[cfg_Name c := c]> m) ∅ nodes.

Definition newControllerServer (d : CSIDriver) (locks : VolumeLocks) : proc (gores controllerServer) :=
  config ←? NewCSIControllerConfig "SPDKCSI_CONFIG" "/etc/spdkcsi-config/config.json";
  let configs := config_map config in
  if bool_decide (configs = ∅) then mret (inl (ENew "no valid spdk node found"))
  else mret (inr (mkControllerServer d configs locks)).

End controllerServer.
