(* ===== verification/ControllerOps.v ===== *)
(** What the controller's handlers do of the outside world: requests to storage nodes,
    the order of a map and the clock, under the lock of the volume. *)

From S2P Require Import Prelude.
From S2P Require Import GoLang.
From S2P Require Import GoJson.
From S2P Require Import World.
From S2P Require Import RpcClient.
From S2P Require Import Nvmf.
From S2P Require Import Iscsi.
From S2P Require Import SpdkNode.
From S2P Require Import Util.
From S2P Require Import VolumeLocks.
From S2P Require Import LocksSpec.
From S2P Require Import CsiCommon.
From S2P Require Import Controller.

Definition is_request (o : op) : Prop :=
  match o with HttpDo _ _ _ _ => True | _ => False end.

(** ** The storage nodes *)

Lemma ops_call {A} method args (dec : decoder A) init :
  ops_st is_request (rpcClient.call method args dec init).
Proof. intros c. by split. Qed.
#[export] Hint Resolve ops_call : spdk.

Lemma ops_call_ method args : ops_st is_request (rpcClient.call_ method args).
Proof. unfold rpcClient.call_. ops_follow. Qed.
#[export] Hint Resolve ops_call_ : spdk.

Lemma ops_panic {S A} why : ops_st (S := S) (A := A) is_request (lift (Panic why)).
Proof. done. Qed.
#[export] Hint Resolve ops_panic : spdk.

Lemma ops_getVolume id : ops_st is_request (rpcClient.getVolume id).
Proof. unfold rpcClient.getVolume. ops_follow. Qed.
#[export] Hint Resolve ops_getVolume : spdk.

Lemma ops_lvStores : ops_st is_request rpcClient.lvStores.
Proof. unfold rpcClient.lvStores. ops_follow. Qed.
#[export] Hint Resolve ops_lvStores : spdk.

Lemma ops_client_methods :
  (∀ id, ops_st is_request (rpcClient.isVolumeCreated id)) ∧
  (∀ id, ops_st is_request (rpcClient.getLvstore id)) ∧
  (∀ n l z, ops_st is_request (rpcClient.createVolume n l z)) ∧
  (∀ n s, ops_st is_request (rpcClient.cloneVolume n s)) ∧
  (∀ id, ops_st is_request (rpcClient.deleteVolume id)) ∧
  (∀ n s, ops_st is_request (rpcClient.snapshot n s)).
Proof.
  unfold rpcClient.isVolumeCreated, rpcClient.getLvstore, rpcClient.createVolume,
    rpcClient.cloneVolume, rpcClient.deleteVolume, rpcClient.snapshot.
  split_and!; intros; ops_follow.
Qed.

(** What the interface promises its callers: requests to the node and nothing else. *)
Class RequestsOnly N `{SpdkNode N} := {
  ops_LvStores : ops_st is_request LvStores;
  ops_VolumeInfo id : ops_st is_request (VolumeInfo id);
  ops_CreateVolume n l z : ops_st is_request (CreateVolume n l z);
  ops_CloneVolume n l s : ops_st is_request (CloneVolume n l s);
  ops_GetVolume n l : ops_st is_request (GetVolume n l);
  ops_DeleteVolume id : ops_st is_request (DeleteVolume id);
  ops_PublishVolume id : ops_st is_request (PublishVolume id);
  ops_UnpublishVolume id : ops_st is_request (UnpublishVolume id);
  ops_CreateSnapshot n s : ops_st is_request (CreateSnapshot n s)
}.

(** The promise, wherever a method of the interface is called. *)
#[export] Hint Extern 2 (ops_st is_request (LvStores)) => apply ops_LvStores : spdk.
#[export] Hint Extern 2 (ops_st is_request (VolumeInfo _)) => apply ops_VolumeInfo : spdk.
#[export] Hint Extern 2 (ops_st is_request (CreateVolume _ _ _)) => apply ops_CreateVolume : spdk.
#[export] Hint Extern 2 (ops_st is_request (CloneVolume _ _ _)) => apply ops_CloneVolume : spdk.
#[export] Hint Extern 2 (ops_st is_request (GetVolume _ _)) => apply ops_GetVolume : spdk.
#[export] Hint Extern 2 (ops_st is_request (DeleteVolume _)) => apply ops_DeleteVolume : spdk.
#[export] Hint Extern 2 (ops_st is_request (PublishVolume _)) => apply ops_PublishVolume : spdk.
#[export] Hint Extern 2 (ops_st is_request (UnpublishVolume _)) => apply ops_UnpublishVolume : spdk.
#[export] Hint Extern 2 (ops_st is_request (CreateSnapshot _ _)) => apply ops_CreateSnapshot : spdk.

#[export] Instance nodeNVMf_RequestsOnly : RequestsOnly nodeNVMf.
Proof.
  destruct ops_client_methods as (? & ? & ? & ? & ? & ?).
  split; intros; simpl;
  unfold nodeNVMf.LvStores, nodeNVMf.VolumeInfo, nodeNVMf.CreateVolume, nodeNVMf.CloneVolume,
    nodeNVMf.GetVolume, nodeNVMf.DeleteVolume, nodeNVMf.PublishVolume, nodeNVMf.UnpublishVolume,
    nodeNVMf.CreateSnapshot, nodeNVMf.isVolumeCreated, nodeNVMf.isVolumePublished,
    nodeNVMf.createTransport, nodeNVMf.createSubsystem, nodeNVMf.subsystemAddNs,
    nodeNVMf.subsystemAddListener, nodeNVMf.subsystemRemoveNs, nodeNVMf.subsystemGetNsID,
    nodeNVMf.deleteSubsystem, nodeNVMf.client; ops_follow.
Qed.

#[export] Instance nodeISCSI_RequestsOnly : RequestsOnly nodeISCSI.
Proof.
  destruct ops_client_methods as (? & ? & ? & ? & ? & ?).
  split; intros; simpl;
  unfold nodeISCSI.LvStores, nodeISCSI.VolumeInfo, nodeISCSI.CreateVolume, nodeISCSI.CloneVolume,
    nodeISCSI.GetVolume, nodeISCSI.DeleteVolume, nodeISCSI.PublishVolume,
    nodeISCSI.UnpublishVolume, nodeISCSI.CreateSnapshot, nodeISCSI.createPortalGroup,
    nodeISCSI.createInitiatorGroup, nodeISCSI.iscsiGetPortalGroups,
    nodeISCSI.iscsiCreatePortalGroup, nodeISCSI.iscsiGetInitiatorGroups,
    nodeISCSI.iscsiCreateInitiatorGroup, nodeISCSI.iscsiCreateTargetNode,
    nodeISCSI.iscsiDeleteTargetNode, nodeISCSI.call_bool, nodeISCSI.isVolumeCreated,
    nodeISCSI.isVolumePublished, nodeISCSI.client; ops_follow.
Qed.

Lemma ops_dispatch {A} (m : ∀ N, SpdkNode N → st N A) :
  ops_st is_request (m nodeNVMf _) → ops_st is_request (m nodeISCSI _) →
  ops_st is_request (dispatch m).
Proof.
  intros Hn Hi [n|n|]; simpl; [..|done];
    (apply ops_bind; [by apply ops_st_run|by intros []]).
Qed.

#[export] Instance spdkNode_RequestsOnly : RequestsOnly spdkNode.
Proof. split; intros; apply ops_dispatch; cbn beta; auto with spdk. Qed.

(** ** The handlers *)

Definition controller_op (o : op) : Prop :=
  match o with HttpDo _ _ _ _ | MapRange _ | TimeNow => True | _ => False end.

Lemma ops_node {A} (m : st spdkNode A) node :
  ops_st is_request m → ops controller_op (m node).
Proof. intros H. apply (ops_mono is_request); [by intros []|apply H]. Qed.

Lemma controller_untaking {A} (p : proc A) : ops controller_op p → ops untaking p.
Proof. apply ops_mono. by intros []. Qed.

Section handlers.
Context (cs : controllerServer).

Ltac follow_handler :=
  repeat first
    [ progress ops_follow
    | match goal with |- ops controller_op (?m ?node) => apply (ops_node m node) end ].

Lemma ops_getSpdkNode name secrets : ops controller_op (controllerServer.getSpdkNode cs name secrets).
Proof. unfold controllerServer.getSpdkNode. follow_handler; done. Qed.
#[local] Hint Resolve ops_getSpdkNode : spdk.

Lemma ops_find_volume name lvStores node :
  ops controller_op (controllerServer.find_volume name lvStores node).
Proof. revert node. induction lvStores; intros node; cbn [controllerServer.find_volume]; follow_handler; auto. Qed.
#[local] Hint Resolve ops_find_volume : spdk.

Lemma ops_getVolume_loop req keys : ops controller_op (controllerServer.getVolume_loop cs req keys).
Proof. induction keys; cbn [controllerServer.getVolume_loop]; follow_handler. Qed.
#[local] Hint Resolve ops_getVolume_loop : spdk.

Lemma ops_schedule_loop size secrets keys :
  ops controller_op (controllerServer.schedule_loop cs size secrets keys).
Proof. induction keys; cbn [controllerServer.schedule_loop]; follow_handler. Qed.
#[local] Hint Resolve ops_schedule_loop : spdk.

Lemma ops_createVolume req : ops controller_op (controllerServer.createVolume cs req).
Proof.
  unfold controllerServer.createVolume, controllerServer.getVolume, controllerServer.schedule,
    controllerServer.getSnapshotInfo. follow_handler; done.
Qed.
#[local] Hint Resolve ops_createVolume : spdk.

Lemma ops_deleteVolume id secrets : ops controller_op (controllerServer.deleteVolume cs id secrets).
Proof. unfold controllerServer.deleteVolume. follow_handler. Qed.
#[local] Hint Resolve ops_deleteVolume : spdk.

Lemma ops_unpublishVolume id secrets :
  ops controller_op (controllerServer.unpublishVolume cs id secrets).
Proof. unfold controllerServer.unpublishVolume. follow_handler. Qed.
#[local] Hint Resolve ops_unpublishVolume : spdk.

Lemma ops_publishVolume id secrets : ops controller_op (controllerServer.publishVolume cs id secrets).
Proof. unfold controllerServer.publishVolume. follow_handler. Qed.
#[local] Hint Resolve ops_publishVolume : spdk.

(** Each handler follows the protocol with the lock of the name or id it is given. *)
Lemma controller_guarded g :
  (∀ req, guarded g (mutexes (cs_volumeLocks cs), cv_Name req) (controllerServer.CreateVolume cs req)) ∧
  (∀ id secrets,
     guarded g (mutexes (cs_volumeLocks cs), id) (controllerServer.DeleteVolume cs id secrets)) ∧
  (∀ id name secrets,
     guarded g (mutexes (cs_volumeLocks cs), id) (controllerServer.CreateSnapshot cs id name secrets)) ∧
  (∀ id secrets,
     guarded g (mutexes (cs_volumeLocks cs), id) (controllerServer.DeleteSnapshot cs id secrets)).
Proof.
  split_and!; intros; apply guarded_with_lock, bracketed_untaking, controller_untaking; cbv zeta;
    follow_handler; done.
Qed.
End handlers.
