(* ===== verification/ControllerFacts.v ===== *)
(** Facts of the controller service that hold whatever the outside world answers. *)

From S2P Require Import Prelude.
From S2P Require Import GoLang.
From S2P Require Import GoJson.
From S2P Require Import JsonText.
From S2P Require Import World.
From S2P Require Import RpcClient.
From S2P Require Import Iscsi.
From S2P Require Import SpdkNode.
From S2P Require Import Util.
From S2P Require Import VolumeLocks.
From S2P Require Import CsiCommon.
From S2P Require Import Controller.

(** ** Configuration *)

Lemma config_map_fold nodes (m : gmap string SpdkNodeConfig) k :
  foldl (λ m c, <[cfg_Name c := c]> m) m nodes !! k =
  match last (filter (λ c, cfg_Name c = k) nodes) with Some c => Some c | None => m !! k end.
Proof.
  induction nodes as [|c nodes IH] using rev_ind; [done|].
  rewrite foldl_snoc, filter_app, filter_cons, filter_nil. case_decide as Hk.
  - subst k. by rewrite lookup_insert_eq, last_snoc.
  - by rewrite lookup_insert_ne, app_nil_r.
Qed.

(** The controller knows the node of a name by the last entry of that name in the
    configuration file, and no other names. *)
Lemma config_map_last nodes k :
  controllerServer.config_map nodes !! k = last (filter (λ c, cfg_Name c = k) nodes).
Proof. unfold controllerServer.config_map. rewrite config_map_fold. by destruct (last _). Qed.

(** Capabilities are confirmed if and only if every one of them has an access mode
    the driver was set up with. *)
Lemma ValidateVolumeCapabilities_spec cs caps :
  controllerServer.ValidateVolumeCapabilities cs caps =
  if decide (Forall (λ cap, GetMode cap ∈ GetVolumeCapabilityAccessModes (cs_Driver cs)) caps)
  then Some caps else None.
Proof.
  unfold controllerServer.ValidateVolumeCapabilities. destruct (forallb _ caps) eqn:H.
  - rewrite decide_True; [done|]. apply Forall_forall. intros cap Hin.
    rewrite forallb_forall in H. apply list_elem_of_In, H, existsb_exists in Hin.
    destruct Hin as (m & Hm & ->%Z.eqb_eq). by apply list_elem_of_In.
  - rewrite decide_False; [done|]. intros Hall. apply not_true_iff_false in H. apply H.
    apply forallb_forall. intros cap Hin. apply existsb_exists. exists (GetMode cap).
    rewrite Z.eqb_refl. split; [|done]. apply list_elem_of_In.
    rewrite Forall_forall in Hall. by apply Hall, list_elem_of_In.
Qed.

Section facts.
Context {W : Type} (step : W → ∀ o : op, reply o → W → Prop).

(** ** Nodes that are not configured *)

Lemma getSpdkNode_unknown cs name secrets tokens :
  NewSpdkSecrets (mget secrets "secret.json") = inr tokens → spdkNodeConfigs cs !! name = None →
  controllerServer.getSpdkNode cs name secrets = Panic nil_dereference.
Proof. intros Ht Hc. unfold controllerServer.getSpdkNode. by rewrite Ht, Hc. Qed.

(** A volume id that names a node the controller does not know makes [DeleteVolume]
    panic, with its lock given back. *)
Lemma DeleteVolume_unknown_node cs volumeID v secrets tokens w :
  controllerServer.getSPDKVol volumeID = inr v →
  NewSpdkSecrets (mget secrets "secret.json") = inr tokens →
  spdkNodeConfigs cs !! nodeName v = None →
  wp step (controllerServer.DeleteVolume cs volumeID secrets)
    (λ out _, out = Panicked nil_dereference) w.
Proof.
  intros Hv Ht Hc m w1 _ _ m' w2 _ _ [] w3 _ _.
  unfold controllerServer.unpublishVolume, controllerServer.deleteVolume. rewrite Hv.
  rewrite (getSpdkNode_unknown _ _ _ _ Ht Hc). by intros [] w4 _ _.
Qed.

(** ** Snapshots of iSCSI volumes *)

(** The volume information of an iSCSI node has no size. *)
Lemma wp_iscsi_VolumeInfo lvolID n w :
  wp step (nodeISCSI.VolumeInfo lvolID n)
    (λ out _, ∀ info n', out = Done (inr info, n') → mget (Some info) "lvolSize" = "") w.
Proof.
  apply wp_st_bind. eapply wp_mono; [apply wp_true|].
  intros [[[e|[]] n1]|why] w1 _; [done| |done|done]. cbn beta iota delta [bind_post negb].
  apply wp_st_bind. eapply wp_mono; [apply wp_true|].
  intros [[[e|lvs] n2]|why] w2 _; [done| |done]. cbn beta iota delta [bind_post].
  apply wp_st_bind. intros info n' [= <- <-]. unfold mget. simpl.
  by rewrite !lookup_insert_ne.
Qed.

(** [CreateSnapshot] of a volume on an iSCSI node never succeeds: once the snapshot
    is made, the size it wants to answer is not in the volume's information. *)
Lemma CreateSnapshot_iscsi_fails cs sourceVolumeID name secrets v n w :
  controllerServer.getSPDKVol sourceVolumeID = inr v →
  controllerServer.getSpdkNode cs (nodeName v) secrets = Ret (inr (NodeISCSI n)) →
  wp step (controllerServer.CreateSnapshot cs sourceVolumeID name secrets)
    (λ out _, ∀ snapshot, out ≠ Done (inr snapshot)) w.
Proof.
  intros Hv Hnode m w1 _ _ m' w2 _ _ [] w3 _ _. apply wp_defer.
  eapply wp_mono with (Q := λ out _, ∀ snapshot, out ≠ Done (inr snapshot)).
  2:{ by intros out w4 Hout [] w5 _ _. }
  rewrite Hv. apply wp_proc_bind. rewrite Hnode. cbn beta iota delta [wp bind_post].
  apply wp_proc_bind, wp_proc_bind. eapply wp_mono; [apply wp_true|].
  intros [[[e|snap] n1]|why] w4 _; [done| |done]. cbn beta iota delta [bind_post wp mret proc_mret].
  apply wp_proc_bind, wp_proc_bind. eapply wp_mono; [apply wp_iscsi_VolumeInfo|].
  intros [[[e|info] n2]|why] w5 Hinfo; [done| |done].
  cbn beta iota delta [bind_post wp mret proc_mret]. by rewrite (Hinfo info n2 eq_refl).
Qed.
End facts.
