(* ===== verification/Initiator.v ===== *)
(** The NVMe-oF and iSCSI initiators of a client node: pkg/util/initiator.go. *)

From S2P Require Import Prelude.
From S2P Require Import GoLang.
From S2P Require Import GoJson.
From S2P Require Import World.
From S2P Require Import Util.

(** ** Waiting for devices *)

(** A round of a wait loop: the paths that match the pattern. *)
Definition glob (pattern : string) : proc (gores (list string)) :=
  r ← perform (FilepathGlob pattern);
  mret (sys_result r).

Fixpoint wait_ready_loop (deviceGlob : string) (rounds : nat) : proc (gores string) :=
  match rounds with
  | O => mret (inl (ENew ("timed out waiting device ready: " +:+ deviceGlob)))
  | S rounds =>
      matches ←? glob deviceGlob;
      match matches with
      | m :: _ => mret (inr m)
      | [] => perform (Sleep 1);; wait_ready_loop deviceGlob rounds
      end
  end.

(** The loop runs for [i = 0 .. seconds]. *)
Definition waitForDeviceReady (deviceGlob : string) (seconds : Z) : proc (gores string) :=
  wait_ready_loop deviceGlob (Z.to_nat (seconds + 1)).

Fixpoint wait_gone_loop (deviceGlob : string) (rounds : nat) : proc (option goerror) :=
  match rounds with
  | O => mret (Some (ENew ("timed out waiting device gone: " +:+ deviceGlob)))
  | S rounds =>
      r ← glob deviceGlob;
      match r with
      | inl err => mret (Some err)
      | inr [] => mret None
      | inr _ => perform (Sleep 1);; wait_gone_loop deviceGlob rounds
      end
  end.

Definition waitForDeviceGone (deviceGlob : string) : proc (option goerror) :=
  wait_gone_loop deviceGlob 21.

Definition execWithTimeout (cmdLine : list string) (timeout : Z) : proc (option goerror) :=
  r ← perform (ExecCommand cmdLine timeout);
  mret match r with
       | ExecTimeout => Some (ENew "timed out")
       | ExecOk => None
       | ExecErr msg => Some (ENew msg)
       end.

(** ** The initiators *)

Class SpdkCsiInitiator (I : Type) := {
  Connect : st I (gores string);
  Disconnect : st I (option goerror)
}.

Record initiatorNVMf := mkInitiatorNVMf {
  inv_targetType : string;
  inv_targetAddr : string;
  inv_targetPort : string;
  inv_nqn : string;
  inv_model : string
}.

Record initiatorISCSI := mkInitiatorISCSI {
  iis_targetAddr : string;
  iis_targetPort : string;
  iis_iqn : string
}.

(** Failures of the commands are logged; the devices decide. *)
Module initiatorNVMf.
Definition connect_cmd (nvmf : initiatorNVMf) : list string :=
  ["nvme"; "connect"; "-t"; ToLower (inv_targetType nvmf);
   "-a"; inv_targetAddr nvmf; "-s"; inv_targetPort nvmf; "-n"; inv_nqn nvmf].

Definition deviceGlob (nvmf : initiatorNVMf) : string :=
  "/dev/disk/by-id/*" +:+ inv_model nvmf +:+ "*".

Definition Connect (nvmf : initiatorNVMf) : proc (gores string) :=
  execWithTimeout (connect_cmd nvmf) 40;;
  waitForDeviceReady (deviceGlob nvmf) 20.

Definition Disconnect (nvmf : initiatorNVMf) : proc (option goerror) :=
  execWithTimeout ["nvme"; "disconnect"; "-n"; inv_nqn nvmf] 40;;
  waitForDeviceGone (deviceGlob nvmf).
End initiatorNVMf.

Module initiatorISCSI.
Definition target (iscsi : initiatorISCSI) : string :=
  iis_targetAddr iscsi +:+ ":" +:+ iis_targetPort iscsi.

Definition deviceGlob (iscsi : initiatorISCSI) : string :=
  "/dev/disk/by-path/*" +:+ iis_iqn iscsi +:+ "*".

Definition Connect (iscsi : initiatorISCSI) : proc (gores string) :=
  execWithTimeout ["iscsiadm"; "-m"; "discovery"; "-t"; "sendtargets"; "-p"; target iscsi] 40;;
  execWithTimeout ["iscsiadm"; "-m"; "node"; "-T"; iis_iqn iscsi; "-p"; target iscsi; "--login"] 40;;
  waitForDeviceReady (deviceGlob iscsi) 20.

Definition Disconnect (iscsi : initiatorISCSI) : proc (option goerror) :=
  execWithTimeout ["iscsiadm"; "-m"; "node"; "-T"; iis_iqn iscsi; "-p"; target iscsi; "--logout"] 40;;
  waitForDeviceGone (deviceGlob iscsi).
End initiatorISCSI.

#[export] Instance initiatorNVMf_Initiator : SpdkCsiInitiator initiatorNVMf := {
  Connect := i ← get; lift (initiatorNVMf.Connect i);
  Disconnect := i ← get; lift (initiatorNVMf.Disconnect i)
}.
#[export] Instance initiatorISCSI_Initiator : SpdkCsiInitiator initiatorISCSI := {
  Connect := i ← get; lift (initiatorISCSI.Connect i);
  Disconnect := i ← get; lift (initiatorISCSI.Disconnect i)
}.

(** What [NewSpdkCsiInitiator] can build. *)
Definition basic_initiator : Type := initiatorNVMf + initiatorISCSI.

Definition NewSpdkCsiInitiator (volumeContext : gomap) : gores basic_initiator :=
  let targetType := ToLower (mget volumeContext "targetType") in
  if bool_decide (targetType = "rdma") || bool_decide (targetType = "tcp") then
    inr (inl (mkInitiatorNVMf
      (mget volumeContext "targetType") (mget volumeContext "targetAddr")
      (mget volumeContext "targetPort") (mget volumeContext "nqn")
      (mget volumeContext "model")))
  else if bool_decide (targetType = "iscsi") then
    inr (inr (mkInitiatorISCSI
      (mget volumeContext "targetAddr") (mget volumeContext "targetPort")
      (mget volumeContext "iqn")))
  else inl (ENew ("unknown initiator: " +:+ targetType)).
