(* ===== verification/InitiatorSpec.v ===== *)
(** Waiting for devices: what the initiators answer and when, against a clock on which
    devices come and go and commands take their time, up to their time-out. *)

From S2P Require Import Prelude.
From S2P Require Import GoLang.
From S2P Require Import GoJson.
From S2P Require Import World.
From S2P Require Import Util.
From S2P Require Import Initiator.

Definition Connect_basic (i : basic_initiator) : proc (gores string) :=
  match i with inl n => initiatorNVMf.Connect n | inr s => initiatorISCSI.Connect s end.
Definition Disconnect_basic (i : basic_initiator) : proc (option goerror) :=
  match i with inl n => initiatorNVMf.Disconnect n | inr s => initiatorISCSI.Disconnect s end.

(** The pattern of the links to the volume's device. *)
Definition device_pattern (i : basic_initiator) : string :=
  match i with
  | inl n => "/dev/disk/by-id/*" +:+ inv_model n +:+ "*"
  | inr s => "/dev/disk/by-path/*" +:+ iis_iqn s +:+ "*"
  end.

(** The commands an initiator runs before it waits. *)
Definition connect_commands (i : basic_initiator) : list (list string) :=
  match i with
  | inl n => [["nvme"; "connect"; "-t"; ToLower (inv_targetType n); "-a"; inv_targetAddr n;
               "-s"; inv_targetPort n; "-n"; inv_nqn n]]
  | inr s =>
      let portal := iis_targetAddr s +:+ ":" +:+ iis_targetPort s in
      [["iscsiadm"; "-m"; "discovery"; "-t"; "sendtargets"; "-p"; portal];
       ["iscsiadm"; "-m"; "node"; "-T"; iis_iqn s; "-p"; portal; "--login"]]
  end.

Definition disconnect_commands (i : basic_initiator) : list (list string) :=
  match i with
  | inl n => [["nvme"; "disconnect"; "-n"; inv_nqn n]]
  | inr s =>
      let portal := iis_targetAddr s +:+ ":" +:+ iis_targetPort s in
      [["iscsiadm"; "-m"; "node"; "-T"; iis_iqn s; "-p"; portal; "--logout"]]
  end.

Section clock.
(** What a pattern matches at each second, and how many seconds a command that is started
    at a second would run if it were let. *)
Context (matches : nat → string → sysres (list string)).
Context (lasts : nat → list string → nat).

(** The state is the time, in seconds.  A command runs until it ends or until its time-out,
    when it is killed, and answers anything; sleeping takes its time; nothing else takes
    any. *)
Definition clock_step (t : nat) (o : op) : reply o → nat → Prop :=
  match o return reply o → nat → Prop with
  | FilepathGlob g => λ r t', r = matches t g ∧ t' = t
  | Sleep s => λ _ t', t' = t + Z.to_nat s
  | ExecCommand argv s => λ _ t', t' = t + lasts t argv `min` Z.to_nat s
  | _ => λ _ t', t' = t
  end.

(** The time at which commands are over that are run one after the other from [t] on, each
    with a time-out of 40 seconds. *)
Fixpoint commands_over (t : nat) (cmds : list (list string)) : nat :=
  match cmds with
  | [] => t
  | argv :: cmds' => commands_over (t + lasts t argv `min` 40) cmds'
  end.

Lemma commands_over_bounds t cmds : t ≤ commands_over t cmds ≤ t + 40 * length cmds.
Proof.
  revert t. induction cmds as [|argv cmds IH]; intros t; simpl; [lia|].
  specialize (IH (t + lasts t argv `min` 40)). lia.
Qed.

(** Looking every second from [t] on, a path is first there after [k] seconds. *)
Definition appears (g : string) (t k : nat) (d : string) : Prop :=
  (∀ j, j < k → matches (t + j) g = inr []) ∧ ∃ ms, matches (t + k) g = inr (d :: ms).

(** Likewise, all paths are gone after [k] seconds. *)
Definition disappears (g : string) (t k : nat) : Prop :=
  (∀ j, j < k → ∃ d ms, matches (t + j) g = inr (d :: ms)) ∧ matches (t + k) g = inr [].

Lemma appears_now g t k d :
  appears g t k d ↔
  match k with
  | 0 => ∃ ms, matches t g = inr (d :: ms)
  | S k => matches t g = inr [] ∧ appears g (S t) k d
  end.
Proof.
  unfold appears. destruct k as [|k].
  - rewrite Nat.add_0_r. split; [by intros [_ ?]|]. intros ?. split; [lia|done].
  - rewrite Nat.add_succ_r. split.
    + intros [Hj Hms]. split; [by rewrite <-(Nat.add_0_r t); apply Hj; lia|]. split; [|done].
      intros j Hjk. rewrite <-(Hj (S j)) by lia. f_equal. lia.
    + intros (H0 & Hj & Hms). split; [|done]. intros [|j] Hjk; [by rewrite Nat.add_0_r|].
      rewrite <-(Hj j) by lia. f_equal. lia.
Qed.

Lemma disappears_now g t k :
  disappears g t k ↔
  match k with
  | 0 => matches t g = inr []
  | S k => (∃ d ms, matches t g = inr (d :: ms)) ∧ disappears g (S t) k
  end.
Proof.
  unfold disappears. destruct k as [|k].
  - rewrite Nat.add_0_r. split; [by intros [_ ?]|]. intros ?. split; [lia|done].
  - rewrite Nat.add_succ_r. split.
    + intros [Hj Hms]. split; [by rewrite <-(Nat.add_0_r t); apply Hj; lia|]. split; [|done].
      intros j Hjk. destruct (Hj (S j)) as (d & ms & Heq); [lia|]. exists d, ms.
      rewrite <-Heq. f_equal. lia.
    + intros (H0 & Hj & Hms). split; [|done]. intros [|j] Hjk; [by rewrite Nat.add_0_r|].
      destruct (Hj j) as (d & ms & Heq); [lia|]. exists d, ms. rewrite <-Heq. f_equal. lia.
Qed.

(** A loop that waits for a device, with [n] rounds left. *)
Lemma wp_ready_clock g n t :
  wp clock_step (wait_ready_loop g n)
    (λ out t', ∃ r, out = Done r ∧ t ≤ t' ≤ t + n ∧
       ∀ d, r = inr d ↔ ∃ k, k < n ∧ appears g t k d) t.
Proof.
  revert t. induction n as [|n IH]; intros t; cbn [wait_ready_loop].
  - eexists. split; [reflexivity|]. split; [lia|]. intros d. split; [done|]. intros (k & ? & _). lia.
  - intros r t' _ [-> ->]. assert (∀ e x, matches t g = x → x ≠ inr [] → (∀ d ms, x ≠ inr (d :: ms)) →
      ∀ d : string, (inl e : gores string) = inr d ↔ ∃ k, k < S n ∧ appears g t k d) as Hnone.
    { intros e x Hx Hnil Hcons d. split; [done|]. intros (k & _ & Ha). apply appears_now in Ha.
      destruct k; [destruct Ha as [ms Ha]|destruct Ha as [Ha _]]; rewrite Hx in Ha;
        [by destruct (Hcons d ms)|done]. }
    destruct (matches t g) as [e|[|m ms]] eqn:Hm; simpl.
    + eexists. split; [reflexivity|]. split; [lia|]. by apply (Hnone _ _ eq_refl).
    + intros u t' _ ->. eapply wp_mono; [apply IH|]. intros out t' (r & -> & Ht & Hr).
      eexists. split; [reflexivity|]. change (Z.to_nat 1) with 1 in *. rewrite Nat.add_1_r in *.
      split; [lia|]. intros d. rewrite Hr. split.
      * intros (k & Hk & Ha). exists (S k). split; [lia|]. by apply appears_now.
      * intros ([|k] & Hk & Ha); apply appears_now in Ha.
        -- destruct Ha as [ms Ha]. by rewrite Hm in Ha.
        -- exists k. split; [lia|]. apply Ha.
    + eexists. split; [reflexivity|]. split; [lia|]. intros d. split.
      * intros [= <-]. exists 0. split; [lia|]. apply appears_now. by exists ms.
      * intros ([|k] & Hk & Ha); apply appears_now in Ha; rewrite Hm in Ha; naive_solver.
Qed.

(** A loop that waits until no device is left, with [n] rounds left. *)
Lemma wp_gone_clock g n t :
  wp clock_step (wait_gone_loop g n)
    (λ out t', ∃ r, out = Done r ∧ t ≤ t' ≤ t + n ∧
       (r = None ↔ ∃ k, k < n ∧ disappears g t k)) t.
Proof.
  revert t. induction n as [|n IH]; intros t; cbn [wait_gone_loop].
  - eexists. split; [reflexivity|]. split; [lia|]. split; [done|]. intros (k & ? & _). lia.
  - intros r t' _ [-> ->]. destruct (matches t g) as [e|[|m ms]] eqn:Hm; simpl.
    + eexists. split; [reflexivity|]. split; [lia|]. split; [done|]. intros ([|k] & _ & Ha);
        apply disappears_now in Ha; rewrite Hm in Ha; naive_solver.
    + eexists. split; [reflexivity|]. split; [lia|]. split; [|done]. intros _. exists 0.
      split; [lia|]. by apply disappears_now.
    + intros u t' _ ->. eapply wp_mono; [apply IH|]. intros out t' (r & -> & Ht & Hr).
      eexists. split; [reflexivity|]. change (Z.to_nat 1) with 1 in *. rewrite Nat.add_1_r in *.
      split; [lia|]. rewrite Hr. split.
      * intros (k & Hk & Ha). exists (S k). split; [lia|]. apply disappears_now. eauto.
      * intros ([|k] & Hk & Ha); apply disappears_now in Ha; [by rewrite Hm in Ha|].
        exists k. split; [lia|]. apply Ha.
Qed.

(** Running a command. *)
Lemma wp_exec_clock {A} argv (f : proc A) Q t :
  wp clock_step f Q (t + lasts t argv `min` 40) →
  wp clock_step (execWithTimeout argv 40;; f) Q t.
Proof. intros Hf. apply wp_proc_bind. by intros r t' _ ->. Qed.

(** C28: connecting runs its commands ([nvme connect]; or [iscsiadm] to discover and to
    log in), each for at most 40 seconds and whatever they answer, and then looks for a
    device of the volume every second.  It succeeds exactly when one is there at one of
    these looks, the first when the commands are over and the last 20 seconds later; it
    answers the first device there is; and it ends at most 21 seconds after the commands. *)
Theorem Connect_awaits_device i t :
  let t0 := commands_over t (connect_commands i) in
  t ≤ t0 ≤ t + 40 * length (connect_commands i) ∧
  wp clock_step (Connect_basic i)
    (λ out t', ∃ r, out = Done r ∧ t0 ≤ t' ≤ t0 + 21 ∧
       ∀ d, r = inr d ↔ ∃ k, k ≤ 20 ∧ appears (device_pattern i) t0 k d) t.
Proof.
  split; [apply commands_over_bounds|].
  assert (∀ g t0, wp clock_step (waitForDeviceReady g 20)
    (λ out t', ∃ r, out = Done r ∧ t0 ≤ t' ≤ t0 + 21 ∧
       ∀ d, r = inr d ↔ ∃ k, k ≤ 20 ∧ appears g t0 k d) t0) as Hwait.
  { intros g t0. eapply wp_mono; [apply (wp_ready_clock g 21)|].
    intros out t' (r & -> & Ht & Hr). exists r. split_and!; [done|lia..|]. intros d. rewrite Hr.
    split; intros (k & ? & ?); exists k; (split; [lia|done]). }
  destruct i as [n|s]; [apply wp_exec_clock|apply wp_exec_clock, wp_exec_clock]; apply Hwait.
Qed.

(** C29: disconnecting runs its command for at most 40 seconds and whatever it answers, and
    then looks for devices of the volume every second.  It succeeds exactly when none is
    there at one of these looks, the first when the command is over and the last 20
    seconds later; and it ends at most 21 seconds after the command. *)
Theorem Disconnect_awaits_removal i t :
  let t0 := commands_over t (disconnect_commands i) in
  t ≤ t0 ≤ t + 40 ∧
  wp clock_step (Disconnect_basic i)
    (λ out t', ∃ r, out = Done r ∧ t0 ≤ t' ≤ t0 + 21 ∧
       (r = None ↔ ∃ k, k ≤ 20 ∧ disappears (device_pattern i) t0 k)) t.
Proof.
  split.
  { pose proof (commands_over_bounds t (disconnect_commands i)). by destruct i. }
  assert (∀ g t0, wp clock_step (waitForDeviceGone g)
    (λ out t', ∃ r, out = Done r ∧ t0 ≤ t' ≤ t0 + 21 ∧
       (r = None ↔ ∃ k, k ≤ 20 ∧ disappears g t0 k)) t0) as Hwait.
  { intros g t0. eapply wp_mono; [apply (wp_gone_clock g 21)|].
    intros out t' (r & -> & Ht & Hr). exists r. split_and!; [done|lia..|]. rewrite Hr.
    split; intros (k & ? & ?); exists k; (split; [lia|done]). }
  destruct i as [n|s]; apply wp_exec_clock, Hwait.
Qed.
End clock.
