(* ===== verification/Sma.v ===== *)
(** The SMA back end of the xPU initiator: pkg/util/smainitiator.go. *)

From S2P Require Import Prelude.
From S2P Require Import GoLang.
From S2P Require Import GoJson.
From S2P Require Import World.
From S2P Require Import Util.

(** ** Data shared with the other back ends *)

Definition xpuNvmfTCPTargetType : string := "tcp".
Definition xpuNvmfTCPAdrFam : string := "ipv4".
Definition xpuNvmfTCPTargetAddr : string := "127.0.0.1".
Definition xpuNvmfTCPTargetPort : string := "4421".
Definition xpuNvmfTCPSubNqnPref : string := "nqn.2022-04.io.spdk.csi:cnode0:uuid:".
Definition smaNvmfTCPTargetPort : string := "4421".

Definition TransportTypeNvmfTCP : string := "nvmftcp".
Definition TransportTypeNvme : string := "nvme".
Definition TransportTypeVirtioBlk : string := "virtioblk".

Record PciEndpoint := mkPciEndpoint { pfID : Z; vfID : Z }.
Record ConnectParams := mkConnectParams { tcpTargetPort : string; cp_PciEndpoint : PciEndpoint }.

(** The methods a back end offers to the xPU initiator. *)
Class XpuInitiator (B : Type) := {
  xConnect : ConnectParams → st B (option goerror);
  xDisconnect : st B (option goerror);
  GetParam : B → gmap string string
}.

(** ** SMA *)

Record smaCommon := mkSmaCommon {
  sma_volumeContext : gomap;
  sma_deviceHandle : string;
  sma_volumeID : option string
}.

Variant sma_initiator :=
  | smaInitiatorNvmfTCP (c : smaCommon)
  | smaInitiatorNvme (c : smaCommon)
  | smaInitiatorVirtioBlk (c : smaCommon).

Definition volumeUUID (model : string) : proc (gores string) :=
  if bool_decide (model = "") then mret (inl (ENew "no volume available"))
  else
    r ← perform (UuidParse model);
    mret match r with
         | inl msg => inl (EWrap ("uuid.Parse(" +:+ model +:+ ") failed: ") (ENew msg))
         | inr bytes => inr bytes
         end.

Definition NewSpdkCsiSmaInitiator (volumeContext : gomap) (trType : string)
    (storedXPUContext : gomap) : proc (gores sma_initiator) :=
  volumeID ←? volumeUUID (mget volumeContext "model");
  let c := mkSmaCommon volumeContext (mget storedXPUContext "deviceHandle") (Some volumeID) in
  mret (if bool_decide (trType = TransportTypeNvmfTCP) then inr (smaInitiatorNvmfTCP c)
        else if bool_decide (trType = TransportTypeNvme) then inr (smaInitiatorNvme c)
        else if bool_decide (trType = TransportTypeVirtioBlk) then inr (smaInitiatorVirtioBlk c)
        else inl (ENew ("unknown SMA targetType: " +:+ trType))).

Module smaCommon.

Definition set_deviceHandle (h : string) (c : smaCommon) : smaCommon :=
  mkSmaCommon (sma_volumeContext c) h (sma_volumeID c).
Definition set_volumeID (v : option string) (c : smaCommon) : smaCommon :=
  mkSmaCommon (sma_volumeContext c) (sma_deviceHandle c) v.

Definition GetParam (c : smaCommon) : gmap string string :=
  {[ "deviceHandle" := sma_deviceHandle c ]}.

Definition model (c : smaCommon) : string := mget (sma_volumeContext c) "model".

Definition CreateDevice (volume : option (option string * nvmf_params)) (params : sma_device)
    : st smaCommon (option goerror) :=
  response ← lift (perform (SmaCall (SmaCreateDevice volume params)));
  c ← get;
  match response with
  | SmaErr msg =>
      mret (Some (EWrap ("failed to create device for id '" +:+ model c +:+ "': ") (ENew msg)))
  | SmaNil => mret (Some (ENew "create device: nil response"))
  | SmaOk handle =>
      if bool_decide (handle = "") then
        mret (Some (ENew ("create device '" +:+ model c +:+ "': no device handle in response")))
      else put (set_deviceHandle handle c);; mret None
  end.

Definition AttachVolume (volume_id : option string) (params : nvmf_params) (handle : string)
    : st smaCommon (option goerror) :=
  response ← lift (perform (SmaCall (SmaAttachVolume volume_id params handle)));
  c ← get;
  match response with
  | SmaErr msg =>
      mret (Some (EWrap ("failed to attach volume " +:+ quoted (model c) +:+ " to device '" +:+ handle +:+ "': ") (ENew msg)))
  | SmaNil =>
      mret (Some (ENew ("attach volume '" +:+ model c +:+ "' for device '" +:+ handle +:+ "': nil response")))
  | SmaOk _ => put (set_volumeID volume_id c);; mret None
  end.

Definition DetachVolume (volume_id : option string) (handle : string)
    : st smaCommon (option goerror) :=
  response ← lift (perform (SmaCall (SmaDetachVolume volume_id handle)));
  c ← get;
  match response with
  | SmaErr msg =>
      mret (Some (EWrap ("failed to detach volume " +:+ quoted (model c) +:+ " from device '" +:+ handle +:+ "': ") (ENew msg)))
  | SmaNil =>
      mret (Some (ENew ("detach volume '" +:+ model c +:+ "' from volume '" +:+ handle +:+ "': nil response")))
  | SmaOk _ => put (set_volumeID None c);; mret None
  end.

Definition DeleteDevice (handle : string) : st smaCommon (option goerror) :=
  response ← lift (perform (SmaCall (SmaDeleteDevice handle)));
  c ← get;
  match response with
  | SmaErr msg =>
      mret (Some (EWrap ("failed to delete device '" +:+ handle +:+ "': ") (ENew msg)))
  | SmaNil => mret (Some (ENew ("delete device '" +:+ handle +:+ "': nil response")))
  | SmaOk _ => put (set_deviceHandle "" c);; mret None
  end.

Definition nvmfVolumeParameters (c : smaCommon) : nvmf_params :=
  mkNvmfParams (mget (sma_volumeContext c) "nqn") (mget (sma_volumeContext c) "targetType")
    (mget (sma_volumeContext c) "targetAddr") (mget (sma_volumeContext c) "targetPort").

(** Attach the volume to the device just made; when that fails the device is deleted
    and the first error is returned. *)
Definition attach_or_delete : st smaCommon (option goerror) :=
  c ← get;
  err ← AttachVolume (sma_volumeID c) (nvmfVolumeParameters c) (sma_deviceHandle c);
  match err with
  | Some e =>
      c ← get;
      DeleteDevice (sma_deviceHandle c);;
      mret (Some e)
  | None => mret None
  end.

(** Detach (when a volume is attached), then delete the device. *)
Definition detach_and_delete (wrap : smaCommon → goerror → goerror) : st smaCommon (option goerror) :=
  c ← get;
  if bool_decide (sma_deviceHandle c = "") then mret None
  else
    err ← match sma_volumeID c with
          | Some _ => DetachVolume (sma_volumeID c) (sma_deviceHandle c)
          | None => mret None
          end;
    c ← get;
    match err with
    | Some e => mret (Some (wrap c e))
    | None => DeleteDevice (sma_deviceHandle c)
    end.

End smaCommon.

Module smaInitiatorNvmfTCP.
Definition Connect (params : ConnectParams) : st smaCommon (option goerror) :=
  c ← get;
  smaCommon.CreateDevice None
    (DeviceNvmfTcp (xpuNvmfTCPSubNqnPref +:+ smaCommon.model c) xpuNvmfTCPAdrFam
                   xpuNvmfTCPTargetAddr (tcpTargetPort params) true) ;?
  smaCommon.attach_or_delete.

Definition Disconnect : st smaCommon (option goerror) :=
  smaCommon.detach_and_delete (λ c e,
    EWrap ("failed to detach volume '" +:+ default "" (sma_volumeID c) +:+ "' from device '"
           +:+ sma_deviceHandle c +:+ "': ") e).
End smaInitiatorNvmfTCP.

Module smaInitiatorNvme.
Definition Connect (params : ConnectParams) : st smaCommon (option goerror) :=
  smaCommon.CreateDevice None
    (DeviceNvme (pfID (cp_PciEndpoint params)) (vfID (cp_PciEndpoint params))) ;?
  smaCommon.attach_or_delete.

Definition Disconnect : st smaCommon (option goerror) :=
  smaCommon.detach_and_delete (λ _ e, e).
End smaInitiatorNvme.

Module smaInitiatorVirtioBlk.
Definition Connect (params : ConnectParams) : st smaCommon (option goerror) :=
  c ← get;
  if negb (bool_decide (sma_deviceHandle c = "")) then mret None
  else
    smaCommon.CreateDevice (Some (sma_volumeID c, smaCommon.nvmfVolumeParameters c))
      (DeviceVirtioBlk (pfID (cp_PciEndpoint params)) (vfID (cp_PciEndpoint params))).

Definition Disconnect : st smaCommon (option goerror) :=
  c ← get;
  if bool_decide (sma_deviceHandle c = "") then mret None
  else smaCommon.DeleteDevice (sma_deviceHandle c).
End smaInitiatorVirtioBlk.

Definition sma_common (i : sma_initiator) : smaCommon :=
  match i with
  | smaInitiatorNvmfTCP c | smaInitiatorNvme c | smaInitiatorVirtioBlk c => c
  end.
Definition sma_set_common (c : smaCommon) (i : sma_initiator) : sma_initiator :=
  match i with
  | smaInitiatorNvmfTCP _ => smaInitiatorNvmfTCP c
  | smaInitiatorNvme _ => smaInitiatorNvme c
  | smaInitiatorVirtioBlk _ => smaInitiatorVirtioBlk c
  end.

#[export] Instance sma_XpuInitiator : XpuInitiator sma_initiator := {
  xConnect params := λ i, zoom sma_common sma_set_common
    match i with
    | smaInitiatorNvmfTCP _ => smaInitiatorNvmfTCP.Connect params
    | smaInitiatorNvme _ => smaInitiatorNvme.Connect params
    | smaInitiatorVirtioBlk _ => smaInitiatorVirtioBlk.Connect params
    end i;
  xDisconnect := λ i, zoom sma_common sma_set_common
    match i with
    | smaInitiatorNvmfTCP _ => smaInitiatorNvmfTCP.Disconnect
    | smaInitiatorNvme _ => smaInitiatorNvme.Disconnect
    | smaInitiatorVirtioBlk _ => smaInitiatorVirtioBlk.Disconnect
    end i;
  GetParam i := smaCommon.GetParam (sma_common i)
}.
