(* ===== verification/Opi.v ===== *)
(** The OPI back end of the xPU initiator: pkg/util/opiinitiator.go.  [Connect]
    makes a chain of objects on the bridge and [cleanup] removes those whose names
    are recorded. *)

From S2P Require Import Prelude.
From S2P Require Import GoLang.
From S2P Require Import GoJson.
From S2P Require Import World.
From S2P Require Import Util.
From S2P Require Import Sma.

(** ** Data *)

Definition opiNvmfRemoteControllerHostnqnPref : string :=
  "nqn.2023-04.io.spdk.csi:remote.controller:uuid:".
Definition opiNvmeSubsystemNqnPref : string := "nqn.2016-06.io.spdk.csi:subsystem:uuid:".
Definition opiObjectPrefix : string := "opi-spckcsi-".

Record opiCommon := mkOpiCommon {
  opi_volumeContext : gomap;
  nvmfRemoteControllerName : string;
  nvmfPathName : string
}.

Record opiInitiatorNvme := mkOpiInitiatorNvme {
  on_common : opiCommon;
  subsystemName : string;
  namespaceName : string;
  nvmeControllerName : string
}.

Record opiInitiatorVirtioBlk := mkOpiInitiatorVirtioBlk {
  ov_common : opiCommon;
  virtioBlkName : string
}.

Variant opi_initiator :=
  | OpiNvme (i : opiInitiatorNvme)
  | OpiVirtio (i : opiInitiatorVirtioBlk).

Definition NewSpdkCsiOpiInitiator (volumeContext : gomap) (trType : string)
    (storedXPUContext : gomap) : gores opi_initiator :=
  let c := mkOpiCommon volumeContext (mget storedXPUContext "nvmfRemoteControllerName")
                       (mget storedXPUContext "nvmfPathName") in
  if bool_decide (trType = TransportTypeVirtioBlk) then
    inr (OpiVirtio (mkOpiInitiatorVirtioBlk c (mget storedXPUContext "virtioBlkName")))
  else if bool_decide (trType = TransportTypeNvme) then
    inr (OpiNvme (mkOpiInitiatorNvme c (mget storedXPUContext "subsystemName")
      (mget storedXPUContext "namespaceName") (mget storedXPUContext "nvmeControllerName")))
  else inl (ENew ("unknown OPI transport type: " +:+ trType)).

(** ** Operations both back ends share *)

Module opiCommon.

Definition set_controller (v : string) (c : opiCommon) : opiCommon :=
  mkOpiCommon (opi_volumeContext c) v (nvmfPathName c).
Definition set_path (v : string) (c : opiCommon) : opiCommon :=
  mkOpiCommon (opi_volumeContext c) (nvmfRemoteControllerName c) v.

Definition model (c : opiCommon) : string := mget (opi_volumeContext c) "model".
Definition object_id (c : opiCommon) : string := opiObjectPrefix +:+ model c.

(** Delete the object recorded under a name, and forget the name. *)
Definition delete_object {S} (kind : opi_kind) (name : S → string) (forget : S → S)
    (wrap : S → goerror → goerror) : st S (option goerror) :=
  c ← get;
  if bool_decide (name c = "") then mret None
  else
    r ← lift (perform (OpiCall (OpiDelete kind (name c) true)));
    match r with
    | inl msg => mret (Some (wrap c (ENew msg)))
    | inr _ => put (forget c);; mret None
    end.

Definition createNvmeRemoteController : st opiCommon (option goerror) :=
  c ← get;
  r ← lift (perform (OpiCall (OpiCreateRemoteController (object_id c))));
  match r with
  | inl msg =>
      mret (Some (EWrap ("failed to create remote NVMf controller for '" +:+ object_id c +:+ "': ") (ENew msg)))
  | inr name => put (set_controller name c);; mret None
  end.

Definition deleteNvmeRemoteController : st opiCommon (option goerror) :=
  delete_object OpiRemoteController nvmfRemoteControllerName (set_controller "") (λ _ e, e).

Definition createNvmfPath : st opiCommon (option goerror) :=
  c ← get;
  match ParseInt (mget (opi_volumeContext c) "targetPort") with
  | inl err =>
      mret (Some (EWrap ("failed to create NVMf path for '" +:+ model c +:+ "': invalid targetPort '"
                         +:+ mget (opi_volumeContext c) "targetPort" +:+ "': ") err))
  | inr targetSvcPort =>
      r ← lift (perform (OpiCall (OpiCreatePath (object_id c)
             (mget (opi_volumeContext c) "targetAddr") targetSvcPort
             (mget (opi_volumeContext c) "nqn")
             (opiNvmfRemoteControllerHostnqnPref +:+ model c)
             (nvmfRemoteControllerName c))));
      match r with
      | inl msg =>
          mret (Some (EWrap ("failed to create remote NVMf path for '" +:+ object_id c +:+ "': ") (ENew msg)))
      | inr name => put (set_path name c);; mret None
      end
  end.

Definition deleteNvmfPath : st opiCommon (option goerror) :=
  delete_object OpiPath nvmfPathName (set_path "") (λ _ e, e).

End opiCommon.

(** ** NVMe *)

Module opiInitiatorNvme.

Definition set_common (c : opiCommon) (i : opiInitiatorNvme) : opiInitiatorNvme :=
  mkOpiInitiatorNvme c (subsystemName i) (namespaceName i) (nvmeControllerName i).
Definition set_subsystem (v : string) (i : opiInitiatorNvme) : opiInitiatorNvme :=
  mkOpiInitiatorNvme (on_common i) v (namespaceName i) (nvmeControllerName i).
Definition set_namespace (v : string) (i : opiInitiatorNvme) : opiInitiatorNvme :=
  mkOpiInitiatorNvme (on_common i) (subsystemName i) v (nvmeControllerName i).
Definition set_nvmeController (v : string) (i : opiInitiatorNvme) : opiInitiatorNvme :=
  mkOpiInitiatorNvme (on_common i) (subsystemName i) (namespaceName i) v.

Definition common {A} (m : st opiCommon A) : st opiInitiatorNvme A := zoom on_common set_common m.
Definition model (i : opiInitiatorNvme) : string := opiCommon.model (on_common i).
Definition object_id (i : opiInitiatorNvme) : string := opiCommon.object_id (on_common i).

Definition GetParam (i : opiInitiatorNvme) : gmap string string := list_to_map [
  ("nvmfRemoteControllerName", nvmfRemoteControllerName (on_common i));
  ("nvmfPathName", nvmfPathName (on_common i));
  ("subsystemName", subsystemName i);
  ("namespaceName", namespaceName i);
  ("nvmeControllerName", nvmeControllerName i)].

Definition createNvmeSubsystem : st opiInitiatorNvme (option goerror) :=
  i ← get;
  r ← lift (perform (OpiCall (OpiCreateSubsystem (object_id i) (opiNvmeSubsystemNqnPref +:+ model i))));
  match r with
  | inl msg =>
      mret (Some (EWrap ("failed to create NVMe subsystem for '" +:+ object_id i +:+ "': ") (ENew msg)))
  | inr name => put (set_subsystem name i);; mret None
  end.

Definition deleteNvmeSubsystem : st opiInitiatorNvme (option goerror) :=
  opiCommon.delete_object OpiSubsystem subsystemName (set_subsystem "")
    (λ i e, EWrap ("failed to delete NVMe subsystem '" +:+ subsystemName i +:+ "': ") e).

(** The ids are sent as [int32]. *)
Definition createNvmeController (physID virtID : Z) : st opiInitiatorNvme (option goerror) :=
  i ← get;
  r ← lift (perform (OpiCall (OpiCreateController (object_id i) (subsystemName i)
                                (int32 physID) (int32 virtID))));
  match r with
  | inl msg =>
      mret (Some (EWrap ("failed to create NVMe controller with physID (" +:+ FormatInt physID
                         +:+ ") and virtID (" +:+ FormatInt virtID +:+ ") error: ") (ENew msg)))
  | inr name => put (set_nvmeController name i);; mret None
  end.

Definition deleteNvmeController : st opiInitiatorNvme (option goerror) :=
  opiCommon.delete_object OpiController nvmeControllerName (set_nvmeController "") (λ _ e, e).

Definition createNvmeNamespace : st opiInitiatorNvme (option goerror) :=
  i ← get;
  bigHostNsID ← lift (perform (RandInt 32));
  match bigHostNsID with
  | inl msg => mret (Some (EWrap "failed to generate random number: " (ENew msg)))
  | inr n =>
      r ← lift (perform (OpiCall (OpiCreateNamespace (object_id i) (subsystemName i)
                                    (int32 n) (model i))));
      match r with
      | inl msg => mret (Some (ENew msg))
      | inr name => put (set_namespace name i);; mret None
      end
  end.

Definition deleteNvmeNamespace : st opiInitiatorNvme (option goerror) :=
  opiCommon.delete_object OpiNamespace namespaceName (set_namespace "") (λ _ e, e).

Definition cleanup : st opiInitiatorNvme (option goerror) :=
  deleteNvmeNamespace ;?
  common opiCommon.deleteNvmfPath ;?
  common opiCommon.deleteNvmeRemoteController ;?
  deleteNvmeController ;?
  deleteNvmeSubsystem.

(** The steps after the subsystem exists. *)
Definition connect_steps (params : ConnectParams) : st opiInitiatorNvme (option goerror) :=
  createNvmeController (pfID (cp_PciEndpoint params)) (vfID (cp_PciEndpoint params)) ;?
  common opiCommon.createNvmeRemoteController ;?
  common opiCommon.createNvmfPath ;?
  createNvmeNamespace.

(** The deferred cleanup runs when a step after the first fails. *)
Definition Connect (params : ConnectParams) : st opiInitiatorNvme (option goerror) :=
  createNvmeSubsystem ;?
  err ← connect_steps params;
  match err with
  | Some e => cleanup;; mret (Some e)
  | None => mret None
  end.

Definition Disconnect : st opiInitiatorNvme (option goerror) := cleanup.

End opiInitiatorNvme.

(** ** VirtioBlk *)

Module opiInitiatorVirtioBlk.

Definition set_common (c : opiCommon) (i : opiInitiatorVirtioBlk) : opiInitiatorVirtioBlk :=
  mkOpiInitiatorVirtioBlk c (virtioBlkName i).
Definition set_virtioBlk (v : string) (i : opiInitiatorVirtioBlk) : opiInitiatorVirtioBlk :=
  mkOpiInitiatorVirtioBlk (ov_common i) v.

Definition common {A} (m : st opiCommon A) : st opiInitiatorVirtioBlk A :=
  zoom ov_common set_common m.

Definition GetParam (i : opiInitiatorVirtioBlk) : gmap string string := list_to_map [
  ("nvmfRemoteControllerName", nvmfRemoteControllerName (ov_common i));
  ("nvmfPathName", nvmfPathName (ov_common i));
  ("virtioBlkName", virtioBlkName i)].

Definition createVirtioBlk (physID virtID : Z) : st opiInitiatorVirtioBlk (option goerror) :=
  i ← get;
  r ← lift (perform (OpiCall (OpiCreateVirtioBlk (opiCommon.object_id (ov_common i))
                                (int32 physID) (int32 virtID) (opiCommon.model (ov_common i)))));
  match r with
  | inl msg =>
      mret (Some (EWrap ("failed to create virtio-blk device with physID (" +:+ FormatInt physID
                         +:+ ") and virtID (" +:+ FormatInt virtID +:+ ") error: ") (ENew msg)))
  | inr name => put (set_virtioBlk name i);; mret None
  end.

Definition deleteVirtioBlk : st opiInitiatorVirtioBlk (option goerror) :=
  opiCommon.delete_object OpiVirtioBlk virtioBlkName (set_virtioBlk "") (λ _ e, e).

Definition cleanup : st opiInitiatorVirtioBlk (option goerror) :=
  deleteVirtioBlk ;?
  common opiCommon.deleteNvmfPath ;?
  common opiCommon.deleteNvmeRemoteController.

Definition connect_steps (params : ConnectParams) : st opiInitiatorVirtioBlk (option goerror) :=
  common opiCommon.createNvmfPath ;?
  createVirtioBlk (pfID (cp_PciEndpoint params)) (vfID (cp_PciEndpoint params)).

Definition Connect (params : ConnectParams) : st opiInitiatorVirtioBlk (option goerror) :=
  common opiCommon.createNvmeRemoteController ;?
  err ← connect_steps params;
  match err with
  | Some e => cleanup;; mret (Some e)
  | None => mret None
  end.

Definition Disconnect : st opiInitiatorVirtioBlk (option goerror) := cleanup.

End opiInitiatorVirtioBlk.

#[export] Instance opi_XpuInitiator : XpuInitiator opi_initiator := {
  xConnect params := λ b,
    match b with
    | OpiNvme i => '(r, i') ← opiInitiatorNvme.Connect params i; mret (r, OpiNvme i')
    | OpiVirtio i => '(r, i') ← opiInitiatorVirtioBlk.Connect params i; mret (r, OpiVirtio i')
    end;
  xDisconnect := λ b,
    match b with
    | OpiNvme i => '(r, i') ← opiInitiatorNvme.Disconnect i; mret (r, OpiNvme i')
    | OpiVirtio i => '(r, i') ← opiInitiatorVirtioBlk.Disconnect i; mret (r, OpiVirtio i')
    end;
  GetParam b :=
    match b with
    | OpiNvme i => opiInitiatorNvme.GetParam i
    | OpiVirtio i => opiInitiatorVirtioBlk.GetParam i
    end
}.
