(* ===== verification/Sysfs.v ===== *)
(** Devices and PCI functions in /sys and /dev: the rest of pkg/util/util.go. *)

From Stdlib Require Import Ascii.
From S2P Require Import Prelude.
From S2P Require Import GoLang.
From S2P Require Import GoJson.
From S2P Require Import JsonText.
From S2P Require Import World.
From S2P Require Import Util.
From S2P Require Import Initiator.
From S2P Require Import Sma.

(** ** Data *)

Record PciIDs := mkPciIDs { VendorID : string; DeviceID : string; ClassID : string }.
#[export] Instance PciIDs_eq_dec : EqDecision PciIDs.
Proof. solve_decision. Defined.

Record PciBdfs := mkPciBdfs { pfBdf : string; vfBdf : string }.

Record XpuConfig := mkXpuConfig {
  xc_Name : string;
  xc_TargetType : string;
  xc_TargetAddr : string;
  xc_PciIDs : PciIDs
}.

Definition KvmPciBridgeIDs : PciIDs := mkPciIDs "0x1b36" "0x0001" "0x060400".

(** On a non-nil pointer. *)
Definition IsKvm (pciIDs : PciIDs) : bool :=
  bool_decide (VendorID pciIDs = VendorID KvmPciBridgeIDs) &&
  bool_decide (DeviceID pciIDs = DeviceID KvmPciBridgeIDs) &&
  bool_decide (ClassID pciIDs = ClassID KvmPciBridgeIDs).

(** ** Device names in paths *)

(** [p d+] at the start of [s], as a greedy match: the matched text and the rest. *)
Definition match_num (p s : string) : option (string * string) :=
  if HasPrefix s p then
    let '(d, r) := digits (drop_prefix p s) in
    if nonempty d then Some (p +:+ d, r) else None
  else None.

(** [nvme(\d+)n(\d+)|nvme(\d+)c(\d+)n(\d+)] at the start of [s]. *)
Definition match_device (s : string) : option string :=
  '(a, r) ← match_num "nvme" s;
  match match_num "n" r with
  | Some (b, _) => Some (a +:+ b)
  | None =>
      '(b, r) ← match_num "c" r;
      '(c, _) ← match_num "n" r;
      Some (a +:+ b +:+ c)
  end.

(** [nvmeReDeviceSysFileName.FindString]: the leftmost match, or the empty string. *)
Fixpoint find_device (s : string) : string :=
  match match_device s with
  | Some m => m
  | None => match s with EmptyString => EmptyString | String _ s' => find_device s' end
  end.

(** [nvmeReDeviceName.ReplaceAllString(s, "")]: every [c\d+] is removed; [skip] is
    set inside the digits of a match. *)
Fixpoint remove_c (skip : bool) (s : string) : string :=
  match s with
  | EmptyString => EmptyString
  | String a s' =>
      if skip && is_digit a then remove_c true s'
      else if (N_of_ascii a =? 99)%N && match s' with String b _ => is_digit b | _ => false end
      then remove_c true s'
      else String a (remove_c false s')
  end.

Definition device_of_path (uuidFilePath : string) : string :=
  remove_c false (find_device uuidFilePath).

(** ** Finding the NVMe device of a volume *)

Definition getNvmeDeviceName (uuidFilePath nvmeModel : string) : proc (gores string) :=
  r ← perform (OsReadFile uuidFilePath);
  mret match r with
       | inl e => inl (sys_error e)
       | inr uuidContent =>
           if bool_decide (TrimSpace uuidContent = nvmeModel)
           then inr (device_of_path uuidFilePath)
           else inl (ENew "does not match")
       end.

(** The paths already looked at, when the caller keeps them. *)
Fixpoint check_paths (nvmeModel : string) (paths : list string) (ignorePaths : option (gset string))
    : proc (gores string * option (gset string)) :=
  match paths with
  | [] => mret (inl (ESentinel ErrNotExist), ignorePaths)
  | filePath :: paths' =>
      let visited := match ignorePaths with Some s => bool_decide (filePath ∈ s) | None => false end in
      if visited then check_paths nvmeModel paths' ignorePaths
      else
        let ignorePaths := (λ s : gset string, {[ filePath ]} ∪ s) <$> ignorePaths in
        r ← getNvmeDeviceName filePath nvmeModel;
        match r with
        | inr deviceName =>
            if bool_decide (deviceName = "") then check_paths nvmeModel paths' ignorePaths
            else mret (inr deviceName, ignorePaths)
        | inl _ => check_paths nvmeModel paths' ignorePaths
        end
  end.

Definition CheckIfNvmeDeviceExists (nvmeModel : string) (ignorePaths : option (gset string))
    : proc (gores string * option (gset string)) :=
  r ← glob "/sys/bus/pci/devices/*/nvme/nvme*/nvme*n*/uuid";
  match r with
  | inl err => mret (inl (EWrap "obtain uuid files error: " err), ignorePaths)
  | inr uuidFilePaths => check_paths nvmeModel uuidFilePaths ignorePaths
  end.

Fixpoint detect_loop (nvmeModel : string) (seconds : nat) (seen : option (gset string))
    : proc (gores string) :=
  match seconds with
  | O => mret (inl (ESentinel ErrDeadlineExceeded))
  | S seconds =>
      '(r, seen) ← CheckIfNvmeDeviceExists nvmeModel seen;
      match r with
      | inr deviceName => mret (inr deviceName)
      | inl _ => perform (Sleep 1);; detect_loop nvmeModel seconds seen
      end
  end.

Definition detectNvmeDeviceName (nvmeModel : string) : proc (gores string) :=
  detect_loop nvmeModel 20 (Some ∅).

Definition GetNvmeDeviceName (nvmeModel bdf : string) : proc (gores string) :=
  r ← (if negb (bool_decide (bdf = "")) then
         r ← waitForDeviceReady ("/sys/bus/pci/devices/" +:+ bdf +:+ "/nvme/nvme*/nvme*n*/uuid") 20;
         match r with
         | inl err => mret (inl (EWrap "failed find device at : " err))
         | inr uuidFilePath =>
             r ← getNvmeDeviceName uuidFilePath nvmeModel;
             mret match r with
                  | inl err => inl (EWrap "failed to find nvme device name: " err)
                  | inr d => inr d
                  end
         end
       else
         r ← detectNvmeDeviceName nvmeModel;
         mret match r with
              | inl err => inl (EWrap "failed to find nvme device name: " err)
              | inr d => inr d
              end);
  match r with
  | inl err => mret (inl err)
  | inr deviceName => waitForDeviceReady ("/dev/" +:+ deviceName) 20
  end.

Definition GetVirtioBlkDeviceName (bdf : string) (wait : bool) : proc (gores string) :=
  let sysBusGlob := "/sys/bus/pci/devices/" +:+ bdf +:+ "/virtio*/block" in
  deviceParentDirPath ←? waitForDeviceReady sysBusGlob (if wait then 20 else 0);
  r ← perform (OsReadDir deviceParentDirPath);
  match r with
  | inl e => mret (inl (sys_error e))
  | inr [deviceName] => waitForDeviceReady ("/dev/" +:+ deviceName) 20
  | inr _ =>
      mret (inl (ENew ("the deviceParentDirPath (" +:+ sysBusGlob +:+ ") has wrong content")))
  end.

(** ** PCI functions *)

Definition pciDevicesPath : string := "/sys/bus/pci/devices".

Fixpoint find_pci_loop (pciIDs : PciIDs) (files : list string) : proc (list string) :=
  match files with
  | [] => mret []
  | file :: files' =>
      let devicePath := filepath_Join pciDevicesPath file in
      classData ← perform (OsReadFile (filepath_Join devicePath "class"));
      match classData with
      | inl _ => find_pci_loop pciIDs files'
      | inr classData =>
          vendorData ← perform (OsReadFile (filepath_Join devicePath "vendor"));
          match vendorData with
          | inl _ => find_pci_loop pciIDs files'
          | inr vendorData =>
              deviceData ← perform (OsReadFile (filepath_Join devicePath "device"));
              match deviceData with
              | inl _ => find_pci_loop pciIDs files'
              | inr deviceData =>
                  bdfs ← find_pci_loop pciIDs files';
                  mret (if bool_decide (TrimSpace classData = ClassID pciIDs) &&
                           bool_decide (TrimSpace vendorData = VendorID pciIDs) &&
                           bool_decide (TrimSpace deviceData = DeviceID pciIDs)
                        then file :: bdfs else bdfs)
              end
          end
      end
  end.

Definition findPciDevicesByPciIDs (pciIDs : PciIDs) : proc (list string) :=
  r ← perform (OsReadDir pciDevicesPath);
  match r with
  | inl _ => mret []
  | inr files => find_pci_loop pciIDs files
  end.

(** [%02x] on values below 2^32. *)
Fixpoint hex_digits (fuel : nat) (n : N) : string :=
  match fuel with
  | O => ""
  | S fuel =>
      (if (n <? 16)%N then "" else hex_digits fuel (n / 16)) +:+
      String (hex_digit (n `mod` 16)) EmptyString
  end.
Definition hex02 (z : Z) : string :=
  let n := Z.to_N z in if (n <? 16)%N then "0" +:+ hex_digits 8 n else hex_digits 8 n.

Definition kvm_address (p v : Z) : string := "0000:" +:+ hex02 p +:+ ":" +:+ hex02 v.

(** The first slot without a device, over the slots [(p, v)] in order. *)
Fixpoint kvm_loop (slots : list (Z * Z)) : proc (gores (PciEndpoint * PciBdfs)) :=
  match slots with
  | [] => mret (inl (ESentinel ErrNotExist))
  | (p, v) :: slots' =>
      r ← glob ("/sys/bus/pci/devices/" +:+ kvm_address p v +:+ ".*");
      match r with
      | inl err => mret (inl (EWrap "sysfs failure: " err))
      | inr [] =>
          mret (inr (mkPciEndpoint (uint32 (uint32 (uint32 (p - 1) * 32) + v)) 0,
                     mkPciBdfs "" (kvm_address p v +:+ ".0")))
      | inr _ => kvm_loop slots'
      end
  end.

(** Bridges [1 .. count] and the 32 slots of each. *)
Definition kvm_slots (count : Z) : list (Z * Z) :=
  p ← seqZ 1 count; v ← seqZ 0 32; [(p, v)].

(** [kvmPciBridgeCount] is computed when the package is loaded. *)
Definition getAvailableFunctionsKvm (kvmPciBridgeCount : Z) : proc (gores (PciEndpoint * PciBdfs)) :=
  if (kvmPciBridgeCount =? 0)%Z then mret (inl (ENew "no valid kvm bridges"))
  else kvm_loop (kvm_slots (uint32 kvmPciBridgeCount)).

Fixpoint pf_vf_loop (bdfs : list string) (pf : string) (vfCount : Z) : proc (string * Z) :=
  match bdfs with
  | [] => mret (pf, vfCount)
  | bdf :: bdfs' =>
      r ← perform (OsStat ("/sys/bus/pci/devices/" +:+ bdf +:+ "/physfn"));
      match r with
      | inl (true, _) => pf_vf_loop bdfs' bdf vfCount
      | inl (false, _) => pf_vf_loop bdfs' pf vfCount
      | inr _ => pf_vf_loop bdfs' pf (vfCount + 1)
      end
  end.

Definition getXpuPfBdfAndVfCount (pciIDs : PciIDs) : proc (string * Z) :=
  bdfs ← findPciDevicesByPciIDs pciIDs;
  pf_vf_loop bdfs "" 0.

(** [s[3:]]: panics on a shorter string. *)
Definition slice3 (s : string) : option string :=
  match s with
  | String _ (String _ (String _ r)) => Some r
  | _ => None
  end.

Fixpoint xpu_loop (pf : string) (vfs : list Z) : proc (gores (PciEndpoint * PciBdfs)) :=
  match vfs with
  | [] => mret (inl (ESentinel ErrNotExist))
  | vf :: vfs' =>
      r ← perform (OsReadlink ("/sys/bus/pci/devices/" +:+ pf +:+ "/virtfn" +:+ FormatInt (vf - 1)));
      match r with
      | inl e => mret (inl (EWrap "sysfs failure: " (sys_error e)))
      | inr link =>
          match slice3 link with
          | None => Panic "slice bounds out of range"
          | Some vfBdf =>
              r ← glob ("/sys/bus/pci/devices/" +:+ vfBdf +:+ "/nvme");
              match r with
              | inl err => mret (inl (EWrap "sysfs failure: " err))
              | inr [] => mret (inr (mkPciEndpoint 0 (uint32 vf), mkPciBdfs pf vfBdf))
              | inr _ => xpu_loop pf vfs'
              end
          end
      end
  end.

Definition getAvailableFunctionsXpu (pciIDs : PciIDs) : proc (gores (PciEndpoint * PciBdfs)) :=
  '(pf, vfCount) ← getXpuPfBdfAndVfCount pciIDs;
  xpu_loop pf (seqZ 1 vfCount).

Definition GetAvailableFunctions (kvmPciBridgeCount : Z) (xpuConfig : XpuConfig)
    : proc (gores (PciEndpoint * PciBdfs)) :=
  if IsKvm (xc_PciIDs xpuConfig) then getAvailableFunctionsKvm kvmPciBridgeCount
  else getAvailableFunctionsXpu (xc_PciIDs xpuConfig).

Definition appendContentToFile (fileName content : string) : proc (option goerror) :=
  r ← perform (OsAppendFile fileName content);
  mret (sys_err r).
