(* ===== verification/SysfsSpec.v ===== *)
(** Finding devices and free functions of an xPU in /sys. *)

From Stdlib Require Import Ascii.
From S2P Require Import Prelude.
From S2P Require Import GoLang.
From S2P Require Import GoJson.
From S2P Require Import JsonText.
From S2P Require Import World.
From S2P Require Import Util.
From S2P Require Import Initiator.
From S2P Require Import Sma.
From S2P Require Import Sysfs.

(** ** The slots of KVM's bridges *)

(** Slot [k]: the physical function with this number, on bridge [k / 32 + 1]. *)
Definition slot_address (k : nat) : string :=
  kvm_address (Z.of_nat (k / 32) + 1) (Z.of_nat (k mod 32)).
Definition slot_pattern (k : nat) : string :=
  "/sys/bus/pci/devices/" +:+ slot_address k +:+ ".*".
Definition slot_function (k : nat) : PciEndpoint * PciBdfs :=
  (mkPciEndpoint (Z.of_nat k) 0, mkPciBdfs "" (slot_address k +:+ ".0")).

Lemma bind_one {A B} (f : A → B) (l : list A) : l ≫= (λ x, [f x]) = f <$> l.
Proof. induction l as [|x l IH]; [done|]. by rewrite bind_cons, IH. Qed.

Lemma kvm_slots_seq n : kvm_slots (Z.of_nat n) =
  (λ k : nat, (Z.of_nat (k / 32) + 1, Z.of_nat (k mod 32))%Z) <$> seq 0 (32 * n).
Proof.
  unfold kvm_slots. induction n as [|n IH]; [done|].
  rewrite seqZ_S, bind_app. unfold kvm_slots in IH. rewrite IH.
  replace (32 * S n) with (32 * n + 32) by lia. rewrite seq_app, fmap_app. f_equal.
  rewrite Nat.add_0_l, <-(Nat.add_0_r (32 * n)) at 1. rewrite <-fmap_add_seq, <-list_fmap_compose.
  rewrite bind_singleton, bind_one. unfold seqZ. change (Z.to_nat 32) with 32.
  rewrite <-list_fmap_compose. apply list_fmap_ext. intros i k Hk. unfold compose. cbn beta.
  apply lookup_seq in Hk as [-> Hi]. rewrite Nat.add_0_l.
  assert ((32 * n + i) / 32 = n) as ->.
  { symmetry. apply (Nat.div_unique _ _ _ i); lia. }
  assert ((32 * n + i) mod 32 = i) as ->.
  { symmetry. apply (Nat.mod_unique _ _ n i); lia. }
  f_equal; lia.
Qed.

Section slots.
(** What a pattern matches. *)
Context (matches : string → list string).

(** The file system does not change, and can be read. *)
Definition still_step (w : unit) (o : op) : reply o → unit → Prop :=
  match o return reply o → unit → Prop with
  | FilepathGlob g => λ r _, r = inr (matches g)
  | _ => λ _ _, True
  end.

Definition free (k : nat) : Prop := matches (slot_pattern k) = [].

(** [k] is the least free slot from [i] on, below [n]. *)
Definition least_free (i n k : nat) : Prop :=
  i ≤ k < n ∧ free k ∧ ∀ j, i ≤ j < k → ¬ free j.

Lemma wp_kvm_loop i len :
  (Z.of_nat (i + len) < 2 ^ 32)%Z →
  wp still_step
    (kvm_loop ((λ k : nat, (Z.of_nat (k / 32) + 1, Z.of_nat (k mod 32))%Z) <$> seq i len))
    (λ out _, ∃ r, out = Done r ∧
       (∀ f, r = inr f ↔ ∃ k, f = slot_function k ∧ least_free i (i + len) k)) tt.
Proof.
  revert i. induction len as [|len IH]; intros i Hlt.
  - eexists. split; [reflexivity|]. intros f. split; [done|]. intros (k & _ & ? & _). lia.
  - cbn [seq fmap list_fmap kvm_loop]. intros r [] _ ->. cbn [sys_result proc_bind].
    change (kvm_address _ _) with (slot_address i). fold (slot_pattern i).
    destruct (matches (slot_pattern i)) as [|m ms] eqn:Hm; cbn [sys_result].
    + eexists. split; [reflexivity|]. intros f.
      assert ((uint32 (uint32 (uint32 (Z.of_nat (i / 32) + 1 - 1) * 32) + Z.of_nat (i mod 32)) =
              Z.of_nat i)%Z) as Hid.
      { pose proof (Nat.div_mod_eq i 32). pose proof (Nat.mod_upper_bound i 32).
        unfold uint32. rewrite (Z.mod_small (_ + 1 - 1)) by lia.
        rewrite (Z.mod_small (_ * 32)) by lia. rewrite Z.mod_small by lia. lia. }
      rewrite Hid. fold (slot_function i). split.
      * intros [= <-]. exists i. split; [done|]. split; [lia|]. split; [done|lia].
      * intros (k & -> & Hk & Hfree & Hleast). destruct (decide (k = i)) as [->|]; [done|].
        destruct (Hleast i); [lia|done].
    + eapply wp_mono; [apply (IH (S i)); lia|]. intros out [] (r & -> & Hr).
      eexists. split; [reflexivity|]. intros f. rewrite Hr.
      assert (¬ free i) as Hi by by (unfold free; rewrite Hm).
      split; intros (k & -> & Hk & Hfree & Hleast); exists k; (split; [done|]).
      * split; [lia|]. split; [done|]. intros j Hj. destruct (decide (j = i)) as [->|]; [done|].
        apply Hleast. lia.
      * assert (k ≠ i) by by intros ->. split; [lia|]. split; [done|]. intros j Hj. apply Hleast. lia.
Qed.

(** C39: on KVM, with up to 255 bridges of 32 slots, a function is found exactly when some
    slot has no device, and it is the one with the least physical number; its address is
    that of its bridge and slot. *)
Theorem kvm_function_is_least_free n :
  n ≤ 255 →
  wp still_step (getAvailableFunctionsKvm (Z.of_nat n))
    (λ out _, ∃ r, out = Done r ∧
       ∀ f, r = inr f ↔ ∃ k, f = slot_function k ∧ least_free 0 (32 * n) k) tt.
Proof.
  intros Hn. unfold getAvailableFunctionsKvm. destruct (Z.eqb_spec (Z.of_nat n) 0) as [H0|H0].
  - eexists. split; [reflexivity|]. intros f. split; [done|].
    assert (n = 0) as -> by lia. intros (k & _ & ? & _). lia.
  - unfold uint32. rewrite Z.mod_small, kvm_slots_seq by lia.
    apply (wp_kvm_loop 0 (32 * n)). lia.
Qed.
End slots.

Lemma kvm_function_is_least_free_witness :
  let matches g := if bool_decide (g = slot_pattern 0) then ["0000:01:00.0"] else [] in
  1 ≤ 255 ∧
  wp (still_step matches) (getAvailableFunctionsKvm 1)
    (λ out _, ∃ r, out = Done r ∧
       ∀ f, r = inr f ↔ ∃ k, f = slot_function k ∧ least_free matches 0 32 k) tt ∧
  slot_function 1 = (mkPciEndpoint 1 0, mkPciBdfs "" "0000:01:01.0").
Proof.
  intros matches. split; [lia|]. split; [|reflexivity].
  apply (kvm_function_is_least_free matches 1). lia.
Defined.

(** ** The name of a device in its path *)

Fixpoint all_digits (s : string) : bool :=
  match s with
  | EmptyString => true
  | String a s' => is_digit a && all_digits s'
  end.
Definition is_number (s : string) : bool := nonempty s && all_digits s.

Lemma digits_app d s :
  all_digits d = true → match s with String a _ => is_digit a = false | _ => True end →
  digits (d +:+ s) = (d, s).
Proof.
  intros Hd Hs. induction d as [|a d IH]; simpl in *.
  - destruct s as [|a s]; [done|]. simpl. by rewrite Hs.
  - apply andb_true_iff in Hd as [-> Hd]. by rewrite (IH Hd).
Qed.

Lemma HasPrefix_app p s : HasPrefix (p +:+ s) p = true.
Proof. induction p as [|a p IH]; simpl; [by destruct s|]. by rewrite bool_decide_true. Qed.

Lemma drop_prefix_app p s : drop_prefix p (p +:+ s) = s.
Proof. induction p as [|a p IH]; simpl; [by destruct s|done]. Qed.

Lemma match_num_app p d s :
  is_number d = true → match s with String a _ => is_digit a = false | _ => True end →
  match_num p (p +:+ d +:+ s) = Some (p +:+ d, s).
Proof.
  intros [Hn Hd]%andb_true_iff Hs. unfold match_num. by rewrite HasPrefix_app, drop_prefix_app, digits_app, Hn.
Qed.

(** The number of a letter that is no part of any device name. *)
Lemma digit_not_n d : all_digits d = true → no_char (chr 110) d = true.
Proof.
  induction d as [|a d IH]; cbn [no_char all_digits]; [done|].
  intros [Ha Hd]%andb_true_iff. rewrite IH by done.
  rewrite bool_decide_false; [done|]. by intros ->.
Qed.

Lemma find_skip p s : no_char (chr 110) p = true → find_device (p +:+ s) = find_device s.
Proof.
  induction p as [|a p IH]; simpl; [done|]. intros [Ha Hp]%andb_true_iff.
  apply negb_true_iff, bool_decide_eq_false in Ha. unfold match_device, match_num. simpl.
  rewrite bool_decide_false by (intros <-; by apply Ha). simpl. by apply IH.
Qed.

Lemma remove_c_digits d s : all_digits d = true → remove_c false (d +:+ s) = d +:+ remove_c false s.
Proof.
  induction d as [|a d IH]; simpl; [done|]. intros [Ha Hd]%andb_true_iff. rewrite IH by done.
  assert ((N_of_ascii a =? 99)%N = false) as ->; [|done].
  unfold is_digit in Ha. apply andb_true_iff in Ha as [_ Ha%N.leb_le]. apply N.eqb_neq. lia.
Qed.

Lemma remove_c_skip d s : all_digits d = true → remove_c true (d +:+ s) = remove_c true s.
Proof. induction d as [|a d IH]; simpl; [done|]. intros [-> Hd]%andb_true_iff. simpl. auto. Qed.

(** The controller part of a device's name, [c<number>], is there or not. *)
Definition controller_part (c : option string) : string :=
  match c with Some y => "c" +:+ y | None => "" end.

Definition uuid_path (bdf ctrl x : string) (c : option string) (z : string) : string :=
  "/sys/bus/pci/devices/" +:+ bdf +:+ "/nvme/nvme" +:+ ctrl +:+ "/nvme" +:+ x +:+ controller_part c +:+
  "n" +:+ z +:+ "/uuid".

Lemma find_match s m : match_device s = Some m → find_device s = m.
Proof. intros H. destruct s; cbn [find_device]; by rewrite H. Qed.

Lemma find_device_path bdf ctrl x c z :
  no_char (chr 110) bdf = true → is_number ctrl = true → is_number x = true → is_number z = true →
  match c with Some y => is_number y = true | None => True end →
  find_device (uuid_path bdf ctrl x c z) = "nvme" +:+ x +:+ controller_part c +:+ "n" +:+ z.
Proof.
  intros Hbdf Hctrl Hx Hz Hc. unfold uuid_path.
  set (tail := "/nvme" +:+ x +:+ controller_part c +:+ "n" +:+ z +:+ "/uuid").
  change ("/nvme/nvme" +:+ ctrl +:+ tail) with ("/" +:+ ("nvme/nvme" +:+ ctrl +:+ tail)).
  rewrite !find_skip by done.
  change (find_device ("nvme/nvme" +:+ ctrl +:+ tail)) with (find_device ("vme/" +:+ ("nvme" +:+ ctrl +:+ tail))).
  rewrite find_skip by done.
  assert (match_device ("nvme" +:+ ctrl +:+ tail) = None) as Hnone.
  { unfold match_device. rewrite match_num_app by done. reflexivity. }
  change ("nvme" +:+ ctrl +:+ tail) with (String (chr 110) ("vme" +:+ ctrl +:+ tail)) in *.
  cbn [find_device]. rewrite Hnone, find_skip by done.
  rewrite find_skip by (apply digit_not_n; by apply andb_true_iff in Hctrl as [_ ?]).
  subst tail. change ("/nvme" +:+ ?y) with ("/" +:+ ("nvme" +:+ y)). rewrite find_skip by done.
  apply find_match. unfold match_device. destruct c as [y|]; cbn [controller_part].
  - rewrite append_assoc_s, match_num_app by done. cbn [mbind option_bind].
    change (match_num "n" ("c" +:+ y +:+ "n" +:+ z +:+ "/uuid")) with (@None (string * string)).
    cbn beta iota. rewrite match_num_app by done. cbn [mbind option_bind].
    rewrite match_num_app by done. by rewrite !append_assoc_s.
  - change ("" +:+ "n" +:+ z +:+ "/uuid") with ("n" +:+ z +:+ "/uuid").
    rewrite match_num_app by done. cbn [mbind option_bind]. rewrite match_num_app by done.
    by rewrite !append_assoc_s.
Qed.

(** The device of a volume's uuid file is named by the file's path: it is the one in the
    last directory but without its controller part, whatever the controller's own
    number, and that is the name [/dev] has it by. *)
Lemma device_name_in_path bdf ctrl x c z :
  no_char (chr 110) bdf = true → is_number ctrl = true → is_number x = true → is_number z = true →
  match c with Some y => is_number y = true | None => True end →
  device_of_path (uuid_path bdf ctrl x c z) = "nvme" +:+ x +:+ "n" +:+ z.
Proof.
  intros Hbdf Hctrl Hx Hz Hc. unfold device_of_path. rewrite find_device_path by done.
  apply andb_true_iff in Hx as [_ Hx], Hz as [_ Hz].
  assert (remove_c false z = z) as Hrz.
  { rewrite <-(append_nil_r z) at 1. rewrite remove_c_digits by done. apply append_nil_r. }
  change (remove_c false ("nvme" +:+ x +:+ controller_part c +:+ "n" +:+ z)) with
    ("nvme" +:+ remove_c false (x +:+ controller_part c +:+ "n" +:+ z)).
  rewrite remove_c_digits by done. f_equal. f_equal. destruct c as [y|]; cbn [controller_part].
  - apply andb_true_iff in Hc as [Hn Hy]. rewrite append_assoc_s. destruct y as [|b y]; [done|].
    cbn [all_digits] in Hy. apply andb_true_iff in Hy as [Hb Hy].
    change (remove_c false ("c" +:+ String b y +:+ "n" +:+ z)) with
      (if is_digit b then remove_c true (String b y +:+ "n" +:+ z)
       else String "c" (remove_c false (String b y +:+ "n" +:+ z))).
    rewrite Hb, remove_c_skip by (cbn [all_digits]; by rewrite Hb).
    change (remove_c true ("n" +:+ z)) with ("n" +:+ remove_c false z). by rewrite Hrz.
  - change (remove_c false ("" +:+ "n" +:+ z)) with ("n" +:+ remove_c false z). by rewrite Hrz.
Qed.
