(* ===== verification/Xpu.v ===== *)
(** The xPU initiator: pkg/util/xpuinitiator.go.  It owns one back end (SMA or OPI)
    and keeps what is needed to disconnect in the xPU context file. *)

From Stdlib Require Import Ascii.
From S2P Require Import Prelude.
From S2P Require Import GoLang.
From S2P Require Import GoJson.
From S2P Require Import JsonText.
From S2P Require Import World.
From S2P Require Import Util.
From S2P Require Import Initiator.
From S2P Require Import Sma.
From S2P Require Import Opi.
From S2P Require Import Sysfs.

(** ** Data *)

Definition xpuTargetBackendSma : string := "sma".
Definition xpuTargetBackendOpi : string := "opi".

Record XpuTargetType := mkXpuTargetType { Backend : string; xt_TrType : string }.

(** The [backend] field, an interface value. *)
Variant xpu_backend := BackendSma (i : sma_initiator) | BackendOpi (i : opi_initiator).

#[export] Instance backend_XpuInitiator : XpuInitiator xpu_backend := {
  xConnect params := λ b,
    match b with
    | BackendSma i => '(r, i') ← xConnect params i; mret (r, BackendSma i')
    | BackendOpi i => '(r, i') ← xConnect params i; mret (r, BackendOpi i')
    end;
  xDisconnect := λ b,
    match b with
    | BackendSma i => '(r, i') ← xDisconnect i; mret (r, BackendSma i')
    | BackendOpi i => '(r, i') ← xDisconnect i; mret (r, BackendOpi i')
    end;
  GetParam b := match b with BackendSma i => GetParam i | BackendOpi i => GetParam i end
}.

Record xpuInitiator := mkXpuInitiator {
  xpu_backend_ : xpu_backend;
  xpu_targetInfo : XpuTargetType;
  xpu_volumeContext : gomap;
  xpu_config : XpuConfig;
  xpu_devicePath : string;
  xpu_PciEndpoint : PciEndpoint;
  xpu_PciBdfs : PciBdfs
}.

(** The one mutex of the package, made before any other. *)
Definition phyIDLock : nat := 0.

Definition parseSpdkXpuTargetType (xpuTargetType : string) : gores XpuTargetType :=
  match Split (chr 45) xpuTargetType with
  | [p; backend; trType] =>
      if bool_decide (p = "xpu") then inr (mkXpuTargetType backend trType)
      else inl (ENew ("invalid xpuTargetType " +:+ quoted xpuTargetType))
  | _ => inl (ENew ("invalid xpuTargetType " +:+ quoted xpuTargetType))
  end.

(** [strconv.ParseUint(s, 10, 64)] with its error ignored, then cut to 32 bits: a
    value out of range is the largest, other errors give 0; no sign is accepted. *)
Definition parse_uint32 (s : string) : Z :=
  match s with
  | String a _ =>
      if is_digit a then
        match parse_Z s with
        | Some z => uint32 (if (z <? 2 ^ 64)%Z then z else 2 ^ 64 - 1)
        | None => 0
        end
      else 0
  | EmptyString => 0
  end.

Definition newInitiatorNVMf (model : string) : initiatorNVMf :=
  mkInitiatorNVMf xpuNvmfTCPTargetType xpuNvmfTCPTargetAddr xpuNvmfTCPTargetPort
                  (xpuNvmfTCPSubNqnPref +:+ model) model.

(** Device path, endpoint and addresses stored by an earlier [Connect]; the context
    is nil when it cannot be read. *)
Definition tryGetXpuContext (volumeContext : gomap)
    : proc (gomap * (string * PciEndpoint * PciBdfs)) :=
  r ← LookupXPUContext (mget volumeContext "stagingParentPath");
  match r with
  | inl _ => mret (None, ("", mkPciEndpoint 0 0, mkPciBdfs "" ""))
  | inr m =>
      let c := Some m in
      mret (c, (mget c "devicePath",
                mkPciEndpoint (parse_uint32 (mget c "pfID")) (parse_uint32 (mget c "vfID")),
                mkPciBdfs (mget c "pfBdf") (mget c "vfBdf")))
  end.

Definition NewSpdkCsiXpuInitiator (volumeContext : gomap) (xpuConfig : XpuConfig)
    : proc (gores xpuInitiator) :=
  match parseSpdkXpuTargetType (xc_TargetType xpuConfig) with
  | inl err => mret (inl err)
  | inr targetInfo =>
      '(stored, (devicePath, pe, bdfs)) ← tryGetXpuContext volumeContext;
      let xpu := λ backend,
        mkXpuInitiator backend targetInfo volumeContext xpuConfig devicePath pe bdfs in
      if bool_decide (Backend targetInfo = xpuTargetBackendSma) then
        i ←? NewSpdkCsiSmaInitiator volumeContext (xt_TrType targetInfo) stored;
        mret (inr (xpu (BackendSma i)))
      else if bool_decide (Backend targetInfo = xpuTargetBackendOpi) then
        match NewSpdkCsiOpiInitiator volumeContext (xt_TrType targetInfo) stored with
        | inl err => mret (inl err)
        | inr i => mret (inr (xpu (BackendOpi i)))
        end
      else mret (inl (ENew ("unknown target type: " +:+ quoted (Backend targetInfo))))
  end.

(** ** Operations *)

Module xpuInitiator.
Section ops.
Context (kvmPciBridgeCount : Z).

Definition set_backend (b : xpu_backend) (x : xpuInitiator) : xpuInitiator :=
  mkXpuInitiator b (xpu_targetInfo x) (xpu_volumeContext x) (xpu_config x) (xpu_devicePath x)
                 (xpu_PciEndpoint x) (xpu_PciBdfs x).
Definition set_devicePath (p : string) (x : xpuInitiator) : xpuInitiator :=
  mkXpuInitiator (xpu_backend_ x) (xpu_targetInfo x) (xpu_volumeContext x) (xpu_config x) p
                 (xpu_PciEndpoint x) (xpu_PciBdfs x).
Definition set_functions (pe : PciEndpoint) (bdfs : PciBdfs) (x : xpuInitiator) : xpuInitiator :=
  mkXpuInitiator (xpu_backend_ x) (xpu_targetInfo x) (xpu_volumeContext x) (xpu_config x)
                 (xpu_devicePath x) pe bdfs.

(** [xpu.backend.m(...)] *)
Definition backend {A} (m : st xpu_backend A) : st xpuInitiator A :=
  zoom xpu_backend_ set_backend m.

Definition ctx (x : xpuInitiator) (k : string) : string := mget (xpu_volumeContext x) k.

Definition saveXpuContext : st xpuInitiator (option goerror) :=
  x ← get;
  let c := <["vfBdf" := vfBdf (xpu_PciBdfs x)]> (
           <["pfBdf" := pfBdf (xpu_PciBdfs x)]> (
           <["vfID" := FormatInt (vfID (xpu_PciEndpoint x))]> (
           <["pfID" := FormatInt (pfID (xpu_PciEndpoint x))]> (
           <["devicePath" := xpu_devicePath x]> (GetParam (xpu_backend_ x)))))) in
  err ← lift (StashXPUContext (Some c) (ctx x "stagingParentPath"));
  mret (EWrap "saveXPUContext() error: " <$> err).

(** Disconnect the back end, ignoring its error, and return [e]. *)
Definition clean_up (e : goerror) : st xpuInitiator (gores string) :=
  backend xDisconnect;; mret (inl e).

Definition ConnectNvmfTCP : st xpuInitiator (gores string) :=
  err ← backend (xConnect (mkConnectParams smaNvmfTCPTargetPort (mkPciEndpoint 0 0)));
  match err with
  | Some e => mret (inl e)
  | None =>
      x ← get;
      r ← lift (initiatorNVMf.Connect (newInitiatorNVMf (ctx x "model")));
      match r with
      | inl e => clean_up e
      | inr devicePath =>
          x ← get;
          put (set_devicePath devicePath x);; mret (inr devicePath)
      end
  end.

Definition driver_override (x : PciBdfs) (pe : PciEndpoint) : string :=
  "/sys/bus/pci/devices/" +:+ pfBdf x +:+ "/virtfn" +:+ FormatInt (uint32 (vfID pe - 1))
  +:+ "/driver_override".

Definition opi_hardware (x : xpuInitiator) : bool :=
  negb (IsKvm (xc_PciIDs (xpu_config x))) &&
  bool_decide (Backend (xpu_targetInfo x) = xpuTargetBackendOpi).

Definition updateNvmeFilesForConnect (pe : PciEndpoint) (bdfs : PciBdfs)
    : st xpuInitiator (option goerror) :=
  x ← get;
  if opi_hardware x then
    lift (appendContentToFile (driver_override bdfs pe) "nvme") ;?
    lift (appendContentToFile "/sys/bus/pci/drivers/nvme/bind" (vfBdf bdfs)) ;?
    mret None
  else mret None.

Definition updateNvmeFilesForDisconnect (pe : PciEndpoint) (bdfs : PciBdfs)
    : st xpuInitiator (option goerror) :=
  x ← get;
  if negb (bool_decide (xc_PciIDs (xpu_config x) = KvmPciBridgeIDs)) &&
     bool_decide (Backend (xpu_targetInfo x) = xpuTargetBackendOpi) then
    lift (appendContentToFile "/sys/bus/pci/drivers/nvme/unbind" (vfBdf bdfs)) ;?
    lift (appendContentToFile (driver_override bdfs pe) "(null)") ;?
    mret None
  else mret None.

(** Run a method with [phyIDLock] held, as [defer phyIDLock.Unlock()] does. *)
Definition with_phyIDLock {A} (m : st xpuInitiator A) : st xpuInitiator A := λ x,
  perform (MutexLock phyIDLock);;
  with_defer (perform (MutexUnlock phyIDLock)) (m x).

(** Take a free function of the xPU and connect the back end to it. *)
Definition connect_function : st xpuInitiator (gores (PciEndpoint * PciBdfs)) :=
  x ← get;
  r ← lift (GetAvailableFunctions kvmPciBridgeCount (xpu_config x));
  match r with
  | inl e => mret (inl (EWrap "failed to detect free NVMe virtual function: " e))
  | inr (pe, bdfs) =>
      put (set_functions pe bdfs x);;
      err ← backend (xConnect (mkConnectParams "" pe));
      mret match err with
           | Some e => inl e
           | None => inr (pe, bdfs)
           end
  end.

(** The device that appears becomes the path; without one the back end is disconnected. *)
Definition device_or_clean_up (find : proc (gores string)) : st xpuInitiator (gores string) :=
  r ← lift find;
  match r with
  | inl e => clean_up e
  | inr devicePath =>
      x ← get;
      put (set_devicePath devicePath x);; mret (inr devicePath)
  end.

(** An existing device is returned by its bare name. *)
Definition ConnectNvme : st xpuInitiator (gores string) :=
  x ← get;
  '(r, _) ← lift (CheckIfNvmeDeviceExists (ctx x "model") None);
  match r with
  | inr devicePath => mret (inr devicePath)
  | inl _ =>
      with_phyIDLock (
        '(pe, bdfs) ←? connect_function;
        err ← updateNvmeFilesForConnect pe bdfs;
        match err with
        | Some e => mret (inl e)
        | None => device_or_clean_up (GetNvmeDeviceName (ctx x "model") (vfBdf bdfs))
        end)
  end.

Definition ConnectVirtioBlk : st xpuInitiator (gores string) :=
  with_phyIDLock (
    '(pe, bdfs) ←? connect_function;
    device_or_clean_up (GetVirtioBlkDeviceName (vfBdf bdfs) true)).

Definition Connect : st xpuInitiator (gores string) :=
  x ← get;
  let trType := xt_TrType (xpu_targetInfo x) in
  let finish (m : st xpuInitiator (gores string)) : st xpuInitiator (gores string) :=
    r ← m;
    match r with
    | inl e => mret (inl (EWrap ("XPU.Connect with transport type " +:+ trType +:+ " err ") e))
    | inr devicePath =>
        err ← saveXpuContext;
        match err with
        | Some e => mret (inl (EWrap "XPU.Connect saveXPUContext err " e))
        | None => mret (inr devicePath)
        end
    end in
  if bool_decide (trType = TransportTypeNvmfTCP) then finish ConnectNvmfTCP
  else if bool_decide (trType = TransportTypeNvme) then finish ConnectNvme
  else if bool_decide (trType = TransportTypeVirtioBlk) then finish ConnectVirtioBlk
  else mret (inl (ENew ("unsupported xpu transport type " +:+ quoted trType))).

Definition DisconnectNvmfTCP : st xpuInitiator (option goerror) :=
  x ← get;
  err ← lift (initiatorNVMf.Disconnect (newInitiatorNVMf (ctx x "model")));
  match err with
  | Some e => mret (Some (EWrap "failed to disconnect: " e))
  | None => backend xDisconnect
  end.

Definition DisconnectNvme : st xpuInitiator (option goerror) :=
  x ← get;
  if bool_decide (xpu_devicePath x = "") then
    mret (Some (ENew "failed to get block device path"))
  else
    updateNvmeFilesForDisconnect (xpu_PciEndpoint x) (xpu_PciBdfs x) ;?
    backend xDisconnect ;?
    lift (waitForDeviceGone (xpu_devicePath x)).

Definition DisconnectVirtioBlk : st xpuInitiator (option goerror) :=
  x ← get;
  if bool_decide (xpu_devicePath x = "") then
    mret (Some (ENew "failed to get block device path"))
  else
    backend xDisconnect ;?
    lift (waitForDeviceGone (xpu_devicePath x)).

(** The context file is removed whatever the outcome. *)
Definition Disconnect : st xpuInitiator (option goerror) :=
  x ← get;
  let trType := xt_TrType (xpu_targetInfo x) in
  err ← (if bool_decide (trType = TransportTypeNvmfTCP) then DisconnectNvmfTCP
         else if bool_decide (trType = TransportTypeNvme) then DisconnectNvme
         else if bool_decide (trType = TransportTypeVirtioBlk) then DisconnectVirtioBlk
         else mret (Some (ENew ("unsupported xpu transport type " +:+ quoted trType))));
  lift (CleanUpXPUContext (ctx x "stagingParentPath"));;
  mret err.

End ops.
End xpuInitiator.
