(* ===== verification/BackendSpec.v ===== *)
(** The contract of an xPU's back end: what it is told it has made on the xPU it keeps a
    record of, and disconnecting removes all that is recorded.

    A call that answers an error may have made its object all the same, or make it later:
    every call has a time-out, and the service may be past it.  Nobody is told the name of
    such an object; the theorems say which calls may have left one ([lost]).

    The contract is a class over the interface [XpuInitiator]; the SMA and the OPI back
    ends implement it, and so does the xPU initiator's back-end field. *)

From S2P Require Import Prelude.
From S2P Require Import GoLang.
From S2P Require Import GoJson.
From S2P Require Import World.
From S2P Require Import Util.
From S2P Require Import Sma.
From S2P Require Import Opi.
From S2P Require Import Sysfs.
From S2P Require Import Xpu.

(** ** What is made on an xPU *)

(** An object of the OPI bridge, or a device of the storage management agent, known by
    the name, or the handle, its service answered. *)
Variant resource :=
  | Object (kind : opi_kind) (name : string)
  | Device (handle : string).

#[export] Instance opi_kind_eq_dec : EqDecision opi_kind.
Proof. solve_decision. Defined.

#[export] Instance resource_eq_dec : EqDecision resource.
Proof. solve_decision. Defined.

(** What a request to the bridge would make. *)
Definition kind_of (req : opi_request) : option opi_kind :=
  match req with
  | OpiCreateRemoteController _ => Some OpiRemoteController
  | OpiCreatePath _ _ _ _ _ _ => Some OpiPath
  | OpiCreateSubsystem _ _ => Some OpiSubsystem
  | OpiCreateController _ _ _ _ => Some OpiController
  | OpiCreateNamespace _ _ _ _ => Some OpiNamespace
  | OpiCreateVirtioBlk _ _ _ _ => Some OpiVirtioBlk
  | OpiDelete _ _ _ => None
  end.

(** What a call is known to have made: it answered a name. *)
Definition made (o : op) : reply o → option resource :=
  match o return reply o → option resource with
  | OpiCall req => λ r,
      match kind_of req, r with
      | Some k, inr name => if bool_decide (name = "") then None else Some (Object k name)
      | _, _ => None
      end
  | SmaCall (SmaCreateDevice _ _) => λ r,
      match r with SmaOk h => if bool_decide (h = "") then None else Some (Device h) | _ => None end
  | _ => λ _, None
  end.

(** What a call may have made, or may yet make, without telling its name: it answered an
    error, or no name. *)
Definition mislaid (o : op) : reply o → resource → Prop :=
  match o return reply o → resource → Prop with
  | OpiCall req => λ r x,
      match r, x with
      | inl _, Object k _ => kind_of req = Some k
      | inr name, Object k _ => kind_of req = Some k ∧ name = ""
      | _, Device _ => False
      end
  | SmaCall (SmaCreateDevice _ _) => λ r x,
      match r, x with
      | SmaOk h, Device _ => h = ""
      | _, Device _ => True
      | _, Object _ _ => False
      end
  | _ => λ _ _, False
  end.

(** What a call is known to have removed. *)
Definition removed (o : op) : reply o → option resource :=
  match o return reply o → option resource with
  | OpiCall (OpiDelete k name _) => λ r, match r with inr _ => Some (Object k name) | inl _ => None end
  | SmaCall (SmaDeleteDevice h) => λ r, match r with SmaOk _ => Some (Device h) | _ => None end
  | _ => λ _, None
  end.

Definition deletes (o : op) : bool :=
  match o with
  | OpiCall (OpiDelete _ _ _) | SmaCall (SmaDeleteDevice _) => true
  | _ => false
  end.

(** Some call of the log may have made the object without telling its name. *)
Definition lost {W} {step : W → ∀ o : op, reply o → W → Prop} `{!Logged step}
    (w : W) (x : resource) : Prop :=
  ∃ o r, Ev o r ∈ calls w ∧ mislaid o r x.

(** No call of the log failed to delete something. *)
Definition deletions_worked {W} {step : W → ∀ o : op, reply o → W → Prop} `{!Logged step}
    (w : W) : Prop :=
  ∀ o r, Ev o r ∈ calls w → deletes o = true → is_Some (removed o r).

(** Calls that succeed do what they say; calls that fail may do it too, at any time; and
    nobody else makes anything meanwhile. *)
Class XpuLaws {W} (step : W → ∀ o : op, reply o → W → Prop) `{!Logged step} := {
  resources : W → resource → Prop;
  resource_law w o r w' x : step w o r w' → resources w' x →
    (resources w x ∨ made o r = Some x ∨ lost w' x) ∧ removed o r ≠ Some x
}.

Section contract.
Context {W : Type} (step : W → ∀ o : op, reply o → W → Prop) `{!Logged step, !XpuLaws step}.

(** Everything there is belongs to the rest of the world, or is recorded, or was lost. *)
Definition tracked (rest recorded : resource → Prop) (w : W) : Prop :=
  ∀ x, resources w x → rest x ∨ recorded x ∨ lost w x.

Class BackendContract B `{XpuInitiator B} := {
  owns : B → resource → Prop;
  connect_contract params b w : (∀ x, ¬ owns b x) →
    wp step (xConnect params b)
      (λ out w', ∃ r b', out = Done (r, b') ∧ tracked (resources w) (owns b') w' ∧
         (is_Some r → deletions_worked w' → ∀ x, ¬ owns b' x)) w;
  disconnect_contract b rest w : tracked rest (owns b) w →
    wp step (xDisconnect b)
      (λ out w', ∃ r b', out = Done (r, b') ∧ tracked rest (owns b') w' ∧
         (r = None → ∀ x, ¬ owns b' x)) w
}.

Lemma tracked_here recorded w : tracked (resources w) recorded w.
Proof. by left. Qed.

Lemma tracked_weaken rest (P P' : resource → Prop) w :
  tracked rest P w → (∀ x, P x → P' x) → tracked rest P' w.
Proof. intros H HP x Hx. destruct (H x Hx) as [|[|]]; auto. Qed.

Lemma lost_grows w w' x : grows step w w' → lost w x → lost w' x.
Proof.
  intros [tr Htr] (o & r & Hin & Hx). exists o, r. split; [|done].
  rewrite Htr. apply elem_of_app. by left.
Qed.

Lemma lost_step w o r w' x : step w o r w' → lost w x → lost w' x.
Proof. intros Hstep. by eapply lost_grows, step_grows. Qed.

(** What is there after a call. *)
Lemma tracked_after rest P w o r w' x :
  tracked rest P w → step w o r w' → resources w' x →
  ((rest x ∨ P x ∨ lost w' x) ∨ made o r = Some x) ∧ removed o r ≠ Some x.
Proof.
  intros H Hstep Hx. destruct (resource_law _ _ _ _ _ Hstep Hx) as [[Hw|[Hm|Hl]] Hr].
  - split; [left|done]. destruct (H x Hw) as [|[|Hl]]; [by left|by right; left|].
    right. right. by eapply lost_step.
  - split; [by right|done].
  - split; [left|done]. by right; right.
Qed.

(** A call that makes nothing that is told of. *)
Lemma tracked_step rest P w o r w' :
  tracked rest P w → step w o r w' → made o r = None → tracked rest P w'.
Proof.
  intros H Hstep Hm x Hx. destruct (tracked_after _ _ _ _ _ _ _ H Hstep Hx) as [[|] _]; [done|congruence].
Qed.

(** A call that makes something that is recorded. *)
Lemma tracked_made rest (P P' : resource → Prop) w o r w' :
  tracked rest P w → step w o r w' → (∀ x, P x → P' x) → (∀ x, made o r = Some x → P' x) →
  tracked rest P' w'.
Proof.
  intros H Hstep HP Hm x Hx.
  destruct (tracked_after _ _ _ _ _ _ _ H Hstep Hx) as [[[|[|]]|] _]; auto.
Qed.

(** A call that removes something, which is recorded no more. *)
Lemma tracked_removed rest (P P' : resource → Prop) w o r w' :
  tracked rest P w → step w o r w' → made o r = None →
  (∀ x, P x → P' x ∨ removed o r = Some x) → tracked rest P' w'.
Proof.
  intros H Hstep Hm HP x Hx.
  destruct (tracked_after _ _ _ _ _ _ _ H Hstep Hx) as [[[|[Hp|]]|] Hr]; [by left| |by right; right|congruence].
  destruct (HP x Hp); [by right; left|congruence].
Qed.

(** A deletion that failed is in the log. *)
Lemma deletions_worked_step w o r w' :
  step w o r w' → deletes o = true → deletions_worked w' → is_Some (removed o r).
Proof.
  intros Hstep Ho Hw. apply Hw; [|done]. rewrite (calls_law _ _ _ _ Hstep).
  apply elem_of_app. right. by apply list_elem_of_singleton.
Qed.

(** ** The storage management agent *)

Definition sma_owns (c : smaCommon) (x : resource) : Prop :=
  x = Device (sma_deviceHandle c) ∧ sma_deviceHandle c ≠ "".

Lemma sma_owns_none c : sma_deviceHandle c = "" → ∀ x, ¬ sma_owns c x.
Proof. by intros H x [_ ?]. Qed.

Lemma sma_owns_empty c : (∀ x, ¬ sma_owns c x) → sma_deviceHandle c = "".
Proof. intros H. destruct (decide (sma_deviceHandle c = "")); [done|]. by destruct (H (Device (sma_deviceHandle c))). Qed.

(** A method's outcome: it keeps track of all that it is told it makes, and [post] holds;
    its first argument says that no deletion has failed. *)
Definition keeps_track (m : st smaCommon (option goerror))
    (post : Prop → smaCommon → option goerror → smaCommon → Prop) (c : smaCommon) : Prop :=
  ∀ rest w, tracked rest (sma_owns c) w →
    wp step (m c) (λ out w', ∃ r c', out = Done (r, c') ∧ tracked rest (sma_owns c') w' ∧
                                     post (deletions_worked w') c r c') w.

Lemma sma_CreateDevice volume params c :
  sma_deviceHandle c = "" →
  keeps_track (smaCommon.CreateDevice volume params)
    (λ _ _ r c', is_Some r → sma_deviceHandle c' = "") c.
Proof.
  intros Hc rest w Ht r w' _ Hstep. simpl. destruct r as [msg| |h]; simpl.
  - do 2 eexists. split_and!; [done|by eapply tracked_step|done].
  - do 2 eexists. split_and!; [done|by eapply tracked_step|done].
  - case_bool_decide as Hh; simpl.
    + do 2 eexists. split_and!; [done| |done]. subst h. by eapply tracked_step.
    + do 2 eexists. split_and!; [done| |by intros []]. eapply tracked_made; [done..| |].
      * by intros x [_ ?].
      * simpl. case_bool_decide; [done|]. by intros x [= <-].
Qed.

Lemma sma_DeleteDevice c :
  keeps_track (smaCommon.DeleteDevice (sma_deviceHandle c))
    (λ ok _ r c', (ok → r = None) ∧ (r = None → sma_deviceHandle c' = "")) c.
Proof.
  intros rest w Ht r w' _ Hstep. simpl.
  pose proof (deletions_worked_step _ _ _ _ Hstep eq_refl) as Hwork.
  destruct r as [msg| |h]; simpl.
  - do 2 eexists. split_and!; [done|by eapply tracked_step|by intros []%Hwork|done].
  - do 2 eexists. split_and!; [done|by eapply tracked_step|by intros []%Hwork|done].
  - do 2 eexists. split_and!; [done| |done..]. eapply tracked_removed; [done..|].
    intros x [-> _]. by right.
Qed.

Lemma sma_attach volume_id params c :
  keeps_track (smaCommon.AttachVolume volume_id params (sma_deviceHandle c))
    (λ _ c _ c', sma_deviceHandle c' = sma_deviceHandle c) c.
Proof.
  intros rest w Ht r w' _ Hstep. simpl.
  assert (tracked rest (sma_owns c) w') by by eapply tracked_step.
  destruct r as [msg| |h]; simpl; by do 2 eexists.
Qed.

Lemma sma_detach volume_id c :
  keeps_track (smaCommon.DetachVolume volume_id (sma_deviceHandle c))
    (λ _ c _ c', sma_deviceHandle c' = sma_deviceHandle c) c.
Proof.
  intros rest w Ht r w' _ Hstep. simpl.
  assert (tracked rest (sma_owns c) w') by by eapply tracked_step.
  destruct r as [msg| |h]; simpl; by do 2 eexists.
Qed.

(** Two methods one after the other, the second when the first did not fail. *)
Lemma sma_keeps_seq m1 m2 post1 post2 (post : Prop → smaCommon → option goerror → smaCommon → Prop) c :
  keeps_track m1 post1 c →
  (∀ ok e c1, post1 ok c (Some e) c1 → post ok c (Some e) c1) →
  (∀ ok c1, post1 ok c None c1 → keeps_track m2 post2 c1) →
  (∀ ok1 ok c1 r c', post1 ok1 c None c1 → post2 ok c1 r c' → post ok c r c') →
  keeps_track (m1 ;? m2) post c.
Proof.
  intros Hm1 Herr Hm2 Hpost rest w Ht. apply wp_st_bind. eapply wp_mono; [by apply Hm1|].
  intros out w1 (r & c1 & -> & Ht1 & Hp1). cbn beta iota delta [bind_post].
  destruct r as [e|]; [exists (Some e), c1; split_and!; auto|].
  eapply wp_mono; [by apply (Hm2 _ c1 Hp1)|]. intros out w2 (r & c2 & -> & Ht2 & Hp2).
  exists r, c2. split_and!; eauto.
Qed.

Definition connected_or_gone (ok : Prop) (_ : smaCommon) (r : option goerror) (c' : smaCommon) : Prop :=
  is_Some r → ok → sma_deviceHandle c' = "".

Lemma sma_attach_or_delete c : keeps_track smaCommon.attach_or_delete connected_or_gone c.
Proof.
  intros rest w Ht. apply wp_st_get, wp_st_bind. eapply wp_mono; [by apply sma_attach|].
  intros out w1 (r & c1 & -> & Ht1 & _). cbn beta iota delta [bind_post].
  destruct r as [e|]; [|do 2 eexists; split_and!; [done|done|by intros []]].
  apply wp_st_get, wp_st_bind. eapply wp_mono; [by apply sma_DeleteDevice|].
  intros out w2 (r & c2 & -> & Ht2 & Hwork & Hgone). cbn beta iota delta [bind_post].
  do 2 eexists. split_and!; [done|done|]. intros _ Hw. auto.
Qed.

Lemma sma_detach_and_delete wrap c :
  keeps_track (smaCommon.detach_and_delete wrap) (λ _ _ r c', r = None → sma_deviceHandle c' = "") c.
Proof.
  intros rest w Ht. apply wp_st_get. case_bool_decide as Hh; [by do 2 eexists|].
  assert (∀ c1 w1, tracked rest (sma_owns c1) w1 →
    wp step (smaCommon.DeleteDevice (sma_deviceHandle c1) c1) (λ out w', ∃ r c', out = Done (r, c') ∧
      tracked rest (sma_owns c') w' ∧ (r = None → sma_deviceHandle c' = "")) w1) as Hdel.
  { intros c1 w1 Ht1. eapply wp_mono; [by apply sma_DeleteDevice|].
    intros out w2 (r & c2 & -> & Ht2 & _ & Hgone). by do 2 eexists. }
  apply wp_st_bind. destruct (sma_volumeID c) as [v|]; [|by apply Hdel].
  eapply wp_mono; [by apply (sma_detach (Some v))|]. intros out w1 (r & c1 & -> & Ht1 & _).
  cbn beta iota delta [bind_post]. apply wp_st_get.
  destruct r as [e|]; [by do 2 eexists|]. by apply Hdel.
Qed.

Lemma sma_Connect i params :
  sma_deviceHandle (sma_common i) = "" →
  keeps_track (match i with
               | smaInitiatorNvmfTCP _ => smaInitiatorNvmfTCP.Connect params
               | smaInitiatorNvme _ => smaInitiatorNvme.Connect params
               | smaInitiatorVirtioBlk _ => smaInitiatorVirtioBlk.Connect params
               end) connected_or_gone (sma_common i).
Proof.
  intros Hc. assert (∀ volume p, keeps_track (smaCommon.CreateDevice volume p ;?
      smaCommon.attach_or_delete) connected_or_gone (sma_common i)) as Hboth.
  { intros volume p. eapply sma_keeps_seq; [by apply sma_CreateDevice| | |].
    - intros ok e c1 He _ _. by apply He.
    - intros ok c1 _. apply sma_attach_or_delete.
    - by intros ok1 ok c1 r c' _ H. }
  destruct i as [c|c|c]; cbn [sma_common] in *; intros rest w Ht.
  - apply wp_st_get. by apply Hboth.
  - by apply Hboth.
  - apply wp_st_get. rewrite Hc. eapply wp_mono; [by apply sma_CreateDevice|].
    intros out w' (r & c' & -> & Ht' & Hp). do 2 eexists. split_and!; [done|done|].
    intros He _. by apply Hp.
Qed.

Lemma sma_Disconnect i :
  keeps_track (match i with
               | smaInitiatorNvmfTCP _ => smaInitiatorNvmfTCP.Disconnect
               | smaInitiatorNvme _ => smaInitiatorNvme.Disconnect
               | smaInitiatorVirtioBlk _ => smaInitiatorVirtioBlk.Disconnect
               end) (λ _ _ r c', r = None → sma_deviceHandle c' = "") (sma_common i).
Proof.
  destruct i as [c|c|c]; simpl; [apply sma_detach_and_delete..|].
  intros rest w Ht. apply wp_st_get. case_bool_decide as Hh; [by do 2 eexists|].
  eapply wp_mono; [by apply sma_DeleteDevice|].
  intros out w2 (r & c2 & -> & Ht2 & _ & Hgone). by do 2 eexists.
Qed.

Lemma sma_common_set c i : sma_common (sma_set_common c i) = c.
Proof. by destruct i. Qed.

#[export] Instance sma_contract : BackendContract sma_initiator.
Proof.
  refine {| owns i := sma_owns (sma_common i) |}.
  - intros params i w Hnone. apply wp_zoom.
    eapply wp_mono; [apply sma_Connect; [by apply sma_owns_empty|by left]|].
    intros out w' (r & c' & -> & Ht & Hp). cbn beta iota delta [bind_post].
    exists r, (sma_set_common c' i). rewrite !sma_common_set. split_and!; [done..|].
    intros Hr Hw. by apply sma_owns_none, Hp.
  - intros i rest w Ht. apply wp_zoom. eapply wp_mono; [by apply sma_Disconnect|].
    intros out w' (r & c' & -> & Ht' & Hp). cbn beta iota delta [bind_post].
    exists r, (sma_set_common c' i). rewrite !sma_common_set. split_and!; [done..|].
    intros Hr. by apply sma_owns_none, Hp.
Defined.
End contract.
