(* ===== verification/OpiSpec.v ===== *)
(** The OPI back end keeps the contract of a back end: every object it makes on the bridge
    is recorded by its name, and [cleanup] removes all that are recorded. *)

From S2P Require Import Prelude.
From S2P Require Import GoLang.
From S2P Require Import GoJson.
From S2P Require Import World.
From S2P Require Import Util.
From S2P Require Import Sma.
From S2P Require Import Opi.
From S2P Require Import Sysfs.
From S2P Require Import Xpu.
From S2P Require Import BackendSpec.

(** The recorded name of each kind of object; the empty string when there is none. *)
Definition common_names (c : opiCommon) (k : opi_kind) : string :=
  match k with
  | OpiRemoteController => nvmfRemoteControllerName c
  | OpiPath => nvmfPathName c
  | _ => ""
  end.

Definition nvme_names (i : opiInitiatorNvme) (k : opi_kind) : string :=
  match k with
  | OpiSubsystem => subsystemName i
  | OpiNamespace => namespaceName i
  | OpiController => nvmeControllerName i
  | _ => common_names (on_common i) k
  end.

Definition virtio_names (i : opiInitiatorVirtioBlk) (k : opi_kind) : string :=
  match k with
  | OpiVirtioBlk => virtioBlkName i
  | _ => common_names (ov_common i) k
  end.

(** The objects recorded. *)
Definition recorded (names : opi_kind → string) (x : resource) : Prop :=
  ∃ k, x = Object k (names k) ∧ names k ≠ "".

Section opi.
Context {W : Type} (step : W → ∀ o : op, reply o → W → Prop) `{!Logged step, !XpuLaws step}.
Implicit Types rest : resource → Prop.

Section methods.
Context {I : Type} (names : I → opi_kind → string).
Implicit Types (ks : list opi_kind) (m : st I (option goerror)).

(** The method deletes the objects of the kinds [ks], and forgets what it deleted. *)
Definition removes ks m : Prop := ∀ i rest w, tracked step rest (recorded (names i)) w →
  wp step (m i) (λ out w', ∃ r i', out = Done (r, i') ∧
    tracked step rest (recorded (names i')) w' ∧
    (∀ k, names i' k = names i k ∨ names i' k = "") ∧
    (r = None → ∀ k, k ∈ ks → names i' k = "") ∧ (deletions_worked w' → r = None)) w.

(** The method makes objects of the kinds [ks], and records them. *)
Definition adds ks m : Prop := ∀ i rest w,
  (∀ k, k ∈ ks → names i k = "") → tracked step rest (recorded (names i)) w →
  wp step (m i) (λ out w', ∃ r i', out = Done (r, i') ∧
    tracked step rest (recorded (names i')) w' ∧ (∀ k, k ∉ ks → names i' k = names i k)) w.

Lemma removes_seq ks1 ks2 m1 m2 :
  removes ks1 m1 → removes ks2 m2 → removes (ks1 ++ ks2) (m1 ;? m2).
Proof.
  intros H1 H2 i rest w Ht. apply wp_st_bind. eapply wp_mono; [by apply H1|].
  intros out w1 (r & i1 & -> & Ht1 & Hn1 & Hr1 & Hw1). cbn beta iota delta [bind_post].
  destruct r as [e|].
  { exists (Some e), i1. split_and!; [done..|]. by intros ?%Hw1. }
  eapply wp_mono; [by apply H2|]. intros out w2 (r & i2 & -> & Ht2 & Hn2 & Hr2 & Hw2).
  exists r, i2. split_and!; [done..| | |done].
  - intros k. destruct (Hn2 k) as [->|]; auto.
  - intros -> k [Hk|Hk]%elem_of_app; [|auto]. destruct (Hn2 k) as [->|]; auto.
Qed.

Lemma adds_seq ks1 ks2 m1 m2 :
  (∀ k, k ∈ ks2 → k ∉ ks1) → adds ks1 m1 → adds ks2 m2 → adds (ks1 ++ ks2) (m1 ;? m2).
Proof.
  intros Hdisj H1 H2 i rest w Hi Ht. apply wp_st_bind.
  eapply wp_mono; [apply H1; [|done]; intros k Hk; apply Hi, elem_of_app; by left|].
  intros out w1 (r & i1 & -> & Ht1 & Hn1). cbn beta iota delta [bind_post].
  destruct r as [e|].
  { exists (Some e), i1. split_and!; [done..|]. intros k Hk. apply Hn1. set_solver. }
  eapply wp_mono; [apply H2; [|done]|].
  { intros k Hk. rewrite Hn1 by auto. apply Hi, elem_of_app. by right. }
  intros out w2 (r & i2 & -> & Ht2 & Hn2). exists r, i2. split_and!; [done..|].
  intros k Hk. rewrite Hn2, Hn1 by set_solver. done.
Qed.

(** Deleting the object recorded in one field. *)
Lemma removes_delete_object k (name : I → string) forget wrap :
  (∀ i, names i k = name i) →
  (∀ i k', names (forget i) k' = if decide (k' = k) then "" else names i k') →
  removes [k] (opiCommon.delete_object k name forget wrap).
Proof.
  intros Hname Hforget i rest w Ht. apply wp_st_get. case_bool_decide as Hempty.
  { exists None, i. split_and!; [done|done|by left| |done].
    intros _ k' ->%list_elem_of_singleton. by rewrite Hname. }
  intros r w' _ Hstep. simpl.
  pose proof (deletions_worked_step _ _ _ _ _ Hstep eq_refl) as Hwork.
  destruct r as [msg|u]; simpl.
  - do 2 eexists. split_and!; [done|by eapply tracked_step|by left|done|by intros []%Hwork].
  - do 2 eexists. split_and!; [done| | | |done].
    + eapply tracked_removed; [done..|]. intros x (k' & -> & Hk').
      destruct (decide (k' = k)) as [->|Hne].
      * right. by rewrite Hname.
      * left. exists k'. by rewrite Hforget, decide_False by done.
    + intros k'. rewrite Hforget. destruct (decide (k' = k)); auto.
    + intros _ k' ->%list_elem_of_singleton. by rewrite Hforget, decide_True.
Qed.

(** Making an object and recording its name in one field. *)
Lemma wp_make_object k request (record : string → I → I) (wrap : string → goerror) i rest w :
  kind_of request = Some k →
  (∀ v k', names (record v i) k' = if decide (k' = k) then v else names i k') →
  names i k = "" → tracked step rest (recorded (names i)) w →
  wp step ((r ← lift (perform (OpiCall request));
            match r with
            | inl msg => mret (Some (wrap msg))
            | inr name => put (record name i);; mret None
            end) i)
    (λ out w', ∃ r i', out = Done (r, i') ∧
      tracked step rest (recorded (names i')) w' ∧ (∀ k', k' ∉ [k] → names i' k' = names i k')) w.
Proof.
  intros Hkind Hrecord Hk Ht r w' _ Hstep. simpl. destruct r as [msg|name]; simpl.
  - do 2 eexists. split_and!; [done| |done]. eapply tracked_step; [done..|]. simpl. by rewrite Hkind.
  - do 2 eexists. split_and!; [done| |].
    + eapply tracked_made; [done..| |].
      * intros x (k' & -> & Hk'). exists k'. rewrite Hrecord, decide_False; [done|congruence].
      * simpl. rewrite Hkind. case_bool_decide as Hn; [done|]. intros x [= <-].
        exists k. by rewrite Hrecord, decide_True by done.
    + intros k' Hk'. rewrite Hrecord, decide_False; [done|set_solver].
Qed.

(** A method that fails before it makes anything. *)
Lemma adds_nothing ks (e : option goerror) i rest w :
  tracked step rest (recorded (names i)) w →
  wp step ((mret e : st I (option goerror)) i) (λ out w', ∃ r i', out = Done (r, i') ∧
    tracked step rest (recorded (names i')) w' ∧ (∀ k', k' ∉ ks → names i' k' = names i k')) w.
Proof. intros Ht. exists e, i. by split_and!. Qed.

(** The method leaves the record alone when it fails. *)
Definition fails_clean m : Prop := ∀ i w,
  wp step (m i) (λ out _, ∀ e i', out = Done (Some e, i') → ∀ k, names i' k = names i k) w.

(** Connecting: [m1], then [m2], whose failure is cleaned up by [m3]. *)
Lemma wp_connect_cleanup ks1 ks2 ks3 m1 m2 m3 i w :
  adds ks1 m1 → fails_clean m1 → adds ks2 m2 → (∀ k, k ∈ ks2 → k ∉ ks1) → removes ks3 m3 →
  (∀ i k, names i k = "" ∨ k ∈ ks3) → (∀ k, names i k = "") →
  wp step ((m1 ;? err ← m2;
            match err with Some e => m3;; mret (Some e) | None => mret None end) i)
    (λ out w', ∃ r i', out = Done (r, i') ∧ tracked step (resources w) (recorded (names i')) w' ∧
       (is_Some r → deletions_worked w' → ∀ k, names i' k = "")) w.
Proof.
  intros H1 Hclean H2 Hdisj H3 Hall Hi. apply wp_st_bind.
  eapply wp_mono; [apply wp_conj; [apply (H1 i (resources w)); [done|by left]|apply (Hclean i)]|].
  intros out w1 [(r & i1 & -> & Ht1 & Hn1) He]. cbn beta iota delta [bind_post].
  destruct r as [e|].
  { exists (Some e), i1. split_and!; [done..|]. intros _ _ k. by rewrite (He _ _ eq_refl). }
  apply wp_st_bind. eapply wp_mono; [apply (H2 i1 (resources w)); [|done]|].
  { intros k Hk. by rewrite Hn1 by auto. }
  intros out w2 (r & i2 & -> & Ht2 & Hn2). cbn beta iota delta [bind_post].
  destruct r as [e|]; [|exists None, i2; split_and!; [done..|by intros []]].
  apply wp_st_bind. eapply wp_mono; [by apply H3|].
  intros out w3 (r & i3 & -> & Ht3 & Hn3 & Hr3 & Hw3). exists (Some e), i3. split_and!; [done..|].
  intros _ Hw k. destruct (Hall i3 k) as [|Hk]; [done|]. apply Hr3; auto.
Qed.
End methods.

(** ** The methods of the common part *)

Lemma removes_deleteNvmfPath : removes common_names [OpiPath] opiCommon.deleteNvmfPath.
Proof. apply removes_delete_object; [done|]. by intros i []. Qed.

Lemma removes_deleteNvmeRemoteController :
  removes common_names [OpiRemoteController] opiCommon.deleteNvmeRemoteController.
Proof. apply removes_delete_object; [done|]. by intros i []. Qed.

Lemma adds_createNvmeRemoteController :
  adds common_names [OpiRemoteController] opiCommon.createNvmeRemoteController.
Proof.
  intros c rest w Hc Ht. apply wp_st_get.
  apply (wp_make_object _ OpiRemoteController _ opiCommon.set_controller (λ msg,
    EWrap ("failed to create remote NVMf controller for '" +:+ opiCommon.object_id c +:+ "': ") (ENew msg)));
    [done|by intros v []|by apply Hc, list_elem_of_singleton|done].
Qed.

Lemma adds_createNvmfPath : adds common_names [OpiPath] opiCommon.createNvmfPath.
Proof.
  intros c rest w Hc Ht. apply wp_st_get.
  destruct (ParseInt (mget (opi_volumeContext c) "targetPort")) as [e|port]; [by apply adds_nothing|].
  apply (wp_make_object _ OpiPath _ opiCommon.set_path (λ msg,
    EWrap ("failed to create remote NVMf path for '" +:+ opiCommon.object_id c +:+ "': ") (ENew msg)));
    [done|by intros v []|by apply Hc, list_elem_of_singleton|done].
Qed.

(** ** Methods of the common part on the whole initiator *)

Definition is_common (k : opi_kind) : bool :=
  match k with OpiRemoteController | OpiPath => true | _ => false end.

Section zoom.
Context {I : Type} (names : I → opi_kind → string).
Context (proj : I → opiCommon) (set : opiCommon → I → I).
Context (Hproj : ∀ i k, is_common k = true → names i k = common_names (proj i) k).
Context (Hset : ∀ c i k, names (set c i) k = if is_common k then common_names c k else names i k).

(** The objects that are not the common part's. *)
Definition others rest (i : I) (x : resource) : Prop :=
  rest x ∨ ∃ k, is_common k = false ∧ x = Object k (names i k) ∧ names i k ≠ "".

Lemma tracked_zoom_in rest i w :
  tracked step rest (recorded (names i)) w →
  tracked step (others rest i) (recorded (common_names (proj i))) w.
Proof.
  intros H x Hx. destruct (H x Hx) as [|[(k & -> & Hk)|]]; [by left; left| |by right; right].
  destruct (is_common k) eqn:Hc.
  - right. left. exists k. by rewrite <-Hproj.
  - left. right. by exists k.
Qed.

Lemma tracked_zoom_out rest c i w :
  tracked step (others rest i) (recorded (common_names c)) w →
  tracked step rest (recorded (names (set c i))) w.
Proof.
  intros H x Hx. destruct (H x Hx) as [[|(k & Hc & -> & Hk)]|[(k & -> & Hk)|]];
    [by left|right; left..|by right; right].
  - exists k. by rewrite Hset, Hc.
  - exists k. rewrite Hset. destruct (is_common k) eqn:Hc; [done|]. by destruct k.
Qed.

Lemma removes_zoom ks m :
  (∀ k, k ∈ ks → is_common k = true) →
  removes common_names ks m → removes names ks (zoom proj set m).
Proof.
  intros Hks Hm i rest w Ht. apply wp_zoom. eapply wp_mono; [by apply Hm, tracked_zoom_in|].
  intros out w' (r & c & -> & Ht' & Hn & Hr & Hw). exists r, (set c i). split_and!; [done| | | |done].
  - by apply tracked_zoom_out.
  - intros k. rewrite Hset. destruct (is_common k) eqn:Hc; [|by left]. rewrite Hproj by done. apply Hn.
  - intros Hr' k Hk. rewrite Hset, Hks by done. auto.
Qed.

Lemma adds_zoom ks m :
  (∀ k, k ∈ ks → is_common k = true) →
  adds common_names ks m → adds names ks (zoom proj set m).
Proof.
  intros Hks Hm i rest w Hi Ht. apply wp_zoom.
  eapply wp_mono; [apply Hm; [|by apply tracked_zoom_in]; intros k Hk; rewrite <-Hproj by auto; auto|].
  intros out w' (r & c & -> & Ht' & Hn). exists r, (set c i). split_and!; [done| |].
  - by apply tracked_zoom_out.
  - intros k Hk. rewrite Hset. destruct (is_common k) eqn:Hc; [|done]. rewrite Hproj by done. auto.
Qed.
End zoom.

(** ** NVMe *)

Lemma nvme_removes ks m :
  (∀ k, k ∈ ks → is_common k = true) →
  removes common_names ks m → removes nvme_names ks (opiInitiatorNvme.common m).
Proof. apply removes_zoom; [by intros i []|by intros c i []]. Qed.

Lemma nvme_adds ks m :
  (∀ k, k ∈ ks → is_common k = true) →
  adds common_names ks m → adds nvme_names ks (opiInitiatorNvme.common m).
Proof. apply adds_zoom; [by intros i []|by intros c i []]. Qed.

Lemma nvme_cleanup : removes nvme_names
  [OpiNamespace; OpiPath; OpiRemoteController; OpiController; OpiSubsystem] opiInitiatorNvme.cleanup.
Proof.
  apply (removes_seq _ [_]); [apply removes_delete_object; [done|by intros i []]|].
  apply (removes_seq _ [_]); [apply nvme_removes; [set_solver|apply removes_deleteNvmfPath]|].
  apply (removes_seq _ [_]);
    [apply nvme_removes; [set_solver|apply removes_deleteNvmeRemoteController]|].
  apply (removes_seq _ [_] [_]); apply removes_delete_object; try done; by intros i [].
Qed.

Lemma adds_createNvmeSubsystem : adds nvme_names [OpiSubsystem] opiInitiatorNvme.createNvmeSubsystem.
Proof.
  intros i rest w Hi Ht. apply wp_st_get.
  apply (wp_make_object _ OpiSubsystem _ opiInitiatorNvme.set_subsystem (λ msg,
    EWrap ("failed to create NVMe subsystem for '" +:+ opiInitiatorNvme.object_id i +:+ "': ") (ENew msg)));
    [done|by intros v []|by apply Hi, list_elem_of_singleton|done].
Qed.

Lemma adds_createNvmeController p v :
  adds nvme_names [OpiController] (opiInitiatorNvme.createNvmeController p v).
Proof.
  intros i rest w Hi Ht. apply wp_st_get.
  apply (wp_make_object _ OpiController _ opiInitiatorNvme.set_nvmeController (λ msg,
    EWrap ("failed to create NVMe controller with physID (" +:+ FormatInt p
           +:+ ") and virtID (" +:+ FormatInt v +:+ ") error: ") (ENew msg)));
    [done|by intros ? []|by apply Hi, list_elem_of_singleton|done].
Qed.

Lemma adds_createNvmeNamespace : adds nvme_names [OpiNamespace] opiInitiatorNvme.createNvmeNamespace.
Proof.
  intros i rest w Hi Ht. apply wp_st_get. intros z w1 _ Hstep.
  assert (tracked step rest (recorded (nvme_names i)) w1) as Ht1 by by eapply tracked_step.
  destruct z as [msg|z]; [by apply (adds_nothing nvme_names [OpiNamespace])|].
  apply (wp_make_object nvme_names OpiNamespace _ opiInitiatorNvme.set_namespace ENew);
    [done|by intros v []|by apply Hi, list_elem_of_singleton|done].
Qed.

Lemma nvme_connect_steps params : adds nvme_names
  [OpiController; OpiRemoteController; OpiPath; OpiNamespace] (opiInitiatorNvme.connect_steps params).
Proof.
  apply (adds_seq _ [_]); [set_solver|apply adds_createNvmeController|].
  apply (adds_seq _ [_]); [set_solver|apply nvme_adds; [set_solver|apply adds_createNvmeRemoteController]|].
  apply (adds_seq _ [_] [_]); [set_solver|apply nvme_adds; [set_solver|apply adds_createNvmfPath]|].
  apply adds_createNvmeNamespace.
Qed.

(** ** VirtioBlk *)

Lemma virtio_removes ks m :
  (∀ k, k ∈ ks → is_common k = true) →
  removes common_names ks m → removes virtio_names ks (opiInitiatorVirtioBlk.common m).
Proof. apply removes_zoom; [by intros i []|by intros c i []]. Qed.

Lemma virtio_adds ks m :
  (∀ k, k ∈ ks → is_common k = true) →
  adds common_names ks m → adds virtio_names ks (opiInitiatorVirtioBlk.common m).
Proof. apply adds_zoom; [by intros i []|by intros c i []]. Qed.

Lemma virtio_cleanup : removes virtio_names
  [OpiVirtioBlk; OpiPath; OpiRemoteController] opiInitiatorVirtioBlk.cleanup.
Proof.
  apply (removes_seq _ [_]); [apply removes_delete_object; [done|by intros i []]|].
  apply (removes_seq _ [_] [_]); [apply virtio_removes; [set_solver|apply removes_deleteNvmfPath]|].
  apply virtio_removes; [set_solver|apply removes_deleteNvmeRemoteController].
Qed.

Lemma virtio_connect_steps params : adds virtio_names
  [OpiPath; OpiVirtioBlk] (opiInitiatorVirtioBlk.connect_steps params).
Proof.
  apply (adds_seq _ [_] [_]); [set_solver|apply virtio_adds; [set_solver|apply adds_createNvmfPath]|].
  intros i rest w Hi Ht. apply wp_st_get.
  apply (wp_make_object _ OpiVirtioBlk _ opiInitiatorVirtioBlk.set_virtioBlk (λ msg,
    EWrap ("failed to create virtio-blk device with physID (" +:+ FormatInt (pfID (cp_PciEndpoint params))
           +:+ ") and virtID (" +:+ FormatInt (vfID (cp_PciEndpoint params)) +:+ ") error: ") (ENew msg)));
    [done|by intros ? []|by apply Hi, list_elem_of_singleton|done].
Qed.

(** ** The contract *)

Definition opi_names (b : opi_initiator) : opi_kind → string :=
  match b with OpiNvme i => nvme_names i | OpiVirtio i => virtio_names i end.

Lemma recorded_none names : (∀ k, names k = "") → ∀ x, ¬ recorded names x.
Proof. intros H x (k & _ & Hk). auto. Qed.

Lemma recorded_empty names : (∀ x, ¬ recorded names x) → ∀ k, names k = "".
Proof.
  intros H k. destruct (decide (names k = "")) as [|Hne]; [done|].
  destruct (H (Object k (names k))). by exists k.
Qed.

Lemma nvme_Connect params i w :
  (∀ k, nvme_names i k = "") →
  wp step (opiInitiatorNvme.Connect params i)
    (λ out w', ∃ r i', out = Done (r, i') ∧ tracked step (resources w) (recorded (nvme_names i')) w' ∧
       (is_Some r → deletions_worked w' → ∀ k, nvme_names i' k = "")) w.
Proof.
  intros Hi. apply (wp_connect_cleanup nvme_names [OpiSubsystem]
    [OpiController; OpiRemoteController; OpiPath; OpiNamespace]
    [OpiNamespace; OpiPath; OpiRemoteController; OpiController; OpiSubsystem]).
  - apply adds_createNvmeSubsystem.
  - intros i0 w0 r w' _ _. by destruct r; intros e i' [= <- <-].
  - apply nvme_connect_steps.
  - set_solver.
  - apply nvme_cleanup.
  - intros i0 []; (by left) || (right; set_solver).
  - done.
Qed.

Lemma virtio_Connect params i w :
  (∀ k, virtio_names i k = "") →
  wp step (opiInitiatorVirtioBlk.Connect params i)
    (λ out w', ∃ r i', out = Done (r, i') ∧ tracked step (resources w) (recorded (virtio_names i')) w' ∧
       (is_Some r → deletions_worked w' → ∀ k, virtio_names i' k = "")) w.
Proof.
  intros Hi. apply (wp_connect_cleanup virtio_names [OpiRemoteController] [OpiPath; OpiVirtioBlk]
    [OpiVirtioBlk; OpiPath; OpiRemoteController]).
  - apply virtio_adds; [set_solver|apply adds_createNvmeRemoteController].
  - intros i0 w0 r w' _ _. destruct r; intros e i' [= <- <-] k; by destruct k.
  - apply virtio_connect_steps.
  - set_solver.
  - apply virtio_cleanup.
  - intros i0 []; (by left) || (right; set_solver).
  - done.
Qed.

#[export] Instance opi_contract : BackendContract step opi_initiator.
Proof.
  refine {| owns b := recorded (opi_names b) |}.
  - intros params [i|i] w Hnone; apply wp_proc_bind; pose proof (recorded_empty _ Hnone) as Hi.
    + eapply wp_mono; [by apply nvme_Connect|]. intros out w' (r & i' & -> & Ht & Hp).
      exists r, (OpiNvme i'). split_and!; [done..|]. intros Hr Hw. by apply recorded_none, Hp.
    + eapply wp_mono; [by apply virtio_Connect|]. intros out w' (r & i' & -> & Ht & Hp).
      exists r, (OpiVirtio i'). split_and!; [done..|]. intros Hr Hw. by apply recorded_none, Hp.
  - intros [i|i] rest w Ht; apply wp_proc_bind.
    + eapply wp_mono; [by apply nvme_cleanup|]. intros out w' (r & i' & -> & Ht' & _ & Hr & _).
      exists r, (OpiNvme i'). split_and!; [done..|]. intros Hnone. apply recorded_none.
      intros []; try done; apply Hr; [done|set_solver..].
    + eapply wp_mono; [by apply virtio_cleanup|]. intros out w' (r & i' & -> & Ht' & _ & Hr & _).
      exists r, (OpiVirtio i'). split_and!; [done..|]. intros Hnone. apply recorded_none.
      intros []; try done; apply Hr; [done|set_solver..].
Defined.
End opi.
