(* ===== verification/XpuSpec.v ===== *)
(** The xPU initiator, over the contract of its back end: what [Connect] makes on the xPU
    is gone once [Disconnect] has succeeded. *)

From S2P Require Import Prelude.
From S2P Require Import GoLang.
From S2P Require Import GoJson.
From S2P Require Import World.
From S2P Require Import Util.
From S2P Require Import Initiator.
From S2P Require Import Sma.
From S2P Require Import Opi.
From S2P Require Import Sysfs.
From S2P Require Import Xpu.
From S2P Require Import BackendSpec.
From S2P Require Import OpiSpec.

Section xpu.
Context {W : Type} (step : W → ∀ o : op, reply o → W → Prop) `{!Logged step, !XpuLaws step}.

#[export] Instance backend_contract : BackendContract step xpu_backend.
Proof.
  refine {| owns b := match b with BackendSma i => owns step i | BackendOpi i => owns step i end |}.
  - intros params [i|i] w Hnone; apply wp_proc_bind; (eapply wp_mono; [by apply (connect_contract step)|]);
      intros out w' (r & i' & -> & Ht & Hp); do 2 eexists; split_and!; done.
  - intros [i|i] rest w Ht; apply wp_proc_bind; (eapply wp_mono; [by apply (disconnect_contract step)|]);
      intros out w' (r & i' & -> & Ht' & Hp); do 2 eexists; split_and!; done.
Defined.

(** C20: every back end (SMA or OPI, for any transport) that starts with nothing recorded
    leaves nothing new on the xPU when its [Connect] fails and no deletion has failed; and
    once a [Disconnect] after it succeeds, nothing new is left, whatever [Connect]
    answered.  The exception, in both cases, are the objects of calls that answered an
    error, or no name, and made them all the same. *)
Theorem backend_leaves_nothing params (b : xpu_backend) w :
  (∀ x, ¬ owns step b x) →
  wp step (xConnect params b)
    (λ out w1, ∃ r b1, out = Done (r, b1) ∧
       (is_Some r → deletions_worked w1 → ∀ x, resources w1 x → resources w x ∨ lost w1 x) ∧
       wp step (xDisconnect b1)
         (λ out' w2, ∃ r' b2, out' = Done (r', b2) ∧
            (r' = None → ∀ x, resources w2 x → resources w x ∨ lost w2 x)) w1) w.
Proof.
  intros Hnone. eapply wp_mono; [by apply (connect_contract step)|].
  intros out w1 (r & b1 & -> & Ht & Hp). exists r, b1. split_and!; [done| |].
  - intros Hr Hw x Hx. destruct (Ht x Hx) as [|[Ho|]]; [by left| |by right]. by destruct (Hp Hr Hw x).
  - eapply wp_mono; [by apply (disconnect_contract step)|].
    intros out w2 (r' & b2 & -> & Ht2 & Hp2). exists r', b2. split; [done|]. intros Hr' x Hx.
    destruct (Ht2 x Hx) as [|[Ho|]]; [by left| |by right]. by destruct (Hp2 Hr' x).
Qed.

(** ** Keeping track, method by method *)

Definition holds (x : xpuInitiator) : resource → Prop := owns step (xpu_backend_ x).

(** Operations that make nothing on the xPU. *)
Definition bland (o : op) : Prop := match o with OpiCall _ | SmaCall _ => False | _ => True end.

(** Nothing new is there, but for what was lost. *)
Definition shrinks (w w' : W) : Prop :=
  (∀ x, resources w' x → resources w x ∨ lost w' x) ∧ ∀ x, lost w x → lost w' x.
#[local] Instance shrinks_refl : Reflexive shrinks.
Proof. by split; [left|]. Qed.
#[local] Instance shrinks_trans : Transitive shrinks.
Proof.
  intros w1 w2 w3 [H1 L1] [H2 L2]. split; [|auto]. intros x Hx.
  destruct (H2 x Hx) as [Hx2|]; [|by right]. destruct (H1 x Hx2); auto.
Qed.

Lemma step_bland w o r w' : step w o r w' → bland o → shrinks w w'.
Proof.
  intros Hstep Ho. split; [|intros x; by apply (lost_step step _ _ _ _ _ Hstep)].
  intros x Hx. destruct (resource_law _ _ _ _ _ Hstep Hx) as [[|[Hm|]] _]; [by left| |by right].
  by destruct o.
Qed.

Lemma wp_bland {A} (p : proc A) w : ops bland p → wp step p (λ _ w', shrinks w w') w.
Proof. intros Hp. apply (wp_ops step _ shrinks _ _ Hp). intros w1 o r w2 Ho Hs. by apply (step_bland w1 o r). Qed.

Lemma tracked_shrinks rest P w w' : tracked step rest P w → shrinks w w' → tracked step rest P w'.
Proof.
  intros H [Hs Hl] x Hx. destruct (Hs x Hx) as [Hw|]; [|by right; right].
  destruct (H x Hw) as [|[|]]; auto.
Qed.

(** All there is belongs to the rest of the world, or was lost. *)
Definition within (rest : resource → Prop) (w : W) : Prop :=
  ∀ x, resources w x → rest x ∨ lost w x.

Lemma within_tracked rest P w : within rest w → tracked step rest P w.
Proof. intros H x Hx. destruct (H x Hx); auto. Qed.

Lemma within_shrinks rest w w' : within rest w → shrinks w w' → within rest w'.
Proof.
  intros H [Hs Hl] x Hx. destruct (Hs x Hx) as [Hw|]; [|by right]. destruct (H x Hw); auto.
Qed.

Lemma within_here w : within (resources w) w.
Proof. by left. Qed.

(** Whatever a method returned, what there is is recorded in the initiator it leaves. *)
Definition kept {A} (rest : resource → Prop) (out : outcome (A * xpuInitiator)) (w : W) : Prop :=
  ∀ r x, out = Done (r, x) → tracked step rest (holds x) w.

Lemma wp_with_phyIDLock {A} (m : st xpuInitiator A) rest x w :
  (∀ w1, shrinks w w1 → wp step (m x) (kept rest) w1) →
  wp step (xpuInitiator.with_phyIDLock m x) (kept rest) w.
Proof.
  intros Hm u w1 _ H1. apply wp_defer. eapply wp_mono; [apply Hm; by apply (step_bland _ _ _ _ H1 I)|].
  intros out w2 Hkept u2 w3 _ H3 r x' Hout. eapply tracked_shrinks; [by eapply Hkept|].
  by apply (step_bland _ _ _ _ H3 I).
Qed.

(** [lift] of a program that does not concern the xPU. *)
Lemma wp_bland_lift {A B} (p : proc A) (f : A → st xpuInitiator B) Q x w :
  ops bland p → (∀ why w', Q (Panicked why) w') → (∀ a w', shrinks w w' → wp step (f a x) Q w') →
  wp step ((lift p ≫= f) x) Q w.
Proof.
  intros Hp Hpanic Hf. apply wp_st_bind, wp_lift. eapply wp_mono; [by apply wp_bland|].
  intros [a|why] w' Hw'; [|apply Hpanic]. by apply Hf.
Qed.

Lemma kept_panicked {A} rest why w : kept rest (Panicked why : outcome (A * xpuInitiator)) w.
Proof. by intros r x. Qed.

Lemma wp_backend_connect params x w rest :
  (∀ y, ¬ holds x y) → within rest w →
  wp step (xpuInitiator.backend (xConnect params) x) (kept rest) w.
Proof.
  intros Hnone Hrest. apply wp_zoom.
  eapply wp_mono; [apply wp_conj; [apply (wp_grows step)|by apply (connect_contract step)]|].
  intros out w1 [Hg (r & b1 & -> & Ht & _)] r' x' [= <- <-] y Hy.
  destruct (Ht y Hy) as [Hw|]; [|by right]. destruct (Hrest y Hw) as [|Hl]; [by left|].
  right. right. by eapply lost_grows.
Qed.

Lemma wp_backend_disconnect x w rest :
  tracked step rest (holds x) w →
  wp step (xpuInitiator.backend xDisconnect x)
    (λ out w', ∃ r x', out = Done (r, x') ∧ tracked step rest (holds x') w' ∧
       xpu_devicePath x' = xpu_devicePath x ∧ (r = None → ∀ y, ¬ holds x' y)) w.
Proof.
  intros Ht. apply wp_zoom.
  eapply wp_mono; [by apply (disconnect_contract step)|].
  intros out w1 (r & b1 & -> & Ht1 & Hn). do 2 eexists. by split_and!.
Qed.

(** ** Operations of the helpers *)

Ltac bland_ops := ops_follow; solve [done|auto].

Lemma ops_glob g : ops bland (glob g).
Proof. unfold glob. bland_ops. Qed.
#[local] Hint Resolve ops_glob : spdk.

Lemma ops_wait_ready g n : ops bland (wait_ready_loop g n).
Proof. induction n; cbn [wait_ready_loop]; bland_ops. Qed.

Lemma ops_waitForDeviceReady g n : ops bland (waitForDeviceReady g n).
Proof. apply ops_wait_ready. Qed.
#[local] Hint Resolve ops_waitForDeviceReady : spdk.

Lemma ops_waitForDeviceGone g : ops bland (waitForDeviceGone g).
Proof. unfold waitForDeviceGone. generalize 21. intros n. induction n; cbn [wait_gone_loop]; bland_ops. Qed.
#[local] Hint Resolve ops_waitForDeviceGone : spdk.

Lemma ops_exec cmd t : ops bland (execWithTimeout cmd t).
Proof. unfold execWithTimeout. bland_ops. Qed.
#[local] Hint Resolve ops_exec : spdk.

Lemma ops_nvmf_Connect n : ops bland (initiatorNVMf.Connect n).
Proof. unfold initiatorNVMf.Connect. bland_ops. Qed.
Lemma ops_nvmf_Disconnect n : ops bland (initiatorNVMf.Disconnect n).
Proof. unfold initiatorNVMf.Disconnect. bland_ops. Qed.
#[local] Hint Resolve ops_nvmf_Connect ops_nvmf_Disconnect : spdk.

Lemma ops_appendContentToFile f c : ops bland (appendContentToFile f c).
Proof. unfold appendContentToFile. bland_ops. Qed.
#[local] Hint Resolve ops_appendContentToFile : spdk.

Lemma ops_getNvmeDeviceName p m : ops bland (getNvmeDeviceName p m).
Proof. unfold getNvmeDeviceName. bland_ops. Qed.
#[local] Hint Resolve ops_getNvmeDeviceName : spdk.

Lemma ops_check_paths m paths seen : ops bland (check_paths m paths seen).
Proof. revert seen. induction paths; intros seen; cbn [check_paths]; bland_ops. Qed.
#[local] Hint Resolve ops_check_paths : spdk.

Lemma ops_CheckIfNvmeDeviceExists m seen : ops bland (CheckIfNvmeDeviceExists m seen).
Proof. unfold CheckIfNvmeDeviceExists. bland_ops. Qed.
#[local] Hint Resolve ops_CheckIfNvmeDeviceExists : spdk.

Lemma ops_detect_loop m n seen : ops bland (detect_loop m n seen).
Proof. revert seen. induction n; intros seen; cbn [detect_loop]; bland_ops. Qed.
#[local] Hint Resolve ops_detect_loop : spdk.

Lemma ops_GetNvmeDeviceName m bdf : ops bland (GetNvmeDeviceName m bdf).
Proof. unfold GetNvmeDeviceName, detectNvmeDeviceName. bland_ops. Qed.

Lemma ops_GetVirtioBlkDeviceName bdf wait : ops bland (GetVirtioBlkDeviceName bdf wait).
Proof. unfold GetVirtioBlkDeviceName. bland_ops. Qed.
#[local] Hint Resolve ops_GetNvmeDeviceName ops_GetVirtioBlkDeviceName : spdk.

Lemma ops_find_pci_loop ids files : ops bland (find_pci_loop ids files).
Proof. induction files; cbn [find_pci_loop]; bland_ops. Qed.
#[local] Hint Resolve ops_find_pci_loop : spdk.

Lemma ops_pf_vf_loop bdfs pf n : ops bland (pf_vf_loop bdfs pf n).
Proof. revert pf n. induction bdfs; intros pf n; cbn [pf_vf_loop]; bland_ops. Qed.
#[local] Hint Resolve ops_pf_vf_loop : spdk.

Lemma ops_xpu_loop pf vfs : ops bland (xpu_loop pf vfs).
Proof. induction vfs; cbn [xpu_loop]; bland_ops. Qed.
#[local] Hint Resolve ops_xpu_loop : spdk.

Lemma ops_kvm_loop slots : ops bland (kvm_loop slots).
Proof. induction slots as [|[p v] slots IH]; cbn [kvm_loop]; bland_ops. Qed.
#[local] Hint Resolve ops_kvm_loop : spdk.

Lemma ops_GetAvailableFunctions n config : ops bland (GetAvailableFunctions n config).
Proof.
  unfold GetAvailableFunctions, getAvailableFunctionsKvm, getAvailableFunctionsXpu,
    getXpuPfBdfAndVfCount, findPciDevicesByPciIDs. bland_ops.
Qed.

Lemma ops_StashXPUContext ctx p : ops bland (StashXPUContext ctx p).
Proof. unfold StashXPUContext, stashContext. bland_ops. Qed.

Lemma ops_CleanUpXPUContext p : ops bland (CleanUpXPUContext p).
Proof. unfold CleanUpXPUContext, cleanUpContext. bland_ops. Qed.
#[local] Hint Resolve ops_GetAvailableFunctions ops_StashXPUContext ops_CleanUpXPUContext : spdk.

(** ** Connecting *)

Lemma wp_saveXpuContext x rest w :
  tracked step rest (holds x) w → wp step (xpuInitiator.saveXpuContext x) (kept rest) w.
Proof.
  intros Ht. apply wp_st_get, wp_bland_lift; [auto with spdk|intros; apply kept_panicked|].
  intros err w1 H1 r x' [= <- <-]. by eapply tracked_shrinks.
Qed.

Lemma wp_clean_up e x rest w :
  tracked step rest (holds x) w → wp step (xpuInitiator.clean_up e x) (kept rest) w.
Proof.
  intros Ht. apply wp_st_bind. eapply wp_mono; [by apply wp_backend_disconnect|].
  intros out w1 (r & x1 & -> & Ht1 & _). by intros r' x' [= <- <-].
Qed.

Lemma wp_device_or_clean_up find x rest w :
  ops bland find → tracked step rest (holds x) w →
  wp step (xpuInitiator.device_or_clean_up find x) (kept rest) w.
Proof.
  intros Hfind Ht. apply wp_bland_lift; [done|intros; apply kept_panicked|].
  intros [e|d] w1 H1; pose proof (tracked_shrinks _ _ _ _ Ht H1).
  - by apply wp_clean_up.
  - by intros r x' [= <- <-].
Qed.

Lemma wp_updateNvmeFilesForConnect pe bdfs x rest w :
  tracked step rest (holds x) w →
  wp step (xpuInitiator.updateNvmeFilesForConnect pe bdfs x) (kept rest) w.
Proof.
  intros Ht. apply wp_st_get. case_match; [|by intros r x' [= <- <-]].
  apply wp_bland_lift; [auto with spdk|intros; apply kept_panicked|].
  intros [e|] w1 H1; pose proof (tracked_shrinks _ _ _ _ Ht H1); [by intros r x' [= <- <-]|].
  apply wp_bland_lift; [auto with spdk|intros; apply kept_panicked|].
  intros err w2 H2. destruct err; intros r x' [= <- <-]; by eapply tracked_shrinks.
Qed.

Section connect.
Context (kvm : Z) (x : xpuInitiator) (rest : resource → Prop).
Context (Hnone : ∀ y, ¬ holds x y).
Implicit Types w : W.

Lemma wp_connect_function w :
  within rest w →
  wp step (xpuInitiator.connect_function kvm x) (kept rest) w.
Proof.
  intros Hrest. apply wp_st_get, wp_bland_lift; [auto with spdk|intros; apply kept_panicked|].
  intros [e|[pe bdfs]] w1 H1.
  { intros r x' [= <- <-]. by eapply within_tracked, within_shrinks. }
  apply wp_st_bind. cbn beta iota delta [bind_post wp put].
  apply wp_st_bind. eapply wp_mono; [apply (wp_backend_connect _ _ _ rest); [done|eauto using within_shrinks]|].
  intros [[r x1]|why] w2 Hk; [|apply kept_panicked]. intros r' x' [= <- <-]. by eapply Hk.
Qed.

Lemma wp_ConnectNvmfTCP w :
  within rest w → wp step (xpuInitiator.ConnectNvmfTCP x) (kept rest) w.
Proof.
  intros Hrest. apply wp_st_bind. eapply wp_mono; [apply (wp_backend_connect _ _ _ rest); [done|eauto using within_shrinks]|].
  intros [[r x1]|why] w1 Hk; [|apply kept_panicked]. cbn beta iota delta [bind_post].
  specialize (Hk _ _ eq_refl). destruct r as [e|]; [by intros r' x' [= <- <-]|].
  apply wp_st_get, wp_bland_lift; [auto with spdk|intros; apply kept_panicked|].
  intros [e|d] w2 H2; pose proof (tracked_shrinks _ _ _ _ Hk H2).
  - by apply wp_clean_up.
  - by intros r x' [= <- <-].
Qed.

Lemma wp_ConnectNvme w :
  within rest w → wp step (xpuInitiator.ConnectNvme kvm x) (kept rest) w.
Proof.
  intros Hrest. apply wp_st_get, wp_bland_lift; [auto with spdk|intros; apply kept_panicked|].
  intros [[e|d] seen] w1 H1; [|intros r x' [= <- <-]; by eapply within_tracked, within_shrinks].
  apply wp_with_phyIDLock. intros w2 H2. apply wp_st_bind.
  eapply wp_mono; [apply wp_connect_function; eauto using within_shrinks|].
  intros [[r x1]|why] w3 Hk; [|apply kept_panicked]. cbn beta iota delta [bind_post].
  specialize (Hk _ _ eq_refl). destruct r as [e'|[pe bdfs]]; [by intros r' x' [= <- <-]|].
  apply wp_st_bind. eapply wp_mono; [by apply (wp_updateNvmeFilesForConnect _ _ _ rest)|].
  intros [[r x2]|why] w4 Hk2; [|apply kept_panicked]. cbn beta iota delta [bind_post].
  specialize (Hk2 _ _ eq_refl). destruct r as [e'|]; [by intros r' x' [= <- <-]|].
  apply wp_device_or_clean_up; [auto with spdk|done].
Qed.

Lemma wp_ConnectVirtioBlk w :
  within rest w → wp step (xpuInitiator.ConnectVirtioBlk kvm x) (kept rest) w.
Proof.
  intros Hrest. apply wp_with_phyIDLock. intros w2 H2. apply wp_st_bind.
  eapply wp_mono; [apply wp_connect_function; eauto using within_shrinks|].
  intros [[r x1]|why] w3 Hk; [|apply kept_panicked]. cbn beta iota delta [bind_post].
  specialize (Hk _ _ eq_refl). destruct r as [e'|[pe bdfs]]; [by intros r' x' [= <- <-]|].
  apply wp_device_or_clean_up; [auto with spdk|done].
Qed.

Lemma wp_xpu_Connect w :
  within rest w → wp step (xpuInitiator.Connect kvm x) (kept rest) w.
Proof.
  intros Hrest. apply wp_st_get. cbv zeta.
  assert (∀ m : st xpuInitiator (gores string), wp step (m x) (kept rest) w →
    wp step ((r ← m;
       match r with
       | inl e => mret (inl (EWrap ("XPU.Connect with transport type " +:+
                                    xt_TrType (xpu_targetInfo x) +:+ " err ") e))
       | inr devicePath =>
           err ← xpuInitiator.saveXpuContext;
           match err with
           | Some e => mret (inl (EWrap "XPU.Connect saveXPUContext err " e))
           | None => mret (inr devicePath)
           end
       end) x) (kept rest) w) as Hfinish.
  { intros m Hm. apply wp_st_bind. eapply wp_mono; [done|].
    intros [[r x1]|why] w1 Hk; [|apply kept_panicked]. cbn beta iota delta [bind_post].
    specialize (Hk _ _ eq_refl). destruct r as [e|d]; [by intros r' x' [= <- <-]|].
    apply wp_st_bind. eapply wp_mono; [by apply (wp_saveXpuContext _ rest)|].
    intros [[r x2]|why] w2 Hk2; [|apply kept_panicked]. specialize (Hk2 _ _ eq_refl).
    by destruct r; intros r' x' [= <- <-]. }
  repeat case_bool_decide; [apply Hfinish..|by intros r x' [= <- <-]; apply within_tracked].
  - by apply wp_ConnectNvmfTCP.
  - by apply wp_ConnectNvme.
  - by apply wp_ConnectVirtioBlk.
Qed.
End connect.

(** ** Disconnecting *)

(** When a method succeeds, what is there belongs to the rest of the world, or was lost. *)
Definition released (rest : resource → Prop) (out : outcome (option goerror * xpuInitiator)) (w : W) : Prop :=
  ∀ x, out = Done (None, x) → within rest w.

Lemma released_shrinks rest out w w' : released rest out w → shrinks w w' → released rest out w'.
Proof. intros H Hs x Hout. eapply within_shrinks; [by eapply H|done]. Qed.

Lemma wp_backend_releases x rest w :
  tracked step rest (holds x) w →
  wp step (xpuInitiator.backend xDisconnect x) (released rest) w.
Proof.
  intros Ht. eapply wp_mono; [by apply wp_backend_disconnect|].
  intros out w1 (r & x1 & -> & Ht1 & _ & Hn) x' [= -> <-] y Hy.
  destruct (Ht1 y Hy) as [|[Ho|]]; [by left| |by right]. by destruct (Hn eq_refl y).
Qed.

(** Disconnecting the back end, then waiting for the device to go. *)
Lemma wp_backend_then_wait pattern x rest w :
  tracked step rest (holds x) w →
  wp step ((xpuInitiator.backend xDisconnect ;? lift (waitForDeviceGone pattern)) x) (released rest) w.
Proof.
  intros Ht. apply wp_st_bind. eapply wp_mono; [by apply wp_backend_releases|].
  intros [[[e|] x1]|why] w1 Hr; [by intros x'| |by intros x']. cbn beta iota delta [bind_post].
  apply wp_lift. eapply wp_mono; [apply wp_bland; auto with spdk|].
  intros [r|why] w2 H2; [|by intros x']. eapply released_shrinks; [|done].
  intros x' [= -> <-]. by eapply Hr.
Qed.

Lemma wp_updateNvmeFilesForDisconnect pe bdfs x rest w :
  tracked step rest (holds x) w →
  wp step (xpuInitiator.updateNvmeFilesForDisconnect pe bdfs x) (kept rest) w.
Proof.
  intros Ht. apply wp_st_get. case_match; [|by intros r x' [= <- <-]].
  apply wp_bland_lift; [auto with spdk|intros; apply kept_panicked|].
  intros [e|] w1 H1; pose proof (tracked_shrinks _ _ _ _ Ht H1); [by intros r x' [= <- <-]|].
  apply wp_bland_lift; [auto with spdk|intros; apply kept_panicked|].
  intros err w2 H2. destruct err; intros r x' [= <- <-]; by eapply tracked_shrinks.
Qed.

Lemma wp_xpu_Disconnect x rest w :
  tracked step rest (holds x) w →
  wp step (xpuInitiator.Disconnect x) (released rest) w.
Proof.
  intros Ht. apply wp_st_get. cbv zeta. apply wp_st_bind. eapply wp_mono.
  - instantiate (1 := released rest). repeat case_bool_decide; [..|by intros x'].
    + apply wp_st_get, wp_bland_lift; [auto with spdk|by intros ?? x'|].
      intros [e|] w1 H1; [by intros x'|]. apply wp_backend_releases. by eapply tracked_shrinks.
    + apply wp_st_get. case_bool_decide; [by intros x'|].
      apply wp_st_bind. eapply wp_mono; [by apply (wp_updateNvmeFilesForDisconnect _ _ _ rest)|].
      intros [[[e|] x1]|why] w1 Hk; [by intros x'| |by intros x'].
      apply wp_backend_then_wait. by apply (Hk None).
    + apply wp_st_get. case_bool_decide; [by intros x'|]. by apply wp_backend_then_wait.
  - intros [[r x1]|why] w1 Hr; [|by intros x']. cbn beta iota delta [bind_post].
    apply wp_bland_lift; [auto with spdk|by intros ?? x'|].
    intros _ w2 H2 x' [= -> <-]. by eapply released_shrinks.
Qed.

(** C21: an xPU initiator that starts with nothing recorded makes nothing on the xPU, that
    it is told of, that [Disconnect] does not find again: whatever [Connect] answered,
    with any transport and any state of the node, once [Disconnect] succeeds all that is
    on the xPU was there before [Connect], or is the object of a call that answered an
    error, or no name, and made it all the same. *)
Theorem xpu_disconnect_releases kvm x w :
  (∀ y, ¬ holds x y) →
  wp step (xpuInitiator.Connect kvm x)
    (λ out w1, ∀ r x1, out = Done (r, x1) →
       wp step (xpuInitiator.Disconnect x1)
         (λ out' w2, ∀ x2, out' = Done (None, x2) →
            ∀ y, resources w2 y → resources w y ∨ lost w2 y) w1) w.
Proof.
  intros Hnone. eapply wp_mono; [apply (wp_xpu_Connect _ _ (resources w)); [done|apply within_here]|].
  intros out w1 Hk r x1 Hout. by apply wp_xpu_Disconnect, (Hk r).
Qed.
End xpu.
