(* ===== verification/XpuContext.v ===== *)
(** The xPU context file: an initiator made later for the same volume knows again what the
    one that connected has stored. *)

From Stdlib Require Import Ascii.
From Stdlib Require Import DecimalString.
From S2P Require Import Prelude.
From S2P Require Import GoLang.
From S2P Require Import GoJson.
From S2P Require Import JsonText.
From S2P Require Import JsonSpec.
From S2P Require Import World.
From S2P Require Import Util.
From S2P Require Import UtilSpec.
From S2P Require Import Initiator.
From S2P Require Import Sma.
From S2P Require Import Opi.
From S2P Require Import Sysfs.
From S2P Require Import Xpu.

(** ** Numbers *)

Lemma FormatInt_digit z a s : (0 ≤ z)%Z → FormatInt z = String a s → is_digit a = true.
Proof.
  intros Hz. unfold FormatInt. destruct z as [|p|p]; [by intros [= <- <-]| |lia]. simpl.
  destruct (Pos.to_uint p); simpl; intros H; injection H; intros; by subst.
Qed.

Lemma parse_uint32_FormatInt z : (0 ≤ z < 2 ^ 32)%Z → parse_uint32 (FormatInt z) = z.
Proof.
  intros Hz. unfold parse_uint32. pose proof (parse_Z_FormatInt z) as Hp.
  destruct (FormatInt z) as [|a s] eqn:Hf; [done|].
  rewrite (FormatInt_digit z a s), Hp by (done || lia).
  assert ((z <? 2 ^ 64)%Z = true) as -> by (apply Z.ltb_lt; lia).
  unfold uint32. by apply Z.mod_small.
Qed.

(** ** What is stored *)

(** The map [saveXpuContext] stores. *)
Definition xpu_record (x : xpuInitiator) : gmap string string :=
  <["vfBdf" := vfBdf (xpu_PciBdfs x)]> (
  <["pfBdf" := pfBdf (xpu_PciBdfs x)]> (
  <["vfID" := FormatInt (vfID (xpu_PciEndpoint x))]> (
  <["pfID" := FormatInt (pfID (xpu_PciEndpoint x))]> (
  <["devicePath" := xpu_devicePath x]> (GetParam (xpu_backend_ x)))))).

(** The back end is of the kind the target type asks for. *)
Definition fits (ti : XpuTargetType) (b : xpu_backend) : Prop :=
  match b with
  | BackendSma i => Backend ti = xpuTargetBackendSma ∧ xt_TrType ti =
      match i with
      | smaInitiatorNvmfTCP _ => TransportTypeNvmfTCP
      | smaInitiatorNvme _ => TransportTypeNvme
      | smaInitiatorVirtioBlk _ => TransportTypeVirtioBlk
      end
  | BackendOpi i => Backend ti = xpuTargetBackendOpi ∧ xt_TrType ti =
      match i with OpiNvme _ => TransportTypeNvme | OpiVirtio _ => TransportTypeVirtioBlk end
  end.

(** An initiator as [NewSpdkCsiXpuInitiator] makes them. *)
Record well_made (x : xpuInitiator) : Prop := {
  made_type : parseSpdkXpuTargetType (xc_TargetType (xpu_config x)) = inr (xpu_targetInfo x);
  made_backend : fits (xpu_targetInfo x) (xpu_backend_ x);
  made_pf : (0 ≤ pfID (xpu_PciEndpoint x) < 2 ^ 32)%Z;
  made_vf : (0 ≤ vfID (xpu_PciEndpoint x) < 2 ^ 32)%Z;
  made_ascii : ascii_map (xpu_record x)
}.

(** The second initiator records what the first does. *)
Definition same_record (x x2 : xpuInitiator) : Prop :=
  GetParam (xpu_backend_ x2) = GetParam (xpu_backend_ x) ∧
  xpu_devicePath x2 = xpu_devicePath x ∧ xpu_PciEndpoint x2 = xpu_PciEndpoint x ∧
  xpu_PciBdfs x2 = xpu_PciBdfs x.

Definition blank_record (x : xpuInitiator) : Prop :=
  xpu_devicePath x = "" ∧ xpu_PciEndpoint x = mkPciEndpoint 0 0 ∧ xpu_PciBdfs x = mkPciBdfs "" "" ∧
  map_Forall (λ _ v, v = "") (GetParam (xpu_backend_ x)).

Lemma record_other x k :
  k ∉ ["vfBdf"; "pfBdf"; "vfID"; "pfID"; "devicePath"] →
  mget (Some (xpu_record x)) k = mget (Some (GetParam (xpu_backend_ x))) k.
Proof.
  intros Hk. unfold mget, xpu_record. simpl.
  rewrite !lookup_insert_ne by (intros <-; apply Hk; set_solver). done.
Qed.

Lemma record_fields x :
  mget (Some (xpu_record x)) "devicePath" = xpu_devicePath x ∧
  mget (Some (xpu_record x)) "pfID" = FormatInt (pfID (xpu_PciEndpoint x)) ∧
  mget (Some (xpu_record x)) "vfID" = FormatInt (vfID (xpu_PciEndpoint x)) ∧
  mget (Some (xpu_record x)) "pfBdf" = pfBdf (xpu_PciBdfs x) ∧
  mget (Some (xpu_record x)) "vfBdf" = vfBdf (xpu_PciBdfs x).
Proof.
  unfold mget, xpu_record. simpl.
  split_and!; repeat (rewrite lookup_insert_ne by done); by rewrite lookup_insert_eq.
Qed.

Section context.
Context {W : Type} (step : W → ∀ o : op, reply o → W → Prop) `{!FileLaws step, !Logged step}.

(** What is read back of a stored context; a file that cannot be read counts as none. *)
Lemma wp_tryGetXpuContext ctx m Q w :
  file w (filepath_Join (mget ctx "stagingParentPath") xpuContextFileName) =
    Some (Marshal_map (Some m)) →
  (∀ w', Q (Done (Some m, (mget (Some m) "devicePath",
              mkPciEndpoint (parse_uint32 (mget (Some m) "pfID")) (parse_uint32 (mget (Some m) "vfID")),
              mkPciBdfs (mget (Some m) "pfBdf") (mget (Some m) "vfBdf")))) w') →
  (∀ e w', during w w' (Ev (OsReadFile (filepath_Join (mget ctx "stagingParentPath") xpuContextFileName))
                           (inl e)) →
     Q (Done (None, ("", mkPciEndpoint 0 0, mkPciBdfs "" ""))) w') →
  wp step (tryGetXpuContext ctx) Q w.
Proof.
  intros Hf Hsome Hnone. rewrite Marshal_members in Hf.
  unfold tryGetXpuContext, LookupXPUContext. apply wp_proc_bind, wp_proc_bind.
  apply (wp_lookupContext step _ _ _ _ _ Hf); [apply parse_print_object|].
  intros r w1 _ [->|(p & msg & -> & Hstep)]; cbn beta iota delta [bind_post];
    [|by eapply Hnone, during_step].
  apply (wp_ConvertInterfaceToMap step _ m); [apply object_map_members|]. intros w2 _. apply Hsome.
Qed.

(** The back end that is made of a stored record, or of none. *)
Lemma wp_NewSpdkCsiSmaInitiator ctx tr stored Q w :
  (∀ e w', Q (Done (inl e)) w') →
  (∀ i w', sma_deviceHandle (sma_common i) = mget stored "deviceHandle" → Q (Done (inr i)) w') →
  wp step (NewSpdkCsiSmaInitiator ctx tr stored) Q w.
Proof.
  intros He Hi. unfold NewSpdkCsiSmaInitiator, volumeUUID. apply wp_proc_bind.
  case_bool_decide; [by apply He|]. intros [msg|bytes] w1 _ _; cbn beta iota delta [bind_post]; [by apply He|].
  apply wp_mret. repeat case_bool_decide; [by apply Hi..|apply He].
Qed.

(** The keys a back end of a kind stores, and the parameters of one made of a record. *)
Definition param_keys (b : xpu_backend) : list string :=
  match b with
  | BackendSma _ => ["deviceHandle"]
  | BackendOpi (OpiNvme _) =>
      ["nvmfRemoteControllerName"; "nvmfPathName"; "subsystemName"; "namespaceName"; "nvmeControllerName"]
  | BackendOpi (OpiVirtio _) => ["nvmfRemoteControllerName"; "nvmfPathName"; "virtioBlkName"]
  end.

Definition params_of (stored : gomap) (b : xpu_backend) : gmap string string :=
  list_to_map ((λ k, (k, mget stored k)) <$> param_keys b).

Lemma params_of_own b : params_of (Some (GetParam b)) b = GetParam b.
Proof.
  destruct b as [i|[i|i]]; unfold params_of, mget; simpl;
    repeat (rewrite lookup_insert_ne by done || rewrite lookup_insert_eq); done.
Qed.

Lemma params_of_record x : params_of (Some (xpu_record x)) (xpu_backend_ x) = GetParam (xpu_backend_ x).
Proof.
  etrans; [|apply params_of_own]. unfold params_of. f_equal. apply list_fmap_ext.
  intros j k Hk. f_equal. apply record_other. apply list_elem_of_lookup_2 in Hk.
  destruct (xpu_backend_ x) as [i|[i|i]]; simpl in Hk; set_solver.
Qed.

Lemma params_of_none b : map_Forall (λ _ v, v = "") (params_of None b).
Proof.
  intros k v Hk. apply elem_of_list_to_map_2, list_elem_of_fmap in Hk as (k' & [= -> ->] & _). done.
Qed.

(** The initiator of a stored record: its back end has the record's parameters. *)
Lemma wp_make_backend x stored d pe bdfs (P : xpuInitiator → Prop) w :
  fits (xpu_targetInfo x) (xpu_backend_ x) →
  (∀ b, GetParam b = params_of stored (xpu_backend_ x) →
     P (mkXpuInitiator b (xpu_targetInfo x) (xpu_volumeContext x) (xpu_config x) d pe bdfs)) →
  wp step
    (let xpu := λ backend, mkXpuInitiator backend (xpu_targetInfo x) (xpu_volumeContext x)
                             (xpu_config x) d pe bdfs in
     if bool_decide (Backend (xpu_targetInfo x) = xpuTargetBackendSma) then
       i ←? NewSpdkCsiSmaInitiator (xpu_volumeContext x) (xt_TrType (xpu_targetInfo x)) stored;
       mret (inr (xpu (BackendSma i)))
     else if bool_decide (Backend (xpu_targetInfo x) = xpuTargetBackendOpi) then
       match NewSpdkCsiOpiInitiator (xpu_volumeContext x) (xt_TrType (xpu_targetInfo x)) stored with
       | inl err => mret (inl err)
       | inr i => mret (inr (xpu (BackendOpi i)))
       end
     else mret (inl (ENew ("unknown target type: " +:+ quoted (Backend (xpu_targetInfo x))))))
    (λ out _, ∀ x2, out = Done (inr x2) → P x2) w.
Proof.
  intros Hfits HP. cbv zeta. destruct (xpu_backend_ x) as [i|[i|i]]; destruct Hfits as [Hb Ht];
    rewrite Hb, Ht.
  - apply wp_proc_bind, wp_NewSpdkCsiSmaInitiator; [by intros e w' x2|].
    intros i' w' Hi' x2 [= <-]. apply HP. unfold params_of. simpl. by rewrite <-Hi'.
  - intros x2 [= <-]. by apply HP.
  - intros x2 [= <-]. by apply HP.
Qed.

(** C22: what [Connect] has stored is known again: after a successful save, at any time the
    file is unharmed, an initiator made for the same volume and configuration has the
    device path, the function, the addresses and the names or handles of the objects on
    the xPU.  The one exception is a read of the file that the operating system fails
    while the initiator is made: then it silently knows nothing. *)
Theorem xpu_context_restored x w :
  well_made x →
  let f := filepath_Join (mget (xpu_volumeContext x) "stagingParentPath") xpuContextFileName in
  wp step (xpuInitiator.saveXpuContext x)
    (λ out w1, ∀ x1, out = Done (None, x1) → x1 = x ∧ ∀ w2, file w2 f = file w1 f →
       wp step (NewSpdkCsiXpuInitiator (xpu_volumeContext x) (xpu_config x))
         (λ out' w3, ∀ x2, out' = Done (inr x2) →
            same_record x x2 ∨
            blank_record x2 ∧ ∃ e, during w2 w3 (Ev (OsReadFile f) (inl e))) w2) w.
Proof.
  intros [Htype Hfits Hpf Hvf _] f. apply wp_st_get, wp_st_bind, wp_lift.
  apply (wp_stashContext step). intros err w1 Hfile _ x1 [= Herr <-]. split; [done|].
  destruct err as [e|]; [done|]. intros w2 Hw2. unfold xpuInitiator.ctx in Hfile.
  subst f. rewrite Hfile in Hw2 by done.
  unfold NewSpdkCsiXpuInitiator. rewrite Htype. apply wp_proc_bind.
  apply (wp_tryGetXpuContext _ (xpu_record x) _ _ Hw2).
  - intros w3. cbn beta iota delta [bind_post].
    destruct (record_fields x) as (-> & -> & -> & -> & ->).
    rewrite !parse_uint32_FormatInt by done. eapply wp_mono.
    { apply (wp_make_backend x (Some (xpu_record x)) _ _ _ (same_record x)); [done|].
      intros b Hb. split_and!; [etrans; [exact Hb|apply params_of_record]|done| |].
      - by destruct (xpu_PciEndpoint x).
      - by destruct (xpu_PciBdfs x). }
    intros out w4 H x2 Hout. left. by apply H.
  - intros e w3 Hread. cbn beta iota delta [bind_post]. eapply wp_mono.
    { apply wp_conj; [apply (wp_grows step)|].
      apply (wp_make_backend x None _ _ _ blank_record); [done|].
      intros b Hb. split_and!; [done..|].
      pose proof (params_of_none (xpu_backend_ x)) as H. by rewrite <-Hb in H. }
    intros out w4 [Hg H] x2 Hout. right. split; [by apply H|]. exists e. by eapply during_grows.
Qed.
End context.
