(* ===== verification/NodeServer.v ===== *)
(** The CSI node service: pkg/spdk/nodeserver.go.

    [NodeStageVolume] connects the initiator and mounts the device on the staging
    path, [NodePublishVolume] bind-mounts that on the pod's path, and the two other
    RPCs undo them. *)

From S2P Require Import Prelude.
From S2P Require Import GoLang.
From S2P Require Import GoJson.
From S2P Require Import World.
From S2P Require Import Util.
From S2P Require Import VolumeLocks.
From S2P Require Import CsiCommon.
From S2P Require Import SpdkNode.
From S2P Require Import Initiator.
From S2P Require Import Sysfs.
From S2P Require Import Xpu.

(** ** Data *)

(** [ns_xpu] is the configuration of the connected xPU; it is there exactly when
    [xpuConnClient] is not nil. *)
Record nodeServer := mkNodeServer {
  ns_Driver : CSIDriver;
  ns_volumeLocks : VolumeLocks;
  ns_xpu : option XpuConfig;
  ns_kvmPciBridgeCount : Z
}.

Record NodeStageVolumeRequest := mkNodeStageVolumeRequest {
  stage_VolumeId : string;
  stage_StagingTargetPath : string;
  stage_VolumeCapability : option VolumeCapability;
  stage_VolumeContext : gomap
}.

Record NodeUnstageVolumeRequest := mkNodeUnstageVolumeRequest {
  unstage_VolumeId : string;
  unstage_StagingTargetPath : string
}.

Record NodePublishVolumeRequest := mkNodePublishVolumeRequest {
  publish_VolumeId : string;
  publish_StagingTargetPath : string;
  publish_TargetPath : string;
  publish_VolumeCapability : option VolumeCapability
}.

(** [req.GetVolumeCapability().GetMount()]: file system and flags. *)
Definition mount_of (cap : option VolumeCapability) : string * list string :=
  default ("", []) (cap ≫= cap_Mount).

(** ** Operations *)

(** The initiator of a request: the plain one, or the xPU's. *)
Variant initiator_ :=
  | InitBasic (i : basic_initiator)
  | InitXpu (x : xpuInitiator).

Module nodeServer.
Section ops.
Context (ns : nodeServer).

Definition internal (e : goerror) : goerror := EStatus Internal (error_string e).

(** The three requests have the same shape of staging path. *)
Definition getStagingTargetPath (stagingTargetPath volumeId : string) : string :=
  stagingTargetPath +:+ "/" +:+ volumeId.

Definition isStaged (stagingPath : string) : proc (gores bool) :=
  '(unmounted, err) ← perform (IsNotMountPoint stagingPath);
  mret match err with
       | Some (true, _) => inr false
       | Some e => inl (sys_error e)
       | None => inr (negb unmounted)
       end.

(** Whether the path is already a mount point; the directory is made when missing. *)
Definition createMountPoint (path : string) : proc (bool * option goerror) :=
  '(unmounted, err) ← perform (IsNotMountPoint path);
  match err with
  | Some (true, _) =>
      r ← perform (OsMkdirAll path);
      mret (false, sys_err r)
  | Some e => mret (negb unmounted, Some (sys_error e))
  | None => mret (negb unmounted, None)
  end.

Definition deleteMountPoint (path : string) : proc (option goerror) :=
  let remove := (r ← perform (OsRemoveAll path); mret (sys_err r)) : proc (option goerror) in
  '(unmounted, err) ← perform (IsNotMountPoint path);
  match err with
  | Some (true, _) => mret None
  | Some e => mret (Some (sys_error e))
  | None =>
      if negb unmounted then
        r ← perform (MountUnmount path);
        match r with
        | Some msg => mret (Some (ENew msg))
        | None => remove
        end
      else remove
  end.

(** The mount options of an access mode; [None] when the mode is refused. *)
Definition stage_flags (mode : Z) (mntFlags : list string) : option (list string) :=
  if (mode =? AccessMode_SINGLE_NODE_READER_ONLY)%Z || (mode =? AccessMode_MULTI_NODE_READER_ONLY)%Z
  then Some (mntFlags ++ ["ro"])
  else if (mode =? AccessMode_MULTI_NODE_MULTI_WRITER)%Z then None
  else Some mntFlags.

(** [req.VolumeCapability.AccessMode.Mode] is a chain of pointers. *)
Definition stageVolume (devicePath stagingPath : string) (req : NodeStageVolumeRequest)
    : proc (option goerror) :=
  '(mounted, err) ← createMountPoint stagingPath;
  match err with
  | Some e => mret (Some e)
  | None =>
    if (mounted : bool) then mret None
    else
      let '(fsType, mntFlags) := mount_of (stage_VolumeCapability req) in
      match stage_VolumeCapability req ≫= cap_AccessMode with
      | None => Panic nil_dereference
      | Some mode =>
          match stage_flags mode mntFlags with
          | None => mret (Some (ENew "unsupported MULTI_NODE_MULTI_WRITER AccessMode"))
          | Some mntFlags =>
              r ← perform (FormatAndMount devicePath stagingPath fsType mntFlags);
              mret (ENew <$> r)
          end
      end
  end.

Definition publishVolume (stagingPath : string) (req : NodePublishVolumeRequest)
    : proc (option goerror) :=
  let targetPath := publish_TargetPath req in
  '(mounted, err) ← createMountPoint targetPath;
  match err with
  | Some e => mret (Some e)
  | None =>
    if (mounted : bool) then mret None
    else
      let '(fsType, mntFlags) := mount_of (publish_VolumeCapability req) in
      r ← perform (MountMount stagingPath targetPath fsType (mntFlags ++ ["bind"]));
      mret (ENew <$> r)
  end.

(** [vc["stagingParentPath"] = p]: assignment to a nil map panics. *)
Definition with_staging_path (vc : gomap) (p : string) : proc gomap :=
  match vc with
  | None => Panic "assignment to entry in nil map"
  | Some m => mret (Some (<["stagingParentPath" := p]> m))
  end.

(** The initiator, and the volume context as the xPU branch leaves it. *)
Definition new_initiator (vc : gomap) (stagingParentPath : string)
    : proc (gores initiator_ * gomap) :=
  match ns_xpu ns with
  | Some config =>
      vc ← with_staging_path vc stagingParentPath;
      r ← NewSpdkCsiXpuInitiator vc config;
      mret (match r with inl e => inl e | inr x => inr (InitXpu x) end, vc)
  | None =>
      mret (match NewSpdkCsiInitiator vc with inl e => inl e | inr i => inr (InitBasic i) end, vc)
  end.

Definition Connect (i : initiator_) : proc (gores string * initiator_) :=
  match i with
  | InitBasic (inl n) => r ← initiatorNVMf.Connect n; mret (r, i)
  | InitBasic (inr s) => r ← initiatorISCSI.Connect s; mret (r, i)
  | InitXpu x =>
      '(r, x) ← xpuInitiator.Connect (ns_kvmPciBridgeCount ns) x; mret (r, InitXpu x)
  end.

Definition Disconnect (i : initiator_) : proc (option goerror) :=
  match i with
  | InitBasic (inl n) => initiatorNVMf.Disconnect n
  | InitBasic (inr s) => initiatorISCSI.Disconnect s
  | InitXpu x => '(r, _) ← xpuInitiator.Disconnect x; mret r
  end.

(** After [Connect], a failure disconnects the initiator (the deferred function). *)
Definition NodeStageVolume (req : NodeStageVolumeRequest) : proc (option goerror) :=
  with_lock (ns_volumeLocks ns) (stage_VolumeId req) (
    let stagingParentPath := stage_StagingTargetPath req in
    let stagingTargetPath := getStagingTargetPath (stage_StagingTargetPath req) (stage_VolumeId req) in
    isStaged ← isStaged stagingTargetPath;
    match isStaged with
    | inl err => mret (Some (internal err))
    | inr true => mret None
    | inr false =>
        '(r, vc) ← new_initiator (stage_VolumeContext req) stagingParentPath;
        match r with
        | inl err => mret (Some (internal err))
        | inr initiator =>
            '(r, initiator) ← Connect initiator;
            match r with
            | inl err => mret (Some (internal err))
            | inr devicePath =>
                err ← stageVolume devicePath stagingTargetPath req;
                match err with
                | Some e => Disconnect initiator;; mret (Some (internal e))
                | None =>
                    err ← StashVolumeContext vc stagingParentPath;
                    match err with
                    | Some e => Disconnect initiator;; mret (Some (internal e))
                    | None => mret None
                    end
                end
            end
        end
    end).

Definition NodeUnstageVolume (req : NodeUnstageVolumeRequest) : proc (option goerror) :=
  with_lock (ns_volumeLocks ns) (unstage_VolumeId req) (
    let stagingParentPath := unstage_StagingTargetPath req in
    let stagingTargetPath := getStagingTargetPath (unstage_StagingTargetPath req) (unstage_VolumeId req) in
    isStaged ← isStaged stagingTargetPath;
    match isStaged with
    | inl err => mret (Some (internal err))
    | inr false => mret None
    | inr true =>
        err ← deleteMountPoint stagingTargetPath;
        match err with
        | Some e =>
            mret (Some (EStatus Internal ("unstage volume " +:+ unstage_VolumeId req +:+ " failed: "
                                          +:+ error_string e)))
        | None =>
            r ← LookupVolumeContext stagingParentPath;
            match r with
            | inl err => mret (Some (internal err))
            | inr volumeContext =>
                '(r, _) ← new_initiator (Some volumeContext) stagingParentPath;
                match r with
                | inl err => mret (Some (internal err))
                | inr initiator =>
                    err ← Disconnect initiator;
                    match err with
                    | Some e => mret (Some (internal e))
                    | None =>
                        err ← CleanUpVolumeContext stagingParentPath;
                        mret (internal <$> (err : option goerror))
                    end
                end
            end
        end
    end).

Definition NodePublishVolume (req : NodePublishVolumeRequest) : proc (option goerror) :=
  with_lock (ns_volumeLocks ns) (publish_VolumeId req) (
    err ← publishVolume
            (getStagingTargetPath (publish_StagingTargetPath req) (publish_VolumeId req)) req;
    mret (internal <$> (err : option goerror))).

Definition NodeUnpublishVolume (volumeID targetPath : string) : proc (option goerror) :=
  with_lock (ns_volumeLocks ns) volumeID (
    err ← deleteMountPoint targetPath;
    mret (internal <$> (err : option goerror))).

End ops.
End nodeServer.
