(* ===== verification/NodeOps.v ===== *)
(** What the node's handlers do with locks: each holds the lock of its volume; the ones
    that connect an xPU take [phyIDLock], too, from before they search for a function until
    the device is found; outside of it they search nothing, or take nothing any more
    ([unsearching], [untaking]); and nothing else locks anything. *)

From S2P Require Import Prelude.
From S2P Require Import GoLang.
From S2P Require Import GoJson.
From S2P Require Import World.
From S2P Require Import Util.
From S2P Require Import VolumeLocks.
From S2P Require Import LocksSpec.
From S2P Require Import Initiator.
From S2P Require Import Sma.
From S2P Require Import Opi.
From S2P Require Import Sysfs.
From S2P Require Import Xpu.
From S2P Require Import NodeServer.

(** Operations other than those on locks. *)
Definition lockless (o : op) : Prop := is_lock_op o = false.

#[export] Hint Extern 1 (lockless _) => reflexivity : spdk.
#[export] Hint Extern 1 (untaking _) => reflexivity : spdk.
#[export] Hint Extern 1 (unsearching _) => reflexivity : spdk.

Lemma untaking_lockless {A} (p : proc A) : ops untaking p → ops lockless p.
Proof. apply untaking_no_locks. Qed.

(** Follow a program to its operations. *)
Ltac follow_ops := repeat first [progress ops_follow | reflexivity | intros []].

(** ** Files and devices *)

Lemma untaking_glob p : ops untaking (glob p).
Proof. unfold glob. follow_ops. Qed.
#[export] Hint Resolve untaking_glob : spdk.

Lemma untaking_wait_ready p n : ops untaking (wait_ready_loop p n).
Proof. induction n; cbn [wait_ready_loop]; follow_ops. Qed.
Lemma untaking_wait_gone p n : ops untaking (wait_gone_loop p n).
Proof. induction n; cbn [wait_gone_loop]; follow_ops. Qed.
#[export] Hint Resolve untaking_wait_ready untaking_wait_gone : spdk.

Lemma untaking_waitForDeviceReady p n : ops untaking (waitForDeviceReady p n).
Proof. apply untaking_wait_ready. Qed.
Lemma untaking_waitForDeviceGone p : ops untaking (waitForDeviceGone p).
Proof. apply untaking_wait_gone. Qed.
#[export] Hint Resolve untaking_waitForDeviceReady untaking_waitForDeviceGone : spdk.

Lemma untaking_exec cmd t : ops untaking (execWithTimeout cmd t).
Proof. unfold execWithTimeout. follow_ops. Qed.
#[export] Hint Resolve untaking_exec : spdk.

Lemma untaking_initiators :
  (∀ i, ops untaking (initiatorNVMf.Connect i)) ∧ (∀ i, ops untaking (initiatorNVMf.Disconnect i)) ∧
  (∀ i, ops untaking (initiatorISCSI.Connect i)) ∧ (∀ i, ops untaking (initiatorISCSI.Disconnect i)).
Proof.
  unfold initiatorNVMf.Connect, initiatorNVMf.Disconnect, initiatorISCSI.Connect,
    initiatorISCSI.Disconnect. split_and!; intros i; follow_ops.
Qed.

Lemma untaking_contexts f n :
  (∀ c, ops untaking (stashContext c f n)) ∧ ops untaking (lookupContext f n) ∧
  ops untaking (cleanUpContext f n).
Proof.
  unfold stashContext, lookupContext, cleanUpContext. split_and!; intros; follow_ops.
Qed.

Lemma untaking_ConvertInterfaceToMap j : ops untaking (ConvertInterfaceToMap j).
Proof. unfold ConvertInterfaceToMap. follow_ops. Qed.
#[export] Hint Resolve untaking_ConvertInterfaceToMap : spdk.

Lemma untaking_LookupVolumeContext p : ops untaking (LookupVolumeContext p).
Proof.
  unfold LookupVolumeContext.
  destruct (untaking_contexts p volumeContextFileName) as (_ & ? & _). follow_ops.
Qed.
Lemma untaking_LookupXPUContext p : ops untaking (LookupXPUContext p).
Proof.
  unfold LookupXPUContext.
  destruct (untaking_contexts p xpuContextFileName) as (_ & ? & _). follow_ops.
Qed.
#[export] Hint Resolve untaking_LookupVolumeContext untaking_LookupXPUContext : spdk.

(** ** Functions and devices of an xPU *)

Lemma untaking_getNvmeDeviceName p m : ops untaking (getNvmeDeviceName p m).
Proof. unfold getNvmeDeviceName. follow_ops. Qed.
#[export] Hint Resolve untaking_getNvmeDeviceName : spdk.

Lemma untaking_check_paths m paths seen : ops untaking (check_paths m paths seen).
Proof. revert seen. induction paths; intros seen; cbn [check_paths]; follow_ops; auto. Qed.
#[export] Hint Resolve untaking_check_paths : spdk.

Lemma untaking_CheckIfNvmeDeviceExists m seen : ops untaking (CheckIfNvmeDeviceExists m seen).
Proof. unfold CheckIfNvmeDeviceExists. follow_ops. Qed.
#[export] Hint Resolve untaking_CheckIfNvmeDeviceExists : spdk.

Lemma untaking_detect_loop m n seen : ops untaking (detect_loop m n seen).
Proof. revert seen. induction n; intros seen; cbn [detect_loop]; follow_ops; auto. Qed.
#[export] Hint Resolve untaking_detect_loop : spdk.

Lemma untaking_device_names m bdf b :
  ops untaking (GetNvmeDeviceName m bdf) ∧ ops untaking (GetVirtioBlkDeviceName bdf b).
Proof.
  unfold GetNvmeDeviceName, GetVirtioBlkDeviceName, detectNvmeDeviceName.
  split; follow_ops; auto with spdk.
Qed.

Lemma untaking_find_pci_loop ids files : ops untaking (find_pci_loop ids files).
Proof. induction files; cbn [find_pci_loop]; follow_ops; auto. Qed.
#[export] Hint Resolve untaking_find_pci_loop : spdk.

Lemma untaking_kvm_loop slots : ops untaking (kvm_loop slots).
Proof. induction slots as [|[p v] slots IH]; cbn [kvm_loop]; follow_ops; auto. Qed.
Lemma untaking_pf_vf_loop bdfs pf n : ops untaking (pf_vf_loop bdfs pf n).
Proof. revert pf n. induction bdfs; intros pf n; cbn [pf_vf_loop]; follow_ops; auto. Qed.
Lemma untaking_xpu_loop pf vfs : ops untaking (xpu_loop pf vfs).
Proof. induction vfs; cbn [xpu_loop]; follow_ops; auto; done. Qed.
#[export] Hint Resolve untaking_kvm_loop untaking_pf_vf_loop untaking_xpu_loop : spdk.

Lemma untaking_GetAvailableFunctions kvm c : ops untaking (GetAvailableFunctions kvm c).
Proof.
  unfold GetAvailableFunctions, getAvailableFunctionsKvm, getAvailableFunctionsXpu,
    getXpuPfBdfAndVfCount, findPciDevicesByPciIDs. follow_ops.
Qed.
#[export] Hint Resolve untaking_GetAvailableFunctions : spdk.

(** ** Back ends *)

(** Calls to the service behind a back end, and those that only release something. *)
Definition service_op (o : op) : Prop :=
  match o with SmaCall _ | OpiCall _ | RandInt _ => True | _ => False end.
Definition release_op (o : op) : Prop := service_op o ∧ takes_function o = false.

#[export] Hint Extern 1 (service_op _) => exact I : spdk.
#[export] Hint Extern 1 (release_op _) => split; [exact I|reflexivity] : spdk.

Lemma service_release {A} (p : proc A) : ops release_op p → ops service_op p.
Proof. apply ops_mono. by intros o []. Qed.
Lemma unsearching_service {A} (p : proc A) : ops service_op p → ops unsearching p.
Proof. apply ops_mono. by intros []. Qed.
Lemma lockless_service {A} (p : proc A) : ops service_op p → ops lockless p.
Proof. apply ops_mono. by intros []. Qed.
Lemma untaking_release {A} (p : proc A) : ops release_op p → ops untaking p.
Proof. apply ops_mono. intros o [Ho Ht]. unfold untaking. rewrite Ht. by destruct o. Qed.

(** What a back end promises: calls to its service, and to disconnect it takes nothing. *)
Class ServiceBackend B `{XpuInitiator B} := {
  service_xConnect params : ops_st service_op (xConnect (B := B) params);
  release_xDisconnect : ops_st release_op (xDisconnect (B := B))
}.

Section promise.
Context {B} `{ServiceBackend B}.

Lemma lockless_xConnect params : ops_st lockless (xConnect (B := B) params).
Proof. intros b. apply lockless_service, service_xConnect. Qed.
Lemma unsearching_xConnect params : ops_st unsearching (xConnect (B := B) params).
Proof. intros b. apply unsearching_service, service_xConnect. Qed.
Lemma untaking_xDisconnect : ops_st untaking (xDisconnect (B := B)).
Proof. intros b. apply untaking_release, release_xDisconnect. Qed.
Lemma unsearching_xDisconnect : ops_st unsearching (xDisconnect (B := B)).
Proof. intros b. apply unsearching_service, service_release, release_xDisconnect. Qed.
End promise.

#[export] Hint Extern 2 (ops_st lockless (xConnect _)) => apply lockless_xConnect : spdk.
#[export] Hint Extern 2 (ops_st unsearching (xConnect _)) => apply unsearching_xConnect : spdk.
#[export] Hint Extern 2 (ops_st untaking xDisconnect) => apply untaking_xDisconnect : spdk.
#[export] Hint Extern 2 (ops_st unsearching xDisconnect) => apply unsearching_xDisconnect : spdk.

Lemma service_sma_calls :
  (∀ v d, ops_st service_op (smaCommon.CreateDevice v d)) ∧
  (∀ v d h, ops_st service_op (smaCommon.AttachVolume v d h)).
Proof.
  unfold smaCommon.CreateDevice, smaCommon.AttachVolume. split; intros; follow_ops.
Qed.

Lemma release_sma_calls :
  (∀ v h, ops_st release_op (smaCommon.DetachVolume v h)) ∧
  (∀ h, ops_st release_op (smaCommon.DeleteDevice h)).
Proof.
  unfold smaCommon.DetachVolume, smaCommon.DeleteDevice. split; intros; follow_ops.
Qed.

#[export] Instance sma_service : ServiceBackend sma_initiator.
Proof.
  destruct service_sma_calls as [? ?], release_sma_calls as [Hdet Hdel].
  assert (∀ h, ops_st service_op (smaCommon.DeleteDevice h))
    by (intros h c; apply service_release, Hdel).
  split; [intros params|]; intros [c|c|c];
    cbn [xConnect xDisconnect sma_XpuInitiator]; (apply ops_st_run, ops_st_zoom);
    unfold smaInitiatorNvmfTCP.Connect, smaInitiatorNvmfTCP.Disconnect, smaInitiatorNvme.Connect,
      smaInitiatorNvme.Disconnect, smaInitiatorVirtioBlk.Connect, smaInitiatorVirtioBlk.Disconnect,
      smaCommon.attach_or_delete, smaCommon.detach_and_delete; follow_ops.
Qed.

Lemma release_delete_object {S} k (name : S → string) forget wrap :
  ops_st release_op (opiCommon.delete_object k name forget wrap).
Proof. unfold opiCommon.delete_object. follow_ops. Qed.
#[export] Hint Resolve release_delete_object : spdk.

Lemma service_delete_object {S} k (name : S → string) forget wrap :
  ops_st service_op (opiCommon.delete_object k name forget wrap).
Proof. intros c. apply service_release, release_delete_object. Qed.
#[export] Hint Resolve service_delete_object : spdk.

#[export] Instance opi_service : ServiceBackend opi_initiator.
Proof.
  split; [intros params|]; intros [i|i];
    cbn [xConnect xDisconnect opi_XpuInitiator]; (apply ops_bind; [apply ops_st_run|by intros []]);
    unfold opiInitiatorNvme.Connect, opiInitiatorNvme.Disconnect, opiInitiatorNvme.connect_steps,
      opiInitiatorNvme.cleanup, opiInitiatorNvme.createNvmeSubsystem,
      opiInitiatorNvme.createNvmeController, opiInitiatorNvme.createNvmeNamespace,
      opiInitiatorNvme.deleteNvmeSubsystem, opiInitiatorNvme.deleteNvmeController,
      opiInitiatorNvme.deleteNvmeNamespace, opiInitiatorVirtioBlk.Connect,
      opiInitiatorVirtioBlk.Disconnect, opiInitiatorVirtioBlk.connect_steps,
      opiInitiatorVirtioBlk.cleanup, opiInitiatorVirtioBlk.createVirtioBlk,
      opiInitiatorVirtioBlk.deleteVirtioBlk, opiCommon.createNvmeRemoteController,
      opiCommon.createNvmfPath, opiCommon.deleteNvmfPath, opiCommon.deleteNvmeRemoteController,
      opiInitiatorNvme.common, opiInitiatorVirtioBlk.common; follow_ops.
Qed.

#[export] Instance xpu_service : ServiceBackend xpu_backend.
Proof.
  split; [intros params|]; intros [i|i];
    cbn [xConnect xDisconnect backend_XpuInitiator]; (apply ops_bind; [|by intros []]);
    first [apply service_xConnect|apply release_xDisconnect].
Qed.

(** ** The xPU initiator *)

Lemma untaking_lift_initiators :
  (∀ i, ops_st (S := xpuInitiator) untaking (lift (initiatorNVMf.Connect i))) ∧
  (∀ i, ops_st (S := xpuInitiator) untaking (lift (initiatorNVMf.Disconnect i))).
Proof. destruct untaking_initiators as (? & ? & _). split; intros i; by apply ops_st_lift. Qed.

Lemma untaking_append f c : ops untaking (appendContentToFile f c).
Proof. unfold appendContentToFile. follow_ops. Qed.
#[export] Hint Resolve untaking_append : spdk.

Lemma untaking_xpu_parts :
  ops_st untaking xpuInitiator.saveXpuContext ∧
  (∀ pe bdfs, ops_st untaking (xpuInitiator.updateNvmeFilesForConnect pe bdfs)) ∧
  (∀ p, ops untaking p → ops_st untaking (xpuInitiator.device_or_clean_up p)) ∧
  ops_st untaking xpuInitiator.Disconnect.
Proof.
  destruct untaking_lift_initiators.
  assert (∀ c f, ops untaking (StashXPUContext c f))
    by (intros c f; apply (untaking_contexts f xpuContextFileName)).
  assert (∀ f, ops untaking (CleanUpXPUContext f))
    by (intros f; apply (untaking_contexts f xpuContextFileName)).
  unfold xpuInitiator.saveXpuContext, xpuInitiator.updateNvmeFilesForConnect,
    xpuInitiator.device_or_clean_up, xpuInitiator.Disconnect, xpuInitiator.DisconnectNvmfTCP,
    xpuInitiator.DisconnectNvme, xpuInitiator.DisconnectVirtioBlk,
    xpuInitiator.updateNvmeFilesForDisconnect, xpuInitiator.clean_up, xpuInitiator.backend.
  split_and!; intros; follow_ops.
Qed.

Lemma lockless_st_untaking {S A} (m : st S A) : ops_st untaking m → ops_st lockless m.
Proof. intros Hm s. apply untaking_lockless, Hm. Qed.

Lemma lockless_connect_function kvm : ops_st lockless (xpuInitiator.connect_function kvm).
Proof.
  unfold xpuInitiator.connect_function, xpuInitiator.backend.
  pose proof (λ c, untaking_lockless _ (untaking_GetAvailableFunctions kvm c)). follow_ops.
Qed.

(** ** Without a search for a function *)

Lemma unsearching_wait_ready p n :
  searches_function (FilepathGlob p) = false → ops unsearching (waitForDeviceReady p n).
Proof.
  intros Hp. unfold waitForDeviceReady.
  assert (ops unsearching (glob p)) by (unfold glob; ops_follow; exact Hp).
  induction (Z.to_nat (n + 1)); cbn [wait_ready_loop]; follow_ops.
Qed.

Lemma unsearching_exec cmd t : ops unsearching (execWithTimeout cmd t).
Proof. unfold execWithTimeout. follow_ops. Qed.
#[export] Hint Resolve unsearching_exec : spdk.

Lemma unsearching_nvmf_Connect i : ops unsearching (initiatorNVMf.Connect i).
Proof.
  assert (∀ n, ops unsearching (waitForDeviceReady (initiatorNVMf.deviceGlob i) n))
    by (intros n; by apply unsearching_wait_ready).
  unfold initiatorNVMf.Connect. follow_ops.
Qed.

Lemma unsearching_check_paths m paths seen : ops unsearching (check_paths m paths seen).
Proof.
  revert seen. induction paths; intros seen; cbn [check_paths]; unfold getNvmeDeviceName;
    follow_ops; auto.
Qed.
#[export] Hint Resolve unsearching_check_paths : spdk.

Lemma unsearching_CheckIfNvmeDeviceExists m seen :
  ops unsearching (CheckIfNvmeDeviceExists m seen).
Proof. unfold CheckIfNvmeDeviceExists, glob. follow_ops. Qed.
#[export] Hint Resolve unsearching_CheckIfNvmeDeviceExists : spdk.

Lemma unsearching_ConnectNvmfTCP : ops_st unsearching xpuInitiator.ConnectNvmfTCP.
Proof.
  pose proof unsearching_nvmf_Connect.
  unfold xpuInitiator.ConnectNvmfTCP, xpuInitiator.clean_up, xpuInitiator.backend. follow_ops.
Qed.

Lemma unsearching_isStaged p : ops unsearching (nodeServer.isStaged p).
Proof. unfold nodeServer.isStaged. follow_ops. Qed.

Lemma unsearching_lookupContext f n : ops unsearching (lookupContext f n).
Proof. unfold lookupContext. follow_ops. Qed.
#[export] Hint Resolve unsearching_lookupContext : spdk.

Lemma unsearching_new_initiator ns vc p : ops unsearching (nodeServer.new_initiator ns vc p).
Proof.
  unfold nodeServer.new_initiator, nodeServer.with_staging_path, NewSpdkCsiXpuInitiator,
    tryGetXpuContext, LookupXPUContext, NewSpdkCsiSmaInitiator, volumeUUID, ConvertInterfaceToMap.
  follow_ops; done.
Qed.

(** ** Connecting an xPU *)

(** It takes [phyIDLock] around the search for a function and its use. *)
Lemma bracketed_with_phyIDLock {A} (m : st xpuInitiator A) x :
  ops_st lockless m → bracketed phyIDLock false false (xpuInitiator.with_phyIDLock m x).
Proof. intros Hm. apply bracketed_lock, Hm. Qed.

Lemma bracketed_ConnectNvme kvm x :
  bracketed phyIDLock false false (xpuInitiator.ConnectNvme kvm x).
Proof.
  destruct untaking_xpu_parts as (_ & Hfiles & Hdev & _).
  apply bracketed_st_get, bracketed_st_before; [apply ops_st_run; follow_ops|].
  intros [[err|d] seen] x1; [|done]. apply bracketed_with_phyIDLock.
  apply ops_st_bind; [apply lockless_connect_function|]. intros [e1|[pe bdfs]]; [follow_ops|].
  apply lockless_st_untaking, ops_st_bind; [apply Hfiles|]. intros [e2|]; [follow_ops|].
  apply Hdev. by destruct (untaking_device_names (xpuInitiator.ctx x "model") (vfBdf bdfs) true).
Qed.

Lemma bracketed_ConnectVirtioBlk kvm x :
  bracketed phyIDLock false false (xpuInitiator.ConnectVirtioBlk kvm x).
Proof.
  destruct untaking_xpu_parts as (_ & _ & Hdev & _).
  apply bracketed_with_phyIDLock, ops_st_bind; [apply lockless_connect_function|].
  intros [err|[pe bdfs]]; [follow_ops|]. apply lockless_st_untaking, Hdev.
  by destruct (untaking_device_names "" (vfBdf bdfs) true).
Qed.

Lemma bracketed_xpu_Connect kvm x : bracketed phyIDLock false false (xpuInitiator.Connect kvm x).
Proof.
  destruct untaking_xpu_parts as (Hsave & _). apply bracketed_st_get. cbv zeta.
  repeat case_bool_decide; [..|done];
    (apply bracketed_st_after;
      [first [apply bracketed_ConnectNvme|apply bracketed_ConnectVirtioBlk
             |apply bracketed_unsearching, unsearching_ConnectNvmfTCP]
      |intros r; follow_ops]).
Qed.

(** ** The handlers *)

Section handlers.
Context (ns : nodeServer).

Lemma untaking_mounts :
  (∀ p, ops untaking (nodeServer.isStaged p)) ∧ (∀ p, ops untaking (nodeServer.deleteMountPoint p)) ∧
  (∀ d p req, ops untaking (nodeServer.stageVolume d p req)) ∧
  (∀ p req, ops untaking (nodeServer.publishVolume p req)).
Proof.
  unfold nodeServer.isStaged, nodeServer.deleteMountPoint, nodeServer.stageVolume,
    nodeServer.publishVolume, nodeServer.createMountPoint.
  split_and!; intros; follow_ops; done.
Qed.

Lemma untaking_new_initiator vc p : ops untaking (nodeServer.new_initiator ns vc p).
Proof.
  unfold nodeServer.new_initiator, nodeServer.with_staging_path, NewSpdkCsiXpuInitiator,
    tryGetXpuContext, NewSpdkCsiSmaInitiator, volumeUUID. follow_ops; done.
Qed.

Lemma untaking_Disconnect i : ops untaking (nodeServer.Disconnect i).
Proof.
  destruct untaking_initiators as (_ & ? & _ & ?), untaking_xpu_parts as (_ & _ & _ & Hx).
  destruct i as [[n|s]|x]; cbn [nodeServer.Disconnect]; [auto..|].
  apply ops_bind; [apply Hx|by intros []].
Qed.

Lemma bracketed_Connect i : bracketed phyIDLock false false (nodeServer.Connect ns i).
Proof.
  destruct untaking_initiators as (Hn & _ & Hi & _).
  destruct i as [[n|s]|x]; cbn [nodeServer.Connect]; (apply bracketed_after; [|by intros; try case_goal]).
  - by apply bracketed_untaking.
  - by apply bracketed_untaking.
  - apply bracketed_xpu_Connect.
Qed.

(** Each handler follows the protocol with the lock of its volume. *)
Lemma guarded_NodeStageVolume req :
  guarded phyIDLock (mutexes (ns_volumeLocks ns), stage_VolumeId req)
    (nodeServer.NodeStageVolume ns req).
Proof.
  destruct untaking_mounts as (_ & _ & Hmount & _).
  assert (∀ c f, ops untaking (StashVolumeContext c f))
    by (intros c f; apply (untaking_contexts f volumeContextFileName)).
  apply guarded_with_lock. cbv zeta.
  apply bracketed_before; [apply unsearching_isStaged|]. intros [e|[]]; [done..|].
  apply bracketed_before; [apply unsearching_new_initiator|]. intros [[e|i] vc]; [done|].
  apply bracketed_after; [apply bracketed_Connect|]. intros [[e|d] i']; [done|].
  pose proof (untaking_Disconnect i').
  apply ops_bind; [apply Hmount|]. follow_ops.
Qed.

Lemma guarded_NodeUnstageVolume req :
  guarded phyIDLock (mutexes (ns_volumeLocks ns), unstage_VolumeId req)
    (nodeServer.NodeUnstageVolume ns req).
Proof.
  destruct untaking_mounts as (Hst & Hdel & _).
  assert (∀ f, ops untaking (CleanUpVolumeContext f))
    by (intros f; apply (untaking_contexts f volumeContextFileName)).
  pose proof untaking_new_initiator. pose proof untaking_Disconnect.
  apply guarded_with_lock, bracketed_untaking. cbv zeta. follow_ops.
Qed.

Lemma guarded_NodePublishVolume req :
  guarded phyIDLock (mutexes (ns_volumeLocks ns), publish_VolumeId req)
    (nodeServer.NodePublishVolume ns req).
Proof.
  destruct untaking_mounts as (_ & _ & _ & Hp).
  apply guarded_with_lock, bracketed_untaking. follow_ops.
Qed.

Lemma guarded_NodeUnpublishVolume id path :
  guarded phyIDLock (mutexes (ns_volumeLocks ns), id) (nodeServer.NodeUnpublishVolume ns id path).
Proof.
  destruct untaking_mounts as (_ & Hd & _).
  apply guarded_with_lock, bracketed_untaking. follow_ops.
Qed.
End handlers.
