(* ===== verification/Driver.v ===== *)
(** The start of the driver: pkg/spdk/driver.go, the constructor of the node service and
    the capabilities the services announce. *)

From S2P Require Import Prelude.
From S2P Require Import GoLang.
From S2P Require Import GoJson.
From S2P Require Import World.
From S2P Require Import Util.
From S2P Require Import VolumeLocks.
From S2P Require Import CsiCommon.
From S2P Require Import Server.
From S2P Require Import SpdkNode.
From S2P Require Import Controller.
From S2P Require Import Sysfs.
From S2P Require Import NodeServer.

(** ** The node service *)

Definition dec_PciIDs : decoder PciIDs := dec_struct [
  ("vendorID", dec_field VendorID (λ v p, mkPciIDs v (DeviceID p) (ClassID p)) dec_string);
  ("deviceID", dec_field DeviceID (λ v p, mkPciIDs (VendorID p) v (ClassID p)) dec_string);
  ("classID", dec_field ClassID (λ v p, mkPciIDs (VendorID p) (DeviceID p) v) dec_string)
].

Definition XpuConfig_zero : XpuConfig := mkXpuConfig "" "" "" (mkPciIDs "" "" "").

Definition dec_XpuConfig : decoder XpuConfig := dec_struct [
  ("name", dec_field xc_Name (λ v c, mkXpuConfig v (xc_TargetType c) (xc_TargetAddr c) (xc_PciIDs c)) dec_string);
  ("targetType", dec_field xc_TargetType (λ v c, mkXpuConfig (xc_Name c) v (xc_TargetAddr c) (xc_PciIDs c)) dec_string);
  ("targetAddr", dec_field xc_TargetAddr (λ v c, mkXpuConfig (xc_Name c) (xc_TargetType c) v (xc_PciIDs c)) dec_string);
  ("pciIDs", dec_field xc_PciIDs (λ v c, mkXpuConfig (xc_Name c) (xc_TargetType c) (xc_TargetAddr c) v) dec_PciIDs)
].

(** The configuration of the first xPU that can be dialled; an element may be nil. *)
Fixpoint connectXpuNode (xpuList : list (option XpuConfig)) : proc (option XpuConfig) :=
  match xpuList with
  | [] => mret None
  | None :: _ => Panic nil_dereference
  | Some xpu :: xpuList' =>
      err ← perform (GrpcDial (xc_TargetAddr xpu));
      match err with
      | Some _ => connectXpuNode xpuList'
      | None => mret (Some xpu)
      end
  end.

Definition spdkcsiNodeServerConfigFile : string := "/etc/spdkcsi-nodeserver-config/nodeserver-config.json".
Definition spdkcsiNodeServerConfigFileEnv : string := "SPDKCSI_CONFIG_NODESERVER".

Definition newNodeServer (kvmPciBridgeCount : Z) (locks : VolumeLocks) (d : CSIDriver)
    : proc (gores nodeServer) :=
  let ns := mkNodeServer d locks None kvmPciBridgeCount in
  configFile ← FromEnv spdkcsiNodeServerConfigFileEnv spdkcsiNodeServerConfigFile;
  r ← perform (OsStat configFile);
  match r with
  | inl (true, _) => mret (inr ns)
  | _ =>
      '(xpuList, err) ← ParseJSONFile configFile
          (dec_struct [("xpuList", dec_slice None (dec_ptr XpuConfig_zero dec_XpuConfig))]) [];
      match err with
      | Some e =>
          mret (inl (EWrap ("error in the configuration file specified in "
                            +:+ spdkcsiNodeServerConfigFileEnv +:+ " (" +:+ spdkcsiNodeServerConfigFile
                            +:+ " by default): ") e))
      | None =>
          xpu ← connectXpuNode xpuList;
          mret (inr match xpu with
                    | Some c =>
                        if bool_decide (xc_TargetType c = "xpu-opi-virtioblk") && negb (IsKvm (xc_PciIDs c))
                        then ns else mkNodeServer d locks (Some c) kvmPciBridgeCount
                    | None => ns
                    end)
      end
  end.

(** ** Capabilities *)

Definition NodeGetCapabilities : list Z := [NodeServiceCapability_RPC_STAGE_UNSTAGE_VOLUME].

(** The capabilities of the plugin: a service, or a kind of volume expansion. *)
Variant plugin_capability := PluginService (type : Z) | PluginVolumeExpansion (type : Z).

Definition GetPluginCapabilities : list plugin_capability := [
  PluginService PluginCapability_Service_CONTROLLER_SERVICE;
  PluginVolumeExpansion PluginCapability_VolumeExpansion_UNKNOWN].

(** ** Run *)

Definition controllerCaps : list Z := [
  ControllerServiceCapability_RPC_CREATE_DELETE_VOLUME;
  ControllerServiceCapability_RPC_CREATE_DELETE_SNAPSHOT].
Definition volumeModes : list Z := [AccessMode_SINGLE_NODE_WRITER].

(** The services of the driver. *)
Abbreviation services := (grpcServer CSIDriver controllerServer nodeServer).

(** What [Run] leaves: the server, the goroutine it started, and whether its wait ends. *)
Record started := mkStarted {
  st_server : nonBlockingGRPCServer CSIDriver controllerServer nodeServer;
  st_goroutine : proc services;
  st_returns : bool
}.

(** [klog.Fatalf] ends the process.  The locks of the two services are two maps.  The
    services are passed as interfaces: a service that was not made is a nil pointer in
    one. *)
Definition Run (kvmPciBridgeCount : Z) (conf : Config) : proc started :=
  match NewCSIDriver (DriverName conf) (DriverVersion conf) (NodeID conf) with
  | None => Panic "Failed to initialize CSI Driver."
  | Some cd =>
      let cd := if IsControllerServer conf
                then AddVolumeCapabilityAccessModes volumeModes
                       (AddControllerServiceCapabilities controllerCaps cd)
                else cd in
      ns ← (if IsNodeServer conf then
              r ← newNodeServer kvmPciBridgeCount (mkVolumeLocks 0) cd;
              match r with
              | inl err => Panic ("failed to create node server: " +:+ error_string err)
              | inr ns => mret (Some ns)
              end
            else mret None);
      cs ← (if IsControllerServer conf then
              r ← controllerServer.newControllerServer cd (mkVolumeLocks 1);
              match r with
              | inl err => Panic ("failed to create controller server: " +:+ error_string err)
              | inr cs => mret (Some cs)
              end
            else mret None);
      let '(s, goroutine) := Start (Endpoint conf) (as_iface (Some cd)) (as_iface cs) (as_iface ns)
                                   NewNonBlockingGRPCServer in
      mret (mkStarted s goroutine (Wait s))
  end.
