(* ===== verification/Service.v ===== *)
(** The driver as its gRPC server runs it: the RPCs of the three CSI services, and which
    method answers each.

    The services of pkg/spdk embed the default ones of pkg/csi-common, so that an RPC is
    answered by the service's own method or by the promoted one.  A service that was
    registered with a nil pointer answers with the few methods that do not use it; all
    others dereference nil, the promoted ones to reach the embedded service. *)

From S2P Require Import Prelude.
From S2P Require Import GoLang.
From S2P Require Import GoJson.
From S2P Require Import World.
From S2P Require Import Util.
From S2P Require Import CsiCommon.
From S2P Require Import Server.
From S2P Require Import Controller.
From S2P Require Import NodeServer.
From S2P Require Import Driver.

(** ** RPCs *)

Inductive csi_request :=
  (* identity *)
  | RpcGetPluginInfo | RpcGetPluginCapabilities | RpcProbe
  (* controller *)
  | RpcCreateVolume (req : CreateVolumeRequest)
  | RpcDeleteVolume (volumeID : string) (secrets : gomap)
  | RpcValidateVolumeCapabilities (caps : list VolumeCapability)
  | RpcCreateSnapshot (sourceVolumeID name : string) (secrets : gomap)
  | RpcDeleteSnapshot (snapshotID : string) (secrets : gomap)
  | RpcControllerGetCapabilities
  | RpcControllerPublishVolume | RpcControllerUnpublishVolume | RpcListVolumes | RpcGetCapacity
  | RpcControllerGetVolume | RpcListSnapshots | RpcControllerExpandVolume
  (* node *)
  | RpcNodeStageVolume (req : NodeStageVolumeRequest)
  | RpcNodeUnstageVolume (req : NodeUnstageVolumeRequest)
  | RpcNodePublishVolume (req : NodePublishVolumeRequest)
  | RpcNodeUnpublishVolume (volumeID targetPath : string)
  | RpcNodeGetCapabilities | RpcNodeGetInfo
  | RpcNodeGetVolumeStats | RpcNodeExpandVolume.

Inductive csi_response :=
  | RespError (e : goerror)
  | RespEmpty
  | RespPluginInfo (name version : string)
  | RespPluginCapabilities (caps : list plugin_capability)
  | RespVolume (v : Volume)
  | RespConfirmed (caps : option (list VolumeCapability))
  | RespSnapshot (s : Snapshot)
  | RespCapabilities (caps : list Z)
  | RespNodeId (id : string).

Definition empty_response (err : option goerror) : csi_response :=
  match err with Some e => RespError e | None => RespEmpty end.

Section dispatch.
(** What the library answers for a service that was not registered. *)
Context (unknown_service : string → csi_response).

(** ** The services *)

Definition identity_rpc (d : CSIDriver) (r : csi_request) : proc csi_response :=
  match r with
  | RpcGetPluginInfo =>
      mret match DefaultIdentityServer.GetPluginInfo d with
           | inl e => RespError e
           | inr (name, version) => RespPluginInfo name version
           end
  | RpcGetPluginCapabilities => mret (RespPluginCapabilities GetPluginCapabilities)
  | _ => mret RespEmpty
  end.

Definition controller_rpc (cs : controllerServer) (r : csi_request) : proc csi_response :=
  match r with
  | RpcCreateVolume req =>
      r ← controllerServer.CreateVolume cs req;
      mret match r with inl e => RespError e | inr v => RespVolume v end
  | RpcDeleteVolume id secrets =>
      err ← controllerServer.DeleteVolume cs id secrets; mret (empty_response err)
  | RpcValidateVolumeCapabilities caps =>
      mret (RespConfirmed (controllerServer.ValidateVolumeCapabilities cs caps))
  | RpcCreateSnapshot id name secrets =>
      r ← controllerServer.CreateSnapshot cs id name secrets;
      mret match r with inl e => RespError e | inr s => RespSnapshot s end
  | RpcDeleteSnapshot id secrets =>
      err ← controllerServer.DeleteSnapshot cs id secrets; mret (empty_response err)
  | RpcControllerGetCapabilities =>
      mret (RespCapabilities (DefaultControllerServer.ControllerGetCapabilities (cs_Driver cs)))
  | RpcControllerPublishVolume => mret (RespError DefaultControllerServer.ControllerPublishVolume)
  | RpcControllerUnpublishVolume => mret (RespError DefaultControllerServer.ControllerUnpublishVolume)
  | RpcListVolumes => mret (RespError DefaultControllerServer.ListVolumes)
  | RpcGetCapacity => mret (RespError DefaultControllerServer.GetCapacity)
  | RpcControllerGetVolume => mret (RespError DefaultControllerServer.ControllerGetVolume)
  | RpcListSnapshots => mret (RespError DefaultControllerServer.ListSnapshots)
  | RpcControllerExpandVolume => mret (RespError DefaultControllerServer.ControllerExpandVolume)
  | _ => mret RespEmpty
  end.

Definition node_rpc (ns : nodeServer) (r : csi_request) : proc csi_response :=
  match r with
  | RpcNodeStageVolume req => err ← nodeServer.NodeStageVolume ns req; mret (empty_response err)
  | RpcNodeUnstageVolume req => err ← nodeServer.NodeUnstageVolume ns req; mret (empty_response err)
  | RpcNodePublishVolume req => err ← nodeServer.NodePublishVolume ns req; mret (empty_response err)
  | RpcNodeUnpublishVolume id path =>
      err ← nodeServer.NodeUnpublishVolume ns id path; mret (empty_response err)
  | RpcNodeGetCapabilities => mret (RespCapabilities NodeGetCapabilities)
  | RpcNodeGetInfo => mret (RespNodeId (DefaultNodeServer.NodeGetInfo (ns_Driver ns)))
  | RpcNodeGetVolumeStats => mret (RespError DefaultNodeServer.NodeGetVolumeStats)
  | RpcNodeExpandVolume => mret (RespError DefaultNodeServer.NodeExpandVolume)
  | _ => mret RespEmpty
  end.

(** ** Nil receivers *)

(** The methods of a nil [*controllerServer] and of a nil [*nodeServer]. *)
Definition nil_controller_rpc (r : csi_request) : proc csi_response :=
  match r with
  | RpcValidateVolumeCapabilities [] => mret (RespConfirmed (Some []))
  | _ => Panic nil_dereference
  end.
Definition nil_node_rpc (r : csi_request) : proc csi_response :=
  match r with
  | RpcNodeGetCapabilities => mret (RespCapabilities NodeGetCapabilities)
  | _ => Panic nil_dereference
  end.

(** ** Dispatch *)

Variant service := IdentityService | ControllerService | NodeService.

Definition service_of (r : csi_request) : service :=
  match r with
  | RpcGetPluginInfo | RpcGetPluginCapabilities | RpcProbe => IdentityService
  | RpcNodeStageVolume _ | RpcNodeUnstageVolume _ | RpcNodePublishVolume _
  | RpcNodeUnpublishVolume _ _ | RpcNodeGetCapabilities | RpcNodeGetInfo
  | RpcNodeGetVolumeStats | RpcNodeExpandVolume => NodeService
  | _ => ControllerService
  end.

Definition receive {A} (name : string) (receiver : option (option A))
    (method : A → proc csi_response) (nil_method : proc csi_response) : proc csi_response :=
  match receiver with
  | None => mret (unknown_service name)
  | Some None => nil_method
  | Some (Some s) => method s
  end.

Definition handle (s : services) (r : csi_request) : proc csi_response :=
  match service_of r with
  | IdentityService =>
      receive "csi.v1.Identity" (gs_identity s) (λ d, identity_rpc d r) (Panic nil_dereference)
  | ControllerService =>
      receive "csi.v1.Controller" (gs_controller s) (λ cs, controller_rpc cs r) (nil_controller_rpc r)
  | NodeService =>
      receive "csi.v1.Node" (gs_node s) (λ ns, node_rpc ns r) (nil_node_rpc r)
  end.
End dispatch.
