(* ===== verification/ServiceSpec.v ===== *)
(** The driver as a whole: its RPCs under concurrency, and what it starts with. *)

From S2P Require Import Prelude.
From S2P Require Import GoLang.
From S2P Require Import GoJson.
From S2P Require Import World.
From S2P Require Import Util.
From S2P Require Import VolumeLocks.
From S2P Require Import LocksSpec.
From S2P Require Import CsiCommon.
From S2P Require Import Server.
From S2P Require Import Controller.
From S2P Require Import ControllerOps.
From S2P Require Import Sysfs.
From S2P Require Import Xpu.
From S2P Require Import NodeServer.
From S2P Require Import NodeOps.
From S2P Require Import Driver.
From S2P Require Import Service.

(** ** Locks *)

(** The name or id by which an RPC takes its service's lock. *)
Definition lock_id (r : csi_request) : option string :=
  match r with
  | RpcCreateVolume req => Some (cv_Name req)
  | RpcDeleteVolume id _ | RpcCreateSnapshot id _ _ | RpcDeleteSnapshot id _ => Some id
  | RpcNodeStageVolume req => Some (stage_VolumeId req)
  | RpcNodeUnstageVolume req => Some (unstage_VolumeId req)
  | RpcNodePublishVolume req => Some (publish_VolumeId req)
  | RpcNodeUnpublishVolume id _ => Some id
  | _ => None
  end.

(** The table of locks of the service that answers an RPC. *)
Definition lock_table (s : services) (r : csi_request) : option VolumeLocks :=
  match service_of r with
  | IdentityService => None
  | ControllerService => cs_volumeLocks <$> mjoin (gs_controller s)
  | NodeService => ns_volumeLocks <$> mjoin (gs_node s)
  end.

(** The lock an RPC takes. *)
Definition lock_key (s : services) (r : csi_request) : option (nat * string) :=
  vl ← lock_table s r; id ← lock_id r; Some (mutexes vl, id).

(** The RPC takes the lock of a key, or no lock and no function of an xPU. *)
Definition takes {A} (key : option (nat * string)) (p : proc A) : Prop :=
  match key with Some key => guarded phyIDLock key p | None => ops untaking p end.

Lemma controller_rpc_takes cs r :
  service_of r = ControllerService →
  takes (id ← lock_id r; Some (mutexes (cs_volumeLocks cs), id)) (controller_rpc cs r).
Proof.
  destruct (controller_guarded cs phyIDLock) as (? & ? & ? & ?).
  intros Hr. destruct r; try done; apply guarded_result; auto; by intros.
Qed.

Lemma node_rpc_takes ns r :
  service_of r = NodeService →
  takes (id ← lock_id r; Some (mutexes (ns_volumeLocks ns), id)) (node_rpc ns r).
Proof.
  intros Hr. destruct r; try done; (apply guarded_result; [by intros|]).
  - apply guarded_NodeStageVolume.
  - apply guarded_NodeUnstageVolume.
  - apply guarded_NodePublishVolume.
  - apply guarded_NodeUnpublishVolume.
Qed.

Section locks.
Context (unknown_service : string → csi_response) (s : services).

Lemma handle_takes r : takes (lock_key s r) (handle unknown_service s r).
Proof.
  unfold handle, lock_key, lock_table. destruct (service_of r) eqn:Hr.
  - destruct (gs_identity s) as [[d|]|]; try done. by destruct r.
  - destruct (gs_controller s) as [[cs|]|]; [by apply controller_rpc_takes| |done].
    destruct r; try done. by destruct caps.
  - destruct (gs_node s) as [[ns|]|]; [by apply node_rpc_takes| |done]. by destruct r.
Qed.

(** The threads that answer some RPCs, before they have begun. *)
Definition driver_pool (requests : list csi_request) : pool :=
  (initial_locks phyIDLock, (λ r, thread (handle unknown_service s r)) <$> requests).

(** The keys of the threads' locks. *)
Definition pool_keys (requests : list csi_request) : list (option (nat * string)) :=
  lock_key s <$> requests.

Lemma driver_pool_inv requests :
  pool_inv phyIDLock (pool_keys requests) [] (driver_pool requests).
Proof.
  apply pool_inv_initial. induction requests as [|r requests IH]; simpl; constructor; [|done].
  pose proof (handle_takes r) as H. simpl. destruct (lock_key s r) as [key|].
  - by apply guarded_thread.
  - by apply (ops_bind _ (λ _, Ret tt)).
Qed.

(** C8: the driver answers any RPCs at the same time, interleaved in any way at every
    operation.  The work of two RPCs that name the same volume to the same service - all
    that either does from the first of its operations to the last, locking aside - never
    overlaps; and no two RPCs are both between the search for a free function of the xPU
    and the call that takes one.  What they do is told by their operations so far and to
    come, not by the locks they hold. *)
Theorem driver_mutual_exclusion requests tr l ps i j p q :
  pool_run (driver_pool requests) tr (l, ps) → ps !! i = Some p → ps !! j = Some q →
  (∀ r1 r2 key, requests !! i = Some r1 → requests !! j = Some r2 →
     lock_key s r1 = Some key → lock_key s r2 = Some key →
     working (history tr i) p → working (history tr j) q → i = j) ∧
  (choosing (history tr i) p → choosing (history tr j) q → i = j).
Proof.
  intros Hrun Hp Hq.
  assert (pool_inv phyIDLock (pool_keys requests) tr (l, ps)) as Hinv
    by (eapply pool_inv_run; [done|apply driver_pool_inv]).
  split; [|by eapply pool_inv_choosing].
  intros r1 r2 key Hi Hj H1 H2. eapply (pool_inv_working _ _ _ _ _ _ _ key); [done|..|done|done];
    unfold pool_keys; by rewrite list_lookup_fmap, ?Hi, ?Hj; simpl; rewrite ?H1, ?H2.
Qed.

(** C9: the driver's handlers never block each other for good: whatever was served so far,
    a handler that has not finished means that some handler can go on, and no schedule
    goes on for ever. *)
Theorem driver_finishes requests :
  (∀ l ps i p, rtc pool_step (driver_pool requests) (l, ps) →
     ps !! i = Some p → ¬ finished p → ∃ s', pool_step (l, ps) s') ∧
  Acc (flip pool_step) (driver_pool requests).
Proof.
  split; [|apply pool_step_wf]. intros l ps i p Hsteps.
  destruct (pool_inv_steps phyIDLock (pool_keys requests) _ _ Hsteps [] (driver_pool_inv requests))
    as [tr Hinv].
  by eapply pool_inv_progress.
Qed.
End locks.

(** ** Start *)

Section start.
Context {W : Type} (step : W → ∀ o : op, reply o → W → Prop).

(** What listens has the services registered. *)
Lemma wp_serve {Ids C N} ep (ids : iface Ids) (cs : iface C) (ns : iface N) w :
  wp step (serve ep ids cs ns) (λ out _, ∀ s, out = Done s → s = register ids cs ns) w.
Proof.
  unfold serve. apply wp_proc_bind.
  apply (wp_mono _ _ (λ out _, ∀ a, out = Done a → a.2 = register ids cs ns)).
  - unfold listen. destruct (parseEndpoint ep) as [e|[proto addr]]; [done|].
    apply wp_proc_bind. eapply wp_mono; [apply wp_true|]. intros [a|why] w1 _; [|done].
    intros [msg|] w2 _ _; [done|]. by intros b [= <-].
  - intros [[[proto addr] s]|why] w1 Hs; [|done]. specialize (Hs _ eq_refl). simpl in Hs. subst s.
    intros [msg|] w2 _ _; [done|]. by intros s [= <-].
Qed.

(** C34: whatever roles the driver is started in, a controller and a node service are
    registered; the one whose role was not asked for is a nil pointer, and an RPC for it
    that locks a volume makes the driver panic.  [Run] itself does not return. *)
Theorem Run_registers_nil kvm conf w :
  wp step (Run kvm conf)
    (λ out w1, ∀ st, out = Done st →
       st_returns st = false ∧
       wp step (st_goroutine st)
         (λ out' _, ∀ s, out' = Done s →
            is_Some (gs_identity s) ∧ is_Some (gs_controller s) ∧ is_Some (gs_node s) ∧
            ∀ unknown r, is_Some (lock_id r) →
              match service_of r with
              | IdentityService => False
              | ControllerService => IsControllerServer conf = false
              | NodeService => IsNodeServer conf = false
              end → handle unknown s r = Panic nil_dereference) w1) w.
Proof.
  unfold Run. destruct (NewCSIDriver _ _ _) as [cd|]; [|done]. cbv zeta.
  apply wp_proc_bind.
  apply (wp_mono _ _ (λ out _, ∀ ns, out = Done ns → IsNodeServer conf = false → ns = None)).
  { destruct (IsNodeServer conf); [|by intros ns [= <-]].
    eapply wp_mono; [apply wp_true|]. by intros. }
  intros [ns|why] w1 Hns; [|done]. cbn beta iota delta [bind_post]. apply wp_proc_bind.
  apply (wp_mono _ _ (λ out _, ∀ cs, out = Done cs → IsControllerServer conf = false → cs = None)).
  { destruct (IsControllerServer conf); [|by intros cs [= <-]].
    eapply wp_mono; [apply wp_true|]. by intros. }
  intros [cs|why] w2 Hcs; [|done]. cbn beta iota delta [bind_post].
  intros st [= <-]. split; [done|]. cbn [st_goroutine].
  eapply wp_mono; [apply wp_serve|]. intros out w3 Hs s ->. rewrite (Hs s eq_refl).
  split_and!; [by eexists..|]. intros unknown r [id Hid] Hnil.
  unfold handle. destruct (service_of r) eqn:Hr; [done|simpl; rewrite (Hcs cs eq_refl Hnil)|simpl; rewrite (Hns ns eq_refl Hnil)];
    by destruct r.
Qed.
End start.
