(* ===== verification/NodeWorld.v ===== *)
(** The client node as the node service relies on it: its mount points, the files the
    driver keeps and the commands it runs.  Here are the laws, and what the service's
    helpers do under them. *)

From S2P Require Import Prelude.
From S2P Require Import GoLang.
From S2P Require Import GoJson.
From S2P Require Import World.
From S2P Require Import Util.
From S2P Require Import UtilSpec.
From S2P Require Import VolumeLocks.
From S2P Require Import CsiCommon.
From S2P Require Import Initiator.
From S2P Require Import NodeServer.

(** ** Laws *)

(** What is mounted on a path. *)
Record mount_point := mkMount {
  mp_source : string;
  mp_fstype : string;
  mp_options : list string
}.

Definition mounting (o : op) : bool :=
  match o with
  | MountUnmount _ | MountMount _ _ _ _ | FormatAndMount _ _ _ _ => true
  | _ => false
  end.

(** Mounts are not stacked (the driver never mounts on a mount point), and nobody else
    changes them meanwhile. *)
Class MountLaws {W} (step : W → ∀ o : op, reply o → W → Prop) := {
  mounts : W → string → option mount_point;
  not_mount_law w p b err w' : step w (IsNotMountPoint p) (b, err) w' →
    match err with
    | None => b = bool_decide (mounts w p = None)
    | Some (true, _) => mounts w p = None
    | Some (false, _) => True
    end;
  unmount_law w p r w' : step w (MountUnmount p) r w' →
    (∀ q, q ≠ p → mounts w' q = mounts w q) ∧ (r = None → mounts w' p = None);
  mount_law w s p fs opts r w' : step w (MountMount s p fs opts) r w' →
    (∀ q, q ≠ p → mounts w' q = mounts w q) ∧
    (r = None → mounts w' p = Some (mkMount s fs opts));
  format_law w s p fs opts r w' : step w (FormatAndMount s p fs opts) r w' →
    (∀ q, q ≠ p → mounts w' q = mounts w q) ∧
    (r = None → mounts w' p = Some (mkMount s fs opts));
  mounts_law w o r w' : step w o r w' → mounting o = false → ∀ q, mounts w' q = mounts w q
}.

Definition command_of (o : op) : list (list string) :=
  match o with ExecCommand argv _ => [argv] | _ => [] end.

(** The commands that were run, oldest first. *)
Class CommandLaws {W} (step : W → ∀ o : op, reply o → W → Prop) := {
  commands : W → list (list string);
  commands_law w o r w' : step w o r w' → commands w' = commands w ++ command_of o
}.

(** ** Operations that leave something alone *)

Section laws.
Context {W : Type} (step : W → ∀ o : op, reply o → W → Prop).
Context `{!FileLaws step, !MountLaws step, !CommandLaws step}.
Implicit Types (w : W) (p q : string).

(** The mount points are the same. *)
Definition same_mounts w w' : Prop := ∀ q, mounts w' q = mounts w q.

(** Mount points, files and commands are the same. *)
Definition still w w' : Prop :=
  same_mounts w w' ∧ (∀ q, file w' q = file w q) ∧ commands w' = commands w.

(** Nothing changed but at, and below, the path. *)
Definition around p w w' : Prop :=
  (∀ q, q ≠ p → mounts w' q = mounts w q) ∧
  (∀ q, outside p q = true → file w' q = file w q) ∧ commands w' = commands w.

#[export] Instance same_mounts_refl : Reflexive same_mounts.
Proof. intros w q. reflexivity. Qed.
#[export] Instance same_mounts_trans : Transitive same_mounts.
Proof. intros w1 w2 w3 H1 H2 q. by rewrite H2. Qed.
#[export] Instance still_refl : Reflexive still.
Proof. intros w. by split_and!. Qed.
#[export] Instance still_trans : Transitive still.
Proof.
  intros w1 w2 w3 (Hm1 & Hf1 & Hc1) (Hm2 & Hf2 & Hc2). split_and!; [by etrans| |congruence].
  intros q. by rewrite Hf2.
Qed.
#[export] Instance around_refl p : Reflexive (around p).
Proof. intros w. by split_and!. Qed.
#[export] Instance around_trans p : Transitive (around p).
Proof.
  intros w1 w2 w3 (Hm1 & Hf1 & Hc1) (Hm2 & Hf2 & Hc2).
  split_and!; [intros; rewrite Hm2; auto|intros; rewrite Hf2; auto|congruence].
Qed.

Lemma still_around p w w' : still w w' → around p w w'.
Proof. intros (Hm & Hf & Hc). by split_and!. Qed.

Lemma still_mounts w w' : still w w' → same_mounts w w'.
Proof. by intros []. Qed.

(** The operations after which all is still. *)
Definition calm (o : op) : bool :=
  keeps_files o && match o with ExecCommand _ _ => false | _ => true end.

Lemma step_still w o r w' : step w o r w' → calm o = true → still w w'.
Proof.
  intros Hstep [Hf Hc]%andb_true_iff. split_and!.
  - intros q. apply (mounts_law _ _ _ _ Hstep). by destruct o.
  - by apply (keeps_law _ _ _ _ Hstep).
  - rewrite (commands_law _ _ _ _ Hstep). destruct o; simpl; try done; by rewrite app_nil_r.
Qed.

Lemma wp_calm {A} (p : proc A) w : ops (λ o, calm o = true) p → wp step p (λ _ w', still w w') w.
Proof. intros Hp. apply (wp_ops step _ still _ _ Hp). intros. by eapply step_still. Qed.

Lemma wp_no_mounting {A} (p : proc A) w :
  ops (λ o, mounting o = false) p → wp step p (λ _ w', same_mounts w w') w.
Proof. intros Hp. apply (wp_ops step _ same_mounts _ _ Hp). intros ????? Hstep q. by apply (mounts_law _ _ _ _ Hstep). Qed.

(** ** Locks *)

(** The body runs with everything as it was, and its answer is the answer. *)
Lemma wp_node_lock {A} vl id (body : proc A) Q w :
  (∀ w1, still w w1 →
     wp step body (λ out w2, ∀ w3, still w2 w3 → Q out w3) w1) →
  wp step (with_lock vl id body) Q w.
Proof.
  intros H m w1 _ H1 m' w2 _ H2 u w3 _ H3. simpl.
  eapply wp_defer, wp_mono.
  - apply H. etrans; [|etrans]; by eapply step_still.
  - intros out w4 HQ u' w5 _ H5. apply HQ. by eapply step_still.
Qed.

(** ** Mount points *)

Lemma wp_isStaged p Q w :
  (∀ r w', still w w' →
     (r = inr (bool_decide (is_Some (mounts w p))) ∨ ∃ e, r = inl e) → Q (Done r) w') →
  wp step (nodeServer.isStaged p) Q w.
Proof.
  intros HQ [b err] w' _ Hstep. apply HQ; [by eapply step_still|].
  apply not_mount_law in Hstep. destruct err as [[[] msg]|].
  - left. by rewrite Hstep.
  - right. by eexists.
  - left. subst b. by destruct (mounts w p).
Qed.

Lemma wp_createMountPoint p Q w :
  (∀ mounted err w', still w w' →
     (err = None → mounted = bool_decide (is_Some (mounts w p))) → Q (Done (mounted, err)) w') →
  wp step (nodeServer.createMountPoint p) Q w.
Proof.
  intros HQ [b err] w1 _ Hstep. assert (still w w1) as Hw1 by by eapply step_still.
  apply not_mount_law in Hstep. destruct err as [[[] msg]|].
  - intros r w2 _ Hmk. apply HQ.
    + etrans; [done|]. by eapply step_still.
    + intros _. by rewrite Hstep.
  - by apply HQ.
  - apply HQ; [done|]. intros _. subst b. by destruct (mounts w p).
Qed.

Lemma step_around w o r w' p :
  step w o r w' → tree_of o = Some p → around p w w'.
Proof.
  intros Hstep Ho. split_and!.
  - intros q Hq. destruct o; try done; simplify_eq/=.
    + by apply (mounts_law _ _ _ _ Hstep).
    + by apply (unmount_law _ _ _ _ Hstep).
    + by apply (mount_law _ _ _ _ _ _ _ Hstep).
    + by apply (format_law _ _ _ _ _ _ _ Hstep).
  - intros q Hq. by apply (tree_law _ _ _ _ _ _ Hstep Ho).
  - rewrite (commands_law _ _ _ _ Hstep). destruct o; simpl; try done; by rewrite app_nil_r.
Qed.

Lemma wp_deleteMountPoint p Q w :
  (∀ err w', around p w w' → (err = None → mounts w' p = None) → Q (Done err) w') →
  wp step (nodeServer.deleteMountPoint p) Q w.
Proof.
  intros HQ. assert (∀ w1, around p w w1 → mounts w1 p = None →
    wp step (r ← perform (OsRemoveAll p); mret (sys_err r)) Q w1) as Hremove.
  { intros w1 Hw1 Hm r w2 _ Hstep. apply HQ.
    - etrans; [done|]. by eapply step_around.
    - intros _. by pose proof (mounts_law _ _ _ _ Hstep eq_refl p) as ->. }
  intros [b err] w1 _ Hstep. assert (still w w1) as Hw1 by by eapply step_still.
  pose proof (still_around p _ _ Hw1) as Ha1. destruct Hw1 as [Hm1 _].
  apply not_mount_law in Hstep. cbv beta iota.
  destruct err as [[[] msg]|]; [apply HQ; [done|]..|]; [by rewrite Hm1|done|].
  subst b. case_bool_decide as Hnone; simpl.
  - apply (Hremove w1); [done|]. by rewrite Hm1.
  - intros r w2 _ Hum. assert (around p w w2) by (etrans; [done|by eapply step_around]).
    apply unmount_law in Hum as [_ Hum]. destruct r as [msg|]; [by apply HQ|].
    apply (Hremove w2); auto.
Qed.
End laws.
