(* ===== verification/NodeSpec.v ===== *)
(** What the node service does: specifications of its four operations over the laws of
    the node, and the theorems that the handlers meet them. *)

From S2P Require Import Prelude.
From S2P Require Import GoLang.
From S2P Require Import GoJson.
From S2P Require Import JsonText.
From S2P Require Import JsonSpec.
From S2P Require Import World.
From S2P Require Import Util.
From S2P Require Import UtilSpec.
From S2P Require Import VolumeLocks.
From S2P Require Import CsiCommon.
From S2P Require Import Initiator.
From S2P Require Import InitiatorSpec.
From S2P Require Import Sma.
From S2P Require Import Opi.
From S2P Require Import Sysfs.
From S2P Require Import Xpu.
From S2P Require Import NodeServer.
From S2P Require Import NodeWorld.

Section spec.
Context {W : Type} (step : W → ∀ o : op, reply o → W → Prop).
Context `{!FileLaws step, !MountLaws step, !CommandLaws step}.
Implicit Types (w : W) (p q f : string).

(** From [w] to [w'] the commands [cmds] were run, and beyond that nothing changed but
    the mount point [p], what is below it, and the file [f]. *)
Record changes p f (cmds : list (list string)) w w' : Prop := {
  changes_mounts q : q ≠ p → mounts w' q = mounts w q;
  changes_files q : q ≠ f → outside p q = true → file w' q = file w q;
  changes_commands : commands w' = commands w ++ cmds
}.

(** The same, with mount points and files as they were. *)
Definition ran (cmds : list (list string)) w w' : Prop :=
  same_mounts step w w' ∧ (∀ q, file w' q = file w q) ∧ commands w' = commands w ++ cmds.

(** ** Specifications *)

Definition stage_path (req : NodeStageVolumeRequest) : string :=
  stage_StagingTargetPath req +:+ "/" +:+ stage_VolumeId req.
Definition stage_file (req : NodeStageVolumeRequest) : string :=
  filepath_Join (stage_StagingTargetPath req) volumeContextFileName.
Definition stage_mode (req : NodeStageVolumeRequest) : option Z :=
  stage_VolumeCapability req ≫= cap_AccessMode.

Definition unstage_path (req : NodeUnstageVolumeRequest) : string :=
  unstage_StagingTargetPath req +:+ "/" +:+ unstage_VolumeId req.
Definition unstage_file (req : NodeUnstageVolumeRequest) : string :=
  filepath_Join (unstage_StagingTargetPath req) volumeContextFileName.
(** Staging: what is staged is left alone; otherwise the initiator is connected, its
    device mounted with the flags of the access mode and the context stashed; or all
    that was connected is disconnected. *)
Variant stage_spec (req : NodeStageVolumeRequest) w : option goerror → W → Prop :=
  | StageAlready w' :
      is_Some (mounts w (stage_path req)) → still step w w' → stage_spec req w None w'
  | StageIdle e w' :
      still step w w' → stage_spec req w (Some (EStatus Internal e)) w'
  | StageNoDevice i e w' :
      mounts w (stage_path req) = None → NewSpdkCsiInitiator (stage_VolumeContext req) = inr i →
      ran (connect_commands i) w w' →
      stage_spec req w (Some (EStatus Internal e)) w'
  | StageDone i mode flags device w' :
      mounts w (stage_path req) = None → NewSpdkCsiInitiator (stage_VolumeContext req) = inr i →
      stage_mode req = Some mode →
      nodeServer.stage_flags mode (mount_of (stage_VolumeCapability req)).2 = Some flags →
      changes (stage_path req) (stage_file req) (connect_commands i) w w' →
      mounts w' (stage_path req) =
        Some (mkMount device (mount_of (stage_VolumeCapability req)).1 flags) →
      file w' (stage_file req) = Some (Marshal_map (stage_VolumeContext req)) →
      stage_spec req w None w'
  | StageUndone i e w' :
      mounts w (stage_path req) = None → NewSpdkCsiInitiator (stage_VolumeContext req) = inr i →
      changes (stage_path req) (stage_file req) (connect_commands i ++ disconnect_commands i) w w' →
      stage_spec req w (Some (EStatus Internal e)) w'.

(** The initiator [i] is the one of the stashed context. *)
Definition stashed_initiator f w (i : basic_initiator) : Prop :=
  ∀ m, ascii_map m → file w f = Some (Marshal_map (Some m)) → NewSpdkCsiInitiator (Some m) = inr i.

(** Unstaging: what is not staged is left alone; otherwise the path is unmounted, the
    initiator of the stashed context disconnected, and the context removed. *)
Variant unstage_spec (req : NodeUnstageVolumeRequest) w : option goerror → W → Prop :=
  | UnstageAlready w' :
      mounts w (unstage_path req) = None → still step w w' → unstage_spec req w None w'
  | UnstageIdle e w' :
      still step w w' → unstage_spec req w (Some (EStatus Internal e)) w'
  | UnstageStuck e w' :
      is_Some (mounts w (unstage_path req)) → around step (unstage_path req) w w' →
      unstage_spec req w (Some (EStatus Internal e)) w'
  | UnstageHalf i e w' :
      is_Some (mounts w (unstage_path req)) → stashed_initiator (unstage_file req) w i →
      changes (unstage_path req) (unstage_file req) (disconnect_commands i) w w' →
      mounts w' (unstage_path req) = None →
      unstage_spec req w (Some (EStatus Internal e)) w'
  | UnstageDone i w' :
      is_Some (mounts w (unstage_path req)) → stashed_initiator (unstage_file req) w i →
      changes (unstage_path req) (unstage_file req) (disconnect_commands i) w w' →
      mounts w' (unstage_path req) = None → file w' (unstage_file req) = None →
      unstage_spec req w None w'.

(** Publishing bind-mounts the staging path on the target path, unless something is
    mounted there. *)
Variant mount_spec (req : NodePublishVolumeRequest) w : option goerror → W → Prop :=
  | MountAlready w' :
      is_Some (mounts w (publish_TargetPath req)) → still step w w' → mount_spec req w None w'
  | MountDone w' :
      mounts w (publish_TargetPath req) = None →
      around step (publish_TargetPath req) w w' →
      mounts w' (publish_TargetPath req) = Some (mkMount
        (publish_StagingTargetPath req +:+ "/" +:+ publish_VolumeId req)
        (mount_of (publish_VolumeCapability req)).1
        ((mount_of (publish_VolumeCapability req)).2 ++ ["bind"])) →
      mount_spec req w None w'
  | MountFailed e w' :
      around step (publish_TargetPath req) w w' →
      mount_spec req w (Some (EStatus Internal e)) w'.

(** ** Lemmas on changes *)

Lemma ran_still w w' : still step w w' → ran [] w w'.
Proof. intros (? & ? & ?). split_and!; [done..|]. by rewrite app_nil_r. Qed.

Lemma ran_trans c1 c2 w1 w2 w3 : ran c1 w1 w2 → ran c2 w2 w3 → ran (c1 ++ c2) w1 w3.
Proof.
  intros (Hm1 & Hf1 & Hc1) (Hm2 & Hf2 & Hc2).
  split_and!; [by etrans|intros; by rewrite Hf2|by rewrite Hc2, Hc1, app_assoc].
Qed.

Lemma changes_ran p f cmds w w' : ran cmds w w' → changes p f cmds w w'.
Proof. by intros (? & ? & ?). Qed.

Lemma changes_around p f w w' : around step p w w' → changes p f [] w w'.
Proof. intros (? & ? & ?). split; [auto..|]. by rewrite app_nil_r. Qed.

Lemma changes_trans p f c1 c2 w1 w2 w3 :
  changes p f c1 w1 w2 → changes p f c2 w2 w3 → changes p f (c1 ++ c2) w1 w3.
Proof.
  intros [Hm1 Hf1 Hc1] [Hm2 Hf2 Hc2]. split.
  - intros q Hq. by rewrite Hm2, Hm1.
  - intros q Hq Hp. by rewrite Hf2, Hf1.
  - by rewrite Hc2, Hc1, app_assoc.
Qed.

Lemma changes_still_r p f cmds w1 w2 w3 :
  changes p f cmds w1 w2 → still step w2 w3 → changes p f cmds w1 w3.
Proof.
  intros H1 H2. rewrite <-(app_nil_r cmds). eapply changes_trans; [done|].
  by apply changes_ran, ran_still.
Qed.

Lemma changes_still_l p f cmds w1 w2 w3 :
  still step w1 w2 → changes p f cmds w2 w3 → changes p f cmds w1 w3.
Proof.
  intros H1 H2. change cmds with ([] ++ cmds). eapply changes_trans; [|done].
  by apply changes_ran, ran_still.
Qed.
(** The rest of a sequence, after its first part is done. *)
Local Ltac rest := cbn beta iota delta [bind_post].

(** ** Initiators *)

Lemma wp_glob pattern Q w :
  (∀ r w', still step w w' → Q (Done r) w') → wp step (glob pattern) Q w.
Proof. intros HQ r w' _ Hstep. apply HQ. by eapply step_still. Qed.

Lemma wp_wait_ready g n Q w :
  (∀ r w', still step w w' → Q (Done r) w') → wp step (wait_ready_loop g n) Q w.
Proof.
  revert w. induction n as [|n IH]; intros w HQ; cbn [wait_ready_loop]; [by apply HQ|].
  apply wp_proc_bind, wp_glob. intros [e|[|m ms]] w1 H1; simpl; [by apply HQ| |by apply HQ].
  intros u w2 _ H2. apply IH. intros r w3 H3. apply HQ.
  etrans; [done|]. etrans; [|done]. by eapply step_still.
Qed.

Lemma wp_wait_gone g n Q w :
  (∀ r w', still step w w' → Q (Done r) w') → wp step (wait_gone_loop g n) Q w.
Proof.
  revert w. induction n as [|n IH]; intros w HQ; cbn [wait_gone_loop]; [by apply HQ|].
  apply wp_proc_bind, wp_glob. intros [e|[|m ms]] w1 H1; simpl; [by apply HQ..|].
  intros u w2 _ H2. apply IH. intros r w3 H3. apply HQ.
  etrans; [done|]. etrans; [|done]. by eapply step_still.
Qed.

Lemma wp_exec cmd t Q w :
  (∀ r w', ran [cmd] w w' → Q (Done r) w') → wp step (execWithTimeout cmd t) Q w.
Proof.
  intros HQ r w' _ Hstep. apply HQ. split_and!.
  - intros q. by apply (mounts_law _ _ _ _ Hstep).
  - by apply (keeps_law _ _ _ _ Hstep).
  - apply (commands_law _ _ _ _ Hstep).
Qed.

Lemma ran_then_still cmds w1 w2 w3 : ran cmds w1 w2 → still step w2 w3 → ran cmds w1 w3.
Proof. intros H1 H2. rewrite <-(app_nil_r cmds). eapply ran_trans; [done|by apply ran_still]. Qed.

Lemma ran_still_l cmds w1 w2 w3 : still step w1 w2 → ran cmds w2 w3 → ran cmds w1 w3.
Proof. intros H1 H2. change cmds with ([] ++ cmds). eapply ran_trans; [by apply ran_still|done]. Qed.

(** Whatever the commands answer, the devices decide. *)
Lemma wp_Connect ns i Q w :
  (∀ r w', ran (connect_commands i) w w' → Q (Done (r, InitBasic i)) w') →
  wp step (nodeServer.Connect ns (InitBasic i)) Q w.
Proof.
  intros HQ. destruct i as [n|s]; cbn [nodeServer.Connect]; apply wp_proc_bind.
  - unfold initiatorNVMf.Connect. apply wp_proc_bind, wp_exec. intros r1 w1 H1. rest.
    apply wp_wait_ready. intros r w2 H2. apply HQ. by eapply ran_then_still.
  - unfold initiatorISCSI.Connect. apply wp_proc_bind, wp_exec. intros r1 w1 H1. rest.
    apply wp_proc_bind, wp_exec. intros r2 w2 H2. rest.
    apply wp_wait_ready. intros r w3 H3. apply HQ. eapply ran_then_still; [|done].
    by apply (ran_trans [_] [_] _ w1).
Qed.

Lemma wp_Disconnect i Q w :
  (∀ r w', ran (disconnect_commands i) w w' → Q (Done r) w') →
  wp step (nodeServer.Disconnect (InitBasic i)) Q w.
Proof.
  intros HQ. destruct i as [n|s]; cbn [nodeServer.Disconnect];
    unfold initiatorNVMf.Disconnect, initiatorISCSI.Disconnect;
    apply wp_proc_bind, wp_exec; intros r1 w1 H1; rest;
    apply wp_wait_gone; intros r w2 H2; apply HQ; by eapply ran_then_still.
Qed.

(** ** Mounting *)

Lemma wp_stageVolume device p req mode Q w :
  stage_mode req = Some mode →
  (∀ err w', around step p w w' →
     (err = None → mounts w p = None → ∃ flags,
        nodeServer.stage_flags mode (mount_of (stage_VolumeCapability req)).2 = Some flags ∧
        mounts w' p = Some (mkMount device (mount_of (stage_VolumeCapability req)).1 flags)) →
     Q (Done err) w') →
  wp step (nodeServer.stageVolume device p req) Q w.
Proof.
  unfold stage_mode. intros Hmode HQ. unfold nodeServer.stageVolume.
  apply wp_proc_bind, (wp_createMountPoint step). intros mounted err w1 H1 Hm. simpl.
  apply (still_around step p) in H1. destruct err as [e|]; [by apply HQ|].
  rewrite Hm by done. clear Hm. destruct (mounts w p) eqn:Hp; simpl; [by apply HQ|].
  destruct (mount_of _) as [fsType mntFlags] eqn:Hmo. rewrite Hmode. simpl.
  destruct (nodeServer.stage_flags mode mntFlags) as [flags|] eqn:Hflags; [|by apply HQ].
  intros r w2 _ Hstep. apply HQ.
  - etrans; [done|]. by eapply step_around.
  - intros Hr _. exists flags. split; [done|].
    apply (format_law _ _ _ _ _ _ _ Hstep). by destruct r.
Qed.

Lemma wp_bind_mount source req Q w :
  let p := publish_TargetPath req in
  (∀ err w', around step p w w' →
     (err = None → match mounts w p with
        | Some _ => still step w w'
        | None => mounts w' p = Some (mkMount source (mount_of (publish_VolumeCapability req)).1
                                    ((mount_of (publish_VolumeCapability req)).2 ++ ["bind"]))
        end) →
     Q (Done err) w') →
  wp step (nodeServer.publishVolume source req) Q w.
Proof.
  intros p HQ. unfold nodeServer.publishVolume.
  apply wp_proc_bind, (wp_createMountPoint step). intros mounted err w1 H1 Hm. simpl.
  pose proof (still_around step p _ _ H1) as Ha. destruct err as [e|]; [by apply HQ|].
  rewrite Hm by done. clear Hm. fold p. destruct (mounts w p) eqn:Hp; simpl; [by apply HQ|].
  destruct (mount_of _) as [fsType mntFlags] eqn:Hmo. simpl.
  intros r w2 _ Hstep. apply HQ.
  - etrans; [done|]. by eapply step_around.
  - intros Hr. apply (mount_law _ _ _ _ _ _ _ Hstep). by destruct r.
Qed.

(** ** The stashed context *)

Lemma wp_StashVolumeContext ctx path p Q w :
  let f := filepath_Join path volumeContextFileName in
  (∀ err w', changes p f [] w w' → mounts w' p = mounts w p →
     (err = None → file w' f = Some (Marshal_map ctx)) → Q (Done err) w') →
  wp step (StashVolumeContext ctx path) Q w.
Proof.
  intros f HQ. unfold StashVolumeContext, stashContext.
  assert (∀ w1, still step w w1 →
    wp step (r ← perform (OsWriteFile f (Marshal_map ctx));
             match sys_err r with
             | Some e => mret (Some (EWrap ("failed to marshall context JSON at path (" +:+ f
                                            +:+ "): ") e))
             | None => mret None
             end) Q w1) as Hwrite.
  { intros w1 (Hm1 & Hf1 & Hc1) r w2 _ Hstep.
    pose proof (mounts_law _ _ _ _ Hstep eq_refl) as Hm2.
    pose proof (commands_law _ _ _ _ Hstep) as Hc2. apply write_law in Hstep as [Hf2 Hr].
    assert (changes p f [] w w2).
    { split; [intros; by rewrite Hm2, Hm1|intros; by rewrite Hf2, Hf1|by rewrite Hc2, Hc1]. }
    destruct r as [e|u]; apply HQ; try done; by rewrite Hm2, Hm1. }
  intros r w1 _ Hstat. apply (step_still step) in Hstat; [|done].
  destruct r as [[[] msg]|u]; [|by apply Hwrite..].
  intros r2 w2 _ Hmk. apply (step_still step) in Hmk; [|done].
  assert (still step w w2) as H2 by by etrans. destruct r2 as [e|u]; [|by apply Hwrite].
  apply HQ; [|apply H2|done]. by apply changes_ran, ran_still.
Qed.

Lemma wp_LookupVolumeContext path Q w :
  let f := filepath_Join path volumeContextFileName in
  (∀ r w', still step w w' →
     (∀ m, file w f = Some (Marshal_map (Some m)) → r = inr m ∨ ∃ e, r = inl e) →
     Q (Done r) w') →
  wp step (LookupVolumeContext path) Q w.
Proof.
  intros f HQ. subst f. unfold LookupVolumeContext. apply wp_proc_bind.
  intros r w1 _ Hstep. pose proof (read_law _ _ _ _ Hstep) as Hr.
  apply (step_still step) in Hstep; [|done].
  destruct r as [[[] msg]|c]; simpl; [apply HQ; [done|eauto]..|].
  destruct (parse c) as [data|] eqn:Hparse; simpl; [|apply HQ; [done|eauto]].
  destruct data as [| | | | |kvs]; simpl; try (apply HQ; [done|by eauto]).
  intros keys w2 Hkeys Hstep2. apply (step_still step) in Hstep2; [|done]. simpl in Hkeys |- *.
  assert (still step w w2) as H2 by by etrans.
  assert (∀ m, c = Marshal_map (Some m) → object_map kvs = JStr <$> m) as Hm.
  { intros m ->. rewrite Marshal_members, parse_print_object in Hparse.
    injection Hparse as <-. apply object_map_members. }
  destruct (find_first _ keys) as [k|] eqn:Hff; apply HQ; [done| by eauto|done|].
  intros m Hf. left. f_equal. rewrite Hf in Hr. injection Hr as <-.
  rewrite (Hm m) by done. by rewrite <-map_fmap_compose, (map_fmap_ext _ id), map_fmap_id by done.
Qed.

Lemma wp_CleanUpVolumeContext path p Q w :
  let f := filepath_Join path volumeContextFileName in
  (∀ err w', changes p f [] w w' → mounts w' p = mounts w p →
     (err = None → file w' f = None) → Q (Done err) w') →
  wp step (CleanUpVolumeContext path) Q w.
Proof.
  intros f HQ r w' _ Hstep. subst f.
  pose proof (mounts_law _ _ _ _ Hstep eq_refl) as Hm.
  pose proof (commands_law _ _ _ _ Hstep) as Hc. apply remove_law in Hstep as [Hf Hr].
  assert (changes p (filepath_Join path volumeContextFileName) [] w w') by by split; auto.
  destruct r as [e|u]; by apply HQ.
Qed.
End spec.
