(* ===== verification/NodeRefine.v ===== *)
(** The handlers of the node service meet their specifications, and what follows for a
    volume that is staged, unstaged and staged again. *)

From S2P Require Import Prelude.
From S2P Require Import GoLang.
From S2P Require Import GoJson.
From S2P Require Import World.
From S2P Require Import Util.
From S2P Require Import UtilSpec.
From S2P Require Import VolumeLocks.
From S2P Require Import CsiCommon.
From S2P Require Import Initiator.
From S2P Require Import InitiatorSpec.
From S2P Require Import NodeServer.
From S2P Require Import NodeWorld.
From S2P Require Import NodeSpec.

(** The rest of a sequence, after its first part is done. *)
Local Ltac rest := cbn beta iota delta [bind_post].

Local Arguments nodeServer.Connect : simpl never.
Local Arguments nodeServer.Disconnect : simpl never.

Section refinement.
Context {W : Type} (step : W → ∀ o : op, reply o → W → Prop).
Context `{!FileLaws step, !MountLaws step, !CommandLaws step}.
Context (ns : nodeServer).
Implicit Types (w : W).

(** ** Stillness before and after *)

Lemma still_isSome w w1 p : still step w w1 → is_Some (mounts w1 p) → is_Some (mounts w p).
Proof. intros [Hm _]. by rewrite Hm. Qed.

Lemma still_None w w1 p : still step w w1 → mounts w1 p = None → mounts w p = None.
Proof. intros [Hm _]. by rewrite Hm. Qed.

Lemma changes_still p f cmds w w1 w2 w3 :
  still step w w1 → changes step p f cmds w1 w2 → still step w2 w3 → changes step p f cmds w w3.
Proof. intros. eapply changes_still_l; [done|]. by eapply changes_still_r. Qed.

Lemma around_still p w w1 w2 w3 :
  still step w w1 → around step p w1 w2 → still step w2 w3 → around step p w w3.
Proof. intros H1 H2 H3. etrans; [by apply still_around|]. etrans; [done|by apply still_around]. Qed.

Lemma ran_around_still cmds w w1 w2 w3 :
  still step w w1 → ran step cmds w1 w2 → still step w2 w3 → ran step cmds w w3.
Proof.
  intros H1 H2 H3. apply (ran_still_l step) with w1; [done|]. by eapply ran_then_still.
Qed.

Lemma still_sandwich w w1 w2 w3 :
  still step w w1 → still step w1 w2 → still step w2 w3 → still step w w3.
Proof. intros. etrans; [done|]. by etrans. Qed.

Lemma stage_spec_still req w w1 err w2 w3 :
  still step w w1 → stage_spec step req w1 err w2 → still step w2 w3 →
  stage_spec step req w err w3.
Proof.
  intros H1 H2 H3. assert (same_mounts step w2 w3) as Hm3 by apply H3.
  assert (∀ q, file w3 q = file w2 q) as Hf3 by apply H3.
  destruct H2.
  - apply StageAlready; [by eapply still_isSome|by eapply still_sandwich].
  - apply StageIdle. by eapply still_sandwich.
  - eapply StageNoDevice; [by eapply still_None|done|]. by eapply ran_around_still.
  - eapply StageDone; [by eapply still_None|done|done|done| |by rewrite Hm3|by rewrite Hf3].
    by eapply changes_still.
  - eapply StageUndone; [by eapply still_None|done|]. by eapply changes_still.
Qed.

Lemma unstage_spec_still req w w1 err w2 w3 :
  still step w w1 → unstage_spec step req w1 err w2 → still step w2 w3 →
  unstage_spec step req w err w3.
Proof.
  intros H1 H2 H3. assert (same_mounts step w2 w3) as Hm3 by apply H3.
  assert (∀ q, file w3 q = file w2 q) as Hf3 by apply H3.
  assert (∀ f i, stashed_initiator step f w1 i → stashed_initiator step f w i) as Hs.
  { intros f i Hi m Hm Hf. apply Hi; [done|]. destruct H1 as (_ & -> & _). done. }
  destruct H2.
  - apply UnstageAlready; [by eapply still_None|by eapply still_sandwich].
  - apply UnstageIdle. by eapply still_sandwich.
  - apply UnstageStuck; [by eapply still_isSome|by eapply around_still].
  - eapply UnstageHalf; [by eapply still_isSome|by apply Hs| |by rewrite Hm3].
    by eapply changes_still.
  - eapply UnstageDone; [by eapply still_isSome|by apply Hs| |by rewrite Hm3|by rewrite Hf3].
    by eapply changes_still.
Qed.

(** A handler meets its specification when its body does: taking the lock and giving it
    back change nothing. *)
Lemma wp_locked {A} vl id (body : proc A) (spec : W → A → W → Prop) w :
  (∀ w w1 a w2 w3, still step w w1 → spec w1 a w2 → still step w2 w3 → spec w a w3) →
  (∀ w1, wp step body (λ out w2, ∃ a, out = Done a ∧ spec w1 a w2) w1) →
  wp step (with_lock vl id body) (λ out w', ∃ a, out = Done a ∧ spec w a w') w.
Proof.
  intros Hstill Hbody. apply (wp_node_lock step). intros w1 H1.
  eapply wp_mono; [apply Hbody|]. intros out w2 (a & -> & Ha) w3 H3. eexists. split; [done|].
  by eapply Hstill.
Qed.

(** ** Staging *)

(** The part of [NodeStageVolume] after the device is there. *)
Lemma wp_stage_device req mode i device w w1 :
  stage_mode req = Some mode → mounts w (stage_path req) = None →
  NewSpdkCsiInitiator (stage_VolumeContext req) = inr i →
  ran step (connect_commands i) w w1 →
  wp step
    (err ← nodeServer.stageVolume device (stage_path req) req;
     match err with
     | Some e => nodeServer.Disconnect (InitBasic i);; mret (Some (nodeServer.internal e))
     | None =>
         err ← StashVolumeContext (stage_VolumeContext req) (stage_StagingTargetPath req);
         match err with
         | Some e => nodeServer.Disconnect (InitBasic i);; mret (Some (nodeServer.internal e))
         | None => mret None
         end
     end)
    (λ out w', ∃ err, out = Done err ∧ stage_spec step req w err w') w1.
Proof.
  intros Hmode Hnone Hi Hran. pose proof (changes_ran step (stage_path req) (stage_file req) _ _ _ Hran) as H1.
  assert (mounts w1 (stage_path req) = None) as Hnone1 by by rewrite (proj1 Hran).
  assert (∀ e w2, changes step (stage_path req) (stage_file req) (connect_commands i) w w2 →
    wp step (nodeServer.Disconnect (InitBasic i);; mret (Some (nodeServer.internal e)))
      (λ out w', ∃ err, out = Done err ∧ stage_spec step req w err w') w2) as Hundo.
  { intros e w2 H2. apply wp_proc_bind, (wp_Disconnect step). intros r w3 H3.
    eexists. split; [done|]. eapply StageUndone; [done..|].
    eapply changes_trans; [done|]. by apply changes_ran. }
  apply wp_proc_bind, (wp_stageVolume step _ _ _ mode); [done|]. intros err w2 H2 Hmounted.
  apply (changes_around step _ (stage_file req)) in H2.
  assert (changes step (stage_path req) (stage_file req) (connect_commands i) w w2) as H12.
  { rewrite <-(app_nil_r (connect_commands i)). by eapply changes_trans. }
  rest. destruct err as [e|]; [by apply Hundo|]. destruct Hmounted as (flags & Hflags & Hm2); [done..|].
  apply wp_proc_bind, (wp_StashVolumeContext step _ _ (stage_path req)). intros err w3 H3 Hm3 Hf3.
  assert (changes step (stage_path req) (stage_file req) (connect_commands i) w w3) as H13.
  { rewrite <-(app_nil_r (connect_commands i)). by eapply changes_trans. }
  rest. destruct err as [e|]; [by apply Hundo|].
  eexists. split; [done|]. eapply StageDone; [done..| |]; [by rewrite Hm3|by apply Hf3].
Qed.

Lemma stage_meets req mode w :
  ns_xpu ns = None → stage_mode req = Some mode →
  wp step (nodeServer.NodeStageVolume ns req)
    (λ out w', ∃ err, out = Done err ∧ stage_spec step req w err w') w.
Proof.
  intros Hxpu Hmode. apply (wp_locked _ _ _ (stage_spec step req)); [apply stage_spec_still|].
  clear w. intros w.
  apply wp_proc_bind, (wp_isStaged step). intros r w2 H2 Hr. rest. fold (stage_path req) in *.
  destruct Hr as [->|[e ->]]; [|eexists; split; [reflexivity|by apply StageIdle]].
  case_bool_decide as Hm; [eexists; split; [reflexivity|by apply StageAlready]|].
  apply eq_None_not_Some in Hm. unfold nodeServer.new_initiator. rewrite Hxpu. simpl.
  destruct (NewSpdkCsiInitiator (stage_VolumeContext req)) as [e|i] eqn:Hi; simpl;
    [eexists; split; [reflexivity|by apply StageIdle]|].
  apply wp_proc_bind, (wp_Connect step). intros r w3 H3. rest.
  destruct r as [e|device].
  - eexists. split; [done|]. eapply StageNoDevice; [done..|].
    by eapply (ran_still_l step).
  - apply (wp_stage_device req mode); [done..|]. by eapply (ran_still_l step).
Qed.

(** C3: [NodeStageVolume] with the node's own initiators does what staging is specified to
    do, whatever the node answers: it leaves a staged path alone; otherwise it runs the
    connect commands of the initiator of the volume context, mounts the device on the
    staging path with the flags of the access mode and stashes the context; and when
    anything fails after a device is there it has run the disconnect commands, too. *)
Theorem NodeStageVolume_refines req mode w :
  ns_xpu ns = None → stage_mode req = Some mode →
  wp step (nodeServer.NodeStageVolume ns req)
    (λ out w', ∃ err, out = Done err ∧ stage_spec step req w err w') w.
Proof. apply stage_meets. Qed.

(** ** Unstaging *)

(** The part of [NodeUnstageVolume] after the path is unmounted. *)
Lemma wp_unstage_device req w w1 :
  is_Some (mounts w (unstage_path req)) → ns_xpu ns = None →
  outside (unstage_path req) (unstage_file req) = true →
  around step (unstage_path req) w w1 → mounts w1 (unstage_path req) = None →
  wp step
    (r ← LookupVolumeContext (unstage_StagingTargetPath req);
     match r with
     | inl err => mret (Some (nodeServer.internal err))
     | inr volumeContext =>
         '(r, _) ← nodeServer.new_initiator ns (Some volumeContext) (unstage_StagingTargetPath req);
         match r with
         | inl err => mret (Some (nodeServer.internal err))
         | inr initiator =>
             err ← nodeServer.Disconnect initiator;
             match err with
             | Some e => mret (Some (nodeServer.internal e))
             | None =>
                 err ← CleanUpVolumeContext (unstage_StagingTargetPath req);
                 mret (nodeServer.internal <$> (err : option goerror))
             end
         end
     end)
    (λ out w', ∃ err, out = Done err ∧ unstage_spec step req w err w') w1.
Proof.
  intros Hm Hxpu Hout Ha1 Hnone. apply wp_proc_bind, (wp_LookupVolumeContext step).
  intros r w2 H2 Hr. rest. assert (around step (unstage_path req) w w2) as Ha2.
  { etrans; [done|]. by apply still_around. }
  assert (mounts w2 (unstage_path req) = None) as Hnone2 by by rewrite (proj1 H2).
  destruct r as [e|ctx]; [eexists; split; [reflexivity|by apply UnstageStuck]|].
  unfold nodeServer.new_initiator. rewrite Hxpu. apply wp_proc_bind, wp_mret. rest.
  destruct (NewSpdkCsiInitiator (Some ctx)) as [e|i] eqn:Hi;
    [eexists; split; [reflexivity|by apply UnstageStuck]|].
  assert (stashed_initiator step (unstage_file req) w i) as Hs.
  { intros m _ Hf. destruct (Hr m) as [[= ->]|[e He]]; [|done..].
    rewrite <-Hf. by apply Ha1. }
  apply wp_proc_bind, (wp_Disconnect step). intros r w3 H3. rest.
  assert (mounts w3 (unstage_path req) = None) as Hnone3 by by rewrite (proj1 H3).
  assert (changes step (unstage_path req) (unstage_file req) (disconnect_commands i) w w3) as H13.
  { eapply (changes_trans step _ _ []); [by apply changes_around|by apply changes_ran]. }
  destruct r as [e|]; [eexists; split; [reflexivity|by eapply UnstageHalf]|].
  apply wp_proc_bind, (wp_CleanUpVolumeContext step _ (unstage_path req)). intros err w4 H4 Hm4 Hf4.
  assert (changes step (unstage_path req) (unstage_file req) (disconnect_commands i) w w4) as H14.
  { rewrite <-(app_nil_r (disconnect_commands i)). by eapply changes_trans. }
  rewrite <-Hm4 in Hnone3. rest. destruct err as [e|]; eexists; (split; [reflexivity|]).
  - by eapply UnstageHalf.
  - eapply UnstageDone; [done..|by apply Hf4].
Qed.

Lemma unstage_meets req w :
  ns_xpu ns = None → outside (unstage_path req) (unstage_file req) = true →
  wp step (nodeServer.NodeUnstageVolume ns req)
    (λ out w', ∃ err, out = Done err ∧ unstage_spec step req w err w') w.
Proof.
  intros Hxpu Hout. apply (wp_locked _ _ _ (unstage_spec step req)); [apply unstage_spec_still|].
  clear w. intros w. apply wp_proc_bind, (wp_isStaged step). intros r w1 H1 Hr. rest.
  fold (unstage_path req) in *.
  destruct Hr as [->|[e ->]]; [|eexists; split; [reflexivity|by apply UnstageIdle]].
  case_bool_decide as Hm; [|eexists; split; [reflexivity|apply UnstageAlready;
    [by apply eq_None_not_Some|done]]].
  apply wp_proc_bind, (wp_deleteMountPoint step). intros err w2 H2 Hnone. rest.
  assert (around step (unstage_path req) w w2) as Ha.
  { etrans; [by apply still_around|done]. }
  destruct err as [e|]; [eexists; split; [reflexivity|by apply UnstageStuck]|].
  apply wp_unstage_device; auto.
Qed.

(** C4: [NodeUnstageVolume] with the node's own initiators does what unstaging is specified
    to do, whatever the node answers: it leaves a path that is not staged alone;
    otherwise it succeeds only after it has unmounted the path, run the disconnect
    commands of the initiator of the stashed context, and removed the context. *)
Theorem NodeUnstageVolume_refines req w :
  ns_xpu ns = None → outside (unstage_path req) (unstage_file req) = true →
  wp step (nodeServer.NodeUnstageVolume ns req)
    (λ out w', ∃ err, out = Done err ∧ unstage_spec step req w err w') w.
Proof. apply unstage_meets. Qed.

(** ** Publishing *)

Lemma mount_spec_still req w w1 err w2 w3 :
  still step w w1 → mount_spec step req w1 err w2 → still step w2 w3 →
  mount_spec step req w err w3.
Proof.
  intros H1 H2 H3. assert (same_mounts step w2 w3) as Hm3 by apply H3. destruct H2.
  - apply MountAlready; [by eapply still_isSome|by eapply still_sandwich].
  - apply MountDone; [by eapply still_None|by eapply around_still|by rewrite Hm3].
  - apply MountFailed. by eapply around_still.
Qed.

(** C23: [NodePublishVolume] does what publishing is specified to do: unless something is
    mounted on the target path it bind-mounts the staging path there, with the flags of
    the capability, and it changes nothing else. *)
Theorem NodePublishVolume_refines req w :
  wp step (nodeServer.NodePublishVolume ns req)
    (λ out w', ∃ err, out = Done err ∧ mount_spec step req w err w') w.
Proof.
  apply (wp_locked _ _ _ (mount_spec step req)); [apply mount_spec_still|].
  clear w. intros w. apply wp_proc_bind, (wp_bind_mount step). intros err w1 H1 Hm. rest.
  eexists. split; [done|]. destruct err as [e|]; simpl; [by apply MountFailed|].
  specialize (Hm eq_refl). destruct (mounts w (publish_TargetPath req)) eqn:Hw.
  - apply MountAlready; [by eexists|done].
  - by apply MountDone.
Qed.

(** C24: [NodeUnpublishVolume] succeeds only when nothing is mounted on the target path
    any more, and changes nothing else. *)
Theorem NodeUnpublishVolume_unmounts volumeID targetPath w :
  wp step (nodeServer.NodeUnpublishVolume ns volumeID targetPath)
    (λ out w', ∃ err, out = Done err ∧ around step targetPath w w' ∧
       (err = None → mounts w' targetPath = None)) w.
Proof.
  apply (wp_locked _ _ _ (λ w err w', around step targetPath w w' ∧
    (err = None → mounts w' targetPath = None))).
  - intros w0 w1 err w2 w3 H1 [Ha Hm] H3. split; [by eapply around_still|].
    intros He. destruct H3 as [-> _]. auto.
  - intros w1. apply wp_proc_bind, (wp_deleteMountPoint step). intros err w2 H2 Hm. rest.
    eexists. split; [done|]. split; [done|]. by destruct err; auto.
Qed.

(** ** A volume's life on the node *)

Lemma stage_spec_mounted req w err w' :
  stage_spec step req w err w' → is_Some (mounts w (stage_path req)) → still step w w'.
Proof. by intros [] [m Hm]; simplify_eq. Qed.

Lemma unstage_spec_unmounted req w err w' :
  unstage_spec step req w err w' → mounts w (unstage_path req) = None → still step w w'.
Proof. intros []; intros; simplify_eq; try done; by destruct (mounts w _) as [|] eqn:?; [done|destruct H as [? [=]]]. Qed.

(** C10: what was staged is what is disconnected: when a volume has been staged, and later,
    its mount and its stashed context unharmed, is unstaged, the commands that are run
    are those that disconnect the initiator of the request's own volume context, and
    nothing stays on the node. *)
Theorem staged_is_disconnected sreq ureq mode m w :
  ns_xpu ns = None → stage_mode sreq = Some mode →
  stage_VolumeContext sreq = Some m → ascii_map m →
  unstage_path ureq = stage_path sreq → unstage_file ureq = stage_file sreq →
  outside (stage_path sreq) (stage_file sreq) = true → mounts w (stage_path sreq) = None →
  wp step (nodeServer.NodeStageVolume ns sreq)
    (λ out w1, out = Done None → ∃ i, NewSpdkCsiInitiator (Some m) = inr i ∧
       commands w1 = commands w ++ connect_commands i ∧
       ∀ w2, file w2 (stage_file sreq) = file w1 (stage_file sreq) →
         mounts w2 (stage_path sreq) = mounts w1 (stage_path sreq) →
         wp step (nodeServer.NodeUnstageVolume ns ureq)
           (λ out' w3, out' = Done None →
              commands w3 = commands w2 ++ disconnect_commands i ∧
              mounts w3 (stage_path sreq) = None ∧ file w3 (stage_file sreq) = None) w2) w.
Proof.
  intros Hxpu Hmode Hctx Hascii Hp Hf Hout Hnone.
  eapply wp_mono; [by apply (stage_meets sreq mode)|].
  intros out w1 (err & -> & Hs) [= ->]. inversion Hs as [w' [? ?]| | |i mode' flags device w' _ Hi _ _ Hch Hm Hfile| ]; [congruence|].
  subst w'. rewrite Hctx in Hi, Hfile. exists i. split_and!; [done|by apply Hch|].
  intros w2 Hf2 Hm2. rewrite <-Hp, <-Hf in *.
  eapply wp_mono; [by apply (unstage_meets ureq)|]. intros out' w3 (err & -> & Hu) [= ->].
  rewrite Hm in Hm2. inversion Hu as [|? ?|? ?|? ?|j w' _ Hj Hch' Hn Hgone]; [congruence|]. subst w'.
  specialize (Hj m Hascii). rewrite Hf2 in Hj. rewrite Hi in Hj. specialize (Hj Hfile).
  injection Hj as <-. split_and!; [by apply Hch'|done..].
Qed.

(** C26: staging that fails with the staging path mounted (the context could not be
    stashed) has disconnected the device, and staging once more, whatever it answers,
    finds the mount point, connects nothing and changes nothing. *)
Theorem failed_stage_stays_disconnected req mode w :
  ns_xpu ns = None → stage_mode req = Some mode → mounts w (stage_path req) = None →
  wp step (nodeServer.NodeStageVolume ns req)
    (λ out w1, out ≠ Done None → is_Some (mounts w1 (stage_path req)) →
       (∃ i, commands w1 = commands w ++ connect_commands i ++ disconnect_commands i) ∧
       wp step (nodeServer.NodeStageVolume ns req)
         (λ out' w2, still step w1 w2 ∧
            (out' = Done None ∨ ∃ e, out' = Done (Some (EStatus Internal e)))) w1) w.
Proof.
  intros Hxpu Hmode Hnone. eapply wp_mono; [by apply (stage_meets req mode)|].
  intros out w1 (err & -> & Hs) Herr Hm. split.
  - destruct Hs as [w1 ? _|e w1 Hw|i e w1 _ _ Hw|i mode' flags device w1|i e w1 _ _ Hw];
      [by destruct Herr| | |by destruct Herr|exists i; apply Hw];
      destruct Hw as [Hw _]; rewrite Hw, Hnone in Hm; by destruct Hm.
  - eapply wp_mono; [by apply (stage_meets req mode)|]. intros out w2 (err' & -> & Hs').
    split; [by eapply stage_spec_mounted|]. destruct Hs'; eauto.
Qed.

(** C27: once [NodeUnstageVolume] has unmounted the path, whether it succeeded or failed
    after that (the device could not be disconnected, or the context not be read), it is
    over: unstaging once more finds nothing mounted, disconnects nothing and changes
    nothing. *)
Theorem unstage_is_not_resumed req w :
  ns_xpu ns = None → outside (unstage_path req) (unstage_file req) = true →
  wp step (nodeServer.NodeUnstageVolume ns req)
    (λ out w1, mounts w1 (unstage_path req) = None →
       wp step (nodeServer.NodeUnstageVolume ns req)
         (λ out' w2, still step w1 w2 ∧
            (out' = Done None ∨ ∃ e, out' = Done (Some (EStatus Internal e)))) w1) w.
Proof.
  intros Hxpu Hout. eapply wp_mono; [by apply (unstage_meets req)|].
  intros out w1 _ Hnone. eapply wp_mono; [by apply (unstage_meets req)|].
  intros out' w2 (err & -> & Hs). split; [by eapply unstage_spec_unmounted|].
  destruct Hs; eauto.
Qed.
End refinement.
