(* ===== verification/Target.v ===== *)
(** What the driver relies on of the SPDK target: the interface between the client
    code and the storage node's JSON-RPC service.

    The service is a parameter.  [Transport] says that a request gets one answer in
    the JSON-RPC 2.0 form, or none; [VolumeLaws], [NvmfLaws] and [IscsiLaws] state
    the documented effect of the methods the driver calls on the part of the
    target's state it cares about. *)

From S2P Require Import Prelude.
From S2P Require Import GoLang.
From S2P Require Import GoJson.
From S2P Require Import World.
From S2P Require Import RpcClient.
From S2P Require Import Nvmf.
From S2P Require Import Iscsi.

(** ** The target's state *)

(** A subsystem: its namespaces and its listeners. *)
Record nvmf_subsys := mkSubsys { sub_ns : list namespace; sub_listeners : list listener }.

(** Block devices are found by UUID, or by the alias [lvstore/name]. *)
Record target := mkTarget {
  t_bdevs : gmap string BDev;
  t_alias : gmap string string;
  t_subsystems : gmap string nvmf_subsys;
  t_nodes : gmap string target_node;
  t_portal_groups : gset Z;
  t_initiator_groups : gset Z;
  t_lvstores : list lvstore_raw
}.

Definition bdev_lookup (t : target) (name : string) : option BDev :=
  match t_bdevs t !! name with
  | Some b => Some b
  | None => uuid ← t_alias t !! name; t_bdevs t !! uuid
  end.

Definition set_subsystems (m : gmap string nvmf_subsys) (t : target) : target :=
  mkTarget (t_bdevs t) (t_alias t) m (t_nodes t) (t_portal_groups t) (t_initiator_groups t) (t_lvstores t).
Definition set_nodes (m : gmap string target_node) (t : target) : target :=
  mkTarget (t_bdevs t) (t_alias t) (t_subsystems t) m (t_portal_groups t) (t_initiator_groups t) (t_lvstores t).
Definition set_portal_groups (g : gset Z) (t : target) : target :=
  mkTarget (t_bdevs t) (t_alias t) (t_subsystems t) (t_nodes t) g (t_initiator_groups t) (t_lvstores t).
Definition set_initiator_groups (g : gset Z) (t : target) : target :=
  mkTarget (t_bdevs t) (t_alias t) (t_subsystems t) (t_nodes t) (t_portal_groups t) g (t_lvstores t).
Definition set_volumes (bdevs : gmap string BDev) (alias : gmap string string) (t : target) : target :=
  mkTarget bdevs alias (t_subsystems t) (t_nodes t) (t_portal_groups t) (t_initiator_groups t) (t_lvstores t).

(** ** JSON-RPC over HTTP *)

(** A result, an error with its code, or no usable response. *)
Variant rpc_outcome := RpcOk (r : json) | RpcErr (c : Z) (msg : string) | RpcFail.

Definition rpc_response (id : Z) (o : rpc_outcome) : json :=
  JObj ([("jsonrpc", JStr "2.0"); ("id", jint id)] ++
        match o with
        | RpcOk r => [("result", r)]
        | RpcErr c msg => [("error", JObj [("code", jint c); ("message", JStr msg)])]
        | RpcFail => []
        end).

(** The HTTP answers that carry an outcome. *)
Definition answers (id : Z) (o : rpc_outcome) (rep : http_reply) : Prop :=
  match o with
  | RpcFail =>
      match rep with
      | HttpFail _ => True
      | HttpResp status body => (400 ≤ status)%Z ∨ ∃ msg, body = inl msg
      end
  | RpcErr c _ => c ≠ 0%Z ∧ in_int64 c = true ∧ rep = HttpResp 200 (inr (rpc_response id o))
  | RpcOk _ => rep = HttpResp 200 (inr (rpc_response id o))
  end.

(** The targets of a world, by URL, and how the world's answers come from them. *)
Class Transport {W} (step : W → ∀ o : op, reply o → W → Prop) := {
  tgt : W → string → target;
  rpc : target → string → option json → rpc_outcome → target → Prop;
  transport_law : ∀ w url user pass id method args rep w',
    step w (HttpDo url user pass (rpc_request id method args)) rep w' →
    ∃ o, rpc (tgt w url) method args o (tgt w' url) ∧ answers id o rep ∧
         ∀ url', url' ≠ url → tgt w' url' = tgt w url';
  (** A method that answers an error has done nothing. *)
  rpc_error_law : ∀ t method args c msg t', rpc t method args (RpcErr c msg) t' → t' = t
}.

(** The errors [call] makes of an error response and of a result of the wrong type. *)
Definition response_error (method msg : string) : goerror :=
  ENew (method +:+ ": json response error: " +:+ msg).
Definition decode_error (method : string) : goerror :=
  EWrap (method +:+ ": ") (ENew "json: cannot unmarshal into Go value").

(** An error that is none of the package's error values. *)
Definition plain (e : goerror) : Prop := ∀ s, errors_Is e s = false.

(** The text of an error is recognised by [errorMatches]. *)
Definition says (s : sentinel) (msg : string) : Prop :=
  ∀ method, errorMatches (Some (response_error method msg)) s = true.

#[global] Arguments errorMatches : simpl never.
#[global] Arguments response_error : simpl never.
#[global] Arguments decode_error : simpl never.

(** The answers of the methods that only look. *)
Definition lists {A} (zero : A) (dec : decoder A) (P : list A → Prop) (t : target)
    (o : rpc_outcome) (t' : target) : Prop :=
  t' = t ∧ match o with
           | RpcOk r => ∃ l, dec_slice zero dec r [] = (l, true) ∧ P l
           | _ => True
           end.

(** ** Volumes *)

(** The name of the volume store a volume is in. *)
Definition volume_store (t : target) (lvolID : string) : option string :=
  b ← bdev_lookup t lvolID;
  uuid ← BDev_DriverSpecific b;
  raw_Name <$> find_first (λ r, bool_decide (raw_UUID r = uuid)) (t_lvstores t).

(** A new volume of this alias and id, and nothing else. *)
Definition made (alias lvol : string) (t t' : target) : Prop :=
  ∃ b, BDev_UUID b = lvol ∧ t_bdevs t !! lvol = None ∧ t_alias t !! lvol = None ∧
       bdev_lookup t alias = None ∧
       t' = set_volumes (<[lvol := b]> (t_bdevs t)) (<[alias := lvol]> (t_alias t)) t.

Class VolumeLaws {W step} (T : @Transport W step) := {
  get_bdevs_law : ∀ t name o t',
    rpc t "bdev_get_bdevs" (Some (JObj [("name", JStr name)])) o t' →
    match o with
    | RpcOk r => t' = t ∧ ∃ b, bdev_lookup t name = Some b ∧
                 dec_slice BDev_zero dec_BDev r [] = ([b], true)
    | RpcErr _ msg => bdev_lookup t name = None ∧ says ErrJSONNoSuchDevice msg
    | RpcFail => t' = t
    end;
  lvol_create_law : ∀ t name lvs size clear thin r t',
    rpc t "bdev_lvol_create" (Some (JObj [("lvol_name", JStr name); ("size", size);
       ("lvs_name", JStr lvs); ("clear_method", clear); ("thin_provision", thin)])) (RpcOk r) t' →
    ∃ uuid, r = JStr uuid ∧ made (lvs +:+ "/" +:+ name) uuid t t';
  lvol_delete_law : ∀ t name o t',
    rpc t "bdev_lvol_delete" (Some (JObj [("name", JStr name)])) o t' →
    match o with
    | RpcOk _ => is_Some (bdev_lookup t name) ∧ bdev_lookup t' name = None ∧
                 t_subsystems t' = t_subsystems t ∧ t_nodes t' = t_nodes t
    | RpcErr _ msg =>
        errorMatches (Some (response_error "bdev_lvol_delete" msg)) ErrJSONNoSuchDevice =
        bool_decide (bdev_lookup t name = None)
    | RpcFail => True
    end;
  get_lvstores_law : ∀ t o t',
    rpc t "bdev_lvol_get_lvstores" None o t' →
    lists lvstore_raw_zero dec_lvstore_raw (λ l, l = t_lvstores t) t o t'
}.

(** A snapshot and a clone are made in the volume store of what they are made of. *)
Class SnapshotLaws {W step} (T : @Transport W step) := {
  lvol_snapshot_law : ∀ t lvol name r t',
    rpc t "bdev_lvol_snapshot" (Some (JObj [("lvol_name", JStr lvol);
       ("snapshot_name", JStr name)])) (RpcOk r) t' →
    ∃ lvs uuid, volume_store t lvol = Some lvs ∧ r = JStr uuid ∧
                made (lvs +:+ "/" +:+ name) uuid t t';
  lvol_clone_law : ∀ t name snapshot r t',
    rpc t "bdev_lvol_clone" (Some (JObj [("clone_name", JStr name);
       ("snapshot_name", JStr snapshot)])) (RpcOk r) t' →
    ∃ lvs uuid, volume_store t snapshot = Some lvs ∧ r = JStr uuid ∧
                made (lvs +:+ "/" +:+ name) uuid t t'
}.

(** ** NVMe-oF *)

(** A method with effect [E]: it happens when it succeeds, and may have happened when
    there is no answer. *)
Definition happens (E : json → target → target → Prop) (o : rpc_outcome) (t t' : target) : Prop :=
  match o with
  | RpcOk r => E r t t'
  | RpcErr _ _ => True
  | RpcFail => t' = t ∨ ∃ r, E r t t'
  end.

(** The effects of the methods on subsystems. *)
Definition update_subsystem (nqn : string) (f : nvmf_subsys → nvmf_subsys) (t t' : target) : Prop :=
  ∃ s, t_subsystems t !! nqn = Some s ∧
       t' = set_subsystems (<[nqn := f s]> (t_subsystems t)) t.

Definition create_subsystem_effect (nqn : string) (r : json) (t t' : target) : Prop :=
  t_subsystems t !! nqn = None ∧
  t' = set_subsystems (<[nqn := mkSubsys [] []]> (t_subsystems t)) t.

Definition add_ns (ns : namespace) (s : nvmf_subsys) : nvmf_subsys :=
  mkSubsys (sub_ns s ++ [ns]) (sub_listeners s).
Definition add_ns_effect (nqn bdev : string) (r : json) (t t' : target) : Prop :=
  ∃ nsid, dec_int64 r 0%Z = (nsid, true) ∧
          update_subsystem nqn (add_ns (mkNamespace nsid bdev)) t t'.

Definition add_listener (l : listener) (s : nvmf_subsys) : nvmf_subsys :=
  mkSubsys (sub_ns s) (sub_listeners s ++ [l]).
Definition add_listener_effect (nqn : string) (l : listener) (r : json) (t t' : target) : Prop :=
  update_subsystem nqn (add_listener l) t t'.

Definition remove_ns (nsid : Z) (s : nvmf_subsys) : nvmf_subsys :=
  mkSubsys (filter (λ n, NSID n ≠ nsid) (sub_ns s)) (sub_listeners s).
Definition remove_ns_effect (nqn : string) (nsid : Z) (r : json) (t t' : target) : Prop :=
  update_subsystem nqn (remove_ns nsid) t t'.

Definition delete_subsystem_effect (nqn : string) (r : json) (t t' : target) : Prop :=
  t' = set_subsystems (delete nqn (t_subsystems t)) t.

Definition nqn_args (nqn : string) (more : list (string * json)) : option json :=
  Some (JObj (("nqn", JStr nqn) :: more)).
Definition listener_json (l : listener) : json :=
  JObj [("trtype", JStr (TrType l)); ("adrfam", JStr (AdrFam l));
        ("traddr", JStr (TrAddr l)); ("trsvcid", JStr (TrSvcID l))].

Class NvmfLaws {W step} (T : @Transport W step) := {
  get_listeners_law : ∀ t nqn o t',
    rpc t "nvmf_subsystem_get_listeners" (nqn_args nqn []) o t' →
    match o with
    | RpcOk r => t' = t ∧ ∃ s, t_subsystems t !! nqn = Some s ∧
                 dec_slice listener_zero dec_listener r [] = (sub_listeners s, true)
    | RpcErr _ msg => t_subsystems t !! nqn = None ∧ says ErrInvalidParameters msg
    | RpcFail => t' = t
    end;
  create_transport_law : ∀ t trtype o t',
    rpc t "nvmf_create_transport" (Some (JObj [("trtype", JStr trtype)])) o t' → t' = t;
  create_subsystem_law : ∀ t nqn any sn mn o t',
    rpc t "nvmf_create_subsystem" (nqn_args nqn [("allow_any_host", any);
       ("serial_number", sn); ("model_number", mn)]) o t' →
    happens (create_subsystem_effect nqn) o t t';
  add_ns_law : ∀ t nqn bdev o t',
    rpc t "nvmf_subsystem_add_ns"
      (nqn_args nqn [("namespace", JObj [("bdev_name", JStr bdev)])]) o t' →
    happens (add_ns_effect nqn bdev) o t t';
  add_listener_law : ∀ t nqn l o t',
    rpc t "nvmf_subsystem_add_listener"
      (nqn_args nqn [("listen_address", listener_json l)]) o t' →
    happens (add_listener_effect nqn l) o t t';
  get_subsystems_law : ∀ t o t',
    rpc t "nvmf_get_subsystems" None o t' →
    match o with
    | RpcOk r => t' = t ∧ ∃ l, dec_slice (mkSubsystem "" []) dec_subsystem r [] = (l, true) ∧
                 NoDup (ss_Nqn <$> l) ∧
                 (∀ nqn ns, mkSubsystem nqn ns ∈ l ↔
                            sub_ns <$> (t_subsystems t !! nqn) = Some ns)
    | RpcErr _ _ => True
    | RpcFail => t' = t
    end;
  remove_ns_law : ∀ t nqn nsid o t',
    rpc t "nvmf_subsystem_remove_ns" (nqn_args nqn [("nsid", jint nsid)]) o t' →
    happens (remove_ns_effect nqn nsid) o t t';
  (** Deleting a subsystem is refused only when there is none. *)
  delete_subsystem_law : ∀ t nqn o t',
    rpc t "nvmf_delete_subsystem" (nqn_args nqn []) o t' →
    happens (delete_subsystem_effect nqn) o t t' ∧
    match o with RpcErr _ _ => t_subsystems t !! nqn = None | _ => True end
}.

(** ** iSCSI *)

(** The methods that change something answer whether they did. *)
Definition answers_bool (E : target → target → Prop) (r : json) (t t' : target) : Prop :=
  ∃ b : bool, r = JBool b ∧ (if b then E t t' else t' = t).

Definition create_portal_group_effect (tag : Z) : json → target → target → Prop :=
  answers_bool (λ t t', t' = set_portal_groups ({[tag]} ∪ t_portal_groups t) t).
Definition create_initiator_group_effect (tag : Z) : json → target → target → Prop :=
  answers_bool (λ t t', t' = set_initiator_groups ({[tag]} ∪ t_initiator_groups t) t).
(** A target node maps a portal group to an initiator group, which must exist. *)
Definition create_target_node_effect (name alias : string) (pg ig : Z)
    : json → target → target → Prop :=
  answers_bool (λ t t', pg ∈ t_portal_groups t ∧ ig ∈ t_initiator_groups t ∧
    t_nodes t !! (iqnPrefixName +:+ name) = None ∧
    t' = set_nodes (<[iqnPrefixName +:+ name := mkTargetNode (iqnPrefixName +:+ name) alias]>
                      (t_nodes t)) t).
Definition delete_target_node_effect (name : string) : json → target → target → Prop :=
  answers_bool (λ t t', t' = set_nodes (delete name (t_nodes t)) t).

Class IscsiLaws {W step} (T : @Transport W step) := {
  get_target_nodes_law : ∀ t o t',
    rpc t "iscsi_get_target_nodes" None o t' →
    lists (mkTargetNode "" "") dec_target_node
      (λ l, ∀ n, n ∈ l ↔ ∃ name, t_nodes t !! name = Some n) t o t';
  get_portal_groups_law : ∀ t o t',
    rpc t "iscsi_get_portal_groups" None o t' →
    lists 0%Z dec_tag (λ l, ∀ tag, tag ∈ l ↔ tag ∈ t_portal_groups t) t o t';
  get_initiator_groups_law : ∀ t o t',
    rpc t "iscsi_get_initiator_groups" None o t' →
    lists 0%Z dec_tag (λ l, ∀ tag, tag ∈ l ↔ tag ∈ t_initiator_groups t) t o t';
  create_portal_group_law : ∀ t portals tag o t',
    rpc t "iscsi_create_portal_group" (Some (JObj [("portals", portals); ("tag", jint tag)])) o t' →
    happens (create_portal_group_effect tag) o t t';
  create_initiator_group_law : ∀ t inits tag masks o t',
    rpc t "iscsi_create_initiator_group" (Some (JObj [("initiators", inits); ("tag", jint tag);
       ("netmasks", masks)])) o t' →
    happens (create_initiator_group_effect tag) o t t';
  create_target_node_law : ∀ t luns name alias ig pg chap depth o t',
    rpc t "iscsi_create_target_node" (Some (JObj [("luns", luns); ("name", JStr name);
       ("alias_name", JStr alias);
       ("pg_ig_maps", JArr [JObj [("ig_tag", jint ig); ("pg_tag", jint pg)]]);
       ("disable_chap", chap); ("queue_depth", depth)])) o t' →
    happens (create_target_node_effect name alias pg ig) o t t';
  delete_target_node_law : ∀ t name o t',
    rpc t "iscsi_delete_target_node" (Some (JObj [("name", JStr name)])) o t' →
    happens (delete_target_node_effect name) o t t'
}.
