(* ===== verification/TargetCalls.v ===== *)
(** Calls of the JSON-RPC client against a target: what [rpcClient.call] makes of each
    outcome, and the volume lookups the node types share. *)

From S2P Require Import Prelude.
From S2P Require Import GoLang.
From S2P Require Import GoJson.
From S2P Require Import World.
From S2P Require Import RpcClient.
From S2P Require Import Nvmf.
From S2P Require Import Target.

(** ** A target with a new volume *)

Lemma made_keeps alias lvol t t' x b :
  made alias lvol t t' → bdev_lookup t x = Some b → bdev_lookup t' x = Some b.
Proof.
  intros (b' & _ & Hb & Ha & Hnone & ->) Hx. unfold bdev_lookup in *. cbn [t_bdevs t_alias set_volumes].
  rewrite (lookup_insert_ne _ lvol x) by (intros ->; by rewrite Hb, Ha in Hx).
  destruct (t_bdevs t !! x) as [bx|] eqn:Hbx; [done|].
  rewrite lookup_insert_ne by (intros ->; by rewrite Hbx, Hx in Hnone).
  destruct (t_alias t !! x) as [u|]; [|done]. simpl in *.
  by rewrite lookup_insert_ne by (intros ->; by rewrite Hb in Hx).
Qed.

Lemma made_new alias lvol t t' :
  made alias lvol t t' → ∃ b, bdev_lookup t' alias = Some b ∧ BDev_UUID b = lvol.
Proof.
  intros (b & <- & Hb & Ha & Hnone & ->). exists b. split; [|done]. unfold bdev_lookup in *.
  cbn [t_bdevs t_alias set_volumes].
  destruct (decide (alias = BDev_UUID b)) as [->|Hne]; [by rewrite lookup_insert_eq|].
  rewrite lookup_insert_ne by done. destruct (t_bdevs t !! alias); [done|].
  rewrite lookup_insert_eq. simpl. by rewrite lookup_insert_eq.
Qed.

Lemma made_store alias lvol t t' x lvs :
  made alias lvol t t' → volume_store t x = Some lvs → volume_store t' x = Some lvs.
Proof.
  intros Hmade. unfold volume_store. destruct (bdev_lookup t x) as [b|] eqn:Hb; [|done].
  rewrite (made_keeps _ _ _ _ _ _ Hmade Hb). by destruct Hmade as (? & _ & _ & _ & _ & ->).
Qed.

(** Every name found afterwards was found before, or is the new volume's. *)
Lemma made_lookup alias lvol t t' x :
  made alias lvol t t' →
  bdev_lookup t' x = bdev_lookup t x ∨ ∃ b, bdev_lookup t' x = Some b ∧ BDev_UUID b = lvol.
Proof.
  intros Hmade. pose proof (made_new _ _ _ _ Hmade) as Hnew.
  destruct Hmade as (b & <- & Hb & Ha & Hnone & ->). unfold bdev_lookup in *.
  cbn [t_bdevs t_alias set_volumes] in *.
  destruct (decide (x = BDev_UUID b)) as [->|Hne]; [right; rewrite lookup_insert_eq; eauto|].
  rewrite lookup_insert_ne by done. destruct (t_bdevs t !! x) as [bx|] eqn:Hbx; [by left|].
  destruct (decide (x = alias)) as [->|Hna]; [right; by rewrite lookup_insert_ne, Hbx in Hnew|].
  rewrite lookup_insert_ne by done. destruct (t_alias t !! x) as [u|]; simpl; [|by left].
  destruct (decide (u = BDev_UUID b)) as [->|Hu]; [right; rewrite lookup_insert_eq; eauto|].
  rewrite lookup_insert_ne by done. by left.
Qed.

(** ** Lemmas on the client *)

Lemma find_exact {A} (fs : list (string * decoder A)) k d :
  find_first (λ f, bool_decide (f.1 = k)) fs = Some (k, d) → pick_field fs k = Some d.
Proof. unfold pick_field. by intros ->. Qed.

Section client.
Context {A : Type} (method : string) (id : Z) (dec : decoder A) (init : A).

(** What [call] makes of each outcome. *)
Lemma call_reply_ok r rep :
  in_int32 id = true → answers id (RpcOk r) rep →
  call_reply method id dec init rep =
    (((dec_iface dec) r init).1,
     if ((dec_iface dec) r init).2 then None
     else Some (decode_error method)).
Proof.
  intros Hid ->. simpl. unfold dec_response, jint, dec_field. simpl.
  unfold dec_int32, dec_int. rewrite parse_Z_FormatInt, Hid. simpl.
  destruct (dec_iface dec r init) as [x ok]. simpl. destruct ok; simpl; [|done].
  by rewrite Z.eqb_refl.
Qed.

Lemma call_reply_err c msg rep :
  in_int32 id = true → answers id (RpcErr c msg) rep →
  call_reply method id dec init rep =
    (init, Some (response_error method msg)).
Proof.
  intros Hid (Hc & Hcr & ->). simpl. unfold dec_response, jint, dec_field. simpl.
  unfold dec_int32, dec_int64, dec_int. rewrite !parse_Z_FormatInt, Hid, Hcr. simpl.
  rewrite Z.eqb_refl. simpl. by rewrite (proj2 (Z.eqb_neq _ _) Hc).
Qed.

Lemma call_reply_fail rep :
  answers id RpcFail rep →
  ∃ e, plain e ∧ call_reply method id dec init rep = (init, Some e).
Proof.
  assert (∀ e (x : A), plain e → ∃ e', plain e' ∧ (x, Some e) = (x, Some e')) as Hex by eauto.
  destruct rep as [msg|status body]; simpl; [intros; by apply Hex|].
  intros [Hs|[msg ->]].
  - rewrite (proj2 (Z.leb_le _ _) Hs). by apply Hex.
  - destruct (400 <=? status)%Z; by apply Hex.
Qed.
End client.

Lemma dec_iface_null {A} (d : decoder A) a j :
  d JNull a = (a, true) → dec_iface d j a = d j a.
Proof. by destruct j. Qed.

Section calls.
Context {W : Type} {step : W → ∀ o : op, reply o → W → Prop} {T : Transport step}.

(** A call, by the outcome of the method on the client's target. *)
Lemma wp_call {A} method args (dec : decoder A) init c Q w :
  (∀ o w', rpc (tgt w (rpcURL c)) method args o (tgt w' (rpcURL c)) →
     (∀ url, url ≠ rpcURL c → tgt w' url = tgt w url) →
     let c' := rpcClient.set_rpcID (int32 (rpcID c + 1)) c in
     match o with
     | RpcOk r =>
         Q (Done (((dec_iface dec) r init).1,
                  if ((dec_iface dec) r init).2 then None
                  else Some (decode_error method), c')) w'
     | RpcErr _ msg => Q (Done (init, Some (response_error method msg), c')) w'
     | RpcFail => ∀ e, plain e → Q (Done (init, Some e, c')) w'
     end) →
  wp step (rpcClient.call method args dec init c) Q w.
Proof.
  intros H rep w' _ Hstep. simpl.
  destruct (transport_law _ _ _ _ _ _ _ _ _ Hstep) as (o & Hrpc & Hans & Hframe).
  specialize (H o w' Hrpc Hframe). simpl in H.
  assert (in_int32 (int32 (rpcID c + 1)) = true) as Hid.
  { apply in_int32_spec, int32_range. }
  destruct o as [r|code msg|].
  - by rewrite (call_reply_ok _ _ _ _ r).
  - by rewrite (call_reply_err _ _ _ _ code msg).
  - destruct (call_reply_fail method (int32 (rpcID c + 1)) dec init rep Hans) as (e & He & ->). by apply H.
Qed.
(** Some request may get no usable answer. *)
Definition unreliable : Prop := ∃ t method args t', rpc t method args RpcFail t'.

(** No target has changed. *)
Definition quiet (w w' : W) : Prop := ∀ url, tgt w' url = tgt w url.
(** Only the target behind [url] may have changed. *)
Definition only (url : string) (w w' : W) : Prop := ∀ url', url' ≠ url → tgt w' url' = tgt w url'.

Lemma only_trans url w1 w2 w3 : only url w1 w2 → only url w2 w3 → only url w1 w3.
Proof. intros H1 H2 u Hu. by rewrite (H2 u Hu), (H1 u Hu). Qed.

Lemma quiet_only url w w' : quiet w w' → only url w w'.
Proof. by intros H u _. Qed.

Lemma only_quiet url w w' : only url w w' → tgt w' url = tgt w url → quiet w w'.
Proof. intros H Hu u. destruct (decide (u = url)) as [->|]; auto. Qed.

(** A call of a method that only lists something. *)
Lemma wp_call_lists {A} (zero : A) dec (P : target → list A → Prop) method args c Q w :
  (∀ t o t', rpc t method args o t' → lists zero dec (P t) t o t') →
  (∀ l err id w', quiet w w' → match err with None => P (tgt w (rpcURL c)) l | Some e => plain e end →
     Q (Done (l, err, rpcClient.set_rpcID id c)) w') →
  wp step (rpcClient.call method args (dec_slice zero dec) [] c) Q w.
Proof.
  intros Hlaw HQ. apply wp_call. intros o w' Hrpc Ho.
  destruct (Hlaw _ _ _ Hrpc) as [Ht Hl].
  assert (quiet w w') as Hq by by eapply only_quiet.
  destruct o as [r|code msg|]; [|by apply HQ|intros c' e He; by apply HQ].
  destruct Hl as (l & Hdec & Hl). rewrite dec_iface_null, Hdec by done. by apply HQ.
Qed.

Section volumes.
Context `{!VolumeLaws T}.

(** A node's volume lookup: the bdev, "No such device", or a panic when the request
    gets no answer. *)
Lemma wp_getVolume name c Q w :
  (∀ id w', quiet w w' →
     Q (Done (match bdev_lookup (tgt w (rpcURL c)) name with
              | Some b => inr b
              | None => inl (ESentinel ErrJSONNoSuchDevice)
              end, rpcClient.set_rpcID id c)) w') →
  (unreliable → ∀ id m w', quiet w w' →
     Q (Panicked m) w' ∧
     Q (Done (inl (ESentinel ErrJSONNoSuchDevice), rpcClient.set_rpcID id c)) w') →
  wp step (rpcClient.getVolume name c) Q w.
Proof.
  intros HQ Hp. unfold rpcClient.getVolume. apply wp_st_bind, wp_call.
  intros o w' Hrpc Hf. pose proof (get_bdevs_law _ _ _ _ Hrpc) as Hlaw.
  destruct o as [r|code msg|]; simpl.
  - destruct Hlaw as (Ht & b & Hb & Hdec).
    rewrite dec_iface_null by done. rewrite Hdec. simpl.
    specialize (HQ (int32 (rpcID c + 1)) w' (only_quiet _ _ _ Hf Ht)). by rewrite Hb in HQ.
  - destruct Hlaw as (Hb & Hsays). rewrite (Hsays _).
    specialize (HQ (int32 (rpcID c + 1)) w'
      (only_quiet _ _ _ Hf (rpc_error_law _ _ _ _ _ _ Hrpc))). by rewrite Hb in HQ.
  - intros e _.
    assert (unreliable) as Hu by (do 4 eexists; exact Hrpc).
    destruct (Hp Hu (int32 (rpcID c + 1)) "index out of range [0] with length 0" w'
                (only_quiet _ _ _ Hf Hlaw)) as [Hp1 Hp2].
    by destruct (errorMatches (Some e) ErrJSONNoSuchDevice).
Qed.

Lemma wp_isVolumeCreated name c Q w :
  (∀ id w', quiet w w' →
     Q (Done (inr (bool_decide (is_Some (bdev_lookup (tgt w (rpcURL c)) name))),
              rpcClient.set_rpcID id c)) w') →
  (unreliable → ∀ id m w', quiet w w' →
     Q (Panicked m) w' ∧ Q (Done (inr false, rpcClient.set_rpcID id c)) w') →
  wp step (rpcClient.isVolumeCreated name c) Q w.
Proof.
  intros HQ Hp. unfold rpcClient.isVolumeCreated. apply wp_st_bind, wp_getVolume.
  - intros id w' Hq. specialize (HQ id w' Hq).
    destruct (bdev_lookup (tgt w (rpcURL c)) name); simpl.
    + by rewrite bool_decide_true in HQ by eauto.
    + by rewrite bool_decide_false in HQ by (by intros []).
  - intros Hu id m w' Hq. apply (Hp Hu id m w' Hq).
Qed.
End volumes.
End calls.
