(* ===== verification/RpcSpec.v ===== *)
(** What the JSON-RPC client promises about single calls, and where it does not keep it. *)

From S2P Require Import Prelude.
From S2P Require Import GoLang.
From S2P Require Import GoJson.
From S2P Require Import World.
From S2P Require Import RpcClient.
From S2P Require Import UtilSpec.
From S2P Require Import Target.
From S2P Require Import TargetCalls.

(** ** Calls *)

(** C36: [call] makes of each kind of answer what JSON-RPC says it is: a result is decoded
    into the destination, an error response, an HTTP error and a missing answer are
    errors that leave the destination alone; and a result that answers another request
    is an error. *)
Theorem call_answers {A} method id (dec : decoder A) init o rep id' :
  in_int32 id = true → in_int32 id' = true → answers id' o rep →
  let res := call_reply method id dec init rep in
  match o with
  | RpcOk r =>
      (res.2 = None ↔ id' = id ∧ (dec_iface dec r init).2 = true) ∧
      res.1 = (dec_iface dec r init).1
  | RpcErr _ _ => is_Some res.2 ∧ res.1 = init
  | RpcFail => is_Some res.2 ∧ res.1 = init
  end.
Proof.
  intros Hid Hid' Hans. destruct o as [r|code msg|]; cbn zeta.
  - rewrite Hans. simpl. unfold dec_response, jint, dec_field. simpl.
    unfold dec_int32, dec_int. rewrite parse_Z_FormatInt, Hid'. simpl.
    destruct (dec_iface dec r init) as [x ok]. simpl. split; [|by destruct ok].
    destruct ok; simpl; [destruct (Z.eqb_spec id' id) as [->|]; simpl|];
      (split; [done|by intros [? ?]]).
  - destruct Hans as (Hc & Hcr & ->). simpl. unfold dec_response, jint, dec_field. simpl.
    unfold dec_int32, dec_int64, dec_int. rewrite !parse_Z_FormatInt, Hid', Hcr. simpl.
    destruct (Z.eqb_spec id' id); simpl; [|by eauto]. by rewrite (proj2 (Z.eqb_neq _ _) Hc); eauto.
  - destruct (call_reply_fail method id dec init rep) as (e & _ & ->); [|by eauto].
    by destruct rep.
Qed.

Lemma call_answers_witness :
  let rep := HttpResp 200 (inr (rpc_response 7 (RpcOk (JStr "lvol")))) in
  let res := call_reply "bdev_lvol_create" 8 dec_string "" rep in
  (res.2 = None ↔ 7%Z = 8%Z ∧ true = true) ∧ res.1 = "lvol".
Proof. apply (call_answers "bdev_lvol_create" 8 dec_string "" (RpcOk (JStr "lvol"))); done. Defined.

(** ** Lookups *)

(** C35: when the request for a volume gets no answer, and the error's text does not
    happen to contain the words of SPDK's message, [getVolume] panics. *)
Theorem getVolume_panics {W} (step : W → ∀ o : op, reply o → W → Prop) msg lvolID c w :
  (∀ w url user pass body rep w',
     step w (HttpDo url user pass body) rep w' → rep = HttpFail msg) →
  errorMatches (Some (EWrap "bdev_get_bdevs: " (ENew msg))) ErrJSONNoSuchDevice = false →
  wp step (rpcClient.getVolume lvolID c)
    (λ out _, out = Panicked "index out of range [0] with length 0") w.
Proof.
  intros Hstep Hmsg rep w' _ ->%Hstep. simpl.
  change ("bdev_get_bdevs" +:+ ": ") with "bdev_get_bdevs: ". by rewrite Hmsg.
Qed.

Lemma getVolume_panics_witness :
  wp (λ (_ : unit) o (r : reply o) (_ : unit),
        match o return reply o → Prop with
        | HttpDo _ _ _ _ => λ rep, rep = HttpFail "connection refused"
        | _ => λ _, True
        end r) (rpcClient.getVolume "lvol-1" (mkRpcClient "http://spdk" "" "" 0))
    (λ out _, out = Panicked "index out of range [0] with length 0") tt.
Proof.
  apply (getVolume_panics _ "connection refused").
  - by intros w url user pass body rep w' H.
  - vm_compute. reflexivity.
Defined.

(** ** Sizes *)

(** C37: the sizes of a volume store are those of its clusters in whole mebibytes, rounded
    down, and there is no more free space than space. *)
Theorem LvStore_sizes r :
  (0 ≤ raw_FreeClusters r ≤ raw_TotalClusters r)%Z → (0 ≤ raw_ClusterSize r)%Z →
  (raw_TotalClusters r * raw_ClusterSize r < 2 ^ 63)%Z →
  let s := rpcClient.LvStore_of_raw r in
  LvStore_TotalSizeMiB s = ((raw_TotalClusters r * raw_ClusterSize r) `div` 2 ^ 20)%Z ∧
  LvStore_FreeSizeMiB s = ((raw_FreeClusters r * raw_ClusterSize r) `div` 2 ^ 20)%Z ∧
  (0 ≤ LvStore_FreeSizeMiB s ≤ LvStore_TotalSizeMiB s)%Z.
Proof.
  intros Hf Hc Hov.
  assert (∀ n, 0 ≤ n < 2 ^ 63 → quot64 (quot64 n 1024) 1024 = n `div` 2 ^ 20)%Z as Hq.
  { intros n Hn. rewrite (quot64_pos n) by lia.
    assert (0 ≤ n `div` 1024 < 2 ^ 63)%Z.
    { split; [by apply Z.div_pos; lia|]. apply Z.div_lt_upper_bound; lia. }
    rewrite quot64_pos, Z.div_div by lia. done. }
  assert (0 ≤ raw_FreeClusters r * raw_ClusterSize r ≤ raw_TotalClusters r * raw_ClusterSize r)%Z
    as Hle by nia.
  unfold rpcClient.LvStore_of_raw. simpl. unfold mul64. rewrite !int64_small, !Hq by lia.
  split_and!; [done..|apply Z.div_pos; lia|apply Z.div_le_mono; lia].
Qed.

Lemma LvStore_sizes_witness :
  let s := rpcClient.LvStore_of_raw (mkLvstoreRaw 3 1048577 10 "lvs" "u") in
  LvStore_TotalSizeMiB s = 10%Z ∧ LvStore_FreeSizeMiB s = 3%Z ∧ (0 ≤ 3 ≤ 10)%Z.
Proof. apply (LvStore_sizes (mkLvstoreRaw 3 1048577 10 "lvs" "u")); simpl; lia. Defined.
