(* ===== verification/NvmfSpec.v ===== *)
(** The contract of the NVMe-oF node against an SPDK target: publishing, and its
    undoing, as changes of the target's subsystems. *)

From S2P Require Import Prelude.
From S2P Require Import GoLang.
From S2P Require Import GoJson.
From S2P Require Import World.
From S2P Require Import RpcClient.
From S2P Require Import Nvmf.
From S2P Require Import Target.
From S2P Require Import TargetCalls.

(** ** Vocabulary *)

(** The node up to its request counter and its transport flag. *)
Definition same_node (n n' : nodeNVMf) : Prop :=
  rpcURL (nvmf_client n') = rpcURL (nvmf_client n) ∧
  nodeNVMf.listenAddress n' = nodeNVMf.listenAddress n.

#[export] Instance same_node_preorder : PreOrder same_node.
Proof.
  split; [done|]. intros x y z [? ?] [? ?]. split; etrans; eauto.
Qed.

(** The volume's subsystem exists and has the node's listener. *)
Definition published (n : nodeNVMf) (lvolID : string) (t : target) : Prop :=
  ∃ s, t_subsystems t !! nodeNVMf.getVolumeNqn lvolID = Some s ∧
       nodeNVMf.listenAddress n ∈ sub_listeners s.

#[export] Instance published_dec n lvolID t : Decision (published n lvolID t).
Proof.
  unfold published. destruct (t_subsystems t !! nodeNVMf.getVolumeNqn lvolID) as [s|].
  - destruct (decide (nodeNVMf.listenAddress n ∈ sub_listeners s)) as [|Hn]; [left; by exists s|].
    right. intros (s' & [= <-] & ?). done.
  - right. by intros (? & ? & _).
Defined.

(** The subsystem a successful publication makes. *)
Definition volume_subsys (n : nodeNVMf) (lvolID : string) (nsid : Z) : nvmf_subsys :=
  mkSubsys [mkNamespace nsid lvolID] [nodeNVMf.listenAddress n].

(** Abstract specification of [PublishVolume]: what it may do to the target. *)
Inductive publish_spec (n : nodeNVMf) (lvolID : string) (t : target)
    : option goerror → target → Prop :=
  | publish_deleted :
      bdev_lookup t lvolID = None →
      publish_spec n lvolID t (Some (ESentinel ErrVolumeDeleted)) t
  | publish_again :
      is_Some (bdev_lookup t lvolID) → published n lvolID t →
      publish_spec n lvolID t None t
  | publish_new nsid :
      is_Some (bdev_lookup t lvolID) →
      t_subsystems t !! nodeNVMf.getVolumeNqn lvolID = None →
      publish_spec n lvolID t None
        (set_subsystems (<[nodeNVMf.getVolumeNqn lvolID := volume_subsys n lvolID nsid]>
                           (t_subsystems t)) t)
  | publish_error e :
      is_Some (bdev_lookup t lvolID) → ¬ published n lvolID t →
      publish_spec n lvolID t (Some e) t.

(** Abstract specification of [UnpublishVolume]. *)
Inductive unpublish_spec (n : nodeNVMf) (lvolID : string) (t : target)
    : option goerror → target → Prop :=
  | unpublish_deleted :
      bdev_lookup t lvolID = None →
      unpublish_spec n lvolID t (Some (ESentinel ErrVolumeDeleted)) t
  | unpublish_again :
      is_Some (bdev_lookup t lvolID) → ¬ published n lvolID t →
      unpublish_spec n lvolID t None t
  | unpublish_done :
      is_Some (bdev_lookup t lvolID) → published n lvolID t →
      unpublish_spec n lvolID t None
        (set_subsystems (delete (nodeNVMf.getVolumeNqn lvolID) (t_subsystems t)) t).

Lemma set_subsystems_id t m : m = t_subsystems t → set_subsystems m t = t.
Proof. intros ->. by destruct t. Qed.

(** ** Facts of the specifications *)

Lemma published_same n n' lvolID t :
  same_node n n' → published n' lvolID t ↔ published n lvolID t.
Proof. intros [_ Hl]. unfold published. by rewrite Hl. Qed.

Lemma publish_spec_same n n' lvolID t err t' :
  same_node n n' → publish_spec n' lvolID t err t' → publish_spec n lvolID t err t'.
Proof.
  intros Hs H. pose proof (published_same _ _ lvolID t Hs) as Hp.
  destruct H as [| |nsid|].
  - by apply publish_deleted.
  - apply publish_again; [done|by apply Hp].
  - unfold volume_subsys. rewrite (proj2 Hs). by apply publish_new.
  - apply publish_error; [done|by rewrite <-Hp].
Qed.

Lemma unpublish_spec_same n n' lvolID t err t' :
  same_node n n' → unpublish_spec n' lvolID t err t' → unpublish_spec n lvolID t err t'.
Proof.
  intros Hs H. pose proof (published_same _ _ lvolID t Hs) as Hp. destruct H.
  - by apply unpublish_deleted.
  - apply unpublish_again; [done|by rewrite <-Hp].
  - apply unpublish_done; [done|by apply Hp].
Qed.

Lemma publish_published n lvolID t t' :
  publish_spec n lvolID t None t' →
  published n lvolID t' ∧ bdev_lookup t' lvolID = bdev_lookup t lvolID ∧
  is_Some (bdev_lookup t lvolID).
Proof.
  intros H. inversion H as [|Hb Hp|nsid Hb Hnone|]; subst; [done|].
  split_and!; [|done..]. eexists. simpl. rewrite lookup_insert_eq.
  split; [done|]. apply list_elem_of_here.
Qed.

Lemma publish_spec_again n lvolID t t' err t'' :
  publish_spec n lvolID t None t' → publish_spec n lvolID t' err t'' → err = None ∧ t'' = t'.
Proof.
  intros (Hp & Hb & [b Hs])%publish_published H. rewrite Hs in Hb.
  inversion H as [|?|nsid ? Hnone|]; subst; [congruence|done| |done].
  destruct Hp as (s & ? & _). congruence.
Qed.

Lemma publish_unpublish_spec n lvolID t t' err t'' :
  ¬ published n lvolID t → publish_spec n lvolID t None t' →
  unpublish_spec n lvolID t' err t'' → err = None ∧ t'' = t.
Proof.
  intros Hnp H1 H2. destruct (publish_published _ _ _ _ H1) as (Hp & Hb & [b Hs]).
  inversion H2; subst; [congruence|done|]. split; [done|].
  inversion H1; subst; [done|]. simpl.
  apply (set_subsystems_id t). by rewrite delete_insert_id.
Qed.

(** ** The calls of [PublishVolume] on a node *)

Section spec.
Context {W : Type} {step : W → ∀ o : op, reply o → W → Prop} {T : Transport step}.

Context `{!VolumeLaws T, !NvmfLaws T}.
Implicit Types n : nodeNVMf.

Abbreviation url n := (rpcURL (nvmf_client n)).
Abbreviation nqn := nodeNVMf.getVolumeNqn.

Lemma wp_isVolumePublished lvolID n Q w :
  (∀ r n' w', same_node n n' → quiet w w' →
     match r with
     | inr b => (b = true → published n lvolID (tgt w (url n))) ∧
                (published n lvolID (tgt w (url n)) → b = true ∨ unreliable)
     | inl _ => unreliable
     end → Q (Done (r, n')) w') →
  wp step (nodeNVMf.isVolumePublished lvolID n) Q w.
Proof.
  intros HQ. unfold nodeNVMf.isVolumePublished, nodeNVMf.client.
  apply wp_st_bind, wp_zoom, wp_call.
  intros o w' Hrpc Hf. pose proof (get_listeners_law _ _ _ _ Hrpc) as Hlaw.
  destruct o as [r|code msg|]; simpl.
  - destruct Hlaw as (Ht & s & Hs & Hdec). rewrite dec_iface_null by done. rewrite Hdec. simpl.
    apply HQ; [done|by eapply only_quiet|].
    rewrite existsb_exists. split.
    + intros (l & Hl%list_elem_of_In & Heq). exists s. split; [done|].
      repeat (apply andb_true_iff in Heq as [Heq ?%bool_decide_eq_true]).
      apply bool_decide_eq_true in Heq. destruct l; simpl in *; subst. done.
    + intros (s' & Hs' & Hin). simplify_eq. left. exists (nodeNVMf.listenAddress n).
      split; [by apply list_elem_of_In|]. simpl. by rewrite !bool_decide_true.
  - destruct Hlaw as (Hs & Hsays). rewrite (Hsays _). simpl.
    apply HQ; [done|by eapply only_quiet, rpc_error_law|].
    split; [done|]. intros (? & ? & ?). congruence.
  - intros e _. assert (unreliable) as Hu by (do 4 eexists; exact Hrpc).
    destruct (errorMatches (Some e) ErrInvalidParameters); simpl;
      (apply HQ; [done|by eapply only_quiet|auto]). split; [done|auto].
Qed.

(** A call whose only effect on a reliable target is [f], when it succeeds. *)
Lemma wp_call_ method args n Q w :
  (∀ err w', only (url n) w w' →
     (∃ o, rpc (tgt w (url n)) method args o (tgt w' (url n)) ∧
           match o with
           | RpcOk _ => err = None
           | RpcErr _ msg => err = Some (response_error method msg) ∧ tgt w' (url n) = tgt w (url n)
           | RpcFail => is_Some err
           end) →
     ∀ n', same_node n n' → nvmf_transCreated n' = nvmf_transCreated n →
     Q (Done (err, n')) w') →
  wp step (nodeNVMf.client (rpcClient.call_ method args) n) Q w.
Proof.
  intros HQ. unfold nodeNVMf.client, rpcClient.call_.
  apply wp_zoom, wp_st_bind, wp_call.
  intros o w' Hrpc Hf. destruct o as [r|code msg|]; simpl.
  - rewrite (surjective_pairing (dec_iface _ _ _)). simpl.
    replace (dec_iface dec_any r tt).2 with true by (by destruct r).
    apply HQ; try done. by exists (RpcOk r).
  - apply HQ; try done. exists (RpcErr code msg). split_and!; try done. by eapply rpc_error_law.
  - intros e _. apply HQ; try done. by exists RpcFail.
Qed.

(** The same, for a method with effect [E]. *)
Definition effect_of (E : json → target → target → Prop) (err : option goerror)
    (t t' : target) : Prop :=
  match err with
  | None => ∃ r, E r t t'
  | Some _ => t' = t ∨ unreliable ∧ ∃ r, E r t t'
  end.

Lemma wp_call_effect (E : json → target → target → Prop) method args n Q w :
  (∀ t o t', rpc t method args o t' → happens E o t t') →
  (∀ err n' w', same_node n n' → only (url n) w w' →
     effect_of E err (tgt w (url n)) (tgt w' (url n)) → Q (Done (err, n')) w') →
  wp step (nodeNVMf.client (rpcClient.call_ method args) n) Q w.
Proof.
  intros HE HQ. apply wp_call_. intros err w' Ho (o & Hrpc & Hout) n' Hn _.
  pose proof (HE _ _ _ Hrpc) as Heff. apply HQ; [done..|]. destruct o as [r|code msg|].
  - subst. by exists r.
  - destruct Hout as [-> ?]. by left.
  - destruct Hout as [e ->]. destruct Heff; [by left|right].
    split; [|done]. do 4 eexists. exact Hrpc.
Qed.

Lemma wp_createTransport n Q w :
  (∀ err n' w', same_node n n' → quiet w w' → Q (Done (err, n')) w') →
  wp step (nodeNVMf.createTransport n) Q w.
Proof.
  intros HQ. unfold nodeNVMf.createTransport. apply wp_st_bind. simpl.
  case_goal; [by apply HQ|]. apply wp_st_bind, wp_call_. intros err w' Ho (o & Hrpc & _) n' Hn _.
  assert (quiet w w') as Hq by (by eapply only_quiet, create_transport_law).
  simpl. destruct err as [e|]; [case_goal|]; by apply HQ.
Qed.

(** The target is [t] with the volume's subsystem set to something. *)
Definition filled (lvolID : string) (t t' : target) : Prop :=
  ∃ s, t' = set_subsystems (<[nqn lvolID := s]> (t_subsystems t)) t.

Lemma filled_refl lvolID t : is_Some (t_subsystems t !! nqn lvolID) → filled lvolID t t.
Proof. intros [s Hs]. exists s. by rewrite set_subsystems_id by by apply insert_id. Qed.

Lemma filled_again lvolID t t' s :
  filled lvolID t t' →
  set_subsystems (<[nqn lvolID := s]> (t_subsystems t')) t' =
  set_subsystems (<[nqn lvolID := s]> (t_subsystems t)) t.
Proof. intros [s' ->]. simpl. by rewrite insert_insert_eq. Qed.

Lemma filled_update lvolID f t t1 t2 :
  filled lvolID t t1 → update_subsystem (nqn lvolID) f t1 t2 → filled lvolID t t2.
Proof. intros [s' ->] (s & _ & ->). simpl. rewrite insert_insert_eq. by eexists. Qed.

(** An update of the subsystem that is known. *)
Lemma update_filled lvolID f t s t' :
  update_subsystem (nqn lvolID) f (set_subsystems (<[nqn lvolID := s]> (t_subsystems t)) t) t' →
  t' = set_subsystems (<[nqn lvolID := f s]> (t_subsystems t)) t.
Proof.
  intros (s' & Hs & ->). simpl in *. rewrite lookup_insert_eq in Hs. injection Hs as <-.
  by rewrite insert_insert_eq.
Qed.

Lemma wp_deleteSubsystem lvolID n Q w t :
  filled lvolID t (tgt w (url n)) →
  (∀ err n' w', same_node n n' → only (url n) w w' →
     tgt w' (url n) = set_subsystems (delete (nqn lvolID) (t_subsystems t)) t ∧ err = None
     ∨ unreliable ∧ is_Some err →
     Q (Done (err, n')) w') →
  wp step (nodeNVMf.deleteSubsystem lvolID n) Q w.
Proof.
  intros [s Hs] HQ. apply wp_call_. intros err w' Ho (o & Hrpc & Hout) n' Hn _.
  destruct (delete_subsystem_law _ _ _ _ Hrpc) as [Heff Herr].
  apply HQ; [done..|]. rewrite Hs in Heff, Herr. destruct o.
  - left. unfold happens, delete_subsystem_effect in Heff. simpl in Heff.
    by rewrite delete_insert_eq in Heff.
  - simpl in Herr. by rewrite lookup_insert_eq in Herr.
  - right. split; [|done]. do 4 eexists. exact Hrpc.
Qed.

Lemma wp_subsystemRemoveNs lvolID n Q w t :
  filled lvolID t (tgt w (url n)) →
  (∀ err n' w', same_node n n' → only (url n) w w' →
     filled lvolID t (tgt w' (url n)) → Q (Done (err, n')) w') →
  wp step (nodeNVMf.subsystemRemoveNs lvolID n) Q w.
Proof.
  intros Hs HQ. unfold nodeNVMf.subsystemRemoveNs, nodeNVMf.subsystemGetNsID, nodeNVMf.client.
  apply wp_st_bind, wp_st_bind, wp_zoom, wp_call. intros o w1 Hrpc1 Hf1.
  assert (tgt w1 (url n) = tgt w (url n)) as Ht1.
  { pose proof (get_subsystems_law _ _ _ Hrpc1) as Hlaw.
    destruct o; [apply Hlaw|by eapply rpc_error_law|done]. }
  rewrite <-Ht1 in Hs.
  destruct o as [r|code msg|]; simpl; [|by apply HQ|by intros; apply HQ].
  destruct (if (dec_iface _ r []).2 then None else Some _) as [e|]; [by apply HQ|].
  destruct (nodeNVMf.find_nsid _ _ _) as [nsid|]; [|by apply HQ].
  apply (wp_call_effect _ _ _ _ _ _ (λ t o t' H, remove_ns_law t _ _ o t' H)).
  intros err n' w' Hn Ho Heff. apply HQ; [done|by eapply only_trans|].
  simpl in Heff.
  destruct err as [e|]; [destruct Heff as [->|[_ [? Heff]]]; [done|]|destruct Heff as [? Heff]];
    by eapply filled_update.
Qed.

Lemma wp_subsystemAddNs lvolID n Q w :
  (∀ id err n' w', same_node n n' → only (url n) w w' →
     effect_of (add_ns_effect (nqn lvolID) lvolID) err (tgt w (url n)) (tgt w' (url n)) →
     Q (Done (id, err, n')) w') →
  wp step (nodeNVMf.subsystemAddNs lvolID n) Q w.
Proof.
  intros HQ. apply wp_zoom, wp_call. intros o w1 Hrpc Ho.
  pose proof (add_ns_law _ _ _ _ _ Hrpc) as Heff. destruct o as [r|code msg|].
  - assert ((dec_iface dec_int64 r 0%Z).2 = true) as Hdec'.
    { destruct Heff as (nsid & Hdec & _). destruct r; simpl in *; by rewrite ?Hdec. }
    rewrite Hdec'. apply HQ; [done..|]. by exists r.
  - apply HQ; [done..|]. left. by eapply rpc_error_law.
  - intros c1 e _. apply HQ; [done..|]. destruct Heff as [?|?]; [by left|right].
    split; [|done]. do 4 eexists. exact Hrpc.
Qed.

Lemma wp_subsystemAddListener lvolID n Q w :
  (∀ err n' w', same_node n n' → only (url n) w w' →
     effect_of (add_listener_effect (nqn lvolID) (nodeNVMf.listenAddress n)) err
       (tgt w (url n)) (tgt w' (url n)) →
     Q (Done (err, n')) w') →
  wp step (nodeNVMf.subsystemAddListener lvolID n) Q w.
Proof.
  intros HQ. unfold nodeNVMf.subsystemAddListener. apply wp_st_bind.
  exact (wp_call_effect _ _ _ _ _ _
    (λ t o t' H, add_listener_law t _ (nodeNVMf.listenAddress n) o t' H) HQ).
Qed.

(** Errors of an update leave the subsystem there. *)
Lemma filled_effect lvolID f t t1 e t2 :
  filled lvolID t t1 →
  effect_of (λ r, update_subsystem (nqn lvolID) f) (Some e) t1 t2 →
  filled lvolID t t2.
Proof. intros Hf [->|[_ [_ Heff]]]; [done|]. by eapply filled_update. Qed.

(** The namespace and the listener of the volume's empty subsystem, with the cleanups
    of the error paths. *)
Lemma wp_fill lvolID n Q w t :
  t_subsystems t !! nqn lvolID = None →
  tgt w (url n) = set_subsystems (<[nqn lvolID := mkSubsys [] []]> (t_subsystems t)) t →
  (∀ err n' w', same_node n n' → only (url n) w w' →
     match err with
     | None => ∃ nsid, tgt w' (url n) =
         set_subsystems (<[nqn lvolID := volume_subsys n lvolID nsid]> (t_subsystems t)) t
     | Some _ => tgt w' (url n) = t ∨ unreliable
     end → Q (Done (err, n')) w') →
  wp step (('(_, err) ← nodeNVMf.subsystemAddNs lvolID;
    match err with
    | Some e => nodeNVMf.deleteSubsystem lvolID;; mret (Some e)
    | None =>
        err ← nodeNVMf.subsystemAddListener lvolID;
        match err with
        | Some e => nodeNVMf.subsystemRemoveNs lvolID;;
                    nodeNVMf.deleteSubsystem lvolID;; mret (Some e)
        | None => mret None
        end
    end : st nodeNVMf (option goerror)) n) Q w.
Proof.
  intros Hnone Ht HQ.
  assert (∀ e n' w', same_node n n' → only (url n) w w' → filled lvolID t (tgt w' (url n)) →
    wp step ((nodeNVMf.deleteSubsystem lvolID;; mret (Some e)) n') Q w') as Hcleanup.
  { intros e n' w' Hn' Ho' Hf. apply wp_st_bind, (wp_deleteSubsystem _ _ _ _ t).
    - by rewrite (proj1 Hn').
    - intros err n2 w2 Hn2 Ho2 Ht2. rewrite (proj1 Hn') in *.
      apply HQ; [by etrans|by eapply only_trans|]. destruct Ht2 as [[-> _]|[? _]]; [left|by right].
      apply set_subsystems_id. by rewrite delete_id. }
  assert (filled lvolID t (tgt w (url n))) as Hf0 by by eexists.
  apply wp_st_bind, wp_subsystemAddNs. intros id err n1 w1 Hn1 Ho1 Ht1.
  cbn beta iota delta [bind_post]. destruct err as [e|].
  { apply Hcleanup; [done..|]. destruct Ht1 as [->|(_ & _ & nsid & _ & Ht1)]; [done|].
    by eapply filled_update. }
  destruct Ht1 as (? & nsid & _ & Ht1). rewrite Ht in Ht1. apply update_filled in Ht1.
  assert (filled lvolID t (tgt w1 (url n))) as Hf1 by by eexists.
  apply wp_st_bind, wp_subsystemAddListener. intros err n2 w2 Hn2 Ho2 Ht2.
  rewrite (proj1 Hn1), (proj2 Hn1) in *.
  assert (same_node n n2) as Hs2 by by etrans.
  assert (only (url n) w w2) as Ho02 by by eapply only_trans.
  cbn beta iota delta [bind_post]. destruct err as [e|].
  - apply wp_st_bind, (wp_subsystemRemoveNs _ _ _ _ t).
    + rewrite (proj1 Hs2). by eapply filled_effect.
    + intros err n3 w3 Hn3 Ho3 Hf3. rewrite (proj1 Hs2) in *.
      apply Hcleanup; [by etrans|by eapply only_trans|done].
  - destruct Ht2 as (? & Ht2). rewrite Ht1 in Ht2. apply update_filled in Ht2.
    apply HQ; [done..|]. by exists nsid.
Qed.

(** ** Publishing *)

(** What an operation with specification [P] may do, as its caller sees it: when some
    request gets no answer, a [bad] end or a panic is possible too. *)
Definition meets (P bad : target → option goerror → target → Prop) n (w : W)
    (out : outcome (option goerror * nodeNVMf)) (w' : W) : Prop :=
  match out with
  | Done (err, n') =>
      same_node n n' ∧ only (url n) w w' ∧
      (P (tgt w (url n)) err (tgt w' (url n)) ∨
       unreliable ∧ bad (tgt w (url n)) err (tgt w' (url n)))
  | Panicked _ => unreliable
  end.

(** The ends without an answer: publication reports an error; unpublication does, or
    did nothing. *)
Definition reported (t : target) (err : option goerror) (t' : target) : Prop := is_Some err.
Definition reported_or_idle (t : target) (err : option goerror) (t' : target) : Prop :=
  is_Some err ∨ t' = t.

Lemma wp_publish lvolID n w :
  wp step (nodeNVMf.PublishVolume lvolID n) (meets (publish_spec n lvolID) reported n w) w.
Proof.
  unfold nodeNVMf.PublishVolume. apply wp_st_bind, wp_zoom, wp_isVolumeCreated.
  2:{ intros Hu id m w1 Hq. simpl. split; [done|]. split_and!; [done|by apply quiet_only|].
      right. split; [done|]. by eexists. }
  intros id w1 Hq1. simpl. set (n1 := nodeNVMf.set_client _ n).
  assert (tgt w1 (url n) = tgt w (url n)) as Ht1 by apply Hq1.
  case_bool_decide as Hb.
  2:{ split_and!; [done|by apply quiet_only|]. left. rewrite Ht1.
      apply publish_deleted. by apply eq_None_not_Some. }
  apply wp_st_bind, wp_isVolumePublished. intros r n2 w2 Hn2 Hq2 Hr.
  assert (same_node n n2) as Hs2 by (by etrans).
  assert (tgt w2 (url n) = tgt w (url n)) as Ht2 by (by rewrite Hq2).
  assert (only (url n) w w2) as Ho2 by (by eapply only_trans; apply quiet_only).
  simpl in *. rewrite Ht1 in Hr. change (published n1 lvolID) with (published n lvolID) in Hr.
  destruct r as [e|[]]; simpl.
  { split_and!; [done..|]. right. split; [done|]. by eexists. }
  { split_and!; [done..|]. rewrite Ht2. left. apply publish_again; [done|]. by apply Hr. }
  assert (¬ published n lvolID (tgt w (url n)) ∨ unreliable) as Hnp.
  { destruct (decide (published n lvolID (tgt w (url n)))) as [Hp|]; [|by left].
    destruct (proj2 Hr Hp); [done|by right]. }
  apply wp_st_bind, wp_createTransport. intros err3 n3 w3 Hn3 Hq3.
  assert (same_node n n3) as Hs3 by (by etrans).
  assert (tgt w3 (url n) = tgt w (url n)) as Ht3 by (by rewrite Hq3).
  assert (only (url n) w w3) as Ho3 by (by eapply only_trans; [|by apply quiet_only]).
  assert (∀ e err4 n4 w4, same_node n n4 → only (url n) w w4 →
    err4 = Some e → tgt w4 (url n) = tgt w (url n) ∨ unreliable →
    meets (publish_spec n lvolID) reported n w (Done (err4, n4)) w4) as Herror.
  { intros e err4 n4 w4 ? ? -> Ht. split_and!; [done..|].
    destruct Ht as [Ht|?]; [|right; split; [done|by eexists]]. destruct Hnp as [Hnp|?]; [|right; split; [done|by eexists]].
    left. rewrite Ht. by apply publish_error. }
  cbn beta iota delta [bind_post]. destruct err3 as [e|]; [apply (Herror e); auto|].
  apply wp_st_bind. unfold nodeNVMf.createSubsystem.
  apply (wp_call_effect _ _ _ _ _ _ (λ t o t' H, create_subsystem_law t _ _ _ _ o t' H)).
  intros err4 n4 w4 Hn4 Ho4 Ht4.
  assert (same_node n n4) as Hs4 by (by etrans).
  rewrite (proj1 Hs3), Ht3 in *.
  assert (only (url n) w w4) as Ho4' by (by eapply only_trans).
  cbn beta iota delta [bind_post]. destruct err4 as [e|].
  { apply (Herror e); [done..|]. destruct Ht4 as [?|[? _]]; [by left|by right]. }
  destruct Ht4 as (? & Hnone & Ht4).
  eapply wp_fill; [exact Hnone|by rewrite (proj1 Hs4)|].
  intros err5 n5 w5 Hn5 Ho5 Ht5. rewrite (proj1 Hs4) in *.
  assert (same_node n n5) as Hs5 by (by etrans).
  assert (only (url n) w w5) as Ho5' by (by eapply only_trans).
  destruct err5 as [e|]; [by apply (Herror e)|]. destruct Ht5 as [nsid Ht5].
  split_and!; [done..|]. left. rewrite Ht5.
  change (volume_subsys n4 lvolID nsid) with (mkSubsys [mkNamespace nsid lvolID] [nodeNVMf.listenAddress n4]).
  rewrite (proj2 Hs4). by apply publish_new.
Qed.

Lemma wp_unpublish lvolID n w :
  wp step (nodeNVMf.UnpublishVolume lvolID n)
    (meets (unpublish_spec n lvolID) reported_or_idle n w) w.
Proof.
  unfold nodeNVMf.UnpublishVolume. apply wp_st_bind, wp_zoom, wp_isVolumeCreated.
  2:{ intros Hu id m w1 Hq. simpl. split; [done|]. split_and!; [done|by apply quiet_only|].
      right. split; [done|]. left. by eexists. }
  intros id w1 Hq1. simpl. set (n1 := nodeNVMf.set_client _ n).
  assert (tgt w1 (url n) = tgt w (url n)) as Ht1 by apply Hq1.
  case_bool_decide as Hb.
  2:{ split_and!; [done|by apply quiet_only|]. left. rewrite Ht1.
      apply unpublish_deleted. by apply eq_None_not_Some. }
  apply wp_st_bind, wp_isVolumePublished. intros r n2 w2 Hn2 Hq2 Hr.
  assert (same_node n n2) as Hs2 by (by etrans).
  assert (tgt w2 (url n) = tgt w (url n)) as Ht2 by (by rewrite Hq2).
  assert (only (url n) w w2) as Ho2 by (by eapply only_trans; apply quiet_only).
  simpl in Hr. rewrite Ht1 in Hr. change (published n1 lvolID) with (published n lvolID) in Hr.
  cbn beta iota delta [bind_post]. destruct r as [e|[]].
  { split_and!; [done..|]. right. split; [done|]. left. by eexists. }
  2:{ split_and!; [done..|]. rewrite Ht2.
      destruct (decide (published n lvolID (tgt w (url n)))) as [Hp|Hp].
      - right. split; [|by right]. by destruct (proj2 Hr Hp).
      - left. by apply unpublish_again. }
  assert (published n lvolID (tgt w (url n))) as Hp by by apply Hr.
  assert (filled lvolID (tgt w (url n)) (tgt w (url n))) as Hf.
  { apply filled_refl. destruct Hp as (s & Hs & _). by exists s. }
  apply wp_st_bind, (wp_subsystemRemoveNs _ _ _ _ (tgt w (url n))).
  { by rewrite (proj1 Hs2), Ht2. }
  intros err3 n3 w3 Hn3 Ho3 Hf3. cbn beta iota delta [bind_post].
  rewrite (proj1 Hs2) in *.
  assert (same_node n n3) as Hs3 by (by etrans).
  apply (wp_deleteSubsystem _ _ _ _ (tgt w (url n))); [by rewrite (proj1 Hs3)|].
  intros err4 n4 w4 Hn4 Ho4 Ht4. rewrite (proj1 Hs3) in *.
  split_and!; [by etrans|by do 2 (eapply only_trans; [eassumption|])|].
  destruct Ht4 as [[-> ->]|[Hu He]]; [|right; split; [done|by left]].
  left. by apply unpublish_done.
Qed.
(** ** Isolation *)

(** Nothing but the volume's own subsystem differs. *)
Definition elsewhere (lvolID : string) (t t' : target) : Prop :=
  set_subsystems (delete (nqn lvolID) (t_subsystems t')) t' =
  set_subsystems (delete (nqn lvolID) (t_subsystems t)) t.

#[local] Instance elsewhere_equiv lvolID : Equivalence (elsewhere lvolID).
Proof. split; unfold elsewhere; [done|by intros ??|]. intros x y z -> ->. done. Qed.

Lemma elsewhere_update lvolID f t t' :
  update_subsystem (nqn lvolID) f t t' → elsewhere lvolID t t'.
Proof. intros (s & _ & ->). unfold elsewhere. simpl. by rewrite delete_insert_eq. Qed.

(** However it ends, the method changes nothing but the volume's subsystem on its node. *)
Definition confined {A} (lvolID : string) (m : st nodeNVMf A) : Prop := ∀ n w,
  wp step (m n) (λ out w', only (url n) w w' ∧ elsewhere lvolID (tgt w (url n)) (tgt w' (url n)) ∧
                           match out with Done (_, n') => same_node n n' | Panicked _ => True end) w.

Lemma confined_ret {A} lvolID (a : A) : confined lvolID (mret a).
Proof. intros n w. by split_and!. Qed.

Lemma confined_bind {A B} lvolID (m : st nodeNVMf A) (f : A → st nodeNVMf B) :
  confined lvolID m → (∀ a, confined lvolID (f a)) → confined lvolID (m ≫= f).
Proof.
  intros Hm Hf n w. apply wp_st_bind. eapply wp_mono; [apply Hm|].
  intros [[a n1]|why] w1 (Ho & He & Hn); simpl; [|done].
  eapply wp_mono; [apply Hf|]. intros out w2 (Ho2 & He2 & Hn2).
  rewrite (proj1 Hn) in *. split_and!; [by eapply only_trans|by etrans|].
  destruct out as [[b n2]|]; [by etrans|done].
Qed.

(** A method that changes no target. *)
Lemma confined_quiet {A} lvolID (m : st nodeNVMf A) :
  (∀ n w, wp step (m n) (λ out w', quiet w w' ∧
      match out with Done (_, n') => same_node n n' | Panicked _ => True end) w) →
  confined lvolID m.
Proof.
  intros Hm n w. eapply wp_mono; [apply Hm|]. intros out w' [Hq Hn].
  split_and!; [by apply quiet_only|by rewrite Hq|done].
Qed.

Lemma confined_effect E lvolID err t t' :
  (∀ r t t', E r t t' → elsewhere lvolID t t') → effect_of E err t t' → elsewhere lvolID t t'.
Proof. intros HE. destruct err as [e|]; [intros [->|(_ & r & H)]|intros [r H]]; by eauto. Qed.

(** A call is confined when its effect is. *)
Lemma confined_call_ E lvolID method args :
  (∀ t o t', rpc t method args o t' → happens E o t t') →
  (∀ r t t', E r t t' → elsewhere lvolID t t') →
  confined lvolID (nodeNVMf.client (rpcClient.call_ method args)).
Proof.
  intros Hlaw HE n w. apply (wp_call_effect E _ _ _ _ _ Hlaw). intros err n' w' Hn Ho Heff.
  split_and!; [done| |done]. by eapply confined_effect.
Qed.

Lemma confined_isVolumeCreated lvolID : confined lvolID (nodeNVMf.isVolumeCreated lvolID).
Proof. apply confined_quiet. intros n w. apply wp_zoom, wp_isVolumeCreated; by simpl. Qed.

Lemma confined_isVolumePublished lvolID : confined lvolID (nodeNVMf.isVolumePublished lvolID).
Proof. apply confined_quiet. intros n w. by apply wp_isVolumePublished. Qed.

Lemma confined_createTransport lvolID : confined lvolID nodeNVMf.createTransport.
Proof. apply confined_quiet. intros n w. by apply wp_createTransport. Qed.

Lemma confined_createSubsystem lvolID : confined lvolID (nodeNVMf.createSubsystem lvolID).
Proof.
  apply (confined_call_ _ _ _ _ (λ t o t' H, create_subsystem_law t _ _ _ _ o t' H)).
  intros r t t' [_ ->]. unfold elsewhere. simpl. by rewrite delete_insert_eq.
Qed.

Lemma confined_subsystemAddNs lvolID : confined lvolID (nodeNVMf.subsystemAddNs lvolID).
Proof.
  intros n w. apply wp_subsystemAddNs. intros id err n' w' Hn Ho Heff. split_and!; [done| |done].
  eapply confined_effect; [|exact Heff]. intros r t t' (nsid & _ & H). by eapply elsewhere_update.
Qed.

Lemma confined_subsystemAddListener lvolID : confined lvolID (nodeNVMf.subsystemAddListener lvolID).
Proof.
  intros n w. apply wp_subsystemAddListener. intros err n' w' Hn Ho Heff. split_and!; [done| |done].
  eapply confined_effect; [|exact Heff]. intros r t t'. by apply elsewhere_update.
Qed.

Lemma confined_subsystemGetNsID lvolID : confined lvolID (nodeNVMf.subsystemGetNsID lvolID).
Proof.
  apply confined_quiet. intros n w. apply wp_st_bind, wp_zoom, wp_call. intros o w1 Hrpc Ho.
  assert (quiet w w1) as Hq.
  { apply (only_quiet (url n)); [done|]. pose proof (get_subsystems_law _ _ _ Hrpc) as Hlaw.
    destruct o; [apply Hlaw|by eapply rpc_error_law|done]. }
  destruct o; simpl; [|done|done].
  destruct (if _ : bool then None else Some _); [done|].
  by destruct (nodeNVMf.find_nsid _ _ _).
Qed.

Lemma confined_subsystemRemoveNs lvolID : confined lvolID (nodeNVMf.subsystemRemoveNs lvolID).
Proof.
  apply confined_bind; [apply confined_subsystemGetNsID|]. intros [e|nsid]; [apply confined_ret|].
  apply (confined_call_ _ _ _ _ (λ t o t' H, remove_ns_law t _ _ o t' H)).
  intros r t t'. by apply elsewhere_update.
Qed.

Lemma confined_deleteSubsystem lvolID : confined lvolID (nodeNVMf.deleteSubsystem lvolID).
Proof.
  apply (confined_call_ _ _ _ _ (λ t o t' H, proj1 (delete_subsystem_law t _ o t' H))).
  intros r t t' ->. unfold elsewhere. simpl. by rewrite delete_delete_eq.
Qed.

#[local] Hint Resolve confined_ret confined_isVolumeCreated confined_isVolumePublished
  confined_createTransport confined_createSubsystem confined_subsystemAddNs
  confined_subsystemAddListener confined_subsystemRemoveNs confined_deleteSubsystem : spdk.

(** Follow the binds of a method, and its tests. *)
Ltac confine :=
  repeat first
    [ solve [auto with spdk]
    | apply confined_bind; [auto with spdk|intros]
    | case_goal ].

Lemma confined_PublishVolume lvolID : confined lvolID (nodeNVMf.PublishVolume lvolID).
Proof. unfold nodeNVMf.PublishVolume. confine. Qed.

Lemma confined_UnpublishVolume lvolID : confined lvolID (nodeNVMf.UnpublishVolume lvolID).
Proof. unfold nodeNVMf.UnpublishVolume. confine. Qed.

Lemma wp_publish_leftover lvolID n w :
  ¬ unreliable → is_Some (t_subsystems (tgt w (url n)) !! nqn lvolID) →
  ¬ published n lvolID (tgt w (url n)) →
  wp step (nodeNVMf.PublishVolume lvolID n)
    (λ out w', quiet w w' ∧ ∃ e n', out = Done (Some e, n')) w.
Proof.
  intros Hu Hs Hnp. eapply wp_mono; [apply wp_publish|].
  intros [[err n1]|why] w1; [|done]. intros (Hn1 & Ho1 & [H1|[? _]]); [|done].
  inversion H1 as [|?|nsid ? Hnone|]; subst; [|done| |].
  1,3: split; [by apply (only_quiet (url n))|by do 2 eexists].
  rewrite Hnone in Hs. by destruct Hs.
Qed.

(** ** Properties *)

(** C1: [PublishVolume] implements its specification: a success leaves the volume's
    subsystem with the volume as its namespace and the node as its listener (made now,
    or before); a failure leaves the target as it was.  Only a request without a usable
    answer can make it otherwise, and then the caller gets an error, or a panic. *)
Theorem PublishVolume_refines lvolID n w :
  wp step (nodeNVMf.PublishVolume lvolID n) (meets (publish_spec n lvolID) reported n w) w.
Proof. apply wp_publish. Qed.

(** C2: [UnpublishVolume] implements its specification: it deletes the volume's
    subsystem if the node listens there, and succeeds without a change if it does not. *)
Theorem UnpublishVolume_refines lvolID n w :
  wp step (nodeNVMf.UnpublishVolume lvolID n)
    (meets (unpublish_spec n lvolID) reported_or_idle n w) w.
Proof. apply wp_unpublish. Qed.

(** C14: publishing and then unpublishing a volume gives back the target as it was,
    whether or not the publication succeeded. *)
Theorem publish_unpublish_restores lvolID n w :
  ¬ unreliable → ¬ published n lvolID (tgt w (url n)) →
  wp step ((nodeNVMf.PublishVolume lvolID ;? nodeNVMf.UnpublishVolume lvolID) n)
    (λ out w', quiet w w' ∧ ∃ err n', out = Done (err, n') ∧ same_node n n') w.
Proof.
  intros Hu Hnp. apply wp_st_bind. eapply wp_mono; [apply wp_publish|].
  intros [[err n1]|why] w1; [|done]. intros (Hn1 & Ho1 & [H1|[? _]]); [|done].
  cbn beta iota delta [bind_post]. destruct err as [e|].
  - split; [|by do 2 eexists]. apply (only_quiet (url n)); [done|]. by inversion H1.
  - eapply wp_mono; [apply wp_unpublish|].
    intros [[err n2]|why] w2; [|done]. unfold meets. rewrite (proj1 Hn1).
    intros (Hn2 & Ho2 & [H2|[? _]]); [|done].
    split; [|by do 2 eexists; split; [done|etrans]].
    apply (only_quiet (url n)); [by eapply only_trans|].
    by eapply (publish_unpublish_spec n), (unpublish_spec_same n n1).
Qed.

(** A volume that was published can be published again: nothing changes, and it
    succeeds. *)
Lemma publish_idempotent lvolID n w :
  ¬ unreliable →
  wp step ((err1 ← nodeNVMf.PublishVolume lvolID;
            err2 ← nodeNVMf.PublishVolume lvolID;
            mret (err1, err2)) n)
    (λ out w', ∃ err1 err2 n', out = Done (err1, err2, n') ∧
       (err1 = None → err2 = None ∧
          publish_spec n lvolID (tgt w (url n)) None (tgt w' (url n)))) w.
Proof.
  intros Hu. apply wp_st_bind. eapply wp_mono; [apply wp_publish|].
  intros [[err n1]|why] w1; [|done]. intros (Hn1 & Ho1 & [H1|[? _]]); [|done].
  apply wp_st_bind. eapply wp_mono; [apply wp_publish|].
  intros [[err2 n2]|why] w2; [|done]. unfold meets. rewrite (proj1 Hn1).
  intros (Hn2 & Ho2 & [H2|[? _]]); [|done]. do 3 eexists. split; [done|]. intros ->.
  apply (publish_spec_same n n1) in H2; [|done].
  by destruct (publish_spec_again _ _ _ _ _ _ H1 H2) as [-> ->].
Qed.

(** C32: a subsystem of the volume without the node's listener, as a crash between the
    two calls leaves it, makes every later publication fail. *)
Theorem publish_leftover_fails lvolID n w :
  ¬ unreliable → is_Some (t_subsystems (tgt w (url n)) !! nqn lvolID) →
  ¬ published n lvolID (tgt w (url n)) →
  wp step (nodeNVMf.PublishVolume lvolID n)
    (λ out w', quiet w w' ∧ ∃ e n', out = Done (Some e, n')) w.
Proof. apply wp_publish_leftover. Qed.

(** C15: whatever the target answers, publishing or unpublishing a volume changes no
    other subsystem, no volume and nothing else of the target, and no other target. *)
Theorem publication_isolated lvolID n w :
  let kept (m : st nodeNVMf (option goerror)) :=
    wp step (m n) (λ _ w', only (url n) w w' ∧
                           elsewhere lvolID (tgt w (url n)) (tgt w' (url n))) w in
  kept (nodeNVMf.PublishVolume lvolID) ∧ kept (nodeNVMf.UnpublishVolume lvolID).
Proof.
  split; (eapply wp_mono; [first [apply confined_PublishVolume|apply confined_UnpublishVolume]|]);
    by intros out w' (? & ? & _).
Qed.

End spec.
