(* ===== verification/IscsiSpec.v ===== *)
(** The contract of the iSCSI node against an SPDK target: a volume is published by a
    target node that bears its name; the portal and initiator groups are shared. *)

From S2P Require Import Prelude.
From S2P Require Import GoLang.
From S2P Require Import GoJson.
From S2P Require Import World.
From S2P Require Import RpcClient.
From S2P Require Import Iscsi.
From S2P Require Import Target.
From S2P Require Import TargetCalls.

(** ** Vocabulary *)

(** The node up to its request counter. *)
Definition same_iscsi (n n' : nodeISCSI) : Prop :=
  rpcURL (iscsi_client n') = rpcURL (iscsi_client n) ∧
  iscsi_targetAddr n' = iscsi_targetAddr n ∧ iscsi_targetPort n' = iscsi_targetPort n.

#[export] Instance same_iscsi_preorder : PreOrder same_iscsi.
Proof.
  split; [done|]. intros x y z (? & ? & ?) (? & ? & ?). split_and!; etrans; eauto.
Qed.

(** Some target node has the volume's alias. *)
Definition iscsi_published (lvolID : string) (t : target) : Prop :=
  map_Exists (λ _ node, tn_AliasName node = lvolID) (t_nodes t).

#[export] Instance iscsi_published_dec lvolID t : Decision (iscsi_published lvolID t).
Proof. unfold iscsi_published. apply _. Defined.

Definition iqn (lvolID : string) : string := iqnPrefixName +:+ lvolID.

(** The two groups may have been added. *)
Definition may_add (tag : Z) (g g' : gset Z) : Prop := g' = g ∨ g' = {[tag]} ∪ g.

Definition grown (t t' : target) : Prop :=
  t_bdevs t' = t_bdevs t ∧ t_alias t' = t_alias t ∧ t_subsystems t' = t_subsystems t ∧
  t_nodes t' = t_nodes t ∧ t_lvstores t' = t_lvstores t ∧
  may_add numberPortalGroupTag (t_portal_groups t) (t_portal_groups t') ∧
  may_add numberInitiatorGroupTag (t_initiator_groups t) (t_initiator_groups t').

#[export] Instance may_add_preorder tag : PreOrder (may_add tag).
Proof.
  split; [by left|]. intros x y z [->| ->] [->| ->]; unfold may_add; [by left|by right..|].
  right. set_solver.
Qed.

#[export] Instance grown_preorder : PreOrder grown.
Proof.
  split; [done|].
  intros x y z (? & ? & ? & ? & ? & ? & ?) (? & ? & ? & ? & ? & ? & ?). split_and!; by etrans.
Qed.

Lemma grown_bdev t t' lvolID : grown t t' → bdev_lookup t' lvolID = bdev_lookup t lvolID.
Proof. intros (Hb & Ha & _). unfold bdev_lookup. by rewrite Hb, Ha. Qed.

(** Abstract specification of [PublishVolume]. *)
Inductive iscsi_publish_spec (lvolID : string) (t : target) : option goerror → target → Prop :=
  | iscsi_publish_deleted :
      bdev_lookup t lvolID = None →
      iscsi_publish_spec lvolID t (Some (ESentinel ErrVolumeDeleted)) t
  | iscsi_publish_again :
      is_Some (bdev_lookup t lvolID) → iscsi_published lvolID t →
      iscsi_publish_spec lvolID t None t
  | iscsi_publish_new t1 :
      is_Some (bdev_lookup t lvolID) → ¬ iscsi_published lvolID t → grown t t1 →
      numberPortalGroupTag ∈ t_portal_groups t1 →
      numberInitiatorGroupTag ∈ t_initiator_groups t1 →
      t_nodes t !! iqn lvolID = None →
      iscsi_publish_spec lvolID t None
        (set_nodes (<[iqn lvolID := mkTargetNode (iqn lvolID) lvolID]> (t_nodes t)) t1)
  | iscsi_publish_error e t1 :
      plain e → is_Some (bdev_lookup t lvolID) → grown t t1 →
      iscsi_publish_spec lvolID t (Some e) t1.

(** Abstract specification of [UnpublishVolume]. *)
Inductive iscsi_unpublish_spec (lvolID : string) (t : target) : option goerror → target → Prop :=
  | iscsi_unpublish_deleted :
      bdev_lookup t lvolID = None →
      iscsi_unpublish_spec lvolID t (Some (ESentinel ErrVolumeDeleted)) t
  | iscsi_unpublish_again :
      is_Some (bdev_lookup t lvolID) → ¬ iscsi_published lvolID t →
      iscsi_unpublish_spec lvolID t None t
  | iscsi_unpublish_done :
      is_Some (bdev_lookup t lvolID) → iscsi_published lvolID t →
      iscsi_unpublish_spec lvolID t None (set_nodes (delete (iqn lvolID) (t_nodes t)) t)
  | iscsi_unpublish_error e :
      plain e → is_Some (bdev_lookup t lvolID) →
      iscsi_unpublish_spec lvolID t (Some e) t.

Lemma iscsi_publish_published lvolID t t' :
  iscsi_publish_spec lvolID t None t' → iscsi_published lvolID t'.
Proof.
  intros H. inversion H as [|?|t1|]; subst; [done|].
  exists (iqn lvolID), (mkTargetNode (iqn lvolID) lvolID). simpl. by rewrite lookup_insert_eq.
Qed.

Section spec.
Context {W : Type} {step : W → ∀ o : op, reply o → W → Prop} {T : Transport step}.
Context `{!VolumeLaws T, !IscsiLaws T}.
Implicit Types n : nodeISCSI.

Abbreviation url n := (rpcURL (iscsi_client n)).

(** ** The calls *)

Lemma wp_iscsi_isVolumePublished lvolID n Q w :
  (∀ r n' w', same_iscsi n n' → quiet w w' →
     match r with
     | inr b => b = true ↔ iscsi_published lvolID (tgt w (url n))
     | inl e => plain e
     end → Q (Done (r, n')) w') →
  wp step (nodeISCSI.isVolumePublished lvolID n) Q w.
Proof.
  intros HQ. apply wp_st_bind, wp_zoom, (wp_call_lists _ _ _ _ _ _ _ _ get_target_nodes_law).
  intros l err id w' Hq Hl. simpl. destruct err as [e|]; apply HQ; try done.
  rewrite existsb_exists. unfold iscsi_published, map_Exists. split.
  - intros (node & Hin%list_elem_of_In & Ha%bool_decide_eq_true).
    apply Hl in Hin as [name Hn]. eauto.
  - intros (name & node & Hn & Ha). exists node. rewrite bool_decide_eq_true.
    split; [apply list_elem_of_In, Hl|done]. eauto.
Qed.

(** A call with a boolean answer and effect [E]: without an error, it did its work. *)
Lemma wp_call_bool (E : target → target → Prop) method params failure n Q w :
  (∀ t o t', rpc t method (Some params) o t' → happens (answers_bool E) o t t') →
  (∀ err n' w', same_iscsi n n' → only (url n) w w' →
     match err with
     | None => E (tgt w (url n)) (tgt w' (url n))
     | Some e => plain e ∧
         (tgt w' (url n) = tgt w (url n) ∨ unreliable ∧ E (tgt w (url n)) (tgt w' (url n)))
     end → Q (Done (err, n')) w') →
  wp step (nodeISCSI.call_bool method params failure n) Q w.
Proof.
  intros Hlaw HQ. apply wp_st_bind, wp_zoom, wp_call. intros o w' Hrpc Ho.
  pose proof (Hlaw _ _ _ Hrpc) as Heff. destruct o as [r|code msg|].
  - destruct Heff as (b & -> & Hb). destruct b; simpl; apply HQ; try done. split; [done|by left].
  - apply HQ; [done..|]. split; [done|]. left. by eapply rpc_error_law.
  - intros c' e He. apply HQ; [done..|]. split; [done|].
    assert (unreliable) as Hu by (do 4 eexists; exact Hrpc).
    destruct Heff as [?|(r & [] & _ & Hb)]; [by left|by right|by left].
Qed.

(** What preparing a group does: with success the group is there. *)
Definition prepares (m : st nodeISCSI (option goerror)) (ready : target → Prop) : Prop :=
  ∀ n Q w,
    (∀ err n' w', same_iscsi n n' → only (url n) w w' → grown (tgt w (url n)) (tgt w' (url n)) →
       match err with None => ready (tgt w' (url n)) | Some e => plain e end →
       Q (Done (err, n')) w') →
    wp step (m n) Q w.

Lemma wp_iscsiGetPortalGroups n Q w :
  (∀ err n' w', same_iscsi n n' → quiet w w' →
     match err with
     | None => numberPortalGroupTag ∈ t_portal_groups (tgt w (url n))
     | Some e => plain e
     end →
     Q (Done (err, n')) w') →
  wp step (nodeISCSI.iscsiGetPortalGroups n) Q w.
Proof.
  intros HQ. apply wp_st_bind, wp_zoom, (wp_call_lists _ _ _ _ _ _ _ _ get_portal_groups_law).
  intros l err id w' Hq Hl. simpl. destruct err as [e|]; [by apply HQ|].
  case_match eqn:Hex; apply HQ; try done.
  apply existsb_exists in Hex as (tag & Hin%list_elem_of_In & <-%Z.eqb_eq). by apply Hl.
Qed.

Lemma wp_iscsiGetInitiatorGroups n Q w :
  (∀ err n' w', same_iscsi n n' → quiet w w' →
     match err with
     | None => numberInitiatorGroupTag ∈ t_initiator_groups (tgt w (url n))
     | Some e => plain e
     end →
     Q (Done (err, n')) w') →
  wp step (nodeISCSI.iscsiGetInitiatorGroups n) Q w.
Proof.
  intros HQ. apply wp_st_bind, wp_zoom, (wp_call_lists _ _ _ _ _ _ _ _ get_initiator_groups_law).
  intros l err id w' Hq Hl. simpl. destruct err as [e|]; [by apply HQ|].
  case_match eqn:Hex; apply HQ; try done.
  apply existsb_exists in Hex as (tag & Hin%list_elem_of_In & <-%Z.eqb_eq). by apply Hl.
Qed.

Lemma wp_createPortalGroup :
  prepares nodeISCSI.createPortalGroup (λ t, numberPortalGroupTag ∈ t_portal_groups t).
Proof.
  intros n Q w HQ. apply wp_st_bind, wp_iscsiGetPortalGroups. intros err n1 w1 Hn1 Hq1 Hr1.
  cbn beta iota delta [bind_post]. destruct err as [e|].
  2:{ apply HQ; [done|by apply quiet_only|by rewrite Hq1|]. by rewrite Hq1. }
  apply wp_st_bind. unfold nodeISCSI.iscsiCreatePortalGroup. apply wp_st_bind.
  apply (wp_call_bool _ _ _ _ _ _ _ (λ t o t' H, create_portal_group_law t _ _ o t' H)).
  intros err n2 w2 Hn2 Ho2 Heff. rewrite (proj1 Hn1), Hq1 in *.
  assert (same_iscsi n n2) as Hs2 by by etrans.
  assert (only (url n) w w2) as Ho by (by eapply only_trans; [apply quiet_only|]).
  assert (grown (tgt w (url n)) (tgt w2 (url n))) as Hg.
  { destruct err as [e2|]; [destruct Heff as [_ [->|[_ ->]]]; [done|]|rewrite Heff];
      (split_and!; try done; by right). }
  cbn beta iota delta [bind_post]. destruct err as [e2|].
  - apply wp_iscsiGetPortalGroups. intros err n3 w3 Hn3 Hq3 Hr3. rewrite (proj1 Hs2) in *.
    apply HQ; [by etrans|by eapply only_trans; [|apply quiet_only]|by rewrite Hq3|].
    destruct err; by rewrite ?Hq3.
  - apply HQ; [done..|]. rewrite Heff. set_solver.
Qed.

Lemma wp_createInitiatorGroup :
  prepares nodeISCSI.createInitiatorGroup (λ t, numberInitiatorGroupTag ∈ t_initiator_groups t).
Proof.
  intros n Q w HQ. apply wp_st_bind, wp_iscsiGetInitiatorGroups. intros err n1 w1 Hn1 Hq1 Hr1.
  cbn beta iota delta [bind_post]. destruct err as [e|].
  2:{ apply HQ; [done|by apply quiet_only|by rewrite Hq1|]. by rewrite Hq1. }
  apply wp_st_bind. unfold nodeISCSI.iscsiCreateInitiatorGroup.
  apply (wp_call_bool _ _ _ _ _ _ _ (λ t o t' H, create_initiator_group_law t _ _ _ o t' H)).
  intros err n2 w2 Hn2 Ho2 Heff. rewrite (proj1 Hn1), Hq1 in *.
  assert (same_iscsi n n2) as Hs2 by by etrans.
  assert (only (url n) w w2) as Ho by (by eapply only_trans; [apply quiet_only|]).
  assert (grown (tgt w (url n)) (tgt w2 (url n))) as Hg.
  { destruct err as [e2|]; [destruct Heff as [_ [->|[_ ->]]]; [done|]|rewrite Heff];
      (split_and!; try done; by right). }
  cbn beta iota delta [bind_post]. destruct err as [e2|].
  - apply wp_iscsiGetInitiatorGroups. intros err n3 w3 Hn3 Hq3 Hr3. rewrite (proj1 Hs2) in *.
    apply HQ; [by etrans|by eapply only_trans; [|apply quiet_only]|by rewrite Hq3|].
    destruct err; by rewrite ?Hq3.
  - apply HQ; [done..|]. rewrite Heff. set_solver.
Qed.

(** ** Publishing *)

(** What an operation with specification [P] may do, as its caller sees it: when some
    request gets no answer, it may also report an error with its work done, or panic. *)
Definition iscsi_meets (P : target → option goerror → target → Prop) n (w : W)
    (out : outcome (option goerror * nodeISCSI)) (w' : W) : Prop :=
  match out with
  | Done (err, n') =>
      same_iscsi n n' ∧ only (url n) w w' ∧
      (P (tgt w (url n)) err (tgt w' (url n)) ∨ unreliable ∧ is_Some err)
  | Panicked _ => unreliable
  end.

Lemma wp_iscsi_publish lvolID n w :
  wp step (nodeISCSI.PublishVolume lvolID n) (iscsi_meets (iscsi_publish_spec lvolID) n w) w.
Proof.
  unfold nodeISCSI.PublishVolume. apply wp_st_bind, wp_zoom, wp_isVolumeCreated.
  2:{ intros Hu id m w1 Hq. simpl. split; [done|]. split_and!; [done|by apply quiet_only|].
      right. split; [done|]. by eexists. }
  intros id w1 Hq1. simpl. set (n1 := nodeISCSI.set_client _ n).
  assert (same_iscsi n n1) as Hs1 by done.
  case_bool_decide as Hb.
  2:{ split_and!; [done|by apply quiet_only|]. left. rewrite Hq1.
      apply iscsi_publish_deleted. by apply eq_None_not_Some. }
  assert (∀ e n' w', plain e → same_iscsi n n' → only (url n) w w' → grown (tgt w (url n)) (tgt w' (url n)) →
    iscsi_meets (iscsi_publish_spec lvolID) n w (Done (Some e, n')) w') as Herror.
  { intros e n' w' ????. split_and!; [done..|]. left. by apply iscsi_publish_error. }
  apply wp_st_bind, wp_iscsi_isVolumePublished. intros r n2 w2 Hn2 Hq2 Hr.
  rewrite (proj1 Hs1), Hq1 in *.
  assert (same_iscsi n n2) as Hs2 by by etrans.
  assert (tgt w2 (url n) = tgt w (url n)) as Ht2 by by rewrite Hq2.
  assert (only (url n) w w2) as Ho2 by (by eapply only_trans; apply quiet_only).
  cbn beta iota delta [bind_post]. destruct r as [e|[]].
  { apply Herror; [done..|by rewrite Ht2]. }
  { split_and!; [done..|]. left. rewrite Ht2. apply iscsi_publish_again; [done|by apply Hr]. }
  assert (¬ iscsi_published lvolID (tgt w (url n))) as Hnp by (intros H%Hr; done).
  apply wp_st_bind, wp_createPortalGroup. intros err3 n3 w3 Hn3 Ho3 Hg3 Hr3.
  rewrite (proj1 Hs2), Ht2 in *.
  assert (same_iscsi n n3) as Hs3 by by etrans.
  assert (only (url n) w w3) as Ho03 by by eapply only_trans.
  cbn beta iota delta [bind_post]. destruct err3 as [e|]; [by apply Herror|].
  apply wp_st_bind, wp_createInitiatorGroup. intros err4 n4 w4 Hn4 Ho4 Hg4 Hr4.
  rewrite (proj1 Hs3) in *.
  assert (same_iscsi n n4) as Hs4 by by etrans.
  assert (only (url n) w w4) as Ho04 by by eapply only_trans.
  assert (grown (tgt w (url n)) (tgt w4 (url n))) as Hg by by etrans.
  cbn beta iota delta [bind_post]. destruct err4 as [e|]; [by apply Herror|].
  apply wp_st_bind.
  apply (wp_call_bool _ _ _ _ _ _ _ (λ t o t' H, create_target_node_law t _ _ _ _ _ _ _ o t' H)).
  intros err5 n5 w5 Hn5 Ho5 Heff. rewrite (proj1 Hs4) in *.
  assert (same_iscsi n n5) as Hs5 by by etrans.
  assert (only (url n) w w5) as Ho05 by by eapply only_trans.
  cbn beta iota delta [bind_post]. destruct err5 as [e|].
  - destruct Heff as [He [Heq|[Hu _]]].
    + apply Herror; [done..|by rewrite Heq].
    + split_and!; [done..|]. right. split; [done|by eexists].
  - destruct Heff as (Hpg & Hig & Hnone & Heq). split_and!; [done..|]. left. rewrite Heq.
    assert (t_nodes (tgt w4 (url n)) = t_nodes (tgt w (url n))) as Hnodes by apply Hg.
    rewrite Hnodes in *. by apply iscsi_publish_new.
Qed.

Lemma wp_iscsi_unpublish lvolID n w :
  wp step (nodeISCSI.UnpublishVolume lvolID n) (iscsi_meets (iscsi_unpublish_spec lvolID) n w) w.
Proof.
  unfold nodeISCSI.UnpublishVolume. apply wp_st_bind, wp_zoom, wp_isVolumeCreated.
  2:{ intros Hu id m w1 Hq. simpl. split; [done|]. split_and!; [done|by apply quiet_only|].
      right. split; [done|]. by eexists. }
  intros id w1 Hq1. simpl. set (n1 := nodeISCSI.set_client _ n).
  assert (same_iscsi n n1) as Hs1 by done.
  case_bool_decide as Hb.
  2:{ split_and!; [done|by apply quiet_only|]. left. rewrite Hq1.
      apply iscsi_unpublish_deleted. by apply eq_None_not_Some. }
  apply wp_st_bind, wp_iscsi_isVolumePublished. intros r n2 w2 Hn2 Hq2 Hr.
  rewrite (proj1 Hs1), Hq1 in *.
  assert (same_iscsi n n2) as Hs2 by by etrans.
  assert (tgt w2 (url n) = tgt w (url n)) as Ht2 by by rewrite Hq2.
  assert (only (url n) w w2) as Ho2 by (by eapply only_trans; apply quiet_only).
  cbn beta iota delta [bind_post]. destruct r as [e|[]].
  { split_and!; [done..|]. left. rewrite Ht2. by apply iscsi_unpublish_error. }
  2:{ split_and!; [done..|]. left. rewrite Ht2. apply iscsi_unpublish_again; [done|].
      intros H%Hr. done. }
  apply (wp_call_bool _ _ _ _ _ _ _ (λ t o t' H, delete_target_node_law t _ o t' H)).
  intros err5 n5 w5 Hn5 Ho5 Heff. rewrite (proj1 Hs2), Ht2 in *.
  split_and!; [by etrans|by eapply only_trans|].
  destruct err5 as [e|]; [destruct Heff as [He [->|[Hu _]]]|].
  - left. by apply iscsi_unpublish_error.
  - right. split; [done|by eexists].
  - left. rewrite Heff. apply iscsi_unpublish_done; [done|by apply Hr].
Qed.

(** ** Properties *)

(** C12: iSCSI publication implements its specification: a success leaves a target node
    for the volume, between a portal group and an initiator group that exist; a failure
    leaves the target nodes as they were.  The groups are created when they are missing,
    and stay. *)
Theorem iscsi_PublishVolume_refines lvolID n w :
  wp step (nodeISCSI.PublishVolume lvolID n) (iscsi_meets (iscsi_publish_spec lvolID) n w) w.
Proof. apply wp_iscsi_publish. Qed.

(** C13: iSCSI unpublication implements its specification: the volume's target node is
    deleted, or nothing changes. *)
Theorem iscsi_UnpublishVolume_refines lvolID n w :
  wp step (nodeISCSI.UnpublishVolume lvolID n) (iscsi_meets (iscsi_unpublish_spec lvolID) n w) w.
Proof. apply wp_iscsi_unpublish. Qed.

(** C16: when an iSCSI volume is published and then unpublished without an error, the
    target nodes are those of the beginning. *)
Theorem iscsi_publish_unpublish_restores lvolID n w :
  ¬ iscsi_published lvolID (tgt w (url n)) →
  wp step ((nodeISCSI.PublishVolume lvolID ;? nodeISCSI.UnpublishVolume lvolID) n)
    (λ out w', ∀ n', out = Done (None, n') →
       only (url n) w w' ∧ grown (tgt w (url n)) (tgt w' (url n))) w.
Proof.
  intros Hnp. apply wp_st_bind. eapply wp_mono; [apply wp_iscsi_publish|].
  intros [[err n1]|why] w1; [|done]. intros (Hn1 & Ho1 & H1).
  cbn beta iota delta [bind_post]. destruct err as [e|]; [done|].
  destruct H1 as [H1|[_ []%is_Some_None]].
  eapply wp_mono; [apply wp_iscsi_unpublish|].
  intros [[err n2]|why] w2 H2 n' [=]; subst. destruct H2 as (Hn2 & Ho2 & H2). rewrite (proj1 Hn1) in *.
  split; [by eapply only_trans|]. destruct H2 as [H2|[_ []%is_Some_None]].
  inversion H1 as [|?|t1 Hb _ Hg Hpg Hig Hnone E1 E2|]; subst; [done|].
  inversion H2 as [|? Hnp2|? ? E3 E4|]; subst; rewrite <-E2 in *.
  - exfalso. apply Hnp2. exists (iqn lvolID), (mkTargetNode (iqn lvolID) lvolID). simpl.
    by rewrite lookup_insert_eq.
  - unfold grown. simpl. rewrite delete_insert_id by done.
    destruct Hg as (? & ? & ? & Hn & ? & ? & ?). by split_and!.
Qed.
End spec.
