(* ===== verification/ControllerSpec.v ===== *)
(** The controller service end to end: what its answers say about the storage nodes'
    targets.  The handlers are proved against the specifications of publication, over
    any reliable or unreliable target that obeys the laws of [Target]. *)

From Stdlib Require Import Ascii.
From S2P Require Import Prelude.
From S2P Require Import GoLang.
From S2P Require Import GoJson.
From S2P Require Import JsonText.
From S2P Require Import World.
From S2P Require Import RpcClient.
From S2P Require Import Nvmf.
From S2P Require Import Iscsi.
From S2P Require Import SpdkNode.
From S2P Require Import Util.
From S2P Require Import UtilSpec.
From S2P Require Import VolumeLocks.
From S2P Require Import CsiCommon.
From S2P Require Import Controller.
From S2P Require Import ControllerOps.
From S2P Require Import Target.
From S2P Require Import TargetCalls.
From S2P Require Import NvmfSpec.
From S2P Require Import IscsiSpec.

(** ** Volume ids *)

(** C30: a volume id is the node's name and the volume's, separated by the one colon it
    has; every other string is refused. *)
Theorem getSPDKVol_spec id v :
  controllerServer.getSPDKVol id = inr v ↔
  id = nodeName v +:+ ":" +:+ lvolID v ∧
  no_char ":" (nodeName v) = true ∧ no_char ":" (lvolID v) = true.
Proof.
  destruct v as [lvol node]. unfold controllerServer.getSPDKVol. cbn [nodeName lvolID].
  change (chr 58) with ":"%char. change (":" +:+ lvol) with (String ":" lvol).
  rewrite <-Split_two. split; [|by intros ->].
  destruct (Split ":" id) as [|a [|b [|]]]; intros [=]; by subst.
Qed.

(** ** Nodes *)

(** The URL of a node, and whether a volume is published by it. *)
Definition node_url (node : spdkNode) : string :=
  match node with
  | NodeNVMf n => rpcURL (nvmf_client n)
  | NodeISCSI n => rpcURL (iscsi_client n)
  | NodeNil => ""
  end.
Definition node_published (node : spdkNode) (lvolID : string) (t : target) : Prop :=
  match node with
  | NodeNVMf n => published n lvolID t
  | NodeISCSI n => iscsi_published lvolID t
  | NodeNil => False
  end.

(** The same node, after some calls. *)
Definition same_spdk (node node' : spdkNode) : Prop :=
  match node, node' with
  | NodeNVMf n, NodeNVMf n' => same_node n n'
  | NodeISCSI n, NodeISCSI n' => same_iscsi n n'
  | _, _ => False
  end.

Lemma getSpdkNode_returns cs name secrets :
  (∃ r, controllerServer.getSpdkNode cs name secrets = Ret r) ∨
  (∃ m, controllerServer.getSpdkNode cs name secrets = Panic m).
Proof. unfold controllerServer.getSpdkNode. repeat case_goal; eauto. Qed.

(** What the secrets and the configuration say a volume's node is. *)
Definition volume_node (cs : controllerServer) (secrets : gomap) (volumeID : string)
    (node : spdkNode) (lvol : string) : Prop :=
  ∃ v, controllerServer.getSPDKVol volumeID = inr v ∧ lvolID v = lvol ∧
       controllerServer.getSpdkNode cs (nodeName v) secrets = Ret (inr node).

(** [b] bytes rounded up to whole mebibytes: the least multiple of 2^20 that holds them. *)
Definition rounded_up (b capacity : Z) : Prop :=
  ((2 ^ 20 | capacity) ∧ b ≤ capacity < b + 2 ^ 20)%Z.

(** The capacity of a volume of the requested size. *)
Lemma request_capacity req :
  (0 < cv_RequiredBytes req ≤ 2 ^ 63 - 2 ^ 20)%Z →
  rounded_up (cv_RequiredBytes req)
    (mul64 (mul64 (controllerServer.request_sizeMiB req) 1024) 1024).
Proof.
  intros Hb. unfold controllerServer.request_sizeMiB.
  rewrite (proj2 (Z.eqb_neq _ _)) by lia. rewrite ToMiB_small by lia.
  set (b := cv_RequiredBytes req) in *.
  pose proof (Z.div_mod (b + 1048575) 1048576). pose proof (Z.mod_pos_bound (b + 1048575) 1048576).
  set (q := ((b + 1048575) `div` 1048576)%Z) in *. unfold mul64.
  rewrite (int64_small (q * 1024)) by lia. rewrite int64_small by lia.
  split; [exists q; lia|lia].
Qed.

Section spec.
Context {W : Type} {step : W → ∀ o : op, reply o → W → Prop} {T : Transport step}.
Context `{!VolumeLaws T, !NvmfLaws T, !IscsiLaws T}.

(** Targets change by requests only. *)
Class Undisturbed := {
  other_law w o r w' : match o with HttpDo _ _ _ _ => False | _ => True end →
    step w o r w' → quiet w w'
}.
Context `{!Undisturbed}.

Lemma quiet_trans w1 w2 w3 : quiet w1 w2 → quiet w2 w3 → quiet w1 w3.
Proof. intros H1 H2 u. by rewrite H2, H1. Qed.

(** ** The calls that look *)

(** The method leaves the targets alone. *)
Definition looks {S A} (same : S → S → Prop) (m : st S A) : Prop := ∀ s w,
  wp step (m s) (λ out w', quiet w w' ∧
    match out with Done (_, s') => same s s' | Panicked _ => True end) w.

Lemma looks_ret {S A} (same : S → S → Prop) `{!PreOrder same} (a : A) : looks same (mret a).
Proof. by intros s w. Qed.

Lemma looks_bind {S A B} (same : S → S → Prop) `{!PreOrder same} (m : st S A) (f : A → st S B) :
  looks same m → (∀ a, looks same (f a)) → looks same (m ≫= f).
Proof.
  intros Hm Hf s w. apply wp_st_bind. eapply wp_mono; [apply Hm|].
  intros [[a s1]|why] w1 [Hq Hs]; [|done]. simpl. eapply wp_mono; [apply Hf|].
  intros out w2 [Hq2 Hs2]. split; [by eapply quiet_trans|].
  destruct out as [[b s2]|]; [by etrans|done].
Qed.

Lemma looks_get {S} (same : S → S → Prop) `{!PreOrder same} : looks same get.
Proof. by intros s w. Qed.

(** A client as it was but for its counter. *)
Definition same_client (c c' : rpcClient) : Prop := rpcURL c' = rpcURL c.
#[export] Instance same_client_preorder : PreOrder same_client.
Proof. split; [done|]. intros x y z. unfold same_client. by intros -> ->. Qed.

Lemma looks_call {A} method args (dec : decoder A) init :
  (∀ t o t', rpc t method args o t' → t' = t) →
  looks same_client (rpcClient.call method args dec init).
Proof.
  intros Hlaw c w. apply wp_call. intros o w' Hrpc Ho.
  assert (quiet w w') as Hq by (eapply only_quiet; [done|by eapply Hlaw]).
  by destruct o.
Qed.

Lemma looks_getVolume name : looks same_client (rpcClient.getVolume name).
Proof. intros c w. by apply wp_getVolume. Qed.

Lemma looks_lvStores : looks same_client rpcClient.lvStores.
Proof.
  apply looks_bind; [apply _|apply looks_call|].
  - intros t o t' Hr. apply (get_lvstores_law t o t' Hr).
  - intros [l [e|]]; cbn beta iota; apply (looks_ret _).
Qed.

Lemma looks_getLvstore name : looks same_client (rpcClient.getLvstore name).
Proof.
  apply looks_bind; [apply _|apply looks_getVolume|]. intros [e|b]; [apply (looks_ret _)|].
  destruct (BDev_DriverSpecific b); [|apply (looks_ret _)].
  apply looks_bind; [apply _|apply looks_lvStores|]. intros [e|l]; [apply (looks_ret _)|].
  destruct (find_first _ l); apply (looks_ret _).
Qed.

Lemma looks_nvmf_client {A} (m : st rpcClient A) :
  looks same_client m → looks same_node (nodeNVMf.client m).
Proof.
  intros Hm n w. apply wp_zoom. eapply wp_mono; [apply Hm|].
  by intros [[a c]|why] w1 [Hq Hs].
Qed.

Lemma looks_iscsi_client {A} (m : st rpcClient A) :
  looks same_client m → looks same_iscsi (nodeISCSI.client m).
Proof.
  intros Hm n w. apply wp_zoom. eapply wp_mono; [apply Hm|].
  by intros [[a c]|why] w1 [Hq Hs].
Qed.

Lemma looks_nvmf_VolumeInfo lvolID : looks same_node (nodeNVMf.VolumeInfo lvolID).
Proof.
  apply looks_bind; [apply _|apply looks_nvmf_client, looks_getVolume|].
  intros [e|b]; [apply (looks_ret _)|].
  apply looks_bind; [apply _|apply looks_nvmf_client, looks_getLvstore|].
  intros [e|l]; [apply (looks_ret _)|].
  apply looks_bind; [apply _|apply (looks_get _)|]. intros n. apply (looks_ret _).
Qed.

Lemma looks_isVolumeCreated lvolID : looks same_client (rpcClient.isVolumeCreated lvolID).
Proof. intros c w. by apply wp_isVolumeCreated. Qed.

Lemma looks_iscsi_VolumeInfo lvolID : looks same_iscsi (nodeISCSI.VolumeInfo lvolID).
Proof.
  apply looks_bind; [apply _|apply looks_iscsi_client, looks_isVolumeCreated|].
  intros [e|[]]; [apply (looks_ret _)| |apply (looks_ret _)]. simpl.
  apply looks_bind; [apply _|apply looks_iscsi_client, looks_getLvstore|].
  intros [e|l]; [apply (looks_ret _)|].
  apply looks_bind; [apply _|apply (looks_get _)|]. intros n. apply (looks_ret _).
Qed.

Lemma looks_VolumeInfo lvolID node w :
  wp step (SpdkNode.VolumeInfo lvolID node) (λ out w', quiet w w' ∧
    match out with Done (_, node') => same_spdk node node' | Panicked _ => True end) w.
Proof.
  destruct node as [n|n|]; [..|done]; apply wp_proc_bind.
  - eapply wp_mono; [apply looks_nvmf_VolumeInfo|]. by intros [[r n']|why] w' [Hq Hn].
  - eapply wp_mono; [apply looks_iscsi_VolumeInfo|]. by intros [[r n']|why] w' [Hq Hn].
Qed.

(** ** Publication by either kind of node *)

Lemma wp_node_publish lvolID node Q w :
  (∀ err node' w', same_spdk node node' →
     (err = None → node_published node lvolID (tgt w' (node_url node))) →
     Q (Done (err, node')) w') →
  (∀ m w', Q (Panicked m) w') →
  wp step (SpdkNode.PublishVolume lvolID node) Q w.
Proof.
  intros HQ Hp. destruct node as [n|n|]; [..|apply Hp]; apply wp_proc_bind.
  - eapply wp_mono; [apply wp_publish|]. intros [[err n']|why] w'; [|intros; apply Hp].
    intros (Hn & _ & Hpub). apply HQ; [done|]. intros ->. simpl.
    destruct Hpub as [Hpub|[_ []%is_Some_None]]. by apply publish_published in Hpub as [? _].
  - eapply wp_mono; [apply wp_iscsi_publish|]. intros [[err n']|why] w'; [|intros; apply Hp].
    intros (Hn & _ & Hpub). apply HQ; [done|]. intros ->. simpl.
    destruct Hpub as [Hpub|[_ []%is_Some_None]]. by apply iscsi_publish_published in Hpub.
Qed.

Lemma wp_getSpdkNode cs name secrets Q w :
  (∀ r, controllerServer.getSpdkNode cs name secrets = Ret r → Q (Done r) w) →
  (∀ m, Q (Panicked m) w) →
  wp step (controllerServer.getSpdkNode cs name secrets) Q w.
Proof.
  intros HQ Hp. destruct (getSpdkNode_returns cs name secrets) as [[r Hr]|[m Hm]].
  - rewrite Hr. by apply HQ.
  - rewrite Hm. apply Hp.
Qed.

(** What [publishVolume] answers is a published volume. *)
Lemma wp_publishVolume cs id secrets w :
  wp step (controllerServer.publishVolume cs id secrets)
    (λ out w', ∀ info, out = Done (inr info) →
       ∃ node lvol, volume_node cs secrets id node lvol ∧
                    node_published node lvol (tgt w' (node_url node))) w.
Proof.
  unfold controllerServer.publishVolume. destruct (controllerServer.getSPDKVol id) as [e|v] eqn:Hv;
    [done|].
  apply wp_proc_bind, wp_getSpdkNode; [|done]. intros [e|node] Hnode; [done|].
  apply wp_proc_bind, wp_node_publish; [|done]. intros err node' w1 Hsame Hpub.
  cbn beta iota delta [bind_post]. destruct err as [e|]; [done|].
  apply wp_proc_bind. eapply wp_mono; [apply looks_VolumeInfo|].
  intros [[[e|info] node2]|why] w2 [Hq _]; [| |done].
  - cbn beta iota delta [bind_post]. apply wp_proc_bind.
    eapply wp_mono; [apply wp_true|]. by intros [err|why] w3 _.
  - intros info' [= <-]. exists node, (lvolID v). split; [by exists v|]. rewrite Hq. by apply Hpub.
Qed.

(** The lock changes no target. *)
Lemma wp_with_lock {A} vl id (body : proc A) Q w :
  (∀ w1, quiet w w1 → wp step body (λ out w2, ∀ w3, quiet w2 w3 → Q out w3) w1) →
  wp step (with_lock vl id body) Q w.
Proof.
  intros Hbody m w1 _ H1 m' w2 _ H2 [] w3 _ H3. apply wp_defer.
  eapply wp_mono.
  { apply Hbody. apply other_law in H1, H2, H3; try done.
    by eapply quiet_trans; [|eapply quiet_trans]. }
  intros out w4 HQ [] w5 _ H5. apply HQ. by apply other_law in H5.
Qed.

(** The volume [createVolume] answers has the size that was asked for. *)
Lemma wp_createVolume cs req w :
  wp step (controllerServer.createVolume cs req)
    (λ out _, ∀ vol, out = Done (inr vol) →
       vol_CapacityBytes vol = mul64 (mul64 (controllerServer.request_sizeMiB req) 1024) 1024) w.
Proof.
  unfold controllerServer.createVolume.
  apply wp_proc_bind. eapply wp_mono; [apply wp_true|]. intros [[e|id]|why] w1 _; [| |done].
  2:{ by intros vol [= <-]. }
  cbn beta iota delta [bind_post]. destruct (cv_VolumeContentSource req) as [vcs|].
  - apply wp_proc_bind. eapply wp_mono; [apply wp_true|].
    intros [[e1|[[name lvs] src]]|why] w2 _; [done| |done]. cbn beta iota delta [bind_post].
    apply wp_proc_bind. eapply wp_mono; [apply wp_true|].
    intros [[e1|node]|why] w3 _; [done| |done]. cbn beta iota delta [bind_post].
    apply wp_proc_bind. eapply wp_mono; [apply wp_true|].
    intros [[[e1|lvol] node']|why] w4 _; [done| |done]. by intros vol [= <-].
  - apply wp_proc_bind. eapply wp_mono; [apply wp_true|].
    intros [[e1|[name lvs]]|why] w2 _; [done| |done]. cbn beta iota delta [bind_post].
    apply wp_proc_bind. eapply wp_mono; [apply wp_true|].
    intros [[e1|node]|why] w3 _; [done| |done]. cbn beta iota delta [bind_post].
    apply wp_proc_bind. eapply wp_mono; [apply wp_true|].
    intros [[[e1|lvol] node']|why] w4 _; [done| |done]. by intros vol [= <-].
Qed.

(** C5: a volume that [CreateVolume] answers is published by the storage node its id
    names, at the moment the answer is given; and its capacity is the least multiple of
    2^20 bytes that is at least the requested size, for every positive size for which
    that multiple fits in 63 bits. *)
Theorem CreateVolume_published cs req w :
  wp step (controllerServer.CreateVolume cs req)
    (λ out w', ∀ vol, out = Done (inr vol) →
       (∃ node lvol, volume_node cs (cv_Secrets req) (vol_VolumeId vol) node lvol ∧
                     node_published node lvol (tgt w' (node_url node))) ∧
       ((0 < cv_RequiredBytes req ≤ 2 ^ 63 - 2 ^ 20)%Z →
        rounded_up (cv_RequiredBytes req) (vol_CapacityBytes vol))) w.
Proof.
  apply wp_with_lock. intros w1 _. apply wp_proc_bind. eapply wp_mono; [apply wp_createVolume|].
  intros [[e|vol]|why] w2 Hcap; [done| |done]. specialize (Hcap vol eq_refl).
  cbn beta iota delta [bind_post]. apply wp_proc_bind. eapply wp_mono; [apply wp_publishVolume|].
  intros [[e|info]|why] w3 Hpub; [| |done]; cbn beta iota delta [bind_post].
  - apply wp_proc_bind. eapply wp_mono; [apply wp_true|]. by intros [err|why] w4 _.
  - intros w4 Hq vol' [= <-]. split; [|rewrite Hcap; apply request_capacity].
    destruct (Hpub info eq_refl) as (node & lvol & Hv & Hp). exists node, lvol.
    split; [done|]. by rewrite Hq.
Qed.

(** ** Deletion *)

(** The bdev of the volume is gone from its node. *)
Definition node_removed (node : spdkNode) (lvolID : string) (w : W) : Prop :=
  bdev_lookup (tgt w (node_url node)) lvolID = None.

(** Unpublishing by either kind of node: told apart only if the volume was there. *)
Lemma wp_node_unpublish lvolID node Q w :
  (∀ err node' w', same_spdk node node' →
     match err with
     | Some e => unreliable ∨ plain e ∨
                 e = ESentinel ErrVolumeDeleted ∧ node_removed node lvolID w'
     | None => True
     end → Q (Done (err, node')) w') →
  (∀ m w', Q (Panicked m) w') →
  wp step (SpdkNode.UnpublishVolume lvolID node) Q w.
Proof.
  intros HQ Hp. destruct node as [n|n|]; [..|apply Hp]; apply wp_proc_bind.
  - eapply wp_mono; [apply wp_unpublish|]. intros [[err n']|why] w'; [|intros; apply Hp].
    intros (Hn & _ & Hunp). apply HQ; [done|]. destruct err as [e|]; [|done].
    destruct Hunp as [Hunp|[? _]]; [|by left]. right. right. unfold node_removed. simpl.
    by inversion Hunp.
  - eapply wp_mono; [apply wp_iscsi_unpublish|]. intros [[err n']|why] w'; [|intros; apply Hp].
    intros (Hn & _ & Hunp). apply HQ; [done|]. destruct err as [e|]; [|done].
    destruct Hunp as [Hunp|[? _]]; [|by left]. right. unfold node_removed. simpl.
    inversion Hunp; subst; [by right|by left].
Qed.

(** Deleting a logical volume. *)
Lemma wp_rpc_deleteVolume lvolID c Q w :
  (∀ err c' w', same_client c c' →
     match err with
     | None => unreliable ∨ bdev_lookup (tgt w' (rpcURL c)) lvolID = None
     | Some e => errors_Is e ErrJSONNoSuchDevice = true →
                 unreliable ∨ bdev_lookup (tgt w' (rpcURL c)) lvolID = None
     end → Q (Done (err, c')) w') →
  wp step (rpcClient.deleteVolume lvolID c) Q w.
Proof.
  intros HQ. unfold rpcClient.deleteVolume, rpcClient.call_.
  apply wp_st_bind, wp_st_bind, wp_call. intros o w' Hrpc Ho.
  pose proof (lvol_delete_law _ _ _ _ Hrpc) as Hlaw. destruct o as [r|code msg|].
  - simpl. replace (dec_iface dec_any r tt) with (tt, true) by (by destruct r).
    apply HQ; [done|]. right. apply Hlaw.
  - cbn beta iota zeta delta [bind_post]. apply HQ; [done|].
    rewrite <-(rpc_error_law _ _ _ _ _ _ Hrpc) in Hlaw. rewrite Hlaw.
    case_bool_decide; [intros _; by right|done].
  - intros c' e He. cbn beta iota zeta delta [bind_post]. apply HQ; [done|].
    assert (unreliable) by (do 4 eexists; exact Hrpc).
    destruct (errorMatches _ _); by left.
Qed.

Lemma wp_node_delete lvolID node Q w :
  (∀ err node' w',
     (err = None ∨ (∃ e, err = Some e ∧ errors_Is e ErrJSONNoSuchDevice = true) →
      unreliable ∨ node_removed node lvolID w') → Q (Done (err, node')) w') →
  (∀ m w', Q (Panicked m) w') →
  wp step (SpdkNode.DeleteVolume lvolID node) Q w.
Proof.
  intros HQ Hp. destruct node as [n|n|]; [..|apply Hp];
    (apply wp_proc_bind, wp_zoom, wp_rpc_deleteVolume; intros err c' w' Hc Herr; simpl; apply HQ;
     unfold node_removed; simpl; intros [->|(e & -> & He)]; [done|by apply Herr]).
Qed.

Lemma NewSpdkSecrets_plain text e : NewSpdkSecrets text = inl e → plain e.
Proof.
  unfold NewSpdkSecrets, Unmarshal. destruct (parse text) as [j|]; [|by intros [= <-]].
  destruct (dec_SpdkSecrets j []) as [l []]; [done|by intros [= <-]].
Qed.

Lemma getSpdkNode_plain cs name secrets e :
  controllerServer.getSpdkNode cs name secrets = Ret (inl e) → plain e.
Proof.
  unfold controllerServer.getSpdkNode.
  destruct (NewSpdkSecrets _) as [e1|tokens] eqn:He.
  { intros [= <-]. by eapply NewSpdkSecrets_plain. }
  destruct (spdkNodeConfigs cs !! name); [|done].
  destruct (find_first _ tokens); [|by intros [= <-]].
  by destruct (NewSpdkNode _ _ _ _ _).
Qed.

(** The volume is gone from the node its id names. *)
Definition removed (cs : controllerServer) (secrets : gomap) (volumeID : string) (w : W) : Prop :=
  ∃ node lvol, volume_node cs secrets volumeID node lvol ∧ node_removed node lvol w.

Lemma wp_deleteVolume cs volumeID secrets w :
  wp step (controllerServer.deleteVolume cs volumeID secrets)
    (λ out w', ∀ err, out = Done err →
       err = None ∨ (∃ e, err = Some e ∧ errors_Is e ErrJSONNoSuchDevice = true) →
       unreliable ∨ removed cs secrets volumeID w') w.
Proof.
  unfold controllerServer.deleteVolume.
  destruct (controllerServer.getSPDKVol volumeID) as [e|v] eqn:Hv.
  { intros err [= <-] [|(e' & [= <-] & He)]; [done|].
    unfold controllerServer.getSPDKVol in Hv. repeat case_match; by simplify_eq. }
  apply wp_proc_bind, wp_getSpdkNode; [|done]. intros [e|node] Hnode.
  { intros err [= <-] [|(e' & [= <-] & He)]; [done|].
    by rewrite (getSpdkNode_plain _ _ _ _ Hnode) in He. }
  apply wp_proc_bind, wp_node_delete; [|done]. intros err node' w' Herr err' [= <-] Hcase.
  destruct (Herr Hcase) as [?|Hr]; [by left|right]. exists node, (lvolID v).
  split; [by exists v|done].
Qed.

Lemma wp_unpublishVolume cs volumeID secrets w :
  wp step (controllerServer.unpublishVolume cs volumeID secrets)
    (λ out w', ∀ e, out = Done (Some e) → errors_Is e ErrVolumeDeleted = true →
       unreliable ∨ removed cs secrets volumeID w') w.
Proof.
  unfold controllerServer.unpublishVolume.
  destruct (controllerServer.getSPDKVol volumeID) as [e|v] eqn:Hv.
  { intros e' [= <-] He. unfold controllerServer.getSPDKVol in Hv.
    repeat case_match; by simplify_eq. }
  apply wp_proc_bind, wp_getSpdkNode; [|done]. intros [e|node] Hnode.
  { intros e' [= <-] He. by rewrite (getSpdkNode_plain _ _ _ _ Hnode) in He. }
  apply wp_proc_bind, wp_node_unpublish; [|done]. intros err node' w' _ Herr e [= ->] He.
  destruct Herr as [?|[Hpl|[-> Hr]]]; [by left|by rewrite Hpl in He|right].
  exists node, (lvolID v). split; [by exists v|done].
Qed.

Lemma removed_quiet cs secrets volumeID w w' :
  quiet w w' → removed cs secrets volumeID w → removed cs secrets volumeID w'.
Proof. intros Hq (node & lvol & Hv & Hr). exists node, lvol. unfold node_removed in *. by rewrite Hq. Qed.

(** C7: when [DeleteVolume] succeeds, the volume is not on its node any more (as long as
    the target answers). *)
Theorem DeleteVolume_removed cs volumeID secrets w :
  ¬ unreliable →
  wp step (controllerServer.DeleteVolume cs volumeID secrets)
    (λ out w', out = Done None → removed cs secrets volumeID w') w.
Proof.
  intros Hu. apply wp_with_lock. intros w1 _. cbv zeta.
  assert (∀ w2, wp step (err ← controllerServer.deleteVolume cs volumeID secrets;
      match err with
      | Some e => if errors_Is e ErrJSONNoSuchDevice then mret None
                  else mret (Some (controllerServer.internal e))
      | None => mret None
      end) (λ out w2, ∀ w3, quiet w2 w3 → out = Done None → removed cs secrets volumeID w3) w2)
    as Hdel.
  { intros w2. apply wp_proc_bind. eapply wp_mono; [apply wp_deleteVolume|].
    intros [err|why] w3 Hr; [|done]. specialize (Hr err eq_refl).
    cbn beta iota delta [bind_post].
    destruct err as [e|]; [destruct (errors_Is e ErrJSONNoSuchDevice) eqn:He; [|done]|];
      intros w4 Hq _; (destruct Hr as [?|Hr]; [by eauto|done|by eapply removed_quiet]). }
  apply wp_proc_bind. eapply wp_mono; [apply wp_unpublishVolume|].
  intros [[e|]|why] w2 Hr; [|apply Hdel|done]. cbn beta iota delta [bind_post].
  destruct (errors_Is e ErrVolumeUnpublished); [apply Hdel|].
  destruct (errors_Is e ErrVolumeDeleted) eqn:He; [|done]. intros w3 Hq _.
  destruct (Hr e eq_refl He) as [?|Hrem]; [done|by eapply removed_quiet].
Qed.

(** C17: deleting a volume that is not there succeeds, and changes no target (as long as
    the target answers). *)
Theorem DeleteVolume_again cs volumeID secrets w node lvol :
  ¬ unreliable → volume_node cs secrets volumeID node lvol → node ≠ NodeNil →
  node_removed node lvol w →
  wp step (controllerServer.DeleteVolume cs volumeID secrets)
    (λ out w', out = Done None ∧ quiet w w') w.
Proof.
  intros Hu (v & Hv & <- & Hnode) Hnil Hrem. apply wp_with_lock. intros w1 Hq1. cbv zeta.
  apply wp_proc_bind. unfold controllerServer.unpublishVolume. rewrite Hv.
  apply wp_proc_bind. rewrite Hnode. cbn beta iota delta [wp bind_post].
  unfold node_removed in Hrem. rewrite <-Hq1 in Hrem.
  destruct node as [n|n|]; [..|done]; apply wp_proc_bind, wp_proc_bind.
  - eapply wp_mono; [apply wp_unpublish|]. intros [[err n']|why] w2; [|done].
    intros (_ & Ho & [Hun|[? _]]); [|done]. simpl in Hrem.
    inversion Hun as [| [b Hb] |[b Hb]]; subst; [|congruence..].
    assert (quiet w1 w2) as Hq2 by by eapply only_quiet.
    intros w4 Hq4. split; [done|].
    by eapply quiet_trans; [|eapply quiet_trans].
  - eapply wp_mono; [apply wp_iscsi_unpublish|]. intros [[err n']|why] w2; [|done].
    intros (_ & Ho & [Hun|[? _]]); [|done]. simpl in Hrem.
    inversion Hun as [| [b Hb] |[b Hb] |? ? [b Hb]]; subst; [|congruence..].
    assert (quiet w1 w2) as Hq2 by by eapply only_quiet.
    intros w4 Hq4. split; [done|].
    by eapply quiet_trans; [|eapply quiet_trans].
Qed.

(** ** Scheduling *)

Definition node_stores (node : spdkNode) (w : W) : list LvStore :=
  rpcClient.LvStore_of_raw <$> t_lvstores (tgt w (node_url node)).

(** A configured node of this name has a volume store of this name with room. *)
Definition candidate (cs : controllerServer) (secrets : gomap) (sizeMiB : Z)
    (choice : string * string) (w : W) : Prop :=
  ∃ node store, controllerServer.getSpdkNode cs choice.1 secrets = Ret (inr node) ∧
    store ∈ node_stores node w ∧ LvStore_Name store = choice.2 ∧
    (sizeMiB < LvStore_FreeSizeMiB store)%Z.

(** The node does not tell its volume stores. *)
Definition declines (node : spdkNode) (w : W) : Prop :=
  ∃ o t', rpc (tgt w (node_url node)) "bdev_lvol_get_lvstores" None o t' ∧ ∀ r, o ≠ RpcOk r.

Lemma wp_rpc_lvStores c Q w :
  (∀ r c' w', same_client c c' → quiet w w' →
     match r with
     | inr l => l = rpcClient.LvStore_of_raw <$> t_lvstores (tgt w (rpcURL c))
     | inl _ => ∃ o t', rpc (tgt w (rpcURL c)) "bdev_lvol_get_lvstores" None o t' ∧
                        ∀ r, o ≠ RpcOk r
     end → Q (Done (r, c')) w') →
  wp step (rpcClient.lvStores c) Q w.
Proof.
  intros HQ. apply wp_st_bind, wp_call. intros o w' Hrpc Ho.
  destruct (get_lvstores_law _ _ _ Hrpc) as [Ht Hl].
  assert (quiet w w') as Hq by by eapply only_quiet.
  destruct o as [r|code msg|]; [|simpl; apply HQ; [done..|by do 2 eexists]
                                |simpl; intros e He; apply HQ; [done..|by do 2 eexists]].
  destruct Hl as (l & Hdec & ->). rewrite dec_iface_null, Hdec by done. simpl. by apply HQ.
Qed.

Lemma wp_node_LvStores node Q w :
  (∀ r node' w', same_spdk node node' → quiet w w' →
     match r with inr l => l = node_stores node w | inl _ => declines node w end →
     Q (Done (r, node')) w') →
  (∀ m w', Q (Panicked m) w') →
  wp step (SpdkNode.LvStores node) Q w.
Proof.
  intros HQ Hp. destruct node as [n|n|]; [..|apply Hp];
    (apply wp_proc_bind, wp_zoom, wp_rpc_lvStores; intros r c' w' Hc Hq Hr; simpl; by apply HQ).
Qed.

Lemma wp_schedule_loop cs sizeMiB secrets keys w0 w :
  quiet w0 w →
  wp step (controllerServer.schedule_loop cs sizeMiB secrets keys)
    (λ out _, match out with
     | Done (inr choice) => candidate cs secrets sizeMiB choice w0
     | Done (inl _) => ∀ key cfg node, key ∈ keys → spdkNodeConfigs cs !! key = Some cfg →
         controllerServer.getSpdkNode cs (cfg_Name cfg) secrets = Ret (inr node) →
         declines node w0 ∨
         Forall (λ s, (LvStore_FreeSizeMiB s ≤ sizeMiB)%Z) (node_stores node w0)
     | Panicked _ => True
     end) w.
Proof.
  revert w. induction keys as [|key keys IH]; intros w Hq.
  { intros key cfg node []%elem_of_nil. }
  cbn [controllerServer.schedule_loop].
  assert (∀ w, quiet w0 w → ∀ P : Prop,
    (∀ cfg node, spdkNodeConfigs cs !! key = Some cfg →
       controllerServer.getSpdkNode cs (cfg_Name cfg) secrets = Ret (inr node) →
       declines node w0 ∨
       Forall (λ s, (LvStore_FreeSizeMiB s ≤ sizeMiB)%Z) (node_stores node w0)) →
    wp step (controllerServer.schedule_loop cs sizeMiB secrets keys)
      (λ out _, match out with
       | Done (inr choice) => candidate cs secrets sizeMiB choice w0
       | Done (inl _) => ∀ key' cfg node, key' ∈ key :: keys → spdkNodeConfigs cs !! key' = Some cfg →
           controllerServer.getSpdkNode cs (cfg_Name cfg) secrets = Ret (inr node) →
           declines node w0 ∨
           Forall (λ s, (LvStore_FreeSizeMiB s ≤ sizeMiB)%Z) (node_stores node w0)
       | Panicked _ => True
       end) w) as Hskip.
  { intros w1 Hq1 _ Hkey. eapply wp_mono; [by apply IH|].
    intros [[e|choice]|why] w2 Hpost; [|done..].
    intros key' cfg node [->|Hin]%elem_of_cons; [apply Hkey|by apply Hpost]. }
  destruct (spdkNodeConfigs cs !! key) as [cfg|] eqn:Hcfg; [|by apply (Hskip _ Hq True)].
  apply wp_proc_bind, wp_getSpdkNode; [|done]. intros [e|node] Hnode.
  { apply (Hskip _ Hq True). intros cfg' node [= <-] Hn. congruence. }
  apply wp_proc_bind, wp_node_LvStores; [|done]. intros r node' w1 _ Hq1 Hr.
  assert (node_stores node w = node_stores node w0) as Hst
    by (unfold node_stores; by rewrite Hq).
  cbn beta iota delta [bind_post]. destruct r as [e|stores].
  { apply (Hskip _ (quiet_trans _ _ _ Hq Hq1) True). intros cfg' node2 [= <-] Hn.
    rewrite Hnode in Hn. injection Hn as <-. left. unfold declines in *. by rewrite <-Hq. }
  subst stores. rewrite Hst. destruct (find_first _ (node_stores node w0)) as [store|] eqn:Hfind.
  - apply find_first_elem in Hfind as [Hin Hsp]. exists node, store. simpl.
    split_and!; [done..|]. by apply Z.ltb_lt.
  - apply (Hskip _ (quiet_trans _ _ _ Hq Hq1) True). intros cfg' node2 [= <-] Hn.
    rewrite Hnode in Hn. injection Hn as <-. right. apply find_first_None in Hfind.
    eapply Forall_impl; [exact Hfind|]. intros s Hs. by apply Z.ltb_ge in Hs.
Qed.

Lemma wp_schedule cs sizeMiB secrets w :
  wp step (controllerServer.schedule cs sizeMiB secrets)
    (λ out _, match out with
     | Done (inr choice) => candidate cs secrets sizeMiB choice w
     | Done (inl _) => ∀ key cfg node, spdkNodeConfigs cs !! key = Some cfg →
         controllerServer.getSpdkNode cs (cfg_Name cfg) secrets = Ret (inr node) →
         declines node w ∨
         Forall (λ s, (LvStore_FreeSizeMiB s ≤ sizeMiB)%Z) (node_stores node w)
     | Panicked _ => True
     end) w.
Proof.
  intros keys w1 Hkeys Hstep. eapply wp_mono.
  { apply (wp_schedule_loop cs sizeMiB secrets keys w w1). by apply other_law in Hstep. }
  intros [[e|choice]|why] w2 Hpost; [|done..].
  intros key cfg node Hcfg Hnode. apply (Hpost key cfg node); [|done..].
  simpl in Hkeys. rewrite Hkeys. apply list_elem_of_fmap. exists (key, cfg).
  split; [done|]. by apply elem_of_map_to_list.
Qed.

(** C19: [schedule] answers a configured node and one of its volume stores with more free
    space than asked for, and fails only when no node that tells its stores has one:
    whatever the order the nodes are visited in. *)
Theorem schedule_sound_complete cs sizeMiB secrets w :
  wp step (controllerServer.schedule cs sizeMiB secrets)
    (λ out _, match out with
     | Done (inr choice) => candidate cs secrets sizeMiB choice w
     | Done (inl _) => ∀ key cfg node, spdkNodeConfigs cs !! key = Some cfg →
         controllerServer.getSpdkNode cs (cfg_Name cfg) secrets = Ret (inr node) →
         declines node w ∨
         Forall (λ s, (LvStore_FreeSizeMiB s ≤ sizeMiB)%Z) (node_stores node w)
     | Panicked _ => True
     end) w.
Proof. apply wp_schedule. Qed.
End spec.
