(* ===== verification/VolumesSpec.v ===== *)
(** Volumes by their names: where the controller finds a volume, and what it tells about
    one.

    The storage nodes are told by a map from their names to their clients ([ready]); all
    of them answer. *)

From Stdlib Require Import Ascii.
From S2P Require Import Prelude.
From S2P Require Import GoLang.
From S2P Require Import GoJson.
From S2P Require Import JsonText.
From S2P Require Import World.
From S2P Require Import RpcClient.
From S2P Require Import Nvmf.
From S2P Require Import Iscsi.
From S2P Require Import SpdkNode.
From S2P Require Import Util.
From S2P Require Import VolumeLocks.
From S2P Require Import Controller.
From S2P Require Import Target.
From S2P Require Import TargetCalls.
From S2P Require Import NvmfSpec.
From S2P Require Import IscsiSpec.
From S2P Require Import ControllerSpec.

(** ** What a target says *)

(** What [getLvstore] answers. *)
Definition lvstore_name (t : target) (lvolID : string) : gores string :=
  match bdev_lookup t lvolID with
  | None => inl (ESentinel ErrJSONNoSuchDevice)
  | Some b =>
      match BDev_DriverSpecific b with
      | None => inl (ENew ("no driver_specific for " +:+ lvolID))
      | Some uuid =>
          match find_first (λ l, bool_decide (LvStore_UUID l = uuid))
                  (rpcClient.LvStore_of_raw <$> t_lvstores t) with
          | Some l => inr (LvStore_Name l)
          | None => inl (ENew ("lvstore for " +:+ lvolID +:+ " not found"))
          end
      end
  end.

Lemma lvstore_name_store t lvolID lvs :
  lvstore_name t lvolID = inr lvs ↔ volume_store t lvolID = Some lvs.
Proof.
  unfold lvstore_name, volume_store. destruct (bdev_lookup t lvolID) as [b|]; simpl; [|done].
  destruct (BDev_DriverSpecific b) as [uuid|]; simpl; [|done].
  induction (t_lvstores t) as [|r l IH]; simpl; [done|]. case_bool_decide; [|apply IH].
  simpl. split; by intros [= <-].
Qed.

Lemma volume_store_in t lvolID lvs :
  volume_store t lvolID = Some lvs →
  lvs ∈ LvStore_Name <$> (rpcClient.LvStore_of_raw <$> t_lvstores t).
Proof.
  unfold volume_store. destruct (bdev_lookup t lvolID) as [b|]; simpl; [|done].
  destruct (BDev_DriverSpecific b) as [uuid|]; simpl; [|done].
  intros (r & [Hin _]%find_first_elem & ->)%fmap_Some. apply list_elem_of_fmap.
  exists (rpcClient.LvStore_of_raw r). split; [done|]. apply list_elem_of_fmap. eauto.
Qed.

(** What [VolumeInfo] answers. *)
Definition nvmf_info (n : nodeNVMf) (lvolID : string) (t : target) : gores (gmap string string) :=
  match bdev_lookup t lvolID, lvstore_name t lvolID with
  | None, _ => inl (ESentinel ErrJSONNoSuchDevice)
  | Some _, inl e => inl e
  | Some b, inr lvs => inr (list_to_map [
      ("targetType", nvmf_targetType n); ("targetAddr", nvmf_targetAddr n);
      ("targetPort", nvmf_targetPort n);
      ("nqn", nodeNVMf.getVolumeNqn lvolID); ("model", lvolID);
      ("lvolSize", FormatInt (mul64 (BDev_BlockSize b) (BDev_NumBlocks b)));
      ("lvstore", lvs)])
  end.
Definition iscsi_info (n : nodeISCSI) (lvolID : string) (t : target) : gores (gmap string string) :=
  match bdev_lookup t lvolID, lvstore_name t lvolID with
  | None, _ => inl (ENew ("volume not exists: " +:+ lvolID))
  | Some _, inl e => inl e
  | Some _, inr lvs => inr (list_to_map [
      ("targetAddr", iscsi_targetAddr n); ("targetPort", iscsi_targetPort n);
      ("iqn", iqn lvolID); ("targetType", "iscsi"); ("lvstore", lvs)])
  end.
Definition node_info (node : spdkNode) : string → target → gores (gmap string string) :=
  match node with
  | NodeNVMf n => nvmf_info n
  | NodeISCSI n => iscsi_info n
  | NodeNil => λ _ _, inl (ENew "")
  end.

(** The volume of a name in the first of some volume stores that has one. *)
Fixpoint named_in (t : target) (name : string) (stores : list LvStore) : option string :=
  match stores with
  | [] => None
  | s :: stores' =>
      match bdev_lookup t (LvStore_Name s +:+ "/" +:+ name) with
      | Some b => Some (BDev_UUID b)
      | None => named_in t name stores'
      end
  end.

(** The volume of a name on a target. *)
Definition named (t : target) (name : string) : option string :=
  named_in t name (rpcClient.LvStore_of_raw <$> t_lvstores t).

(** The same volumes and stores. *)
Definition same_volumes (t t' : target) : Prop :=
  t_bdevs t' = t_bdevs t ∧ t_alias t' = t_alias t ∧ t_lvstores t' = t_lvstores t.

#[export] Instance same_volumes_preorder : PreOrder same_volumes.
Proof. split; [done|]. intros x y z (? & ? & ?) (? & ? & ?). split_and!; etrans; eauto. Qed.

Lemma same_volumes_lookup t t' name : same_volumes t t' → bdev_lookup t' name = bdev_lookup t name.
Proof. intros (Hb & Ha & _). unfold bdev_lookup. by rewrite Hb, Ha. Qed.

Lemma same_volumes_named t t' name : same_volumes t t' → named t' name = named t name.
Proof.
  intros Hs. unfold named. rewrite (proj2 (proj2 Hs)). induction (_ <$> t_lvstores t) as [|s l IH]; [done|].
  simpl. by rewrite IH, (same_volumes_lookup _ _ _ Hs).
Qed.

(** ** Targets that answer *)

(** Every request gets an answer, and the volume stores and target nodes are always told. *)
Class Answering {W step} (T : @Transport W step) := {
  reliable : ¬ unreliable (T := T);
  telling t method o t' : method = "bdev_lvol_get_lvstores" ∨ method = "iscsi_get_target_nodes" →
    rpc t method None o t' → ∃ r, o = RpcOk r
}.

Section spec.
Context {W : Type} {step : W → ∀ o : op, reply o → W → Prop} {T : Transport step}.
Context `{!VolumeLaws T, !SnapshotLaws T, !NvmfLaws T, !IscsiLaws T} `{!Undisturbed (T := T), !Answering T}.

Lemma wp_read_getVolume name c Q w :
  (∀ c' w', same_client c c' → quiet w w' →
     Q (Done (match bdev_lookup (tgt w (rpcURL c)) name with
              | Some b => inr b
              | None => inl (ESentinel ErrJSONNoSuchDevice)
              end, c')) w') →
  wp step (rpcClient.getVolume name c) Q w.
Proof. intros HQ. apply wp_getVolume; [|by intros ?%reliable]. intros id w' Hq. by apply HQ. Qed.

Lemma wp_read_lvStores c Q w :
  (∀ c' w', same_client c c' → quiet w w' →
     Q (Done (inr (rpcClient.LvStore_of_raw <$> t_lvstores (tgt w (rpcURL c))), c')) w') →
  wp step (rpcClient.lvStores c) Q w.
Proof.
  intros HQ. apply wp_rpc_lvStores. intros [e|l] c' w' Hc Hq Hr; [|subst l; by apply HQ].
  destruct Hr as (o & t' & Hr & Ho). destruct (telling _ _ _ _ (or_introl eq_refl) Hr) as [r ->].
  by destruct (Ho r).
Qed.

Lemma wp_read_getLvstore name c Q w :
  (∀ c' w', same_client c c' → quiet w w' →
     Q (Done (lvstore_name (tgt w (rpcURL c)) name, c')) w') →
  wp step (rpcClient.getLvstore name c) Q w.
Proof.
  intros HQ. unfold lvstore_name in HQ. apply wp_st_bind, wp_read_getVolume. intros c1 w1 Hc1 Hq1.
  cbn beta iota delta [bind_post].
  destruct (bdev_lookup (tgt w (rpcURL c)) name) as [b|]; [|by apply HQ].
  destruct (BDev_DriverSpecific b) as [uuid|]; [|by apply HQ].
  apply wp_st_bind, wp_read_lvStores. intros c2 w2 Hc2 Hq2. cbn beta iota delta [bind_post].
  rewrite Hc1, Hq1 in *. specialize (HQ c2 w2 (transitivity Hc1 Hc2) (quiet_trans _ _ _ Hq1 Hq2)).
  by destruct (find_first _ _).
Qed.

(** ** A node tells about a volume *)

Lemma wp_node_VolumeInfo lvolID node Q w :
  node ≠ NodeNil →
  (∀ node' w', same_spdk node node' → quiet w w' →
     Q (Done (node_info node lvolID (tgt w (node_url node)), node')) w') →
  wp step (SpdkNode.VolumeInfo lvolID node) Q w.
Proof.
  pose proof reliable as Hrel.
  intros Hnil HQ. destruct node as [n|n|]; [..|done]; apply wp_proc_bind; simpl in HQ.
  - apply wp_st_bind, wp_zoom, wp_read_getVolume. intros c1 w1 Hc1 Hq1. unfold nvmf_info in HQ. simpl.
    destruct (bdev_lookup (tgt w (rpcURL (nvmf_client n))) lvolID) as [b|]; [|by apply HQ].
    apply wp_st_bind, wp_zoom, wp_read_getLvstore. intros c2 w2 Hc2 Hq2. simpl in *.
    rewrite Hc1, Hq1 in *.
    assert (quiet w w2) as Hq by by eapply quiet_trans.
    destruct (lvstore_name _ _); apply HQ; try done; split; [exact (transitivity Hc1 Hc2)|done|exact (transitivity Hc1 Hc2)|done].
  - apply wp_st_bind, wp_zoom, wp_isVolumeCreated; [|done]. intros id w1 Hq1.
    unfold iscsi_info in HQ. simpl.
    destruct (bdev_lookup (tgt w (rpcURL (iscsi_client n))) lvolID) as [b|].
    2:{ rewrite bool_decide_false by (by intros []). by apply HQ. }
    rewrite bool_decide_true by eauto. cbn beta iota delta [bind_post negb wp].
    apply wp_st_bind, wp_zoom, wp_read_getLvstore. intros c2 w2 Hc2 Hq2. simpl in *.
    rewrite Hq1 in *.
    assert (quiet w w2) as Hq by by eapply quiet_trans.
    destruct (lvstore_name _ _); by apply HQ.
Qed.

Lemma node_info_same node node' : same_spdk node node' → node_info node' = node_info node.
Proof.
  destruct node as [n|n|], node' as [n'|n'|]; try done; simpl.
  - intros [_ Hl]. unfold nodeNVMf.listenAddress in Hl. injection Hl as Ht Ha Hp.
    unfold nvmf_info. by rewrite Ht, Ha, Hp.
  - intros (_ & Ha & Hp). unfold iscsi_info. by rewrite Ha, Hp.
Qed.

(** ** Publication and the volumes *)

(** No target's volumes have changed. *)
Definition same_world_volumes (w w' : W) : Prop := ∀ url, same_volumes (tgt w url) (tgt w' url).

#[export] Instance same_world_volumes_preorder : PreOrder same_world_volumes.
Proof.
  split; [by intros w url|]. intros x y z H1 H2 url. exact (transitivity (H1 url) (H2 url)).
Qed.

Lemma quiet_same_volumes w w' : quiet w w' → same_world_volumes w w'.
Proof. intros Hq url. by rewrite Hq. Qed.

Lemma only_same_volumes url w w' :
  only url w w' → same_volumes (tgt w url) (tgt w' url) → same_world_volumes w w'.
Proof. intros Ho Hs u. destruct (decide (u = url)) as [->|Hu]; [done|]. by rewrite Ho. Qed.

Lemma publish_spec_volumes n lvolID t err t' : publish_spec n lvolID t err t' → same_volumes t t'.
Proof. by destruct 1. Qed.

Lemma iscsi_publish_spec_volumes lvolID t err t' :
  iscsi_publish_spec lvolID t err t' → same_volumes t t'.
Proof.
  assert (∀ t t', grown t t' → same_volumes t t') as Hg by by intros t1 t2 (? & ? & ? & ? & ? & _).
  destruct 1 as [| |t1 _ _ H|e t1 _ _ H]; [done..|exact (Hg _ _ H)|exact (Hg _ _ H)].
Qed.

(** A node on which the volume is, and published. *)
Definition settled (node : spdkNode) (lvolID : string) (t : target) : Prop :=
  is_Some (bdev_lookup t lvolID) ∧ node_published node lvolID t.

Lemma wp_publish_settled lvolID node w :
  wp step (SpdkNode.PublishVolume lvolID node) (λ out w', ∀ err node', out = Done (err, node') →
    same_spdk node node' ∧ same_world_volumes w w' ∧
    (err = None → settled node lvolID (tgt w' (node_url node)))) w.
Proof.
  pose proof reliable as Hrel.
  destruct node as [n|n|]; [..|done]; apply wp_proc_bind.
  - eapply wp_mono; [apply wp_publish|]. intros [[err n']|why] w'; [|done].
    intros (Hn & Ho & [Hp|[? _]]); [|done]. intros err' node' [= <- <-]. split_and!; [done| |].
    + eapply only_same_volumes; [done|]. by eapply publish_spec_volumes.
    + intros ->. apply publish_published in Hp as (Hp & Hb & Hs). split; [|done]. simpl. by rewrite Hb.
  - eapply wp_mono; [apply wp_iscsi_publish|]. intros [[err n']|why] w'; [|done].
    intros (Hn & Ho & [Hp|[? _]]); [|done]. intros err' node' [= <- <-].
    pose proof (iscsi_publish_spec_volumes _ _ _ _ Hp) as Hv. split_and!; [done| |].
    + by eapply only_same_volumes.
    + intros ->. split; [|by eapply iscsi_publish_published]. simpl.
      rewrite (same_volumes_lookup _ _ _ Hv). by inversion Hp.
Qed.

Lemma wp_iscsi_publish_again lvolID n w :
  settled (NodeISCSI n) lvolID (tgt w (rpcURL (iscsi_client n))) →
  wp step (nodeISCSI.PublishVolume lvolID n)
    (λ out w', quiet w w' ∧ ∃ n', out = Done (None, n') ∧ same_iscsi n n') w.
Proof.
  pose proof reliable as Hrel.
  intros [Hb (name & tn & Hin & Htn)]. simpl in Hin.
  unfold nodeISCSI.PublishVolume. apply wp_st_bind, wp_zoom, wp_isVolumeCreated; [|done].
  intros id w1 Hq1. rewrite bool_decide_true by done. cbn beta iota delta [bind_post wp].
  apply wp_st_bind, wp_st_bind, wp_zoom, wp_call. intros o w2 Hrpc Ho. simpl in Hrpc, Ho.
  destruct (telling _ _ _ _ (or_intror eq_refl) Hrpc) as [r ->].
  destruct (get_target_nodes_law _ _ _ Hrpc) as [Ht (l & Hdec & Hl)].
  rewrite dec_iface_null, Hdec by done. simpl.
  replace (existsb _ l) with true.
  - split; [|by eexists]. eapply quiet_trans; [done|]. by eapply only_quiet.
  - symmetry. apply existsb_exists. exists tn. split; [|by apply bool_decide_eq_true].
    apply list_elem_of_In, Hl. exists name. by rewrite Hq1.
Qed.

Lemma wp_publish_again lvolID node w :
  settled node lvolID (tgt w (node_url node)) →
  wp step (SpdkNode.PublishVolume lvolID node)
    (λ out w', quiet w w' ∧ ∃ node', out = Done (None, node') ∧ same_spdk node node') w.
Proof.
  pose proof reliable as Hrel.
  intros Hset. destruct node as [n|n|]; [..|by destruct Hset]; apply wp_proc_bind.
  - destruct Hset as [[b Hb] Hp]. eapply wp_mono; [apply wp_publish|].
    intros [[err n']|why] w'; [|done]. intros (Hn & Ho & [Hs|[? _]]); [|done]. simpl in *.
    inversion Hs as [|? ? E1 E2|? ? Hnone|]; subst; [congruence| | |done].
    + split; [|by eexists]. by eapply only_quiet.
    + destruct Hp as (s & ? & _). congruence.
  - eapply wp_mono; [by apply wp_iscsi_publish_again|]. intros out w' (Hq & n' & -> & Hn).
    split; [done|by eexists].
Qed.

(** The id of a volume that is settled on its node, and what is told about it. *)
Definition told cs secrets (volumeID : string) (info : gmap string string) (w : W) : Prop :=
  ∃ node lvol, volume_node cs secrets volumeID node lvol ∧
    settled node lvol (tgt w (node_url node)) ∧
    node_info node lvol (tgt w (node_url node)) = inr info.

Lemma wp_publishVolume_told cs volumeID secrets w :
  wp step (controllerServer.publishVolume cs volumeID secrets)
    (λ out w', ∀ info, out = Done (inr info) →
       same_world_volumes w w' ∧ told cs secrets volumeID info w') w.
Proof.
  unfold controllerServer.publishVolume.
  destruct (controllerServer.getSPDKVol volumeID) as [e|v] eqn:Hv; [done|].
  apply wp_proc_bind, wp_getSpdkNode; [|done]. intros [e|node] Hnode; [done|].
  apply wp_proc_bind. eapply wp_mono; [apply wp_publish_settled|].
  intros [[err node']|why] w1 Hp; [|done]. destruct (Hp _ _ eq_refl) as (Hsame & Hvol & Hset).
  cbn beta iota delta [bind_post]. destruct err as [e|]; [done|]. specialize (Hset eq_refl).
  apply wp_proc_bind, wp_node_VolumeInfo.
  { by destruct node, node'. }
  intros node2 w2 _ Hq. cbn beta iota delta [bind_post].
  assert (node_url node' = node_url node) as Hurl.
  { destruct node, node'; try done; apply Hsame. }
  rewrite (node_info_same _ _ Hsame), Hurl.
  destruct (node_info node _ _) as [e|info] eqn:Hinfo.
  - apply wp_proc_bind. eapply wp_mono; [apply wp_true|]. by intros [err|why] w3 _.
  - intros info' [= <-]. split.
    + etrans; [done|]. by apply quiet_same_volumes.
    + exists node, (lvolID v). rewrite Hq. split_and!; [by exists v|done..].
Qed.

Lemma wp_publishVolume_again cs volumeID secrets info w :
  told cs secrets volumeID info w →
  wp step (controllerServer.publishVolume cs volumeID secrets)
    (λ out w', out = Done (inr info) ∧ quiet w w') w.
Proof.
  intros (node & lvol & (v & Hv & <- & Hnode) & Hset & Hinfo).
  unfold controllerServer.publishVolume. rewrite Hv, Hnode. apply wp_proc_bind, wp_proc_bind.
  eapply wp_mono; [by apply wp_publish_again|]. intros out w1 (Hq1 & node' & -> & Hsame).
  cbn beta iota delta [bind_post].
  apply wp_proc_bind, wp_node_VolumeInfo; [by destruct node, node'|]. intros node2 w2 _ Hq2.
  assert (node_url node' = node_url node) as Hurl.
  { destruct node, node'; try done; apply Hsame. }
  rewrite (node_info_same _ _ Hsame), Hurl, Hq1, Hinfo. split; [done|by eapply quiet_trans].
Qed.

(** ** Volumes by name *)

(** The configured nodes and their clients, by name; no two share a target. *)
Record ready cs secrets (nodes : gmap string spdkNode) : Prop := {
  ready_config key : is_Some (spdkNodeConfigs cs !! key) ↔ is_Some (nodes !! key);
  ready_name key cfg : spdkNodeConfigs cs !! key = Some cfg → cfg_Name cfg = key;
  ready_node key node : nodes !! key = Some node →
    controllerServer.getSpdkNode cs key secrets = Ret (inr node) ∧ node ≠ NodeNil;
  ready_url key1 key2 node1 node2 : nodes !! key1 = Some node1 → nodes !! key2 = Some node2 →
    node_url node1 = node_url node2 → key1 = key2
}.

(** The volume of a name on the node of a name. *)
Definition volume_at (nodes : gmap string spdkNode) (name : string) (w : W) (key vol : string) : Prop :=
  ∃ node, nodes !! key = Some node ∧ named (tgt w (node_url node)) name = Some vol.

(** It is on this node only. *)
Definition sole nodes name w key vol : Prop :=
  volume_at nodes name w key vol ∧ ∀ key' vol', volume_at nodes name w key' vol' → key' = key.

Lemma ready_lookup cs secrets nodes key node :
  ready cs secrets nodes → controllerServer.getSpdkNode cs key secrets = Ret (inr node) →
  nodes !! key = Some node ∧ node ≠ NodeNil.
Proof.
  intros Hready Hget.
  assert (is_Some (spdkNodeConfigs cs !! key)) as [node' Hn]%(ready_config _ _ _ Hready).
  { unfold controllerServer.getSpdkNode in Hget. destruct (NewSpdkSecrets _); [done|].
    destruct (spdkNodeConfigs cs !! key); [by eexists|done]. }
  destruct (ready_node _ _ _ Hready key node' Hn) as [Hg Hnil]. split; congruence.
Qed.

Lemma volume_at_same nodes name w w' key vol :
  same_world_volumes w w' → volume_at nodes name w' key vol ↔ volume_at nodes name w key vol.
Proof.
  intros Hs. unfold volume_at. split; intros (node & Hn & Hv); exists node; (split; [done|]).
  - by rewrite <-(same_volumes_named _ _ _ (Hs (node_url node))).
  - by rewrite (same_volumes_named _ _ _ (Hs (node_url node))).
Qed.

Lemma sole_same nodes name w w' key vol :
  same_world_volumes w w' → sole nodes name w key vol → sole nodes name w' key vol.
Proof.
  intros Hs [Hv Hall]. split; [by apply (volume_at_same _ _ _ _ _ _ Hs)|].
  intros key' vol' Hv'. apply (Hall key' vol'). by apply (volume_at_same _ _ _ _ _ _ Hs).
Qed.

Lemma wp_node_GetVolume name lvs node Q w :
  node ≠ NodeNil →
  (∀ node' w', same_spdk node node' → quiet w w' →
     Q (Done (match bdev_lookup (tgt w (node_url node)) (lvs +:+ "/" +:+ name) with
              | Some b => inr (BDev_UUID b)
              | None => inl (ESentinel ErrJSONNoSuchDevice)
              end, node')) w') →
  wp step (SpdkNode.GetVolume name lvs node) Q w.
Proof.
  intros Hnil HQ. destruct node as [n|n|]; [..|done];
    (apply wp_proc_bind, wp_st_bind, wp_zoom, wp_read_getVolume; intros c w' Hc Hq; simpl in *;
     destruct (bdev_lookup _ _); by apply HQ).
Qed.

Lemma wp_find_volume name stores node w :
  node ≠ NodeNil →
  wp step (controllerServer.find_volume name stores node)
    (λ out w', quiet w w' ∧ out = Done (named_in (tgt w (node_url node)) name stores)) w.
Proof.
  revert node w. induction stores as [|s stores IH]; intros node w Hnil; [done|].
  cbn [controllerServer.find_volume named_in].
  apply wp_proc_bind, wp_node_GetVolume; [done|]. intros node' w1 Hsame Hq1.
  cbn beta iota delta [bind_post]. destruct (bdev_lookup _ _) as [b|]; [done|].
  assert (node_url node' = node_url node) as Hurl by (destruct node, node'; try done; apply Hsame).
  eapply wp_mono; [apply IH; by destruct node, node'|]. intros out w2 [Hq2 ->].
  split; [by eapply quiet_trans|]. by rewrite Hurl, Hq1.
Qed.

Lemma wp_read_LvStores node Q w :
  node ≠ NodeNil →
  (∀ node' w', same_spdk node node' → quiet w w' → Q (Done (inr (node_stores node w), node')) w') →
  wp step (SpdkNode.LvStores node) Q w.
Proof.
  intros Hnil HQ. destruct node as [n|n|]; [..|done];
    (apply wp_proc_bind, wp_zoom, wp_read_lvStores; intros c w' Hc Hq; by apply HQ).
Qed.

Lemma wp_getVolume_loop cs req nodes keys w :
  ready cs (cv_Secrets req) nodes →
  wp step (controllerServer.getVolume_loop cs req keys)
    (λ out w', quiet w w' ∧ ∃ r, out = Done r ∧
       match r with
       | inr id => ∃ key vol, volume_at nodes (cv_Name req) w key vol ∧ id = key +:+ ":" +:+ vol
       | inl _ => ∀ key vol, key ∈ keys → ¬ volume_at nodes (cv_Name req) w key vol
       end) w.
Proof.
  intros Hready. revert w. induction keys as [|key keys IH]; intros w.
  { split; [done|]. eexists. split; [done|]. by intros key vol []%elem_of_nil. }
  cbn [controllerServer.getVolume_loop].
  assert (∀ w', quiet w w' → (∀ vol, ¬ volume_at nodes (cv_Name req) w key vol) →
    wp step (controllerServer.getVolume_loop cs req keys) (λ out w', quiet w w' ∧ ∃ r, out = Done r ∧
       match r with
       | inr id => ∃ key vol, volume_at nodes (cv_Name req) w key vol ∧ id = key +:+ ":" +:+ vol
       | inl _ => ∀ key' vol, key' ∈ key :: keys → ¬ volume_at nodes (cv_Name req) w key' vol
       end) w') as Hnext.
  { intros w1 Hq Hnone. eapply wp_mono; [apply IH|]. intros out w2 (Hq2 & r & -> & Hr).
    pose proof (λ k v, volume_at_same nodes (cv_Name req) w w1 k v (quiet_same_volumes _ _ Hq)) as Hat.
    split; [by eapply quiet_trans|]. exists r. split; [done|]. destruct r as [e|id].
    - intros key' vol [->|Hin]%elem_of_cons; [apply Hnone|]. rewrite <-Hat. by apply Hr.
    - destruct Hr as (k & v & Hv & ->). exists k, v. split; [by apply Hat|done]. }
  destruct (spdkNodeConfigs cs !! key) as [cfg|] eqn:Hcfg.
  2:{ apply Hnext; [done|]. intros vol (node & Hn & _).
      destruct (proj2 (ready_config _ _ _ Hready key)) as [cfg Hc]; [by eexists|congruence]. }
  destruct (proj1 (ready_config _ _ _ Hready key)) as [node Hnode]; [by eexists|].
  destruct (ready_node _ _ _ Hready key node Hnode) as [Hget Hnil].
  rewrite (ready_name _ _ _ Hready key cfg Hcfg), Hget.
  apply wp_proc_bind. cbn beta iota delta [bind_post wp].
  apply wp_proc_bind, wp_read_LvStores; [done|]. intros node1 w1 Hsame Hq1.
  assert (node_url node1 = node_url node) as Hurl by (destruct node, node1; try done; apply Hsame).
  cbn beta iota delta [bind_post].
  apply wp_proc_bind. eapply wp_mono; [apply wp_find_volume; by destruct node, node1|].
  intros out w2 [Hq2 ->]. cbn beta iota delta [bind_post]. rewrite Hurl, Hq1.
  assert (quiet w w2) as Hq by by eapply quiet_trans.
  change (named_in _ _ _) with (named (tgt w (node_url node)) (cv_Name req)).
  destruct (named (tgt w (node_url node)) (cv_Name req)) as [vol|] eqn:Hvol.
  - split; [done|]. eexists. split; [done|]. exists key, vol. split; [by exists node|done].
  - apply Hnext; [done|]. intros vol (node' & Hn' & Hv'). congruence.
Qed.

Lemma wp_getVolume_named cs req nodes w :
  ready cs (cv_Secrets req) nodes →
  wp step (controllerServer.getVolume cs req)
    (λ out w', quiet w w' ∧ ∃ r, out = Done r ∧
       match r with
       | inr id => ∃ key vol, volume_at nodes (cv_Name req) w key vol ∧ id = key +:+ ":" +:+ vol
       | inl _ => ∀ key vol, ¬ volume_at nodes (cv_Name req) w key vol
       end) w.
Proof.
  intros Hready keys w1 Hkeys Hstep. apply other_law in Hstep as Hq; [|done].
  pose proof (λ k v, volume_at_same nodes (cv_Name req) w w1 k v (quiet_same_volumes _ _ Hq)) as Hat.
  eapply wp_mono; [by apply wp_getVolume_loop|]. intros out w2 (Hq2 & r & -> & Hr).
  split; [by eapply quiet_trans|]. exists r. split; [done|]. destruct r as [e|id].
  - intros key vol Hv. apply (Hr key vol); [|by apply Hat]. destruct Hv as (node & Hn & _).
    destruct (proj2 (ready_config _ _ _ Hready key)) as [cfg Hc]; [by eexists|].
    simpl in Hkeys. rewrite Hkeys. apply list_elem_of_fmap. exists (key, cfg).
    split; [done|]. by apply elem_of_map_to_list.
  - destruct Hr as (k & v & Hv & ->). exists k, v. split; [by apply Hat|done].
Qed.
End spec.
