(* ===== verification/CreationSpec.v ===== *)
(** Creating a volume: that doing it again answers the volume that is there, and what a
    failure does to it. *)

From Stdlib Require Import Ascii.
From S2P Require Import Prelude.
From S2P Require Import GoLang.
From S2P Require Import GoJson.
From S2P Require Import JsonText.
From S2P Require Import World.
From S2P Require Import RpcClient.
From S2P Require Import Nvmf.
From S2P Require Import Iscsi.
From S2P Require Import SpdkNode.
From S2P Require Import Util.
From S2P Require Import VolumeLocks.
From S2P Require Import Controller.
From S2P Require Import Target.
From S2P Require Import TargetCalls.
From S2P Require Import NvmfSpec.
From S2P Require Import IscsiSpec.
From S2P Require Import ControllerSpec.
From S2P Require Import VolumesSpec.

Section spec.
Context {W : Type} {step : W → ∀ o : op, reply o → W → Prop} {T : Transport step}.
Context `{!VolumeLaws T, !SnapshotLaws T, !NvmfLaws T, !IscsiLaws T}.
Context `{!Undisturbed (T := T), !Answering T}.

(** ** Creation *)

Lemma made_named name lvs lvol t t' :
  made (lvs +:+ "/" +:+ name) lvol t t' → named t name = None →
  lvs ∈ LvStore_Name <$> (rpcClient.LvStore_of_raw <$> t_lvstores t) →
  named t' name = Some lvol.
Proof.
  intros Hmade. destruct (made_new _ _ _ _ Hmade) as (b & Hb & Hu).
  pose proof (λ x, made_lookup _ _ _ _ x Hmade) as Hx.
  unfold named. replace (t_lvstores t') with (t_lvstores t)
    by (by destruct Hmade as (? & _ & _ & _ & _ & ->)).
  induction (_ <$> t_lvstores t) as [|s stores IH]; [by intros _ []%elem_of_nil|].
  cbn [named_in fmap list_fmap]. intros Hnone Hin.
  destruct (bdev_lookup t (LvStore_Name s +:+ "/" +:+ name)) eqn:Hs; [done|].
  destruct (Hx (LvStore_Name s +:+ "/" +:+ name)) as [Heq|(b' & -> & <-)]; [|done].
  rewrite Heq, Hs. apply IH; [done|]. apply elem_of_cons in Hin as [->|Hin]; [|done]. congruence.
Qed.

Lemma named_none t name lvs :
  named t name = None → lvs ∈ LvStore_Name <$> (rpcClient.LvStore_of_raw <$> t_lvstores t) →
  bdev_lookup t (lvs +:+ "/" +:+ name) = None.
Proof.
  unfold named. induction (_ <$> t_lvstores t) as [|s stores IH]; [by intros _ []%elem_of_nil|].
  cbn [named_in fmap list_fmap]. destruct (bdev_lookup t (LvStore_Name s +:+ "/" +:+ name)) eqn:Hs; [done|].
  intros Hnone [->|Hin]%elem_of_cons; [done|by apply IH].
Qed.

Lemma wp_rpc_createVolume name lvs size c Q w :
  (∀ lvol err c' w', only (rpcURL c) w w' →
     (err = None → made (lvs +:+ "/" +:+ name) lvol (tgt w (rpcURL c)) (tgt w' (rpcURL c))) →
     Q (Done (lvol, err, c')) w') →
  wp step (rpcClient.createVolume name lvs size c) Q w.
Proof.
  intros HQ. apply wp_st_bind, wp_call. intros o w' Hrpc Ho. destruct o as [r|code msg|].
  - destruct (lvol_create_law _ _ _ _ _ _ _ _ Hrpc) as (lvol & -> & Hmade). simpl. by apply HQ.
  - apply HQ; [done|]. by destruct (errorMatches _ _).
  - intros c' e He. apply HQ; [done|]. by destruct (errorMatches _ _).
Qed.

Lemma wp_node_CreateVolume name lvs size node w :
  node ≠ NodeNil → bdev_lookup (tgt w (node_url node)) (lvs +:+ "/" +:+ name) = None →
  wp step (SpdkNode.CreateVolume name lvs size node) (λ out w', ∀ lvol node', out = Done (inr lvol, node') →
    only (node_url node) w w' ∧
    made (lvs +:+ "/" +:+ name) lvol (tgt w (node_url node)) (tgt w' (node_url node))) w.
Proof.
  intros Hnil Hnone. destruct node as [n|n|]; [..|done];
    (apply wp_proc_bind, wp_st_bind, wp_zoom, wp_read_getVolume; intros c w1 Hc Hq; simpl in Hnone;
     unfold nodeNVMf.alias, nodeISCSI.alias; rewrite Hnone; cbn beta iota delta [bind_post wp];
     apply wp_st_bind, wp_zoom, wp_rpc_createVolume; intros lvol err c' w2 Ho Hm; simpl in *;
     rewrite Hc, Hq in *; destruct err as [e|]; [done|]; intros lvol' node' [= <- <-];
     split; [|by apply Hm]; eapply only_trans; [by apply quiet_only|done]).
Qed.

Lemma wp_node_CloneVolume name lvs src node w :
  node ≠ NodeNil → bdev_lookup (tgt w (node_url node)) (lvs +:+ "/" +:+ name) = None →
  volume_store (tgt w (node_url node)) src = Some lvs →
  wp step (SpdkNode.CloneVolume name lvs src node) (λ out w', ∀ lvol node', out = Done (inr lvol, node') →
    only (node_url node) w w' ∧
    made (lvs +:+ "/" +:+ name) lvol (tgt w (node_url node)) (tgt w' (node_url node))) w.
Proof.
  intros Hnil Hnone Hst. destruct node as [n|n|]; [..|done];
    (apply wp_proc_bind, wp_st_bind, wp_zoom, wp_read_getVolume; intros c w1 Hc Hq; simpl in Hnone, Hst;
     unfold nodeNVMf.alias, nodeISCSI.alias; rewrite Hnone; cbn beta iota delta [bind_post wp];
     apply wp_st_bind, wp_zoom, wp_call; intros o w2 Hrpc Ho; simpl in *;
     rewrite Hc, Hq in *; destruct o as [r|code msg|]; [|done|done];
     destruct (lvol_clone_law _ _ _ _ _ Hrpc) as (lvs' & lvol & Hst' & -> & Hmade);
     intros lvol' node' [= <- <-]; rewrite Hst in Hst'; injection Hst' as <-;
     split; [|exact Hmade]; eapply only_trans; [by apply quiet_only|done]).
Qed.

(** What is told about a volume names its store. *)
Lemma node_info_store node lvol t info :
  node_info node lvol t = inr info → volume_store t lvol = Some (mget (Some info) "lvstore").
Proof.
  rewrite <-lvstore_name_store.
  destruct node as [n|n|]; simpl; [unfold nvmf_info|unfold iscsi_info|done];
    (destruct (bdev_lookup t lvol); [|done]; destruct (lvstore_name t lvol); [done|];
     intros [= <-]; reflexivity).
Qed.

Lemma wp_getSnapshotInfo cs vcs secrets nodes w :
  ready cs secrets nodes →
  wp step (controllerServer.getSnapshotInfo cs vcs secrets) (λ out w', ∀ name lvs src,
    out = Done (inr (name, lvs, src)) → quiet w w' ∧
    ∃ node, controllerServer.getSpdkNode cs name secrets = Ret (inr node) ∧
            volume_store (tgt w (node_url node)) src = Some lvs) w.
Proof.
  intros Hready. destruct vcs as [id|]; [|done]. cbn [controllerServer.getSnapshotInfo].
  destruct (controllerServer.getSPDKVol id) as [e|v]; [done|].
  apply wp_proc_bind, wp_getSpdkNode; [|done]. intros [e|node] Hget; [done|].
  destruct (ready_lookup _ _ _ _ _ Hready Hget) as [_ Hnil].
  cbn beta iota delta [bind_post]. apply wp_proc_bind, wp_node_VolumeInfo; [done|].
  intros node' w1 _ Hq. cbn beta iota delta [bind_post].
  destruct (node_info node _ _) as [e|info] eqn:Hinfo; [done|]. intros name lvs src [= <- <- <-].
  split; [done|]. exists node. split; [done|]. by apply (node_info_store node).
Qed.

Lemma schedule_loop_quiet cs sizeMiB secrets keys w w1 :
  quiet w w1 →
  wp step (controllerServer.schedule_loop cs sizeMiB secrets keys)
    (λ out w', ∀ r, out = Done r → quiet w w') w1.
Proof.
  revert w1. induction keys as [|key keys IH]; intros w1 Hq1; [by intros r _|].
  cbn [controllerServer.schedule_loop].
  destruct (spdkNodeConfigs cs !! key) as [cfg|]; [|by apply IH].
  apply wp_proc_bind, wp_getSpdkNode; [|done]. intros [e|node] _; [by apply IH|].
  apply wp_proc_bind, wp_node_LvStores; [|done]. intros r node' w2 _ Hq2 _.
  assert (quiet w w2) as Hq by by eapply quiet_trans.
  cbn beta iota delta [bind_post]. destruct r as [e|stores]; [by apply IH|].
  destruct (find_first _ stores); [by intros r _|by apply IH].
Qed.

Lemma schedule_quiet cs sizeMiB secrets w :
  wp step (controllerServer.schedule cs sizeMiB secrets) (λ out w', ∀ r, out = Done r → quiet w w') w.
Proof. intros keys w1 _ Hstep. apply schedule_loop_quiet. by apply other_law in Hstep. Qed.

(** A volume made on one node is on that node, and on no other if there was none. *)
Lemma made_sole cs secrets nodes name lvs lvol key node w w' :
  ready cs secrets nodes → nodes !! key = Some node →
  only (node_url node) w w' →
  made (lvs +:+ "/" +:+ name) lvol (tgt w (node_url node)) (tgt w' (node_url node)) →
  lvs ∈ LvStore_Name <$> node_stores node w →
  (∀ key' vol, ¬ volume_at nodes name w key' vol) →
  sole nodes name w' key lvol.
Proof.
  intros Hready Hnode Ho Hmade Hin Hnone. split.
  - exists node. split; [done|]. eapply made_named; [done| |done].
    destruct (named _ name) as [vol|] eqn:Hv; [|done].
    exfalso. apply (Hnone key vol). by exists node.
  - intros key' vol' (node' & Hn' & Hv'). destruct (decide (key' = key)) as [|Hne]; [done|].
    exfalso. apply (Hnone key' vol'). exists node'. split; [done|].
    rewrite <-(Ho (node_url node')); [done|]. intros Hu. apply Hne. by eapply ready_url.
Qed.

(** The volume of a request, by its id. *)
Definition answered_volume (req : CreateVolumeRequest) (id : string) : Volume :=
  mkVolume (mul64 (mul64 (controllerServer.request_sizeMiB req) 1024) 1024) id
           (cv_Parameters req) (cv_VolumeContentSource req).

Section create.
Context (cs : controllerServer) (req : CreateVolumeRequest) (nodes : gmap string spdkNode).
Context (Hready : ready cs (cv_Secrets req) nodes).

(** When no node has a volume of the name, one that is made is the only one. *)
Lemma absent_make w node key lvs :
  (∀ key' vol, ¬ volume_at nodes (cv_Name req) w key' vol) →
  controllerServer.getSpdkNode cs key (cv_Secrets req) = Ret (inr node) →
  lvs ∈ LvStore_Name <$> node_stores node w →
  node ≠ NodeNil ∧ bdev_lookup (tgt w (node_url node)) (lvs +:+ "/" +:+ cv_Name req) = None ∧
  ∀ lvol w', only (node_url node) w w' →
    made (lvs +:+ "/" +:+ cv_Name req) lvol (tgt w (node_url node)) (tgt w' (node_url node)) →
    sole nodes (cv_Name req) w' key lvol.
Proof.
  intros Hnone Hget Hlvs. destruct (ready_lookup _ _ _ _ _ Hready Hget) as [Hnode Hnil].
  split; [done|]. split.
  - apply named_none; [|done]. destruct (named _ _) as [vol|] eqn:Hv; [|done].
    exfalso. apply (Hnone key vol). by exists node.
  - intros lvol w' Ho Hm. by eapply made_sole.
Qed.

(** A volume that is answered is on one node; it is the one that was there. *)
Lemma wp_createVolume_sole w :
  (∀ key vol key' vol', volume_at nodes (cv_Name req) w key vol →
     volume_at nodes (cv_Name req) w key' vol' → key = key') →
  wp step (controllerServer.createVolume cs req) (λ out w', ∀ vol, out = Done (inr vol) →
    ∃ key lvol, sole nodes (cv_Name req) w' key lvol ∧
                vol = answered_volume req (key +:+ ":" +:+ lvol)) w.
Proof.
  intros Huniq. unfold controllerServer.createVolume. cbv zeta. apply wp_proc_bind.
  eapply wp_mono; [by apply wp_getVolume_named|]. intros out w1 (Hq1 & r & -> & Hr).
  cbn beta iota delta [bind_post]. destruct r as [e|id].
  2:{ destruct Hr as (key & lvol & Hv & ->). intros vol [= <-]. exists key, lvol. split; [|done].
      eapply sole_same; [by apply quiet_same_volumes|]. split; [done|].
      intros key' vol' Hv'. symmetry. by eapply Huniq. }
  assert (∀ w2, quiet w1 w2 → ∀ key' vol, ¬ volume_at nodes (cv_Name req) w2 key' vol) as Hnone.
  { intros w2 Hq2 key' vol Hv. apply (Hr key' vol). apply (volume_at_same _ _ w w2); [|done].
    by apply quiet_same_volumes, (quiet_trans _ w1). }
  clear Hr. destruct (cv_VolumeContentSource req) as [vcs|] eqn:Hsource.
  - apply wp_proc_bind. eapply wp_mono; [by eapply wp_getSnapshotInfo|].
    intros [[e1|[[key lvs] src]]|why] w2 Hsnap; [done| |done].
    destruct (Hsnap _ _ _ eq_refl) as (Hq2 & node & Hget & Hst).
    destruct (absent_make w2 node key lvs (Hnone _ Hq2) Hget) as (Hnil & Hno & Hsole).
    { unfold node_stores. rewrite Hq2. by eapply volume_store_in. }
    cbn beta iota delta [bind_post]. rewrite Hget. apply wp_proc_bind.
    cbn beta iota delta [bind_post wp]. apply wp_proc_bind.
    eapply wp_mono; [apply wp_node_CloneVolume; [done..|by rewrite Hq2]|].
    intros [[[e2|lvol] node']|why] w3 Hmade; [done| |done].
    destruct (Hmade _ _ eq_refl) as [Ho Hm]. cbn beta iota delta [bind_post]. intros vol [= <-].
    exists key, lvol. split; [by apply Hsole|unfold answered_volume; by rewrite Hsource].
  - apply wp_proc_bind. eapply wp_mono; [apply wp_conj; [apply wp_schedule|apply schedule_quiet]|].
    intros [[e1|[key lvs]]|why] w2 [Hcand Hq2]; [done| |done]. specialize (Hq2 _ eq_refl).
    destruct Hcand as (node & store & Hget & Hin & Hname & _). cbn [fst snd] in *. subst lvs.
    destruct (absent_make w2 node key (LvStore_Name store) (Hnone _ Hq2) Hget) as (Hnil & Hno & Hsole).
    { apply list_elem_of_fmap. exists store. split; [done|]. unfold node_stores in *. by rewrite Hq2. }
    cbn beta iota delta [bind_post]. rewrite Hget. apply wp_proc_bind.
    cbn beta iota delta [bind_post wp]. apply wp_proc_bind.
    eapply wp_mono; [by apply wp_node_CreateVolume|].
    intros [[[e2|lvol] node']|why] w3 Hmade; [done| |done].
    destruct (Hmade _ _ eq_refl) as [Ho Hm]. cbn beta iota delta [bind_post]. intros vol [= <-].
    exists key, lvol. split; [by apply Hsole|unfold answered_volume; by rewrite Hsource].
Qed.

(** A volume that is on one node is answered. *)
Lemma wp_createVolume_again key lvol w :
  sole nodes (cv_Name req) w key lvol →
  wp step (controllerServer.createVolume cs req) (λ out w', quiet w w' ∧
    out = Done (inr (answered_volume req (key +:+ ":" +:+ lvol)))) w.
Proof.
  intros [Hv Hall]. unfold controllerServer.createVolume. cbv zeta. apply wp_proc_bind.
  eapply wp_mono; [by apply wp_getVolume_named|]. intros out w1 (Hq1 & r & -> & Hr).
  cbn beta iota delta [bind_post]. destruct r as [e|id].
  { by destruct (Hr key lvol). }
  destruct Hr as (key' & lvol' & Hv' & ->). split; [done|].
  pose proof (Hall _ _ Hv') as ->. destruct Hv as (node & Hn & Hv), Hv' as (node' & Hn' & Hv').
  by simplify_eq.
Qed.

(** C6: [CreateVolume] is idempotent: when it has answered a volume, the same request is
    answered with the same volume, its context included, and changes no target.  It has
    to be so that the storage nodes answer, and that at most one of them has a volume of
    the name to begin with. *)
Theorem CreateVolume_idempotent w :
  (∀ key vol key' vol', volume_at nodes (cv_Name req) w key vol →
     volume_at nodes (cv_Name req) w key' vol' → key = key') →
  wp step (controllerServer.CreateVolume cs req) (λ out w1, ∀ vol, out = Done (inr vol) →
    wp step (controllerServer.CreateVolume cs req)
      (λ out' w2, out' = Done (inr vol) ∧ quiet w1 w2) w1) w.
Proof.
  intros Huniq. apply wp_with_lock. intros w1 Hq1. apply wp_proc_bind.
  eapply wp_mono; [apply wp_createVolume_sole|].
  { intros k v k' v' H H'. apply (Huniq k v k' v');
      by apply (volume_at_same _ _ _ _ _ _ (quiet_same_volumes _ _ Hq1)). }
  intros [[e|vol]|why] w2 Hsole; [done| |done].
  destruct (Hsole _ eq_refl) as (key & lvol & Hs & Hvol). clear Hsole.
  cbn beta iota delta [bind_post]. apply wp_proc_bind.
  eapply wp_mono; [apply wp_publishVolume_told|].
  intros [[e|info]|why] w3 Htold; [| |done]; cbn beta iota delta [bind_post].
  { apply wp_proc_bind. eapply wp_mono; [apply wp_true|]. by intros [err|why] w4 _. }
  destruct (Htold _ eq_refl) as [Hsame Ht]. intros w4 Hq4 vol' [= <-].
  apply wp_with_lock. intros w5 Hq5. pose proof (quiet_trans _ _ _ Hq4 Hq5) as Hq35.
  apply wp_proc_bind. eapply wp_mono.
  { apply (wp_createVolume_again key lvol). eapply sole_same; [|exact Hs].
    etrans; [exact Hsame|]. by apply quiet_same_volumes. }
  intros out w6 [Hq6 ->]. rewrite <-Hvol. cbn beta iota delta [bind_post].
  apply wp_proc_bind. eapply wp_mono.
  { apply (wp_publishVolume_again _ _ _ info). destruct Ht as (node & l & Hn & Hset & Hinfo).
    exists node, l. by rewrite Hq6, Hq35. }
  intros out w7 [-> Hq7]. cbn beta iota delta [bind_post]. intros w8 Hq8. split; [done|].
  exact (quiet_trans _ _ _ Hq5 (quiet_trans _ _ _ Hq6 (quiet_trans _ _ _ Hq7 Hq8))).
Qed.
End create.

(** ** Failure *)

(** The target does not refuse to delete this volume, as it is now: it may refuse others,
    such as snapshots that have clones. *)
Definition deletable (t : target) (lvol : string) : Prop := ∀ c msg t',
  ¬ rpc t "bdev_lvol_delete" (Some (JObj [("name", JStr lvol)])) (RpcErr c msg) t'.

Lemma wp_deleteVolume_gone cs volumeID secrets node lvol w :
  deletable (tgt w (node_url node)) lvol →
  volume_node cs secrets volumeID node lvol → node ≠ NodeNil →
  wp step (controllerServer.deleteVolume cs volumeID secrets)
    (λ out w', ∃ err, out = Done err ∧ node_removed node lvol w') w.
Proof.
  intros Hdel (v & Hv & <- & Hnode) Hnil. unfold controllerServer.deleteVolume. rewrite Hv, Hnode.
  apply wp_proc_bind. cbn beta iota delta [bind_post wp]. apply wp_proc_bind.
  destruct node as [n|n|]; [..|done];
    (apply wp_proc_bind, wp_zoom, wp_st_bind, wp_st_bind, wp_call; intros o w' Hrpc Ho;
     pose proof (lvol_delete_law _ _ _ _ Hrpc) as Hlaw; destruct o as [r|c msg|];
       [|by destruct (Hdel _ _ _ Hrpc)|destruct reliable; by do 4 eexists];
     simpl; eexists; split; [done|apply Hlaw]).
Qed.

(** C33: a volume of the requested name is there, on one NVMe-oF node, and cannot be
    published, because its subsystem was left there without the listener of the node (as
    an interrupted publication leaves it): then [CreateVolume] fails and deletes the
    volume, which it had not made, provided the target does not refuse to delete it. *)
Theorem failed_create_deletes cs req nodes key n lvol w :
  ready cs (cv_Secrets req) nodes →
  nodes !! key = Some (NodeNVMf n) → sole nodes (cv_Name req) w key lvol →
  no_char ":" key = true → no_char ":" lvol = true →
  is_Some (t_subsystems (tgt w (rpcURL (nvmf_client n))) !! nodeNVMf.getVolumeNqn lvol) →
  ¬ published n lvol (tgt w (rpcURL (nvmf_client n))) →
  deletable (tgt w (rpcURL (nvmf_client n))) lvol →
  wp step (controllerServer.CreateVolume cs req)
    (λ out w', ∃ e, out = Done (inl e) ∧ node_removed (NodeNVMf n) lvol w') w.
Proof.
  intros Hready Hn Hsole Hkey Hlvol Hleft Hnp Hdel. apply wp_with_lock. intros w1 Hq1.
  destruct (ready_node _ _ _ Hready _ _ Hn) as [Hget Hnil].
  set (id := key +:+ ":" +:+ lvol).
  assert (controllerServer.getSPDKVol id = inr (mkSpdkVolume lvol key)) as Hid.
  { assert (Split (chr 58) id = [key; lvol]) as Hs by by apply Split_two.
    unfold controllerServer.getSPDKVol. by rewrite Hs. }
  assert (volume_node cs (cv_Secrets req) id (NodeNVMf n) lvol) as Hvol by by eexists.
  apply wp_proc_bind. eapply wp_mono.
  { apply (wp_createVolume_again cs req nodes Hready key lvol).
    eapply sole_same; [by apply quiet_same_volumes|done]. }
  intros out w2 [Hq2 ->]. cbn beta iota delta [bind_post answered_volume vol_VolumeId]. fold id.
  pose proof (quiet_trans _ _ _ Hq1 Hq2) as Hq. apply wp_proc_bind.
  unfold controllerServer.publishVolume. rewrite Hid. cbn beta iota delta [nodeName lvolID].
  rewrite Hget. apply wp_proc_bind. cbn beta iota delta [bind_post wp]. apply wp_proc_bind, wp_proc_bind.
  eapply wp_mono; [apply wp_publish_leftover; [apply reliable|by rewrite Hq..]|].
  intros out w3 (Hq3 & e & n' & ->). cbn beta iota delta [bind_post]. apply wp_proc_bind.
  eapply wp_mono.
  { apply (wp_deleteVolume_gone _ _ _ (NodeNVMf n) lvol); [|done..]. by rewrite Hq3, Hq. }
  intros out w4 (err & -> & Hgone). cbn beta iota delta [bind_post]. intros w5 Hq5.
  eexists. split; [done|]. unfold node_removed in *. by rewrite Hq5.
Qed.
End spec.
