(* ===== verification/SnapshotSpec.v ===== *)
(** Snapshots: what [CreateSnapshot] and [DeleteSnapshot] do to the storage node's target. *)

From Stdlib Require Import Ascii.
From S2P Require Import Prelude.
From S2P Require Import GoLang.
From S2P Require Import GoJson.
From S2P Require Import World.
From S2P Require Import RpcClient.
From S2P Require Import Nvmf.
From S2P Require Import Iscsi.
From S2P Require Import SpdkNode.
From S2P Require Import Util.
From S2P Require Import VolumeLocks.
From S2P Require Import Controller.
From S2P Require Import ControllerFacts.
From S2P Require Import Target.
From S2P Require Import TargetCalls.
From S2P Require Import NvmfSpec.
From S2P Require Import ControllerSpec.
From S2P Require Import VolumesSpec.

Section spec.
Context {W : Type} {step : W → ∀ o : op, reply o → W → Prop} {T : Transport step}.
Context `{!VolumeLaws T, !SnapshotLaws T, !NvmfLaws T, !IscsiLaws T}.
Context `{!Undisturbed (T := T), !Answering T}.

(** ** Taking a snapshot *)

(** The snapshot of a volume by a name: it was there, or is made now. *)
Definition taken (lvol name id : string) (t t' : target) : Prop :=
  ∃ lvs, volume_store t lvol = Some lvs ∧
    ((∃ b, bdev_lookup t (lvs +:+ "/" +:+ name) = Some b ∧ BDev_UUID b = id ∧ t' = t) ∨
     made (lvs +:+ "/" +:+ name) id t t').

Lemma set_client_same (n : nodeNVMf) c : same_client (nvmf_client n) c → same_node n (nodeNVMf.set_client c n).
Proof. by split. Qed.

Lemma wp_nvmf_CreateSnapshot lvol name n w :
  let url := rpcURL (nvmf_client n) in
  wp step (nodeNVMf.CreateSnapshot lvol name n)
    (λ out w', ∃ r n', out = Done (r, n') ∧ same_node n n' ∧ only url w w' ∧
       match r with
       | inr id => taken lvol name id (tgt w url) (tgt w' url)
       | inl _ => tgt w' url = tgt w url ∧
           ∀ lvs, volume_store (tgt w url) lvol = Some lvs →
                  bdev_lookup (tgt w url) (lvs +:+ "/" +:+ name) = None
       end) w.
Proof.
  cbv zeta. apply wp_st_bind, wp_zoom, wp_read_getLvstore. intros c1 w1 Hc1 Hq1.
  cbn beta iota delta [bind_post wp].
  destruct (lvstore_name _ _) as [e|lvs] eqn:Hlvs.
  { do 2 eexists. split; [done|]. split; [by apply set_client_same|].
    split; [by apply quiet_only|]. split; [by rewrite Hq1|].
    intros lvs Hst%lvstore_name_store. congruence. }
  apply lvstore_name_store in Hlvs.
  apply wp_st_bind, wp_zoom, wp_read_getVolume. intros c2 w2 Hc2 Hq2. simpl in Hc2. simpl.
  assert (same_client (nvmf_client n) c2) as Hc by by etrans.
  assert (quiet w w2) as Hq by by eapply quiet_trans.
  rewrite Hc1, Hq1 in *.
  unfold nodeNVMf.alias. destruct (bdev_lookup _ _) as [b|] eqn:Hb.
  { do 2 eexists. split; [done|]. split; [by apply (set_client_same n)|]. split; [by apply quiet_only|].
    exists lvs. split; [done|]. left. exists b. by rewrite Hq. }
  apply wp_st_bind, wp_zoom, wp_call. intros o w3 Hrpc Ho. simpl in *.
  change (rpcURL c2 = rpcURL (nvmf_client n)) in Hc. rewrite Hc, Hq in *.
  assert (only (rpcURL (nvmf_client n)) w w3) as Ho3.
  { eapply only_trans; [by apply quiet_only|]. exact Ho. }
  destruct o as [r|code msg|].
  - destruct (lvol_snapshot_law _ _ _ _ _ Hrpc) as (lvs' & id & Hlvs' & -> & Hmade). simpl.
    do 2 eexists. split; [done|]. split; [by apply (set_client_same n)|]. split; [done|].
    exists lvs'. split; [done|]. by right.
  - simpl. do 2 eexists. split; [done|]. split; [by apply (set_client_same n)|]. split; [done|].
    split; [by eapply rpc_error_law|]. intros lvs' Hst. congruence.
  - destruct reliable. by do 4 eexists.
Qed.

(** The size that is told about a volume on an NVMe-oF node. *)
Lemma nvmf_info_size n lvol t info :
  nvmf_info n lvol t = inr info →
  ∃ b, bdev_lookup t lvol = Some b ∧
       ParseInt (mget (Some info) "lvolSize") = inr (mul64 (BDev_BlockSize b) (BDev_NumBlocks b)).
Proof.
  unfold nvmf_info. destruct (bdev_lookup t lvol) as [b|]; [|done].
  destruct (lvstore_name t lvol); [done|]. intros [= <-]. exists b. split; [done|].
  apply (ParseInt_FormatInt (mul64 _ _)), in_int64_spec, int64_range.
Qed.

(** The snapshot is on the node of its source, with the source's size, and bears its name
    in the source's volume store. *)
Definition snapped cs (source name : string) secrets (s : Snapshot) (w : W) : Prop :=
  ∃ v n lvs b bs, let t := tgt w (rpcURL (nvmf_client n)) in
    controllerServer.getSPDKVol source = inr v ∧
    controllerServer.getSpdkNode cs (nodeName v) secrets = Ret (inr (NodeNVMf n)) ∧
    bdev_lookup t (lvolID v) = Some b ∧ volume_store t (lvolID v) = Some lvs ∧
    bdev_lookup t (lvs +:+ "/" +:+ name) = Some bs ∧
    s = mkSnapshot (mul64 (BDev_BlockSize b) (BDev_NumBlocks b))
          (nodeName v +:+ ":" +:+ BDev_UUID bs) (lvolID v) (snap_CreationTime s) true.

Lemma snapped_quiet cs source name secrets s w w' :
  quiet w w' → snapped cs source name secrets s w → snapped cs source name secrets s w'.
Proof.
  intros Hq (v & n & lvs & b & bs & H). exists v, n, lvs, b, bs. cbv zeta in *. by rewrite Hq.
Qed.

(** No volume that was there is lost or different. *)
Definition volumes_kept (w w' : W) : Prop := ∀ url x b,
  bdev_lookup (tgt w url) x = Some b → bdev_lookup (tgt w' url) x = Some b.

Lemma taken_kept lvol name id n w w' :
  let url := rpcURL (nvmf_client n) in
  only url w w' → taken lvol name id (tgt w url) (tgt w' url) →
  volumes_kept w w' ∧ ∃ lvs bs, volume_store (tgt w' url) lvol = Some lvs ∧
    bdev_lookup (tgt w' url) (lvs +:+ "/" +:+ name) = Some bs ∧ BDev_UUID bs = id.
Proof.
  intros url Ho (lvs & Hst & [(bs & Hbs & Hid & Ht)|Hmade]).
  - split; [|exists lvs, bs; by rewrite Ht].
    assert (quiet w w') as Hq by by eapply only_quiet. intros u x b. by rewrite Hq.
  - split.
    + intros u x b Hx. destruct (decide (u = url)) as [->|Hu]; [by eapply made_keeps|].
      by rewrite (Ho u Hu).
    + destruct (made_new _ _ _ _ Hmade) as (bs & Hbs & Hid). exists lvs, bs.
      split; [by eapply made_store|done].
Qed.

Lemma wp_CreateSnapshot cs source name secrets w :
  wp step (controllerServer.CreateSnapshot cs source name secrets) (λ out w', ∀ s,
    out = Done (inr s) → snapped cs source name secrets s w' ∧ volumes_kept w w') w.
Proof.
  destruct (controllerServer.getSPDKVol source) as [e|v] eqn:Hv.
  { apply wp_with_lock. intros w1 Hq1. by rewrite Hv. }
  destruct (getSpdkNode_returns cs (nodeName v) secrets) as [[[e|node] Hget]|[m Hget]].
  1,3: apply wp_with_lock; intros w1 Hq1; rewrite Hv; by rewrite Hget.
  destruct node as [n|n|].
  2:{ eapply wp_mono; [by eapply CreateSnapshot_iscsi_fails|]. intros out w' H s Hs. by destruct (H s). }
  2:{ apply wp_with_lock; intros w1 Hq1; rewrite Hv; by rewrite Hget. }
  apply wp_with_lock. intros w1 Hq1. rewrite Hv, Hget. apply wp_proc_bind.
  cbn beta iota delta [bind_post wp].
  apply wp_proc_bind, wp_proc_bind. eapply wp_mono; [apply wp_nvmf_CreateSnapshot|].
  intros out w2 (r & n' & -> & Hn & Ho & Hr). cbn beta iota delta [bind_post wp].
  destruct r as [e|id]; [done|].
  destruct (taken_kept _ _ _ _ _ _ Ho Hr) as (Hkept & lvs & bs & Hst & Hbs & <-).
  apply wp_proc_bind, wp_node_VolumeInfo; [done|]. intros node2 w3 _ Hq3.
  cbn beta iota delta [bind_post].
  rewrite (node_info_same (NodeNVMf n) (NodeNVMf n') Hn). cbn [node_info node_url].
  rewrite (proj1 Hn). destruct (nvmf_info n _ _) as [e|info] eqn:Hinfo; [done|].
  destruct (nvmf_info_size _ _ _ _ Hinfo) as (b & Hb & ->).
  intros time w4 _ Hstep w5 Hq5 s [= <-]. apply other_law in Hstep as Hq4; [|done].
  pose proof (quiet_trans _ _ _ Hq3 (quiet_trans _ _ _ Hq4 Hq5)) as Hq. split.
  - apply (snapped_quiet _ _ _ _ _ w2); [done|]. by exists v, n, lvs, b, bs.
  - intros url x b' Hx. rewrite Hq. apply Hkept. by rewrite Hq1.
Qed.

(** A snapshot that is there is answered again. *)
Lemma wp_CreateSnapshot_again cs source name secrets s w :
  snapped cs source name secrets s w →
  wp step (controllerServer.CreateSnapshot cs source name secrets) (λ out w', quiet w w' ∧ ∃ time,
    out = Done (inr (mkSnapshot (snap_SizeBytes s) (snap_SnapshotId s) (snap_SourceVolumeId s)
                                time (snap_ReadyToUse s)))) w.
Proof.
  intros (v & n & lvs & b & bs & Hv & Hget & Hb & Hst & Hbs & ->).
  apply wp_with_lock. intros w1 Hq1. rewrite Hv, Hget. apply wp_proc_bind.
  cbn beta iota delta [bind_post wp].
  apply wp_proc_bind, wp_proc_bind. eapply wp_mono; [apply wp_nvmf_CreateSnapshot|].
  intros out w2 (r & n' & -> & Hn & Ho & Hr). cbn beta iota delta [bind_post wp]. rewrite Hq1 in Hr.
  destruct r as [e|id].
  { destruct Hr as [_ Hr]. by rewrite (Hr lvs Hst) in Hbs. }
  destruct Hr as (lvs' & Hst' & Hr). rewrite Hst in Hst'. injection Hst' as <-.
  destruct Hr as [(bs' & Hbs' & <- & Ht)|(_ & _ & _ & _ & Hnone & _)]; [|congruence].
  rewrite Hbs in Hbs'. injection Hbs' as <-.
  assert (quiet w w2) as Hq2.
  { eapply quiet_trans; [done|]. eapply only_quiet; [done|]. by rewrite Hq1. }
  apply wp_proc_bind, wp_node_VolumeInfo; [done|]. intros node2 w3 _ Hq3.
  cbn beta iota delta [bind_post].
  rewrite (node_info_same (NodeNVMf n) (NodeNVMf n') Hn). cbn [node_info node_url].
  rewrite (proj1 Hn), Hq2.
  assert (∃ info, nvmf_info n (lvolID v) (tgt w (rpcURL (nvmf_client n))) = inr info) as [info Hinfo].
  { unfold nvmf_info. rewrite Hb, (proj2 (lvstore_name_store _ _ _) Hst). by eexists. }
  rewrite Hinfo. destruct (nvmf_info_size _ _ _ _ Hinfo) as (b' & Hb' & ->).
  rewrite Hb in Hb'. injection Hb' as <-.
  intros time w4 _ Hstep w5 Hq5. apply other_law in Hstep as Hq4; [|done].
  split; [|by exists time].
  exact (quiet_trans _ _ _ Hq2 (quiet_trans _ _ _ Hq3 (quiet_trans _ _ _ Hq4 Hq5))).
Qed.

(** C18: the snapshot that [CreateSnapshot] answers is on the node and in the volume store
    of its source and bears the name that was asked for; its size is the source's, its id
    names the node; no volume is lost or different.  Asking again answers the same
    snapshot, but for its time, and changes no target. *)
Theorem CreateSnapshot_taken cs source name secrets w :
  wp step (controllerServer.CreateSnapshot cs source name secrets) (λ out w', ∀ s,
    out = Done (inr s) → snapped cs source name secrets s w' ∧ volumes_kept w w' ∧
    wp step (controllerServer.CreateSnapshot cs source name secrets) (λ out' w'', quiet w' w'' ∧
      ∃ time, out' = Done (inr (mkSnapshot (snap_SizeBytes s) (snap_SnapshotId s)
                                  (snap_SourceVolumeId s) time (snap_ReadyToUse s)))) w') w.
Proof.
  eapply wp_mono; [apply wp_CreateSnapshot|]. intros out w' H s Hs.
  destruct (H s Hs) as [Hsnap Hkept]. split_and!; [done..|]. by apply (wp_CreateSnapshot_again _ _ _ _ s).
Qed.

(** ** Deleting a snapshot *)

Lemma wp_DeleteSnapshot cs snapshotID secrets w :
  wp step (controllerServer.DeleteSnapshot cs snapshotID secrets) (λ out w',
    out = Done None → ∃ node lvol, volume_node cs secrets snapshotID node lvol ∧
                                   node ≠ NodeNil ∧ node_removed node lvol w') w.
Proof.
  apply wp_with_lock. intros w1 _.
  destruct (controllerServer.getSPDKVol snapshotID) as [e|v] eqn:Hv; [done|].
  apply wp_proc_bind, wp_getSpdkNode; [|done]. intros [e|node] Hget; [done|].
  cbn beta iota delta [bind_post]. destruct node as [n|n|]; [..|done];
    (apply wp_proc_bind, wp_node_delete; [|done]; intros err node' w2 Hr;
     cbn beta iota delta [bind_post]; destruct err as [e|]; [done|]; intros w3 Hq _;
     destruct (Hr (or_introl eq_refl)) as [Hu|Hrem]; [by destruct reliable|];
     eexists _, (lvolID v); split; [by exists v|]; split; [done|];
     unfold node_removed in *; by rewrite Hq).
Qed.

Lemma wp_DeleteSnapshot_absent cs snapshotID secrets node lvol w :
  volume_node cs secrets snapshotID node lvol → node ≠ NodeNil → node_removed node lvol w →
  wp step (controllerServer.DeleteSnapshot cs snapshotID secrets) (λ out w',
    quiet w w' ∧ ∃ e, out = Done (Some e)) w.
Proof.
  intros (v & Hv & <- & Hget) Hnil Hrem. apply wp_with_lock. intros w1 Hq1. rewrite Hv, Hget.
  apply wp_proc_bind. cbn beta iota delta [bind_post wp]. apply wp_proc_bind.
  unfold node_removed in Hrem. rewrite <-Hq1 in Hrem.
  destruct node as [n|n|]; [..|done];
    (apply wp_proc_bind, wp_zoom, wp_st_bind, wp_st_bind, wp_call; intros o w2 Hrpc Ho;
     simpl in Hrem; destruct o as [r|c msg|];
       [destruct (lvol_delete_law _ _ _ _ Hrpc) as [[b Hb] _]; simpl in Hb; congruence| |destruct reliable; by do 4 eexists];
     apply rpc_error_law in Hrpc; assert (quiet w1 w2) as Hq2 by (by eapply only_quiet);
     simpl;
     destruct (errorMatches _ _); simpl; intros w3 Hq3;
     (split; [exact (quiet_trans _ _ _ Hq1 (quiet_trans _ _ _ Hq2 Hq3))|by eexists])).
Qed.

(** C25: when [DeleteSnapshot] succeeds the snapshot is gone; and asking again fails, with
    no target changed, since the absence of the snapshot is reported as an error. *)
Theorem DeleteSnapshot_once cs snapshotID secrets w :
  wp step (controllerServer.DeleteSnapshot cs snapshotID secrets) (λ out w',
    out = Done None → removed cs secrets snapshotID w' ∧
    wp step (controllerServer.DeleteSnapshot cs snapshotID secrets) (λ out' w'',
      quiet w' w'' ∧ ∃ e, out' = Done (Some e)) w') w.
Proof.
  eapply wp_mono; [apply wp_DeleteSnapshot|]. intros out w' H Hs.
  destruct (H Hs) as (node & lvol & Hn & Hnil & Hrem). split; [by exists node, lvol|].
  by eapply wp_DeleteSnapshot_absent.
Qed.
End spec.
