(* ===== verification/EndToEnd.v ===== *)
(** From the controller to the client node: the context that [CreateVolume] answers makes
    an initiator that finds the volume. *)

From S2P Require Import Prelude.
From S2P Require Import GoLang.
From S2P Require Import GoJson.
From S2P Require Import World.
From S2P Require Import Util.
From S2P Require Import RpcClient.
From S2P Require Import Nvmf.
From S2P Require Import Iscsi.
From S2P Require Import SpdkNode.
From S2P Require Import Initiator.
From S2P Require Import VolumeLocks.
From S2P Require Import Controller.
From S2P Require Import Target.
From S2P Require Import TargetCalls.
From S2P Require Import NvmfSpec.
From S2P Require Import IscsiSpec.
From S2P Require Import ControllerSpec.

(** Every target node is named after its alias, as the driver names those it makes. *)
Definition named_by_alias (t : target) : Prop :=
  ∀ name tn, t_nodes t !! name = Some tn → name = iqn (tn_AliasName tn).

Lemma iscsi_publish_named lvolID t err t' :
  iscsi_publish_spec lvolID t err t' → named_by_alias t → named_by_alias t'.
Proof.
  intros Hp Hn. assert (∀ t1, grown t t1 → named_by_alias t1) as Hgrown.
  { intros t1 (_ & _ & _ & Hnodes & _) name tn. rewrite Hnodes. apply Hn. }
  destruct Hp as [| |t1 _ _ Hg|]; [done..| |by apply Hgrown].
  intros name tn. cbn [t_nodes set_nodes].
  destruct (decide (name = iqn lvolID)) as [->|Hne].
  - rewrite lookup_insert_eq. by intros [= <-].
  - rewrite lookup_insert_ne by done. apply Hn.
Qed.

(** The initiator asks for what the target offers.  Over NVMe-oF: the volume's subsystem
    by its name, at one of its listeners.  Over iSCSI: the volume's target node by its
    name, at the node's portal. *)
Definition reaches (i : basic_initiator) (node : spdkNode) (lvol : string) (t : target) : Prop :=
  match i, node with
  | inl i, NodeNVMf _ =>
      inv_model i = lvol ∧
      ∃ s, t_subsystems t !! inv_nqn i = Some s ∧
           mkListener (inv_targetType i) cfgAddrFamily (inv_targetAddr i) (inv_targetPort i)
             ∈ sub_listeners s
  | inr i, NodeISCSI n =>
      iis_targetAddr i = iscsi_targetAddr n ∧ iis_targetPort i = iscsi_targetPort n ∧
      (named_by_alias t → ∃ tn, t_nodes t !! iis_iqn i = Some tn ∧ tn_AliasName tn = lvol)
  | _, _ => False
  end.

(** What an initiator needs to know of a volume. *)
Definition directions (node : spdkNode) (lvol : string) : list (string * string) :=
  match node with
  | NodeNVMf n => [
      ("targetType", nvmf_targetType n); ("targetAddr", nvmf_targetAddr n);
      ("targetPort", nvmf_targetPort n); ("nqn", nodeNVMf.getVolumeNqn lvol); ("model", lvol)]
  | NodeISCSI n => [
      ("targetType", "iscsi"); ("targetAddr", iscsi_targetAddr n);
      ("targetPort", iscsi_targetPort n); ("iqn", iqn lvol)]
  | NodeNil => []
  end.

Definition tells (node : spdkNode) (lvol : string) (info : gmap string string) : Prop :=
  Forall (λ kv, info !! kv.1 = Some kv.2) (directions node lvol).

(** The NVMe-oF nodes the driver makes have a transport the initiator knows. *)
Definition known_transport (node : spdkNode) : Prop :=
  match node with
  | NodeNVMf n => nvmf_targetType n = "RDMA" ∨ nvmf_targetType n = "TCP"
  | _ => True
  end.

Lemma NewSpdkNode_known url user pass ty addr node :
  NewSpdkNode url user pass ty addr = inr node → known_transport node.
Proof.
  unfold NewSpdkNode. repeat case_bool_decide; intros [= <-]; simpl; auto.
Qed.

Lemma getSpdkNode_known cs name secrets node :
  controllerServer.getSpdkNode cs name secrets = Ret (inr node) → known_transport node.
Proof.
  unfold controllerServer.getSpdkNode. destruct (NewSpdkSecrets _); [done|].
  destruct (spdkNodeConfigs cs !! name); [|done]. destruct (find_first _ _); [|done].
  destruct (NewSpdkNode _ _ _ _ _) eqn:Hnew; intros [= <-]; [done|].
  by eapply NewSpdkNode_known.
Qed.

(** What a node tells overrides the parameters of the request. *)
Lemma merge_context_get ctx info k v :
  info !! k = Some v → mget (controllerServer.merge_context ctx info) k = v.
Proof.
  intros Hk. unfold controllerServer.merge_context, mget. destruct ctx as [m|]; simpl; [|by rewrite Hk].
  by rewrite (lookup_union_Some_l _ _ _ _ Hk).
Qed.

(** A context that tells about a published volume makes an initiator that reaches it. *)
Lemma tells_reaches node lvol ctx info t :
  known_transport node → tells node lvol info → node_published node lvol t →
  ∃ i, NewSpdkCsiInitiator (controllerServer.merge_context ctx info) = inr i ∧ reaches i node lvol t.
Proof.
  intros Hknown Htells.
  assert (Forall (λ kv, mget (controllerServer.merge_context ctx info) kv.1 = kv.2) (directions node lvol)) as Hctx.
  { eapply Forall_impl; [exact Htells|]. intros [k v]. apply merge_context_get. }
  clear Htells. revert Hctx. set (m := controllerServer.merge_context ctx info). unfold NewSpdkCsiInitiator.
  destruct node as [n|n|]; cbn [directions]; [..|done];
    repeat setoid_rewrite Forall_cons; cbn [fst snd].
  - intros (Ht & Ha & Hp & Hnqn & Hm & _) (s & Hs & Hin). rewrite Ht, Ha, Hp, Hnqn, Hm.
    exists (inl (mkInitiatorNVMf (nvmf_targetType n) (nvmf_targetAddr n) (nvmf_targetPort n)
                   (nodeNVMf.getVolumeNqn lvol) lvol)).
    split; [by destruct Hknown as [-> | ->]|]. simpl. eauto.
  - intros (Ht & Ha & Hp & Hiqn & _) (name & tn & Hn & Htn). rewrite Ht, Ha, Hp, Hiqn.
    eexists (inr _). split; [done|]. simpl. split_and!; [done..|]. intros Hnamed.
    exists tn. split; [|done]. pose proof (Hnamed _ _ Hn) as Hname. by rewrite <-Htn, <-Hname.
Qed.

Section end_to_end.
Context {W : Type} {step : W → ∀ o : op, reply o → W → Prop} {T : Transport step}.
Context `{!VolumeLaws T, !NvmfLaws T, !IscsiLaws T} `{!Undisturbed (T := T)}.

Lemma wp_node_tells lvol node w :
  wp step (SpdkNode.VolumeInfo lvol node) (λ out w', quiet w w' ∧
    ∀ info node', out = Done (inr info, node') → tells node lvol info) w.
Proof.
  destruct node as [n|n|]; [..|done]; apply wp_proc_bind.
  - apply wp_st_bind. eapply wp_mono; [apply looks_nvmf_client, looks_getVolume|].
    intros [[[e|b] n1]|why] w1 [Hq1 Hs1]; cbn beta iota delta [bind_post]; [done| |done].
    apply wp_st_bind. eapply wp_mono; [apply looks_nvmf_client, looks_getLvstore|].
    intros [[[e|l] n2]|why] w2 [Hq2 Hs2]; cbn beta iota delta [bind_post];
      pose proof (quiet_trans _ _ _ Hq1 Hq2) as Hq; [done| |done].
    split; [done|]. intros info n' [= <- <-].
    pose proof (proj2 (transitivity Hs1 Hs2)) as Hl. injection Hl as H1 H2 H3.
    unfold tells. cbn [directions]. rewrite <-H1, <-H2, <-H3. by repeat constructor.
  - apply wp_st_bind. eapply wp_mono; [apply looks_iscsi_client, looks_isVolumeCreated|].
    intros [[[e|b] n1]|why] w1 [Hq1 Hs1]; cbn beta iota delta [bind_post]; [done| |done].
    destruct b; [|done].
    apply wp_st_bind. eapply wp_mono; [apply looks_iscsi_client, looks_getLvstore|].
    intros [[[e|l] n2]|why] w2 [Hq2 Hs2]; cbn beta iota delta [bind_post];
      pose proof (quiet_trans _ _ _ Hq1 Hq2) as Hq; [done| |done].
    split; [done|]. intros info n' [= <- <-].
    destruct (transitivity Hs1 Hs2) as (_ & Ha & Hp).
    unfold tells. cbn [directions]. rewrite <-Ha, <-Hp. by repeat constructor.
Qed.

Lemma tells_same node node' lvol info : same_spdk node node' → tells node' lvol info → tells node lvol info.
Proof.
  unfold tells. destruct node as [n|n|], node' as [n'|n'|]; try done; cbn [same_spdk directions].
  - intros [_ Hl]. injection Hl as -> -> ->. done.
  - by intros (_ & -> & ->).
Qed.

(** [publishVolume] answers where the volume is. *)
Lemma wp_publishVolume_tells cs id secrets w :
  wp step (controllerServer.publishVolume cs id secrets)
    (λ out w', ∀ info, out = Done (inr info) →
       ∃ node lvol, volume_node cs secrets id node lvol ∧ known_transport node ∧
         tells node lvol info ∧ node_published node lvol (tgt w' (node_url node))) w.
Proof.
  unfold controllerServer.publishVolume. destruct (controllerServer.getSPDKVol id) as [e|v] eqn:Hv;
    [done|].
  apply wp_proc_bind, wp_getSpdkNode; [|done]. intros [e|node] Hnode; [done|].
  apply wp_proc_bind, wp_node_publish; [|done]. intros err node' w1 Hsame Hpub.
  cbn beta iota delta [bind_post]. destruct err as [e|]; [done|].
  apply wp_proc_bind. eapply wp_mono; [apply wp_node_tells|].
  intros [[[e|info] node2]|why] w2 [Hq Htells]; [| |done].
  - cbn beta iota delta [bind_post]. apply wp_proc_bind.
    eapply wp_mono; [apply wp_true|]. by intros [err|why] w3 _.
  - intros info' [= <-]. exists node, (lvolID v). split_and!.
    + by exists v.
    + by eapply getSpdkNode_known.
    + eapply tells_same; [done|]. by eapply Htells.
    + rewrite Hq. by apply Hpub.
Qed.

(** C11: the context [CreateVolume] answers with a volume makes an initiator that reaches
    it, whatever the parameters of the request say: over NVMe-oF it asks for the volume's
    own subsystem, with a transport, an address and a port that subsystem listens on;
    over iSCSI for the volume's own target node, at the portal of its storage node. *)
Theorem created_is_reachable cs req w :
  wp step (controllerServer.CreateVolume cs req)
    (λ out w', ∀ vol, out = Done (inr vol) →
       ∃ node lvol i, volume_node cs (cv_Secrets req) (vol_VolumeId vol) node lvol ∧
         NewSpdkCsiInitiator (vol_VolumeContext vol) = inr i ∧
         reaches i node lvol (tgt w' (node_url node))) w.
Proof.
  apply wp_with_lock. intros w1 _. apply wp_proc_bind. eapply wp_mono; [apply wp_true|].
  intros [[e|vol]|why] w2 _; [done| |done]. cbn beta iota delta [bind_post].
  apply wp_proc_bind. eapply wp_mono; [apply wp_publishVolume_tells|].
  intros [[e|info]|why] w3 Hpub; [| |done]; cbn beta iota delta [bind_post].
  - apply wp_proc_bind. eapply wp_mono; [apply wp_true|]. by intros [err|why] w4 _.
  - intros w4 Hq vol' [= <-]. destruct (Hpub info eq_refl) as (node & lvol & Hv & Hk & Ht & Hp).
    destruct (tells_reaches node lvol (vol_VolumeContext vol) info _ Hk Ht Hp) as (i & Hi & Hr).
    exists node, lvol, i. split_and!; [done..|]. by rewrite Hq.
Qed.
End end_to_end.
