(* ===== verification/RefNode.v ===== *)
(** A client node that can be run: an executable world for the node service and the
    xPU's back ends, which satisfies the laws the theorems assume.

    The node has one device, there while it is connected.  A faulty node cannot write
    files, has no entropy, cannot attach volumes, and never lets a device go. *)

From S2P Require Import Prelude.
From S2P Require Import GoLang.
From S2P Require Import GoJson.
From S2P Require Import World.
From S2P Require Import Util.
From S2P Require Import UtilSpec.
From S2P Require Import NodeWorld.
From S2P Require Import BackendSpec.

Record node_world := mkNodeWorld {
  nw_files : gmap string string;
  nw_mounts : gmap string mount_point;
  nw_commands : list (list string);
  nw_connected : bool;
  nw_faulty : bool;
  nw_objects : list resource;
  nw_mutexes : nat
}.

Definition nw_set_files (f : gmap string string) (w : node_world) : node_world :=
  mkNodeWorld f (nw_mounts w) (nw_commands w) (nw_connected w) (nw_faulty w) (nw_objects w) (nw_mutexes w).
Definition nw_set_mounts (m : gmap string mount_point) (w : node_world) : node_world :=
  mkNodeWorld (nw_files w) m (nw_commands w) (nw_connected w) (nw_faulty w) (nw_objects w) (nw_mutexes w).
Definition nw_set_objects (s : list resource) (w : node_world) : node_world :=
  mkNodeWorld (nw_files w) (nw_mounts w) (nw_commands w) (nw_connected w) (nw_faulty w) s (nw_mutexes w).

(** Run a command: connecting and disconnecting have their effect on the device. *)
Definition nw_exec (argv : list string) (w : node_world) : node_world :=
  let connected :=
    if bool_decide ("connect" ∈ argv) || bool_decide ("--login" ∈ argv) then true
    else if bool_decide ("disconnect" ∈ argv) || bool_decide ("--logout" ∈ argv) then nw_faulty w
    else nw_connected w in
  mkNodeWorld (nw_files w) (nw_mounts w) (nw_commands w ++ [argv]) connected (nw_faulty w)
              (nw_objects w) (nw_mutexes w).

Definition broken : bool * string := (false, "input/output error").
Definition missing : bool * string := (true, "no such file or directory").

(** The name the bridge gives an object it makes. *)
Definition nw_name (req : opi_request) : string :=
  match req with
  | OpiCreateRemoteController id => "remoteController/" +:+ id
  | OpiCreatePath id _ _ _ _ _ => "path/" +:+ id
  | OpiCreateSubsystem id _ => "subsystem/" +:+ id
  | OpiCreateController id _ _ _ => "controller/" +:+ id
  | OpiCreateNamespace id _ _ _ => "namespace/" +:+ id
  | OpiCreateVirtioBlk id _ _ _ => "virtioBlk/" +:+ id
  | OpiDelete _ name _ => name
  end.

Definition nw_remove (x : resource) (w : node_world) : node_world :=
  nw_set_objects (filter (λ y, y ≠ x) (nw_objects w)) w.

Definition nw_opi (req : opi_request) (w : node_world) : (string + string) * node_world :=
  match req, kind_of req with
  | OpiDelete k name _, _ => (inr "", nw_remove (Object k name) w)
  | _, Some k => (inr (nw_name req), nw_set_objects (Object k (nw_name req) :: nw_objects w) w)
  | _, None => (inl "", w)
  end.

Definition nw_sma (req : sma_request) (w : node_world) : sma_reply * node_world :=
  match req with
  | SmaCreateDevice _ _ => (SmaOk "sma-1", nw_set_objects (Device "sma-1" :: nw_objects w) w)
  | SmaAttachVolume _ _ _ => (if nw_faulty w then SmaErr "no such volume" else SmaOk "", w)
  | SmaDetachVolume _ _ => (SmaOk "", w)
  | SmaDeleteDevice h => (SmaOk "", nw_remove (Device h) w)
  end.

Definition node_handler (o : op) (w : node_world) : reply o * node_world :=
  match o return reply o * node_world with
  | HttpDo _ _ _ _ => (HttpFail "no service", w)
  | MapRange keys => (keys, w)
  | TimeNow => (0%Z, w)
  | Sleep _ => (tt, w)
  | Getenv _ => ("", w)
  | NewMutex =>
      (nw_mutexes w, mkNodeWorld (nw_files w) (nw_mounts w) (nw_commands w) (nw_connected w)
                                 (nw_faulty w) (nw_objects w) (S (nw_mutexes w)))
  | MapLoadOrStore _ _ m => (m, w)
  | MutexLock _ => (tt, w)
  | MutexUnlock _ => (tt, w)
  | RandInt max =>
      (if nw_faulty w then inl "no entropy" else if bool_decide (0 < max)%Z then inr 0%Z else inl "", w)
  | UuidParse s => (inr s, w)
  | NetListen _ _ | GrpcServe _ _ => (None, w)
  | GrpcStop _ => (tt, w)
  | GrpcDial _ => (None, w)
  | SmaCall req => nw_sma req w
  | OpiCall req => nw_opi req w
  | OsReadFile p => (match nw_files w !! p with Some c => inr c | None => inl missing end, w)
  | OsWriteFile p c =>
      if nw_faulty w then (inl broken, w) else (inr tt, nw_set_files (<[p := c]> (nw_files w)) w)
  | OsAppendFile _ _ => (inl missing, w)
  | OsStat _ => (inr tt, w)
  | OsMkdirAll _ => (inr tt, w)
  | OsRemove p =>
      match nw_files w !! p with
      | Some _ => (inr tt, nw_set_files (delete p (nw_files w)) w)
      | None => (inl missing, w)
      end
  | OsRemoveAll _ => (inr tt, w)
  | OsReadDir _ => (inl missing, w)
  | OsReadlink _ => (inl missing, w)
  | FilepathGlob _ => (inr (if nw_connected w then ["/dev/nvme0n1"] else []), w)
  | ExecCommand argv _ => (ExecOk, nw_exec argv w)
  | IsNotMountPoint p => ((bool_decide (nw_mounts w !! p = None), None), w)
  | MountUnmount p => (None, nw_set_mounts (delete p (nw_mounts w)) w)
  | MountMount s p fs opts => (None, nw_set_mounts (<[p := mkMount s fs opts]> (nw_mounts w)) w)
  | FormatAndMount s p fs opts => (None, nw_set_mounts (<[p := mkMount s fs opts]> (nw_mounts w)) w)
  end.

Lemma node_handler_ok o w : go_ok o (node_handler o w).1.
Proof.
  destruct o; try done; simpl; [done|]. destruct (nw_faulty w); [done|].
  case_bool_decide; simpl; [lia|done].
Qed.

Definition node_step : node_world → ∀ o : op, reply o → node_world → Prop :=
  handler_step node_handler.

(** What [wp] promises holds of the run. *)
Lemma wp_node_run {A} (p : proc A) Q w :
  wp node_step p Q w → Q (run node_handler p w).1 (run node_handler p w).2.
Proof. apply wp_run, node_handler_ok. Qed.

Ltac node_cases H o :=
  destruct o; try done; unfold handler_step in H; simpl in H; unfold nw_opi, nw_sma in *;
  repeat case_match; simplify_eq/=.

#[export] Instance node_files : FileLaws node_step.
Proof.
  refine {| file w p := nw_files w !! p |}; unfold node_step, handler_step.
  - intros w p r w' H. simpl in H. destruct (nw_files w !! p) eqn:Hp; by injection H as <- <-.
  - intros w p c r w' H. simpl in H. destruct (nw_faulty w); injection H as <- <-; [done|].
    simpl. split; [|by rewrite lookup_insert_eq]. intros q Hq. by rewrite lookup_insert_ne.
  - intros w p r w' H. simpl in H. destruct (nw_files w !! p) eqn:Hp; injection H as <- <-; [|done].
    simpl. split; [|by rewrite lookup_delete_eq]. intros q Hq. by rewrite lookup_delete_ne.
  - intros w o r w' p q H Ho _. by node_cases H o.
  - intros w o r w' H Ho q. by node_cases H o.
Defined.

#[export] Instance node_mounts : MountLaws node_step.
Proof.
  refine {| mounts w p := nw_mounts w !! p |}; unfold node_step, handler_step.
  - intros w p b err w' H. by injection H as <- <-.
  - intros w p r w' H. injection H as <- <-. simpl. split; [|by rewrite lookup_delete_eq].
    intros q Hq. by rewrite lookup_delete_ne.
  - intros w s p fs opts r w' H. injection H as <- <-. simpl. split; [|by rewrite lookup_insert_eq].
    intros q Hq. by rewrite lookup_insert_ne.
  - intros w s p fs opts r w' H. injection H as <- <-. simpl. split; [|by rewrite lookup_insert_eq].
    intros q Hq. by rewrite lookup_insert_ne.
  - intros w o r w' H Ho q. by node_cases H o.
Defined.

#[export] Instance node_commands : CommandLaws node_step.
Proof.
  refine {| commands := nw_commands |}; unfold node_step, handler_step.
  intros w o r w' H. node_cases H o; by rewrite ?app_nil_r.
Defined.

Lemma node_objects w o r w' x :
  node_step w o r w' → x ∈ nw_objects w' →
  (x ∈ nw_objects w ∨ made o r = Some x) ∧ removed o r ≠ Some x.
Proof.
  unfold node_step, handler_step. intros H Hx. destruct (decide (nw_objects w' = nw_objects w)) as [Heq|Hne].
  - destruct o; try (split; [left; by rewrite <-Heq|done]).
    + destruct req; try (split; [left; by rewrite <-Heq|done]). simpl in *.
      injection H as <- <-. simpl in *. split; [left; by rewrite <-Heq|]. intros [= <-].
      by apply list_elem_of_filter in Hx as [? _].
    + destruct req; try (split; [left; by rewrite <-Heq|done]). simpl in *.
      injection H as <- <-. simpl in *. split; [left; by rewrite <-Heq|]. intros [= <-].
      by apply list_elem_of_filter in Hx as [? _].
  - destruct o; simpl in H; try (by injection H as <- <-);
      try (by repeat case_match; simplify_eq/=).
    + destruct req; simpl in H; injection H as <- <-; try done; simpl in *.
      * apply elem_of_cons in Hx as [->|Hx]; split; auto.
      * apply list_elem_of_filter in Hx as [? Hx]. split; [by left|]. congruence.
    + destruct req; unfold nw_opi in H; simpl in H; injection H as <- <-; simpl in *;
        try (apply elem_of_cons in Hx as [->|Hx]; split; auto; done).
      apply list_elem_of_filter in Hx as [? Hx]. split; [by left|]. congruence.
Qed.

(** The node with a log. *)
#[export] Instance node_xpu : XpuLaws (logged node_step).
Proof.
  refine {| resources w x := x ∈ nw_objects w.1 |}.
  intros w o r w' x [H _] Hx. destruct (node_objects _ _ _ _ _ H Hx) as [[|] ?]; auto.
Defined.

Lemma wp_node_logged {A} (p : proc A) Q w :
  wp (logged node_step) p Q w →
  Q (run (log_handler node_handler) p w).1 (run (log_handler node_handler) p w).2.
Proof. apply wp_logged_run, node_handler_ok. Qed.

(** A node with nothing on it, and the same with faults. *)
Definition empty_node : node_world := mkNodeWorld ∅ ∅ [] false false [] 1.
Definition faulty_node : node_world := mkNodeWorld ∅ ∅ [] false true [] 1.
