(* ===== verification/RefTarget.v ===== *)
(** A reference SPDK target, to run the driver against.

    The laws of [Target] are hypotheses on a service outside this repository.  Here is
    an executable service that obeys them: the theorems' witnesses are runs of the
    driver's code against it, and they show that the hypotheses can hold. *)

From Stdlib Require Import Ascii.
From S2P Require Import Prelude.
From S2P Require Import GoLang.
From S2P Require Import GoJson.
From S2P Require Import World.
From S2P Require Import RpcClient.
From S2P Require Import Nvmf.
From S2P Require Import Iscsi.
From S2P Require Import JsonText.
From S2P Require Import Util.
From S2P Require Import VolumeLocks.
From S2P Require Import CsiCommon.
From S2P Require Import Controller.
From S2P Require Import UtilSpec.
From S2P Require Import Target.
From S2P Require Import ControllerSpec.

#[export] Instance lvstore_raw_eq_dec : EqDecision lvstore_raw.
Proof. solve_decision. Defined.
#[export] Instance subsystem_eq_dec : EqDecision subsystem.
Proof. solve_decision. Defined.

(** ** Arguments and answers *)

Definition arg (k : string) (args : option json) : option json :=
  match args with
  | Some (JObj kvs) => snd <$> find_first (λ kv, String.eqb kv.1 k) kvs
  | _ => None
  end.
Definition arg_str (k : string) (args : option json) : string :=
  match arg k args with Some (JStr s) => s | _ => "" end.
Definition json_Z (j : option json) : Z :=
  match j with Some (JNum lit) => default 0%Z (parse_Z lit) | _ => 0%Z end.

Definition json_of_bdev (b : BDev) : json :=
  JObj ([("name", JStr (BDev_Name b)); ("uuid", JStr (BDev_UUID b));
         ("block_size", jint (BDev_BlockSize b)); ("num_blocks", jint (BDev_NumBlocks b))] ++
        match BDev_DriverSpecific b with
        | Some u => [("driver_specific", JObj [("lvol", JObj [("lvol_store_uuid", JStr u)])])]
        | None => []
        end).
Definition json_of_listener (l : listener) : json := JObj [("address", listener_json l)].
Definition json_of_ns (n : namespace) : json :=
  JObj [("nsid", jint (NSID n)); ("bdev_name", JStr (ns_BdevName n))].
Definition json_of_subsystem (x : subsystem) : json :=
  JObj [("nqn", JStr (ss_Nqn x)); ("namespaces", JArr (json_of_ns <$> ss_Namespace x))].
Definition json_of_node (n : target_node) : json :=
  JObj [("name", JStr (tn_Name n)); ("alias_name", JStr (tn_AliasName n))].
Definition json_of_lvstore (r : lvstore_raw) : json :=
  JObj [("free_clusters", jint (raw_FreeClusters r)); ("cluster_size", jint (raw_ClusterSize r));
        ("total_data_clusters", jint (raw_TotalClusters r)); ("name", JStr (raw_Name r));
        ("uuid", JStr (raw_UUID r))].
Definition json_of_tag (tag : Z) : json := JObj [("tag", jint tag)].

(** A list is answered if the client's decoder reads it back, that is, when its
    numbers fit. *)
Definition answer_list {A} `{EqDecision A} (zero : A) (dec : decoder A) (enc : A → json)
    (l : list A) : rpc_outcome :=
  if decide (dec_slice zero dec (JArr (enc <$> l)) [] = (l, true)) then RpcOk (JArr (enc <$> l))
  else RpcFail.

Definition no_such_device : rpc_outcome := RpcErr (-19) "No such device".
Definition invalid_parameters : rpc_outcome := RpcErr (-32602) "Invalid parameters".
Definition operation_refused : rpc_outcome := RpcErr (-1) "Operation not permitted".

(** ** The methods *)

Definition fresh_nsid (s : nvmf_subsys) : Z := Z.of_nat (S (length (sub_ns s))).

Definition with_subsystem (t : target) (nqn : string) (f : nvmf_subsys → rpc_outcome * target)
    : rpc_outcome * target :=
  match t_subsystems t !! nqn with Some s => f s | None => (invalid_parameters, t) end.

Definition put_subsystem (t : target) (nqn : string) (s : nvmf_subsys) : target :=
  set_subsystems (<[nqn := s]> (t_subsystems t)) t.

Definition listener_of (j : option json) : listener :=
  mkListener (arg_str "trtype" j) (arg_str "adrfam" j) (arg_str "traddr" j) (arg_str "trsvcid" j).

Definition ref_nvmf (t : target) (method : string) (args : option json) : rpc_outcome * target :=
  let nqn := arg_str "nqn" args in
  if String.eqb method "nvmf_subsystem_get_listeners" then
    with_subsystem t nqn (λ s, (answer_list listener_zero dec_listener json_of_listener (sub_listeners s), t))
  else if String.eqb method "nvmf_create_transport" then (RpcOk (JBool true), t)
  else if String.eqb method "nvmf_create_subsystem" then
    match t_subsystems t !! nqn with
    | Some _ => (operation_refused, t)
    | None => (RpcOk (JBool true), put_subsystem t nqn (mkSubsys [] []))
    end
  else if String.eqb method "nvmf_subsystem_add_ns" then
    with_subsystem t nqn (λ s,
      let nsid := fresh_nsid s in
      if in_int64 nsid then
        (RpcOk (jint nsid), put_subsystem t nqn
           (add_ns (mkNamespace nsid (arg_str "bdev_name" (arg "namespace" args))) s))
      else (operation_refused, t))
  else if String.eqb method "nvmf_subsystem_add_listener" then
    with_subsystem t nqn (λ s,
      (RpcOk (JBool true),
       put_subsystem t nqn (add_listener (listener_of (arg "listen_address" args)) s)))
  else if String.eqb method "nvmf_get_subsystems" then
    (answer_list (mkSubsystem "" []) dec_subsystem json_of_subsystem
       ((λ kv, mkSubsystem kv.1 (sub_ns kv.2)) <$> map_to_list (t_subsystems t)), t)
  else if String.eqb method "nvmf_subsystem_remove_ns" then
    with_subsystem t nqn (λ s,
      (RpcOk (JBool true), put_subsystem t nqn (remove_ns (json_Z (arg "nsid" args)) s)))
  else if String.eqb method "nvmf_delete_subsystem" then
    with_subsystem t nqn (λ _,
      (RpcOk (JBool true), set_subsystems (delete nqn (t_subsystems t)) t))
  else (RpcErr (-32601) "Method not found", t).

Definition ref_iscsi (t : target) (method : string) (args : option json) : rpc_outcome * target :=
  let name := arg_str "name" args in
  let tag := json_Z (arg "tag" args) in
  if String.eqb method "iscsi_get_target_nodes" then
    (answer_list (mkTargetNode "" "") dec_target_node json_of_node
       (snd <$> map_to_list (t_nodes t)), t)
  else if String.eqb method "iscsi_get_portal_groups" then
    (answer_list 0%Z dec_tag json_of_tag (elements (t_portal_groups t)), t)
  else if String.eqb method "iscsi_get_initiator_groups" then
    (answer_list 0%Z dec_tag json_of_tag (elements (t_initiator_groups t)), t)
  else if String.eqb method "iscsi_create_portal_group" then
    (RpcOk (JBool true), set_portal_groups ({[tag]} ∪ t_portal_groups t) t)
  else if String.eqb method "iscsi_create_initiator_group" then
    (RpcOk (JBool true), set_initiator_groups ({[tag]} ∪ t_initiator_groups t) t)
  else if String.eqb method "iscsi_create_target_node" then
    let maps := match arg "pg_ig_maps" args with Some (JArr [m]) => Some m | _ => None end in
    let iqn := iqnPrefixName +:+ name in
    if bool_decide (json_Z (arg "pg_tag" maps) ∈ t_portal_groups t ∧
                    json_Z (arg "ig_tag" maps) ∈ t_initiator_groups t ∧
                    t_nodes t !! iqn = None) then
      (RpcOk (JBool true),
       set_nodes (<[iqn := mkTargetNode iqn (arg_str "alias_name" args)]> (t_nodes t)) t)
    else (invalid_parameters, t)
  else if String.eqb method "iscsi_delete_target_node" then
    (RpcOk (JBool true), set_nodes (delete name (t_nodes t)) t)
  else ref_nvmf t method args.

(** The UUID of a new volume, if it is free. *)
Definition fresh_uuid (t : target) : option string :=
  let uuid := "uuid-" +:+ FormatInt (Z.of_nat (size (t_bdevs t))) in
  if bool_decide (t_bdevs t !! uuid = None ∧ t_alias t !! uuid = None) then Some uuid else None.

Definition make_volume (t : target) (alias : string) (block_size blocks : Z) (store : option string)
    : rpc_outcome * target :=
  match fresh_uuid t, bdev_lookup t alias with
  | Some uuid, None =>
      (RpcOk (JStr uuid),
       set_volumes (<[uuid := mkBDev uuid uuid block_size blocks store]> (t_bdevs t))
                   (<[alias := uuid]> (t_alias t)) t)
  | _, _ => (operation_refused, t)
  end.

(** A volume of the size of another one, in its store. *)
Definition make_like (t : target) (source name : string) : rpc_outcome * target :=
  match bdev_lookup t source, volume_store t source with
  | Some b, Some lvs =>
      make_volume t (lvs +:+ "/" +:+ name) (BDev_BlockSize b) (BDev_NumBlocks b) (BDev_DriverSpecific b)
  | _, _ => (no_such_device, t)
  end.

Definition ref_rpc (t : target) (method : string) (args : option json) : rpc_outcome * target :=
  let name := arg_str "name" args in
  if String.eqb method "bdev_get_bdevs" then
    match bdev_lookup t name with
    | Some b => (answer_list BDev_zero dec_BDev json_of_bdev [b], t)
    | None => (no_such_device, t)
    end
  else if String.eqb method "bdev_lvol_get_lvstores" then
    (answer_list lvstore_raw_zero dec_lvstore_raw json_of_lvstore (t_lvstores t), t)
  else if String.eqb method "bdev_lvol_create" then
    let lvs := arg_str "lvs_name" args in
    make_volume t (lvs +:+ "/" +:+ arg_str "lvol_name" args) 512 (json_Z (arg "size" args) `div` 512)
      (raw_UUID <$> find_first (λ s, String.eqb (raw_Name s) lvs) (t_lvstores t))
  else if String.eqb method "bdev_lvol_snapshot" then
    make_like t (arg_str "lvol_name" args) (arg_str "snapshot_name" args)
  else if String.eqb method "bdev_lvol_clone" then
    make_like t (arg_str "snapshot_name" args) (arg_str "clone_name" args)
  else if String.eqb method "bdev_lvol_delete" then
    match bdev_lookup t name with
    | None => (no_such_device, t)
    | Some _ =>
        let t' := set_volumes (delete name (t_bdevs t)) (delete name (t_alias t)) t in
        match bdev_lookup t' name with
        | None => (RpcOk (JBool true), t')
        | Some _ => (operation_refused, t)
        end
    end
  else ref_iscsi t method args.

(** ** The world *)

(** The targets by URL, the lock table, the next free mutex, and the files. *)
Record ref_world := mkRefWorld {
  rw_targets : gmap string target;
  rw_locks : gmap string nat;
  rw_next : nat;
  rw_files : gmap string string
}.
Definition empty_target : target := mkTarget ∅ ∅ ∅ ∅ ∅ ∅ [mkLvstoreRaw 100 4194304 200 "lvs" "lvs-uuid"].
Definition ref_tgt (w : ref_world) (url : string) : target :=
  default empty_target (rw_targets w !! url).
Definition set_target (url : string) (t : target) (w : ref_world) : ref_world :=
  mkRefWorld (<[url := t]> (rw_targets w)) (rw_locks w) (rw_next w) (rw_files w).

Definition set_files (files : gmap string string) (w : ref_world) : ref_world :=
  mkRefWorld (rw_targets w) (rw_locks w) (rw_next w) files.

Definition ref_call (w : ref_world) (url : string) (body : json) : rpc_outcome * target :=
  ref_rpc (ref_tgt w url) (arg_str "method" (Some body)) (arg "params" (Some body)).

Definition ref_http (w : ref_world) (url : string) (body : json) : http_reply * ref_world :=
  let '(o, t') := ref_call w url body in
  (match o with
   | RpcFail => HttpFail "no answer"
   | _ => HttpResp 200 (inr (rpc_response (json_Z (arg "id" (Some body))) o))
   end, set_target url t' w).

Definition no_file : bool * string := (true, "no such file or directory").

(** Maps are visited in their order, mutexes are free, a file that is written is there. *)
Definition ref_handler (o : op) (w : ref_world) : reply o * ref_world :=
  match o return reply o * ref_world with
  | HttpDo url _ _ body => ref_http w url body
  | MapRange keys => (keys, w)
  | TimeNow => (0%Z, w)
  | Sleep _ => (tt, w)
  | Getenv _ => ("", w)
  | NewMutex => (rw_next w, mkRefWorld (rw_targets w) (rw_locks w) (S (rw_next w)) (rw_files w))
  | MapLoadOrStore _ key m =>
      match rw_locks w !! key with
      | Some m' => (m', w)
      | None => (m, mkRefWorld (rw_targets w) (<[key := m]> (rw_locks w)) (rw_next w) (rw_files w))
      end
  | MutexLock _ => (tt, w)
  | MutexUnlock _ => (tt, w)
  | RandInt _ => (inl "no entropy", w)
  | UuidParse s => (inr s, w)
  | NetListen _ _ | GrpcServe _ _ => (None, w)
  | GrpcStop _ => (tt, w)
  | GrpcDial _ => (Some "unreachable", w)
  | SmaCall _ => (SmaErr "unavailable", w)
  | OpiCall _ => (inl "unavailable", w)
  | OsReadFile p =>
      match rw_files w !! p with Some c => (inr c, w) | None => (inl no_file, w) end
  | OsWriteFile p c => (inr tt, set_files (<[p := c]> (rw_files w)) w)
  | OsAppendFile _ _ => (inl no_file, w)
  | OsStat _ => (inl no_file, w)
  | OsMkdirAll _ => (inr tt, w)
  | OsRemove p => (inr tt, set_files (delete p (rw_files w)) w)
  | OsRemoveAll _ => (inl no_file, w)
  | OsReadDir _ => (inl no_file, w)
  | OsReadlink _ => (inl no_file, w)
  | FilepathGlob _ => (inr [], w)
  | ExecCommand _ _ => (ExecOk, w)
  | IsNotMountPoint _ => ((true, None), w)
  | MountUnmount _ => (None, w)
  | MountMount _ _ _ _ => (None, w)
  | FormatAndMount _ _ _ _ => (None, w)
  end.

(** The service always answers: a request it could not answer is not a step. *)
Definition answered (w : ref_world) (o : op) : Prop :=
  match o with
  | HttpDo url _ _ body => (ref_call w url body).1 ≠ RpcFail
  | _ => True
  end.
Definition ref_step (w : ref_world) (o : op) (r : reply o) (w' : ref_world) : Prop :=
  ref_handler o w = (r, w') ∧ answered w o.

(** ** The laws *)

Lemma ToLower_app a b : ToLower (a +:+ b) = ToLower a +:+ ToLower b.
Proof. induction a as [|c a IH]; simpl; [done|]. by rewrite IH. Qed.

Lemma Contains_app a b sub : Contains b sub = true → Contains (a +:+ b) sub = true.
Proof. intros H. induction a as [|c a IH]; simpl; [done|]. rewrite IH. apply orb_true_r. Qed.

Lemma says_suffix s msg :
  errorMatches (Some (ENew (": json response error: " +:+ msg))) s = true → says s msg.
Proof.
  intros H method. unfold errorMatches, response_error in *. simpl error_string in *.
  rewrite ToLower_app. by apply Contains_app.
Qed.

Lemma says_no_such_device : says ErrJSONNoSuchDevice "No such device".
Proof. apply says_suffix. by vm_compute. Qed.
Lemma says_invalid_parameters : says ErrInvalidParameters "Invalid parameters".
Proof. apply says_suffix. by vm_compute. Qed.

Lemma answer_list_ok {A} `{EqDecision A} (zero : A) dec enc l r :
  answer_list zero dec enc l = RpcOk r → dec_slice zero dec r [] = (l, true).
Proof. unfold answer_list. case_decide; [|done]. by intros [= <-]. Qed.

Lemma answer_list_err {A} `{EqDecision A} (zero : A) dec enc l c msg :
  answer_list zero dec enc l ≠ RpcErr c msg.
Proof. unfold answer_list. by case_decide. Qed.

(** The relation of the interface: the service's answer, when there is one. *)
Definition ref_rel (t : target) (method : string) (args : option json) (o : rpc_outcome)
    (t' : target) : Prop :=
  ref_rpc t method args = (o, t') ∧ o ≠ RpcFail.

(** Every error leaves the target alone, and has a code. *)
(** An outcome that is not an error, or is one of the fixed ones. *)
Ltac no_error :=
  let H := fresh in let H1 := fresh in
  repeat case_goal; intros H;
  first [discriminate H
        |injection H as <- <- <-; done
        |injection H as H1 _; exfalso; by eapply answer_list_err].

Lemma ref_nvmf_error t method args c msg t' :
  ref_nvmf t method args = (RpcErr c msg, t') → t' = t ∧ c ≠ 0%Z ∧ in_int64 c = true.
Proof. unfold ref_nvmf, with_subsystem, invalid_parameters, operation_refused. no_error. Qed.

Lemma ref_iscsi_error t method args c msg t' :
  ref_iscsi t method args = (RpcErr c msg, t') → t' = t ∧ c ≠ 0%Z ∧ in_int64 c = true.
Proof.
  unfold ref_iscsi, invalid_parameters.
  repeat (case_goal; [no_error|]). apply ref_nvmf_error.
Qed.

Lemma ref_rpc_error t method args c msg t' :
  ref_rpc t method args = (RpcErr c msg, t') → t' = t ∧ c ≠ 0%Z ∧ in_int64 c = true.
Proof.
  unfold ref_rpc, make_like, make_volume, no_such_device, operation_refused.
  repeat (case_goal; [no_error|]). apply ref_iscsi_error.
Qed.

Lemma arg_here k v kvs : arg k (Some (JObj ((k, v) :: kvs))) = Some v.
Proof. unfold arg. simpl. by rewrite String.eqb_refl. Qed.

#[export] Instance ref_transport : Transport ref_step.
Proof.
  refine {| tgt := ref_tgt; rpc := ref_rel |}.
  - intros w url user pass id method args rep w' [Hh Ha]. simpl in *.
    unfold ref_http in Hh.
    assert (ref_call w url (rpc_request id method args) = ref_rpc (ref_tgt w url) method args) as Hc.
    { unfold ref_call. by destruct args. }
    assert (json_Z (arg "id" (Some (rpc_request id method args))) = id) as Hid.
    { simpl. by rewrite parse_Z_FormatInt. }
    rewrite Hid, Hc in Hh. rewrite Hc in Ha. destruct (ref_rpc _ _ _) as [o t'] eqn:Ho.
    injection Hh as <- <-. exists o. simpl in Ha. split_and!.
    + unfold ref_rel, set_target, ref_tgt at 2. simpl. rewrite lookup_insert_eq.
      exact (conj Ho Ha).
    + destruct o as [r|c msg|]; [done| |done]. by apply ref_rpc_error in Ho as (_ & ? & ?).
    + intros url' Hurl. unfold ref_tgt, set_target. simpl. by rewrite lookup_insert_ne.
  - intros t method args c msg t' [H _]. by apply ref_rpc_error in H as [? _].
Defined.

(** Evaluate a method of the service on the arguments of a law. *)
Ltac ref_method :=
  intros * [Hrpc Hfail]; unfold ref_rpc, ref_iscsi, ref_nvmf, with_subsystem, listener_of,
    arg_str, arg in Hrpc;
  simpl in Hrpc; rewrite ?parse_Z_FormatInt in Hrpc; simpl in Hrpc.

(** Two lists of the service that hold the same. *)
Lemma elem_of_subsystems t nqn ns :
  mkSubsystem nqn ns ∈ (λ kv, mkSubsystem kv.1 (sub_ns kv.2)) <$> map_to_list (t_subsystems t) ↔
  sub_ns <$> t_subsystems t !! nqn = Some ns.
Proof.
  rewrite list_elem_of_fmap, fmap_Some. split.
  - intros ([k s] & [= -> ->] & Hk%elem_of_map_to_list). eauto.
  - intros (s & Hs & ->). exists (nqn, s). split; [done|]. by apply elem_of_map_to_list.
Qed.

Lemma make_volume_made t alias block_size blocks store r t' :
  make_volume t alias block_size blocks store = (RpcOk r, t') →
  ∃ uuid, r = JStr uuid ∧ made alias uuid t t'.
Proof.
  unfold make_volume. destruct (fresh_uuid t) as [uuid|] eqn:Hu; [|done].
  destruct (bdev_lookup t _) eqn:Hb; [done|]. intros [= <- <-].
  unfold fresh_uuid in Hu. case_bool_decide as Hfree; [|done]. injection Hu as <-.
  eexists. split; [done|]. eexists (mkBDev _ _ _ _ _).
  split_and!; [simpl; reflexivity|apply Hfree|apply Hfree|done|reflexivity].
Qed.

Lemma make_like_made t source name r t' :
  make_like t source name = (RpcOk r, t') →
  ∃ lvs uuid, volume_store t source = Some lvs ∧ r = JStr uuid ∧ made (lvs +:+ "/" +:+ name) uuid t t'.
Proof.
  unfold make_like. destruct (bdev_lookup t source) as [b|]; [|done].
  destruct (volume_store t source) as [lvs|]; [|done].
  intros (uuid & -> & Hmade)%make_volume_made. by exists lvs, uuid.
Qed.

#[export] Instance ref_volumes : VolumeLaws ref_transport.
Proof.
  split.
  - ref_method. destruct (bdev_lookup t name) as [b|] eqn:Hb.
    + injection Hrpc as <- <-. destruct (answer_list _ _ _ _) as [r|c msg|] eqn:Hans; [|by apply answer_list_err in Hans|done].
      split; [done|]. exists b. split; [done|]. by eapply answer_list_ok.
    + injection Hrpc as <- <-. split; [done|]. apply says_no_such_device.
  - ref_method. destruct (make_volume_made _ _ _ _ _ _ _ Hrpc) as (uuid & -> & Hmade).
    by exists uuid.
  - ref_method. destruct (bdev_lookup t name) as [b|] eqn:Hb.
    + destruct (bdev_lookup (set_volumes _ _ t) name) eqn:Hb'; injection Hrpc as <- <-; [|done].
      by vm_compute.
    + injection Hrpc as <- <-. by vm_compute.
  - ref_method. injection Hrpc as <- <-. split; [done|].
    destruct (answer_list _ _ _ _) eqn:Hans; [|done|done].
    eexists. split; [by eapply answer_list_ok|done].
Qed.

#[export] Instance ref_snapshots : SnapshotLaws ref_transport.
Proof. split; ref_method; by apply make_like_made in Hrpc. Qed.

#[export] Instance ref_nvmf_laws : NvmfLaws ref_transport.
Proof.
  split.
  - ref_method. destruct (t_subsystems t !! nqn) as [s|] eqn:Hs; injection Hrpc as <- <-.
    + destruct (answer_list _ _ _ _) eqn:Hans; [|by apply answer_list_err in Hans|done].
      split; [done|]. exists s. split; [done|]. by eapply answer_list_ok.
    + split; [done|]. apply says_invalid_parameters.
  - ref_method. by injection Hrpc as <- <-.
  - ref_method. destruct (t_subsystems t !! nqn) eqn:Hs; injection Hrpc as <- <-; [done|].
    by split.
  - ref_method. destruct (t_subsystems t !! nqn) as [s|] eqn:Hs; [|by injection Hrpc as <- <-].
    destruct (in_int64 (fresh_nsid s)) eqn:Hin; injection Hrpc as <- <-; [|done].
    exists (fresh_nsid s). split; [|by exists s].
    simpl. unfold dec_int64, dec_int. by rewrite parse_Z_FormatInt, Hin.
  - ref_method. destruct (t_subsystems t !! nqn) as [s|] eqn:Hs; injection Hrpc as <- <-; [|done].
    exists s. split; [done|]. by destruct l.
  - ref_method. injection Hrpc as <- <-.
    destruct (answer_list _ _ _ _) eqn:Hans; [|done|done].
    split; [done|]. eexists. split; [by eapply answer_list_ok|]. split; [|by apply elem_of_subsystems].
    rewrite <-list_fmap_compose. apply NoDup_fst_map_to_list.
  - ref_method. destruct (t_subsystems t !! nqn) as [s|] eqn:Hs; injection Hrpc as <- <-; [|done].
    by exists s.
  - ref_method. destruct (t_subsystems t !! nqn) as [s|] eqn:Hs; injection Hrpc as <- <-; by split.
Qed.

#[export] Instance ref_iscsi_laws : IscsiLaws ref_transport.
Proof.
  split.
  - ref_method. injection Hrpc as <- <-. split; [done|].
    destruct (answer_list _ _ _ _) eqn:Hans; [|done|done].
    eexists. split; [by eapply answer_list_ok|]. intros n. rewrite list_elem_of_fmap. split.
    + intros ([k x] & -> & Hk%elem_of_map_to_list). eauto.
    + intros [k Hk]. exists (k, n). split; [done|]. by apply elem_of_map_to_list.
  - ref_method. injection Hrpc as <- <-. split; [done|].
    destruct (answer_list _ _ _ _) eqn:Hans; [|done|done].
    eexists. split; [by eapply answer_list_ok|]. intros tag. apply elem_of_elements.
  - ref_method. injection Hrpc as <- <-. split; [done|].
    destruct (answer_list _ _ _ _) eqn:Hans; [|done|done].
    eexists. split; [by eapply answer_list_ok|]. intros tag. apply elem_of_elements.
  - ref_method. injection Hrpc as <- <-. by exists true.
  - ref_method. injection Hrpc as <- <-. by exists true.
  - ref_method.
    case_bool_decide as Hok; injection Hrpc as <- <-; [|done]. exists true. split; [done|].
    destruct Hok as (? & ? & ?). by split_and!.
  - ref_method. injection Hrpc as <- <-. by exists true.
Qed.

#[export] Instance ref_undisturbed : Undisturbed (T := ref_transport).
Proof.
  split. intros w o r w' Ho [H _] url. destruct o; try done; simpl in H; repeat case_match;
    by injection H as <- <-.
Qed.

#[export] Instance ref_files : FileLaws ref_step.
Proof.
  refine {| file w p := rw_files w !! p |}.
  - intros w p r w' [H _]. simpl in H. destruct (rw_files w !! p) eqn:Hp; by injection H as <- <-.
  - intros w p c r w' [H _]. injection H as <- <-. simpl. split; [|by rewrite lookup_insert_eq].
    intros q Hq. by rewrite lookup_insert_ne.
  - intros w p r w' [H _]. injection H as <- <-. simpl. split; [|by rewrite lookup_delete_eq].
    intros q Hq. by rewrite lookup_delete_ne.
  - intros w o r w' p q [H _] Ho _. destruct o; try done; by injection H as <- <-.
  - intros w o r w' [H _] Ho q. destruct o; try done; simpl in H;
      repeat case_match; unfold ref_http in *; repeat case_match; simplify_eq/=; done.
Defined.

(** ** Runs *)

Definition answered_b (w : ref_world) (o : op) : bool :=
  match o with
  | HttpDo url _ _ body => match (ref_call w url body).1 with RpcFail => false | _ => true end
  | _ => true
  end.

(** Every request of the run gets an answer. *)
Fixpoint all_answered {A} (p : proc A) (w : ref_world) : bool :=
  match p with
  | Vis o k => answered_b w o && (let '(r, w') := ref_handler o w in all_answered (k r) w')
  | _ => true
  end.

Lemma ref_handler_ok o w : go_ok o (ref_handler o w).1.
Proof. by destruct o; simpl. Qed.

(** What [wp] promises holds of the run. *)
Lemma wp_ref_run {A} (p : proc A) Q w :
  all_answered p w = true → wp ref_step p Q w →
  Q (run ref_handler p w).1 (run ref_handler p w).2.
Proof.
  revert w. induction p as [a|m|o k IH]; simpl; [done..|].
  intros w Hall Hwp. apply andb_true_iff in Hall as [Ho Hall].
  pose proof (ref_handler_ok o w) as Hok.
  destruct (ref_handler o w) as [r w'] eqn:Hr. apply IH; [done|]. apply Hwp; [done|].
  split; [done|]. destruct o; try done. simpl in *. by destruct (ref_call _ _ _).1.
Qed.

(** The service is reliable. *)
Lemma ref_reliable t method args t' : ¬ rpc (Transport := ref_transport) t method args RpcFail t'.
Proof. by intros [_ ?]. Qed.

(** A controller with one NVMe-oF node and one iSCSI node, and the secrets of both. *)
Definition ref_secrets : gomap := Some {["secret.json" :=
  print (JObj [("rpcTokens", JArr [
    JObj [("name", JStr "node1"); ("username", JStr "user"); ("password", JStr "pass")];
    JObj [("name", JStr "node2"); ("username", JStr "user"); ("password", JStr "pass")]])])]}.

(** A target with one volume, and the clients of it. *)
Definition ref_url : string := "http://127.0.0.1:9009".
Definition ref_bdev : BDev := mkBDev "lvol-1" "lvol-1" 512 2048 (Some "lvs-uuid").
Definition ref_client : rpcClient := mkRpcClient ref_url "user" "pass" 0.
Definition ref_volume_world : ref_world :=
  mkRefWorld {[ref_url := set_volumes {["lvol-1" := ref_bdev]} {["lvs/pvc-1" := "lvol-1"]}
                                      empty_target]} ∅ 0 ∅.
Definition ref_nvmf_node : nodeNVMf := newNVMf ref_client "TCP" "127.0.0.1".
Definition ref_iscsi_node : nodeISCSI := newISCSI ref_client "127.0.0.1".

Definition ref_driver : CSIDriver := mkCSIDriver "csi.spdk.io" "node1" "v1" [] [].
Definition ref_controller : controllerServer := mkControllerServer ref_driver
  (controllerServer.config_map
     [mkSpdkNodeConfig "node1" ref_url "nvme-tcp" "127.0.0.1";
      mkSpdkNodeConfig "node2" ref_url "iscsi" "127.0.0.1"]) (mkVolumeLocks 0).
