(* ===== verification/TargetWitnesses.v ===== *)
(** Runs of the driver's code at concrete inputs: each lemma applies a theorem to a run
    against the reference target, and says how the run ends. *)

From S2P Require Import Prelude.
From S2P Require Import GoLang.
From S2P Require Import GoJson.
From S2P Require Import World.
From S2P Require Import RpcClient.
From S2P Require Import Nvmf.
From S2P Require Import Iscsi.
From S2P Require Import Target.
From S2P Require Import TargetCalls.
From S2P Require Import NvmfSpec.
From S2P Require Import IscsiSpec.
From S2P Require Import Util.
From S2P Require Import UtilSpec.
From S2P Require Import RefTarget.

(** The result of a run of a method. *)
Definition result {S A} (out : outcome (A * S)) : option A :=
  match out with Done (a, _) => Some a | Panicked _ => None end.

Abbreviation run_ref p w := (run ref_handler p w).

Ltac run_witness :=
  match goal with
  | |- ?P (fst (run ref_handler ?p ?w)) (snd (run ref_handler ?p ?w)) =>
      apply (wp_ref_run p P w); [vm_compute; reflexivity|]
  end.

Lemma ref_is_reliable : ¬ unreliable (T := ref_transport).
Proof. intros (t & m & a & t' & H). by eapply ref_reliable. Qed.

(** ** NVMe-oF *)

Lemma PublishVolume_refines_witness :
  let r := run_ref (nodeNVMf.PublishVolume "lvol-1" ref_nvmf_node) ref_volume_world in
  result r.1 = Some None ∧
  meets (publish_spec ref_nvmf_node "lvol-1") reported ref_nvmf_node ref_volume_world r.1 r.2.
Proof. split; [vm_compute; reflexivity|]. run_witness. apply PublishVolume_refines. Defined.

(** The world with the volume published. *)
Definition ref_published_world : ref_world :=
  (run_ref (nodeNVMf.PublishVolume "lvol-1" ref_nvmf_node) ref_volume_world).2.

Lemma UnpublishVolume_refines_witness :
  let r := run_ref (nodeNVMf.UnpublishVolume "lvol-1" ref_nvmf_node) ref_published_world in
  result r.1 = Some None ∧
  meets (unpublish_spec ref_nvmf_node "lvol-1") reported_or_idle ref_nvmf_node
    ref_published_world r.1 r.2.
Proof. split; [vm_compute; reflexivity|]. run_witness. apply UnpublishVolume_refines. Defined.

Lemma publish_unpublish_restores_witness :
  let p := (nodeNVMf.PublishVolume "lvol-1" ;? nodeNVMf.UnpublishVolume "lvol-1") ref_nvmf_node in
  let r := run_ref p ref_volume_world in
  result r.1 = Some None ∧
  (quiet ref_volume_world r.2 ∧ ∃ err n', r.1 = Done (err, n') ∧ same_node ref_nvmf_node n').
Proof.
  split; [vm_compute; reflexivity|].
  apply (wp_ref_run _ (λ out w', quiet ref_volume_world w' ∧ ∃ err n',
           out = Done (err, n') ∧ same_node ref_nvmf_node n')); [vm_compute; reflexivity|].
  apply publish_unpublish_restores; [apply ref_is_reliable|].
  apply (bool_decide_eq_false_1 _). vm_compute. reflexivity.
Defined.

Lemma publish_idempotent_run :
  let p := (err1 ← nodeNVMf.PublishVolume "lvol-1"; err2 ← nodeNVMf.PublishVolume "lvol-1";
            mret (err1, err2)) ref_nvmf_node in
  let r := run_ref p ref_volume_world in
  result r.1 = Some (None, None) ∧
  (∃ err1 err2 n', r.1 = Done (err1, err2, n') ∧
     (err1 = None → err2 = None ∧ publish_spec ref_nvmf_node "lvol-1"
        (tgt ref_volume_world ref_url) None (tgt r.2 ref_url))).
Proof.
  split; [vm_compute; reflexivity|].
  apply (wp_ref_run _ (λ out w', ∃ err1 err2 n', out = Done (err1, err2, n') ∧
     (err1 = None → err2 = None ∧ publish_spec ref_nvmf_node "lvol-1"
        (tgt ref_volume_world ref_url) None (tgt w' ref_url)))); [vm_compute; reflexivity|].
  apply publish_idempotent, ref_is_reliable.
Qed.

(** The world with the volume's subsystem made, and nothing in it. *)
Definition ref_leftover_world : ref_world :=
  (run_ref (nodeNVMf.createSubsystem "lvol-1" ref_nvmf_node) ref_volume_world).2.

Lemma publish_leftover_fails_witness :
  let r := run_ref (nodeNVMf.PublishVolume "lvol-1" ref_nvmf_node) ref_leftover_world in
  quiet ref_leftover_world r.2 ∧ ∃ e n', r.1 = Done (Some e, n').
Proof.
  apply (wp_ref_run _ (λ out w', quiet ref_leftover_world w' ∧ ∃ e n', out = Done (Some e, n')));
    [vm_compute; reflexivity|].
  apply publish_leftover_fails; [apply ref_is_reliable| |].
  - apply (bool_decide_eq_true_1 _). vm_compute. reflexivity.
  - apply (bool_decide_eq_false_1 _). vm_compute. reflexivity.
Defined.

Lemma publication_isolated_witness :
  let r := run_ref (nodeNVMf.PublishVolume "lvol-1" ref_nvmf_node) ref_volume_world in
  only ref_url ref_volume_world r.2 ∧
  elsewhere "lvol-1" (tgt ref_volume_world ref_url) (tgt r.2 ref_url).
Proof.
  apply (wp_ref_run _ (λ _ w', only ref_url ref_volume_world w' ∧
           elsewhere "lvol-1" (tgt ref_volume_world ref_url) (tgt w' ref_url)));
    [vm_compute; reflexivity|].
  apply publication_isolated.
Defined.

(** ** iSCSI *)

Lemma iscsi_PublishVolume_refines_witness :
  let r := run_ref (nodeISCSI.PublishVolume "lvol-1" ref_iscsi_node) ref_volume_world in
  result r.1 = Some None ∧
  iscsi_meets (iscsi_publish_spec "lvol-1") ref_iscsi_node ref_volume_world r.1 r.2.
Proof. split; [vm_compute; reflexivity|]. run_witness. apply iscsi_PublishVolume_refines. Defined.

Definition ref_iscsi_published_world : ref_world :=
  (run_ref (nodeISCSI.PublishVolume "lvol-1" ref_iscsi_node) ref_volume_world).2.

Lemma iscsi_UnpublishVolume_refines_witness :
  let r := run_ref (nodeISCSI.UnpublishVolume "lvol-1" ref_iscsi_node) ref_iscsi_published_world in
  result r.1 = Some None ∧
  iscsi_meets (iscsi_unpublish_spec "lvol-1") ref_iscsi_node ref_iscsi_published_world r.1 r.2.
Proof. split; [vm_compute; reflexivity|]. run_witness. apply iscsi_UnpublishVolume_refines. Defined.

Lemma iscsi_publish_unpublish_restores_witness :
  let p := (nodeISCSI.PublishVolume "lvol-1" ;? nodeISCSI.UnpublishVolume "lvol-1")
             ref_iscsi_node in
  let r := run_ref p ref_volume_world in
  result r.1 = Some None ∧
  (∀ n', r.1 = Done (None, n') → only ref_url ref_volume_world r.2 ∧
     grown (tgt ref_volume_world ref_url) (tgt r.2 ref_url)).
Proof.
  split; [vm_compute; reflexivity|].
  apply (wp_ref_run _ (λ out w', ∀ n', out = Done (None, n') → only ref_url ref_volume_world w' ∧
           grown (tgt ref_volume_world ref_url) (tgt w' ref_url))); [vm_compute; reflexivity|].
  apply iscsi_publish_unpublish_restores.
  apply (bool_decide_eq_false_1 _). vm_compute. reflexivity.
Defined.

(** ** Stashed contexts *)

Definition ref_context : gmap string string := {["nqn" := "nqn.lvol-1"; "model" := "a<b"]}.

Lemma stash_lookup_roundtrip_witness :
  (let r := run_ref (StashVolumeContext (Some ref_context) "/stage") ref_volume_world in
   r.1 = Done None) ∧
  wp ref_step (StashVolumeContext (Some ref_context) "/stage")
    (λ out w1, out = Done None → ∀ w2,
       file w2 (filepath_Join "/stage" volumeContextFileName) =
       file w1 (filepath_Join "/stage" volumeContextFileName) →
       wp ref_step (LookupVolumeContext "/stage")
         (λ out' _, out' = Done (inr ref_context) ∨
                    ∃ p msg, out' = Done (inl (EWrap p (ESys false msg)))) w2) ref_volume_world.
Proof.
  split; [vm_compute; reflexivity|].
  apply stash_lookup_roundtrip. apply (bool_decide_eq_true_1 _). vm_compute. reflexivity.
Defined.
