(* ===== verification/ControllerWitnesses.v ===== *)
(** Runs of the controller's handlers at concrete inputs, against the reference target:
    with one storage node of either kind, which share a target or have one each. *)

From S2P Require Import Prelude.
From S2P Require Import GoLang.
From S2P Require Import GoJson.
From S2P Require Import World.
From S2P Require Import RpcClient.
From S2P Require Import Nvmf.
From S2P Require Import Iscsi.
From S2P Require Import SpdkNode.
From S2P Require Import Util.
From S2P Require Import VolumeLocks.
From S2P Require Import CsiCommon.
From S2P Require Import Controller.
From S2P Require Import ControllerOps.
From S2P Require Import ControllerFacts.
From S2P Require Import Target.
From S2P Require Import TargetCalls.
From S2P Require Import ControllerSpec.
From S2P Require Import VolumesSpec.
From S2P Require Import CreationSpec.
From S2P Require Import SnapshotSpec.
From S2P Require Import Initiator.
From S2P Require Import EndToEnd.
From S2P Require Import RefTarget.
From S2P Require Import TargetWitnesses.

Definition value {A} (out : outcome A) : option A :=
  match out with Done a => Some a | Panicked _ => None end.

(** ** Creation and deletion *)

Definition ref_create_request : CreateVolumeRequest :=
  mkCreateVolumeRequest "pvc-2" 1048577 (Some ∅) ref_secrets None.

Definition ref_empty_world : ref_world := mkRefWorld {[ref_url := empty_target]} ∅ 0 ∅.

Lemma CreateVolume_published_witness :
  let r := run_ref (controllerServer.CreateVolume ref_controller ref_create_request)
             ref_empty_world in
  match r.1 with
  | Done (inr vol) => vol_VolumeId vol = "node1:uuid-0" ∧ vol_CapacityBytes vol = 2097152%Z
  | _ => False
  end ∧
  (∀ vol, r.1 = Done (inr vol) →
     (∃ node lvol, volume_node ref_controller ref_secrets (vol_VolumeId vol) node lvol ∧
                   node_published node lvol (tgt r.2 (node_url node))) ∧
     ((0 < 1048577 ≤ 2 ^ 63 - 2 ^ 20)%Z → rounded_up 1048577 (vol_CapacityBytes vol))).
Proof.
  split; [vm_compute; by split|].
  apply (wp_ref_run _ (λ out w', ∀ vol, out = Done (inr vol) →
     (∃ node lvol, volume_node ref_controller ref_secrets (vol_VolumeId vol) node lvol ∧
                   node_published node lvol (tgt w' (node_url node))) ∧
     ((0 < 1048577 ≤ 2 ^ 63 - 2 ^ 20)%Z → rounded_up 1048577 (vol_CapacityBytes vol)))); [vm_compute; reflexivity|].
  apply (CreateVolume_published ref_controller ref_create_request).
Defined.

(** The world after the creation. *)
Definition ref_created_world : ref_world :=
  (run_ref (controllerServer.CreateVolume ref_controller ref_create_request) ref_empty_world).2.

Lemma DeleteVolume_removed_witness :
  let r := run_ref (controllerServer.DeleteVolume ref_controller "node1:uuid-0" ref_secrets)
             ref_created_world in
  r.1 = Done None ∧ removed ref_controller ref_secrets "node1:uuid-0" r.2.
Proof.
  assert (let r := run_ref (controllerServer.DeleteVolume ref_controller "node1:uuid-0" ref_secrets)
             ref_created_world in r.1 = Done None) as H by (vm_compute; reflexivity).
  split; [exact H|]. revert H.
  apply (wp_ref_run _ (λ out w', out = Done None →
           removed ref_controller ref_secrets "node1:uuid-0" w')); [vm_compute; reflexivity|].
  apply DeleteVolume_removed, ref_is_reliable.
Defined.

Lemma DeleteVolume_again_witness :
  let r := run_ref (controllerServer.DeleteVolume ref_controller "node1:uuid-0" ref_secrets)
             ref_empty_world in
  r.1 = Done None ∧ quiet ref_empty_world r.2.
Proof.
  apply (wp_ref_run _ (λ out w', out = Done None ∧ quiet ref_empty_world w'));
    [vm_compute; reflexivity|].
  apply (DeleteVolume_again _ _ _ _
    (NodeNVMf (newNVMf (mkRpcClient ref_url "user" "pass" 0) "TCP" "127.0.0.1")) "uuid-0");
    [apply ref_is_reliable| |done|vm_compute; reflexivity].
  exists (mkSpdkVolume "uuid-0" "node1"). split_and!; [reflexivity|reflexivity|].
  vm_compute. reflexivity.
Defined.

Lemma schedule_sound_complete_witness :
  let r := run_ref (controllerServer.schedule ref_controller 100 ref_secrets) ref_empty_world in
  r.1 = Done (inr ("node1", "lvs")) ∧
  candidate ref_controller ref_secrets 100 ("node1", "lvs") ref_empty_world.
Proof.
  assert ((run_ref (controllerServer.schedule ref_controller 100 ref_secrets)
             ref_empty_world).1 = Done (inr ("node1", "lvs"))) as H by (vm_compute; reflexivity).
  split; [exact H|].
  pose proof (wp_ref_run _ _ ref_empty_world (eq_refl : all_answered
    (controllerServer.schedule ref_controller 100 ref_secrets) ref_empty_world = true)
    (schedule_sound_complete ref_controller 100 ref_secrets ref_empty_world)) as Hs.
  by rewrite H in Hs.
Defined.

(** ** Creation again *)

(** A controller whose two nodes have a target each, and the nodes' clients. *)
Definition ref_pair_controller : controllerServer := mkControllerServer ref_driver
  (controllerServer.config_map
     [mkSpdkNodeConfig "node1" ref_url "nvme-tcp" "127.0.0.1";
      mkSpdkNodeConfig "node2" "http://127.0.0.2:9009" "iscsi" "127.0.0.2"]) (mkVolumeLocks 0).

Definition ref_pair_iscsi : nodeISCSI :=
  newISCSI (mkRpcClient "http://127.0.0.2:9009" "user" "pass" 0) "127.0.0.2".
Definition ref_pair_nodes : gmap string spdkNode :=
  {["node1" := NodeNVMf ref_nvmf_node; "node2" := NodeISCSI ref_pair_iscsi]}.

Lemma ref_pair_lookup key :
  key = "node1" ∨ key = "node2" ∨
  ref_pair_nodes !! key = None ∧ spdkNodeConfigs ref_pair_controller !! key = None.
Proof.
  destruct (decide (key = "node1")) as [->|H1]; [by left|].
  destruct (decide (key = "node2")) as [->|H2]; [by right; left|]. right. right.
  unfold ref_pair_nodes. cbn [spdkNodeConfigs ref_pair_controller]. unfold controllerServer.config_map.
  cbn [foldl cfg_Name]. split; by rewrite lookup_insert_ne, ?lookup_insert_ne, ?lookup_singleton_ne, ?lookup_empty by done.
Qed.

Lemma ref_pair_ready : ready ref_pair_controller ref_secrets ref_pair_nodes.
Proof.
  split.
  - intros key. destruct (ref_pair_lookup key) as [->|[->|[-> ->]]];
      [split; intros _; vm_compute; by eexists..|].
    split; by intros [? [=]].
  - intros key cfg. destruct (ref_pair_lookup key) as [->|[->|[_ ->]]]; [vm_compute..|done];
      by intros [= <-].
  - intros key node. destruct (ref_pair_lookup key) as [->|[->|[-> _]]]; [vm_compute..|done];
      by intros [= <-].
  - intros k1 k2 n1 n2. destruct (ref_pair_lookup k1) as [->|[->|[-> _]]];
      destruct (ref_pair_lookup k2) as [->|[->|[-> _]]]; try done; vm_compute;
      by intros [= <-] [= <-].
Qed.

#[export] Instance ref_answering : Answering ref_transport.
Proof.
  split; [apply ref_is_reliable|]. intros t method o t' [-> | ->] [Hrpc Ho]; (destruct o as [r|c msg|]; [by exists r| |done]);
    exfalso; revert Hrpc; unfold ref_rpc, ref_iscsi; cbn -[answer_list];
    unfold answer_list; by case_decide.
Qed.

(** No volume is there to begin with. *)
Lemma ref_unnamed key vol : ¬ volume_at (T := ref_transport) ref_pair_nodes "pvc-2" ref_empty_world key vol.
Proof.
  intros (node & Hn & Hv). destruct (ref_pair_lookup key) as [->|[->|[Hnone _]]]; [..|congruence].
  - change (Some (NodeNVMf ref_nvmf_node) = Some node) in Hn. injection Hn as <-.
    vm_compute in Hv. discriminate.
  - change (Some (NodeISCSI ref_pair_iscsi) = Some node) in Hn. injection Hn as <-.
    vm_compute in Hv. discriminate.
Qed.

Lemma CreateVolume_idempotent_witness :
  let create := controllerServer.CreateVolume ref_pair_controller ref_create_request in
  let r := run_ref create ref_empty_world in
  let r' := run_ref create r.2 in
  match r.1 with Done (inr vol) => vol_VolumeId vol = "node1:uuid-0" | _ => False end ∧
  (∀ vol, r.1 = Done (inr vol) → r'.1 = Done (inr vol) ∧ quiet r.2 r'.2).
Proof.
  cbv zeta. set (create := controllerServer.CreateVolume ref_pair_controller ref_create_request).
  split; [vm_compute; reflexivity|]. intros vol Hvol.
  assert (all_answered create ref_empty_world = true) as Hall by (vm_compute; reflexivity).
  assert (all_answered create (run_ref create ref_empty_world).2 = true) as Hall'
    by (vm_compute; reflexivity).
  refine (wp_ref_run create (λ out' w2, out' = Done (inr vol) ∧ quiet _ w2) _ Hall' _).
  refine (wp_ref_run create _ ref_empty_world Hall
    (CreateVolume_idempotent ref_pair_controller ref_create_request
       ref_pair_nodes ref_pair_ready ref_empty_world _) vol Hvol).
  intros key vol1 key' vol' H. destruct (ref_unnamed key vol1 H).
Defined.

(** A volume whose subsystem was left without a listener. *)
Definition ref_left_world : ref_world :=
  mkRefWorld {[ref_url := set_subsystems {[nodeNVMf.getVolumeNqn "lvol-1" := mkSubsys [] []]}
    (set_volumes {["lvol-1" := ref_bdev]} {["lvs/pvc-2" := "lvol-1"]} empty_target)]} ∅ 0 ∅.

Lemma ref_left_deletable : deletable (T := ref_transport) (tgt ref_left_world ref_url) "lvol-1".
Proof. intros c msg t' [Hrpc _]. vm_compute in Hrpc. discriminate. Qed.

Lemma ref_left_sole : sole (T := ref_transport) ref_pair_nodes "pvc-2" ref_left_world "node1" "lvol-1".
Proof.
  split; [exists (NodeNVMf ref_nvmf_node); split; vm_compute; reflexivity|].
  intros key vol (node & Hn & Hv).
  destruct (ref_pair_lookup key) as [->|[->|[Hnone _]]]; [done| |congruence].
  change (Some (NodeISCSI ref_pair_iscsi) = Some node) in Hn. injection Hn as <-.
  vm_compute in Hv. discriminate.
Qed.

Lemma failed_create_deletes_witness :
  let r := run_ref (controllerServer.CreateVolume ref_pair_controller ref_create_request) ref_left_world in
  ∃ e, r.1 = Done (inl e) ∧ node_removed (NodeNVMf ref_nvmf_node) "lvol-1" r.2.
Proof.
  apply (wp_ref_run _ (λ out w', ∃ e, out = Done (inl e) ∧
    node_removed (NodeNVMf ref_nvmf_node) "lvol-1" w')); [vm_compute; reflexivity|].
  apply (failed_create_deletes ref_pair_controller ref_create_request
    ref_pair_nodes "node1" _ _ _
    ref_pair_ready eq_refl ref_left_sole eq_refl eq_refl); [vm_compute; by eexists| |exact ref_left_deletable].
  intros (s & Hs & Hin). vm_compute in Hs. injection Hs as <-. by apply elem_of_nil in Hin.
Defined.

(** ** Snapshots *)

Lemma CreateSnapshot_taken_witness :
  let take := controllerServer.CreateSnapshot ref_controller "node1:lvol-1" "snap" ref_secrets in
  let r := run_ref take ref_volume_world in
  let r' := run_ref take r.2 in
  match r.1 with
  | Done (inr s) => snap_SnapshotId s = "node1:uuid-1" ∧ snap_SizeBytes s = 1048576%Z
  | _ => False
  end ∧
  (∀ s, r.1 = Done (inr s) →
     snapped ref_controller "node1:lvol-1" "snap" ref_secrets s r.2 ∧
     volumes_kept ref_volume_world r.2 ∧ quiet r.2 r'.2 ∧
     ∃ time, r'.1 = Done (inr (mkSnapshot (snap_SizeBytes s) (snap_SnapshotId s)
                                 (snap_SourceVolumeId s) time (snap_ReadyToUse s)))).
Proof.
  cbv zeta. set (take := controllerServer.CreateSnapshot ref_controller "node1:lvol-1" "snap" ref_secrets).
  split; [vm_compute; by split|]. intros s Hs.
  assert (all_answered take ref_volume_world = true) as Hall by (vm_compute; reflexivity).
  assert (all_answered take (run_ref take ref_volume_world).2 = true) as Hall'
    by (vm_compute; reflexivity).
  destruct (wp_ref_run take _ ref_volume_world Hall
    (CreateSnapshot_taken ref_controller "node1:lvol-1" "snap" ref_secrets ref_volume_world) s Hs)
    as (Hsnap & Hkept & Hagain).
  split; [exact Hsnap|]. split; [exact Hkept|]. exact (wp_ref_run take _ _ Hall' Hagain).
Defined.

(** The world with the snapshot. *)
Definition ref_snapped_world : ref_world :=
  (run_ref (controllerServer.CreateSnapshot ref_controller "node1:lvol-1" "snap" ref_secrets)
     ref_volume_world).2.

Lemma DeleteSnapshot_once_witness :
  let drop := controllerServer.DeleteSnapshot ref_controller "node1:uuid-1" ref_secrets in
  let r := run_ref drop ref_snapped_world in
  let r' := run_ref drop r.2 in
  r.1 = Done None ∧ removed ref_controller ref_secrets "node1:uuid-1" r.2 ∧
  quiet r.2 r'.2 ∧ ∃ e, r'.1 = Done (Some e).
Proof.
  cbv zeta. set (drop := controllerServer.DeleteSnapshot ref_controller "node1:uuid-1" ref_secrets).
  assert ((run_ref drop ref_snapped_world).1 = Done None) as Hr by (vm_compute; reflexivity).
  assert (all_answered drop ref_snapped_world = true) as Hall by (vm_compute; reflexivity).
  assert (all_answered drop (run_ref drop ref_snapped_world).2 = true) as Hall'
    by (vm_compute; reflexivity).
  destruct (wp_ref_run drop _ ref_snapped_world Hall
    (DeleteSnapshot_once ref_controller "node1:uuid-1" ref_secrets ref_snapped_world) Hr)
    as [Hrem Hagain].
  split; [exact Hr|]. split; [exact Hrem|]. exact (wp_ref_run drop _ _ Hall' Hagain).
Defined.

(** ** Failures *)

Lemma DeleteVolume_unknown_node_run :
  let r := run_ref (controllerServer.DeleteVolume ref_controller "node9:lvol-1" ref_secrets)
             ref_volume_world in
  r.1 = Panicked nil_dereference.
Proof.
  apply (wp_ref_run _ (λ out _, out = Panicked nil_dereference)); [vm_compute; reflexivity|].
  eapply (DeleteVolume_unknown_node _ _ _ (mkSpdkVolume "lvol-1" "node9"));
    [reflexivity|vm_compute; reflexivity|vm_compute; reflexivity].
Qed.

Lemma CreateSnapshot_iscsi_fails_run :
  let r := run_ref (controllerServer.CreateSnapshot ref_controller "node2:lvol-1" "snap" ref_secrets)
             ref_volume_world in
  match r.1 with Done (inl _) => True | _ => False end ∧
  ∀ snapshot, r.1 ≠ Done (inr snapshot).
Proof.
  cbv zeta. split; [vm_compute; exact I|].
  apply (wp_ref_run _ (λ out _, ∀ snapshot, out ≠ Done (inr snapshot))); [vm_compute; reflexivity|].
  eapply (CreateSnapshot_iscsi_fails _ _ _ _ _ (mkSpdkVolume "lvol-1" "node2"));
    [reflexivity|vm_compute; reflexivity].
Qed.

(** ** From the controller to the client node *)

(** Parameters that would lead the initiator elsewhere are overridden. *)
Definition ref_misled_request : CreateVolumeRequest :=
  mkCreateVolumeRequest "pvc-2" 1048577
    (Some {["targetAddr" := "nowhere"; "targetType" := "iscsi"]}) ref_secrets None.

Lemma created_is_reachable_witness :
  let r := run_ref (controllerServer.CreateVolume ref_controller ref_misled_request)
             ref_empty_world in
  match r.1 with
  | Done (inr vol) => NewSpdkCsiInitiator (vol_VolumeContext vol) =
      inr (inl (mkInitiatorNVMf "TCP" "127.0.0.1" "4420" "nqn.2020-04.io.spdk.csi:uuid:uuid-0" "uuid-0"))
  | _ => False
  end ∧
  (∀ vol, r.1 = Done (inr vol) →
     ∃ node lvol i, volume_node ref_controller ref_secrets (vol_VolumeId vol) node lvol ∧
       NewSpdkCsiInitiator (vol_VolumeContext vol) = inr i ∧
       reaches i node lvol (tgt r.2 (node_url node))).
Proof.
  split; [vm_compute; reflexivity|].
  apply (wp_ref_run _ (λ out w', ∀ vol, out = Done (inr vol) →
     ∃ node lvol i, volume_node ref_controller ref_secrets (vol_VolumeId vol) node lvol ∧
       NewSpdkCsiInitiator (vol_VolumeContext vol) = inr i ∧
       reaches i node lvol (tgt w' (node_url node)))); [vm_compute; reflexivity|].
  apply (created_is_reachable ref_controller ref_misled_request).
Defined.
