(* ===== verification/NodeWitnesses.v ===== *)
(** Runs of the node service at concrete requests, on the node that can be run: each
    lemma applies a theorem to a run and says how the run ends. *)

From S2P Require Import Prelude.
From S2P Require Import GoLang.
From S2P Require Import GoJson.
From S2P Require Import World.
From S2P Require Import Util.
From S2P Require Import UtilSpec.
From S2P Require Import VolumeLocks.
From S2P Require Import CsiCommon.
From S2P Require Import Initiator.
From S2P Require Import InitiatorSpec.
From S2P Require Import NodeServer.
From S2P Require Import NodeWorld.
From S2P Require Import NodeSpec.
From S2P Require Import NodeRefine.
From S2P Require Import RefNode.

Abbreviation run_node p w := (run node_handler p w).

(** ** A node server and requests *)

Definition ref_node_server : nodeServer :=
  mkNodeServer (mkCSIDriver "csi.spdk.io" "node1" "v1" [] []) (mkVolumeLocks 0) None 0.

Definition ref_context : gmap string string := {[
  "targetType" := "TCP"; "targetAddr" := "127.0.0.1"; "targetPort" := "4420";
  "nqn" := "nqn.2020-04.io.spdk.csi:uuid:lvol-1"; "model" := "lvol-1" ]}.

Definition ref_capability : VolumeCapability :=
  mkVolumeCapability (Some AccessMode_SINGLE_NODE_READER_ONLY) (Some ("ext4", ["noatime"])).

Definition ref_stage : NodeStageVolumeRequest :=
  mkNodeStageVolumeRequest "vol-1" "/var/lib/kubelet/vol-1/globalmount" (Some ref_capability)
                           (Some ref_context).
Definition ref_unstage : NodeUnstageVolumeRequest :=
  mkNodeUnstageVolumeRequest "vol-1" "/var/lib/kubelet/vol-1/globalmount".
Definition ref_publish : NodePublishVolumeRequest :=
  mkNodePublishVolumeRequest "vol-1" "/var/lib/kubelet/vol-1/globalmount" "/var/lib/kubelet/pods/p/mount"
                             (Some ref_capability).

Definition staged_node : node_world :=
  (run_node (nodeServer.NodeStageVolume ref_node_server ref_stage) empty_node).2.

Definition faulty (w : node_world) : node_world :=
  mkNodeWorld (nw_files w) (nw_mounts w) (nw_commands w) (nw_connected w) true (nw_objects w)
              (nw_mutexes w).

Lemma ref_context_ascii : ascii_map ref_context.
Proof. apply (bool_decide_eq_true_1 _). vm_compute. reflexivity. Qed.

(** ** Runs *)

Lemma NodeStageVolume_refines_witness :
  let r := run_node (nodeServer.NodeStageVolume ref_node_server ref_stage) empty_node in
  r.1 = Done None ∧ ∃ err, r.1 = Done err ∧ stage_spec node_step ref_stage empty_node err r.2.
Proof.
  split; [vm_compute; reflexivity|].
  apply (wp_node_run _ (λ out w', ∃ err, out = Done err ∧ stage_spec node_step ref_stage empty_node err w')).
  by apply (NodeStageVolume_refines node_step ref_node_server ref_stage AccessMode_SINGLE_NODE_READER_ONLY).
Defined.

Lemma NodeUnstageVolume_refines_witness :
  let r := run_node (nodeServer.NodeUnstageVolume ref_node_server ref_unstage) staged_node in
  r.1 = Done None ∧ ∃ err, r.1 = Done err ∧ unstage_spec node_step ref_unstage staged_node err r.2.
Proof.
  split; [vm_compute; reflexivity|].
  apply (wp_node_run _ (λ out w', ∃ err, out = Done err ∧ unstage_spec node_step ref_unstage staged_node err w')).
  apply NodeUnstageVolume_refines; [done|vm_compute; reflexivity].
Defined.

Lemma NodePublishVolume_refines_witness :
  let r := run_node (nodeServer.NodePublishVolume ref_node_server ref_publish) staged_node in
  r.1 = Done None ∧ ∃ err, r.1 = Done err ∧ mount_spec node_step ref_publish staged_node err r.2.
Proof.
  split; [vm_compute; reflexivity|].
  apply (wp_node_run _ (λ out w', ∃ err, out = Done err ∧ mount_spec node_step ref_publish staged_node err w')).
  apply NodePublishVolume_refines.
Defined.

Lemma NodeUnpublishVolume_unmounts_witness :
  let p := "/var/lib/kubelet/pods/p/mount" in
  let w := (run_node (nodeServer.NodePublishVolume ref_node_server ref_publish) staged_node).2 in
  let r := run_node (nodeServer.NodeUnpublishVolume ref_node_server "vol-1" p) w in
  is_Some (nw_mounts w !! p) ∧ r.1 = Done None ∧
  ∃ err, r.1 = Done err ∧ around node_step p w r.2 ∧ (err = None → mounts (step := node_step) r.2 p = None).
Proof.
  cbv zeta. split; [vm_compute; by eexists|]. split; [vm_compute; reflexivity|].
  apply (wp_node_run _ (λ out w', ∃ err, out = Done err ∧
    around node_step "/var/lib/kubelet/pods/p/mount" _ w' ∧
    (err = None → mounts (step := node_step) w' "/var/lib/kubelet/pods/p/mount" = None))).
  apply NodeUnpublishVolume_unmounts.
Defined.

Lemma staged_is_disconnected_witness :
  let r := run_node (nodeServer.NodeUnstageVolume ref_node_server ref_unstage) staged_node in
  r.1 = Done None ∧
  ∃ i, NewSpdkCsiInitiator (Some ref_context) = inr i ∧
    nw_commands staged_node = [] ++ connect_commands i ∧
    (r.1 = Done None → nw_commands r.2 = nw_commands staged_node ++ disconnect_commands i ∧
     nw_mounts r.2 !! stage_path ref_stage = None ∧ nw_files r.2 !! stage_file ref_stage = None).
Proof.
  cbv zeta. split; [vm_compute; reflexivity|].
  destruct (wp_node_run _ _ _ (staged_is_disconnected node_step ref_node_server ref_stage ref_unstage
    AccessMode_SINGLE_NODE_READER_ONLY ref_context empty_node eq_refl eq_refl eq_refl
    ref_context_ascii eq_refl eq_refl ltac:(vm_compute; reflexivity) eq_refl)) as (i & Hi & Hc & Hu);
    [vm_compute; reflexivity|].
  exists i. split_and!; [done|done|].
  exact (wp_node_run _ _ _ (Hu staged_node eq_refl eq_refl)).
Defined.

Lemma failed_stage_stays_disconnected_witness :
  let r := run_node (nodeServer.NodeStageVolume ref_node_server ref_stage) faulty_node in
  let r2 := run_node (nodeServer.NodeStageVolume ref_node_server ref_stage) r.2 in
  r.1 ≠ Done None ∧ r2.1 = Done None ∧
  (∃ i, nw_commands r.2 = [] ++ connect_commands i ++ disconnect_commands i) ∧
  still node_step r.2 r2.2 ∧ (r2.1 = Done None ∨ ∃ e, r2.1 = Done (Some (EStatus Internal e))).
Proof.
  cbv zeta. split; [by vm_compute|]. split; [vm_compute; reflexivity|].
  assert (mounts (step := node_step) faulty_node (stage_path ref_stage) = None) as Hn
    by (vm_compute; reflexivity).
  destruct (wp_node_run _ _ _ (failed_stage_stays_disconnected node_step ref_node_server ref_stage
    AccessMode_SINGLE_NODE_READER_ONLY faulty_node eq_refl eq_refl Hn)) as [Hc Hr];
    [by vm_compute|vm_compute; by eexists|].
  split; [exact Hc|]. exact (wp_node_run _ _ _ Hr).
Defined.

Lemma unstage_is_not_resumed_witness :
  let r := run_node (nodeServer.NodeUnstageVolume ref_node_server ref_unstage) (faulty staged_node) in
  let r2 := run_node (nodeServer.NodeUnstageVolume ref_node_server ref_unstage) r.2 in
  r.1 ≠ Done None ∧ r2.1 = Done None ∧ nw_connected r2.2 = true ∧
  still node_step r.2 r2.2 ∧ (r2.1 = Done None ∨ ∃ e, r2.1 = Done (Some (EStatus Internal e))).
Proof.
  cbv zeta. split; [by vm_compute|]. split; [vm_compute; reflexivity|].
  split; [vm_compute; reflexivity|].
  exact (wp_node_run _ _ _ (wp_node_run _ _ _ (unstage_is_not_resumed node_step ref_node_server
    ref_unstage (faulty staged_node) eq_refl ltac:(vm_compute; reflexivity))
    ltac:(vm_compute; reflexivity))).
Defined.
