(* ===== verification/XpuWitnesses.v ===== *)
(** Runs of the xPU initiator and its back ends on the node that can be run. *)

From S2P Require Import Prelude.
From S2P Require Import GoLang.
From S2P Require Import GoJson.
From S2P Require Import World.
From S2P Require Import Util.
From S2P Require Import UtilSpec.
From S2P Require Import Initiator.
From S2P Require Import Sma.
From S2P Require Import Opi.
From S2P Require Import Sysfs.
From S2P Require Import Xpu.
From S2P Require Import NodeWorld.
From S2P Require Import BackendSpec.
From S2P Require Import OpiSpec.
From S2P Require Import XpuSpec.
From S2P Require Import XpuContext.
From S2P Require Import RefNode.
From S2P Require Import NodeWitnesses.

(** ** Initiators *)

Definition xpu_volume : gomap := Some (<["stagingParentPath" := "/var/lib/kubelet/vol-1/globalmount"]> ref_context).

Definition ref_opi : xpu_backend :=
  BackendOpi (OpiNvme (mkOpiInitiatorNvme (mkOpiCommon xpu_volume "" "") "" "" "")).

Definition ref_xpu_config : XpuConfig := mkXpuConfig "xpu0" "xpu-sma-nvmftcp" "127.0.0.1:50051" KvmPciBridgeIDs.

Definition ref_xpu : xpuInitiator :=
  mkXpuInitiator (BackendSma (smaInitiatorNvmfTCP (mkSmaCommon xpu_volume "" (Some "lvol-1"))))
    (mkXpuTargetType "sma" "nvmftcp") xpu_volume ref_xpu_config "" (mkPciEndpoint 0 0) (mkPciBdfs "" "").

Abbreviation run_logged p w := (run (log_handler node_handler) p w).

Lemma ref_opi_empty x : ¬ owns (logged node_step) ref_opi x.
Proof. apply recorded_none. by intros []. Qed.

Lemma ref_xpu_empty x : ¬ holds (logged node_step) ref_xpu x.
Proof. by apply sma_owns_none. Qed.

(** ** Runs *)

(** The log has no call that may have made something without telling. *)
Definition nothing_lost (log : list event) : bool :=
  forallb (λ ev, match ev_op ev as o return reply o → bool with
                 | OpiCall req => λ r, bool_decide (kind_of req = None) ||
                     match r with inr name => negb (bool_decide (name = "")) | inl _ => false end
                 | SmaCall (SmaCreateDevice _ _) => λ r,
                     match r with SmaOk h => negb (bool_decide (h = "")) | _ => false end
                 | _ => λ _, true
                 end (ev_reply ev)) log.

Lemma nothing_lost_spec (w : node_world * list event) x :
  nothing_lost w.2 = true → ¬ lost (step := logged node_step) w x.
Proof.
  intros Hall (o & r & Hin & Hx). apply list_elem_of_In in Hin.
  pose proof (proj1 (forallb_forall _ _) Hall _ Hin) as Hev. cbn [ev_op ev_reply] in Hev.
  destruct o; try done.
  - destruct req; try done. destruct r, x; try done. simpl in Hx. by subst.
  - simpl in Hx. destruct r as [e|name], x; try done; apply orb_true_iff in Hev as [Hk|Hn];
      try (apply bool_decide_eq_true in Hk; intuition congruence); [done|].
    destruct Hx as [_ ->]. done.
Qed.

(** On a faulty node the namespace cannot be made, and the four objects made before it are
    removed. *)
Lemma backend_leaves_nothing_witness :
  let r := run_logged (xConnect (mkConnectParams "" (mkPciEndpoint 0 1)) ref_opi) (faulty_node, []) in
  nw_objects r.2.1 = [] ∧ nothing_lost r.2.2 = true ∧
  ∃ e b1, r.1 = Done (e, b1) ∧ is_Some e ∧
    (is_Some e → deletions_worked (step := logged node_step) r.2 →
     ∀ x, x ∈ nw_objects r.2.1 → x ∈ nw_objects faulty_node ∨ lost (step := logged node_step) r.2 x) ∧
    (let r2 := run_logged (xDisconnect b1) r.2 in
     ∃ r' b2, r2.1 = Done (r', b2) ∧
       (r' = None → ∀ x, x ∈ nw_objects r2.2.1 →
          x ∈ nw_objects faulty_node ∨ lost (step := logged node_step) r2.2 x)).
Proof.
  cbv zeta. split; [vm_compute; reflexivity|]. split; [vm_compute; reflexivity|].
  destruct (wp_node_logged _ _ _ (backend_leaves_nothing (logged node_step)
    (mkConnectParams "" (mkPciEndpoint 0 1)) ref_opi (faulty_node, []) ref_opi_empty))
    as (e & b1 & He & Hgone & Hd).
  exists e, b1. split; [exact He|]. split.
  { revert He. vm_compute. intros [= <- _]. by eexists. }
  split; [exact Hgone|]. exact (wp_node_logged _ _ _ Hd).
Defined.

(** Connecting makes a device on the xPU, and disconnecting removes it; nothing is lost. *)
Lemma xpu_disconnect_releases_witness :
  let r := run_logged (xpuInitiator.Connect 1 ref_xpu) (empty_node, []) in
  let x1 := match r.1 with Done (_, x) => x | Panicked _ => ref_xpu end in
  let r2 := run_logged (xpuInitiator.Disconnect x1) r.2 in
  nw_objects r.2.1 = [Device "sma-1"] ∧ nw_objects r2.2.1 = [] ∧ nothing_lost r2.2.2 = true ∧
  ∀ x2, r2.1 = Done (None, x2) → ∀ y, y ∈ nw_objects r2.2.1 →
    y ∈ nw_objects empty_node ∨ lost (step := logged node_step) r2.2 y.
Proof.
  cbv zeta. split; [vm_compute; reflexivity|]. split; [vm_compute; reflexivity|].
  split; [vm_compute; reflexivity|].
  apply (wp_node_logged _ _ _ (wp_node_logged _ _ _ (xpu_disconnect_releases (logged node_step) 1 ref_xpu
    (empty_node, []) ref_xpu_empty) (inr "/dev/nvme0n1") _ ltac:(vm_compute; reflexivity))).
Defined.

(** The initiator after it has connected. *)
Definition ref_connected_xpu : xpuInitiator :=
  match (run_node (xpuInitiator.Connect 1 ref_xpu) empty_node).1 with
  | Done (_, x) => x | Panicked _ => ref_xpu
  end.

Lemma ref_xpu_well_made : well_made ref_connected_xpu.
Proof.
  split; [vm_compute; reflexivity|vm_compute; by split|vm_compute; done|vm_compute; done|].
  apply (bool_decide_eq_true_1 _). vm_compute. reflexivity.
Qed.

Definition ref_xpu_file : string :=
  filepath_Join (mget xpu_volume "stagingParentPath") xpuContextFileName.

(** The context is saved and known again; the file was read without an error. *)
Lemma xpu_context_restored_witness :
  let r := run_logged (xpuInitiator.saveXpuContext ref_connected_xpu) (empty_node, []) in
  let r2 := run_logged (NewSpdkCsiXpuInitiator xpu_volume ref_xpu_config) r.2 in
  r.1 = Done (None, ref_connected_xpu) ∧
  (match r2.1 with Done (inr x2) => xpu_devicePath x2 = "/dev/nvme0n1" | _ => False end) ∧
  ∀ x2, r2.1 = Done (inr x2) →
    same_record ref_connected_xpu x2 ∨
    blank_record x2 ∧ ∃ e, during (step := logged node_step) r.2 r2.2 (Ev (OsReadFile ref_xpu_file) (inl e)).
Proof.
  cbv zeta. split; [vm_compute; reflexivity|]. split; [vm_compute; reflexivity|].
  destruct (wp_node_logged _ _ _ (xpu_context_restored (logged node_step) ref_connected_xpu
    (empty_node, []) ref_xpu_well_made) ref_connected_xpu ltac:(vm_compute; reflexivity)) as [_ Hr].
  exact (wp_node_logged _ _ _ (Hr _ eq_refl)).
Defined.
