(* ===== verification/DriverWitnesses.v ===== *)
(** The driver as a whole at concrete inputs: requests that compete for a lock, and a
    driver started as a node service. *)

From S2P Require Import Prelude.
From S2P Require Import GoLang.
From S2P Require Import GoJson.
From S2P Require Import World.
From S2P Require Import Util.
From S2P Require Import VolumeLocks.
From S2P Require Import LocksSpec.
From S2P Require Import CsiCommon.
From S2P Require Import Server.
From S2P Require Import Controller.
From S2P Require Import Sysfs.
From S2P Require Import Xpu.
From S2P Require Import NodeServer.
From S2P Require Import Driver.
From S2P Require Import Service.
From S2P Require Import ServiceSpec.
From S2P Require Import RefTarget.
From S2P Require Import TargetWitnesses.
From S2P Require Import ControllerWitnesses.
From S2P Require Import RefNode.
From S2P Require Import NodeWitnesses.

(** ** Locks *)

Definition ref_unknown (name : string) : csi_response := RespError (EStatus Unimplemented name).

(** A node with an xPU whose functions are on one KVM bridge. *)
Definition ref_xpu_server : nodeServer :=
  mkNodeServer (ns_Driver ref_node_server) (mkVolumeLocks 1)
    (Some (mkXpuConfig "xpu0" "xpu-sma-nvme" "127.0.0.1:50051" KvmPciBridgeIDs)) 1.

Definition ref_xpu_services : services :=
  mkGrpcServer (Some (Some (ns_Driver ref_node_server))) (Some (Some ref_controller))
               (Some (Some ref_xpu_server)).

Definition ref_stage_of (id : string) : csi_request :=
  RpcNodeStageVolume (mkNodeStageVolumeRequest id ("/var/lib/kubelet/" +:+ id) (Some ref_capability)
                                               (Some ref_context)).

(** Three at the same time; the first and the last name the same volume. *)
Definition ref_requests : list csi_request :=
  [ref_stage_of "vol-1"; ref_stage_of "vol-2"; ref_stage_of "vol-1"].

(** A scheduler: which thread performs the next operation.  Everything but locks answers
    like an empty node. *)
Definition lock_exec (l : lock_state) (o : op) : option (reply o * lock_state) :=
  match o return option (reply o * lock_state) with
  | NewMutex => Some (ls_next l, mkLockState (S (ls_next l)) (ls_table l) (ls_held l))
  | MapLoadOrStore vl key m =>
      Some match ls_table l !! (vl, key) with
           | Some m1 => (m1, l)
           | None => (m, mkLockState (ls_next l) (<[(vl, key) := m]> (ls_table l)) (ls_held l))
           end
  | MutexLock m =>
      if decide (m ∈ ls_held l) then None
      else Some (tt, mkLockState (ls_next l) (ls_table l) ({[m]} ∪ ls_held l))
  | MutexUnlock m =>
      if decide (m ∈ ls_held l)
      then Some (tt, mkLockState (ls_next l) (ls_table l) (ls_held l ∖ {[m]})) else None
  | o => Some ((node_handler o empty_node).1, l)
  end.

Lemma lock_exec_step l o r l' : lock_exec l o = Some (r, l') → lock_step l o r l'.
Proof.
  pose proof (node_handler_ok o empty_node) as Hok. intros H.
  destruct o; simpl in *; repeat case_match; simplify_eq/=; done.
Qed.

Fixpoint schedule (threads : list nat) (tr : list (nat * op)) (s : pool)
    : option (list (nat * op) * pool) :=
  match threads with
  | [] => Some (tr, s)
  | i :: threads =>
      match s.2 !! i with
      | Some (Vis o k) =>
          match lock_exec s.1 o with
          | Some (r, l') => schedule threads (tr ++ [(i, o)]) (l', <[i := k r]> s.2)
          | None => None
          end
      | _ => None
      end
  end.

Lemma schedule_run s0 threads tr s tr' s' :
  schedule threads tr s = Some (tr', s') → pool_run s0 tr s → pool_run s0 tr' s'.
Proof.
  revert tr s. induction threads as [|i threads IH]; intros tr [l ps] Hs Hrun; cbn [schedule fst snd] in Hs.
  { by injection Hs as <- <-. }
  destruct (ps !! i) as [[a|why|o k]|] eqn:Hi; try done.
  destruct (lock_exec l o) as [[r l']|] eqn:Hl; [|done].
  eapply IH; [exact Hs|]. eapply run_act; [exact Hrun|exact Hi|by apply lock_exec_step].
Qed.

(** Looking at a thread. *)
Definition at_opb (P : op → bool) (p : proc unit) : bool :=
  match p with Vis o _ => P o | _ => false end.

Fixpoint mayb (P : op → bool) (p : proc unit) : bool :=
  match p with Vis o k => P o || mayb P (k (node_handler o empty_node).1) | _ => false end.

Definition betweenb (first last : op → bool) (h : list op) (p : proc unit) : bool :=
  (existsb first h || at_opb first p) && mayb last p.

Lemma mayb_may P p : mayb P p = true → may P p.
Proof.
  induction p as [a|why|o k IH]; simpl; [done..|]. intros [Ho|Hk]%orb_true_iff; [by left|].
  right. eexists. by apply IH.
Qed.

Lemma betweenb_between first last h p : betweenb first last h p = true → between first last h p.
Proof.
  intros [Hf Hl]%andb_true_iff. split; [|by apply mayb_may].
  apply orb_true_iff in Hf as [Hf|Hf]; [left|by right; destruct p].
  apply existsb_exists in Hf as (o & Hin & Ho). apply Exists_exists. exists o.
  by rewrite list_elem_of_In.
Qed.

(** The first has found a function and is about to take it; the second waits for its turn
    to search, and the last for the volume. *)
Definition ref_schedule : option (list (nat * op) * pool) :=
  schedule (replicate 9 0 ++ replicate 7 1 ++ replicate 2 2) []
    (driver_pool ref_unknown ref_xpu_services ref_requests).

Definition waits_for (m : nat) : proc unit → bool :=
  at_opb (λ o, match o with MutexLock m' => bool_decide (m' = m) | _ => false end).

Definition ref_state_checks : bool :=
  match ref_schedule with
  | Some (tr, (_, [p; q; r])) =>
      betweenb work work (history tr 0) p &&
      betweenb searches_function takes_function (history tr 0) p &&
      at_opb takes_function p && waits_for phyIDLock q && waits_for 1 r
  | _ => false
  end.

Lemma ref_state_ok : ref_state_checks = true.
Proof. vm_compute. reflexivity. Qed.

Lemma ref_requests_run : ∃ tr l p q r,
  pool_run (driver_pool ref_unknown ref_xpu_services ref_requests) tr (l, [p; q; r]) ∧
  working (history tr 0) p ∧ choosing (history tr 0) p ∧
  waits_for phyIDLock q = true ∧ waits_for 1 r = true.
Proof.
  pose proof ref_state_ok as H. unfold ref_state_checks in H.
  destruct ref_schedule as [[tr [l ps]]|] eqn:Hs; [|discriminate H].
  apply (schedule_run (driver_pool ref_unknown ref_xpu_services ref_requests)) in Hs; [|constructor].
  destruct ps as [|p [|q [|r [|]]]]; try discriminate H.
  do 4 (apply andb_true_iff in H as [H ?]). exists tr, l, p, q, r. split; [exact Hs|].
  split_and!; [by apply betweenb_between..|done|done].
Qed.

Lemma driver_mutual_exclusion_witness :
  ∃ tr l p q r,
    pool_run (driver_pool ref_unknown ref_xpu_services ref_requests) tr (l, [p; q; r]) ∧
    waits_for phyIDLock q = true ∧ waits_for 1 r = true ∧
    (working (history tr 0) p ∧ (working (history tr 2) r → 0 = 2)) ∧
    (choosing (history tr 0) p ∧ (choosing (history tr 1) q → 0 = 1)).
Proof.
  destruct ref_requests_run as (tr & l & p & q & r & Hrun & Hwork & Hchoose & Hq & Hr).
  exists tr, l, p, q, r. split; [exact Hrun|]. split; [exact Hq|]. split; [exact Hr|].
  split; (split; [assumption|]).
  - intros Hw. exact (proj1 (driver_mutual_exclusion ref_unknown ref_xpu_services ref_requests tr l
      [p; q; r] 0 2 p r Hrun eq_refl eq_refl) _ _ _ eq_refl eq_refl eq_refl eq_refl Hwork Hw).
  - intros Hc. exact (proj2 (driver_mutual_exclusion ref_unknown ref_xpu_services ref_requests tr l
      [p; q; r] 0 1 p q Hrun eq_refl eq_refl) Hchoose Hc).
Defined.

(** ** Start *)

(** A node service that was started without an xPU. *)
Definition ref_config : Config := mkConfig "csi.spdk.io" "v1" "unix://csi.sock" "node1" false true.

Definition ref_start : outcome started * ref_world := run_ref (Run 0 ref_config) ref_empty_world.

(** It starts, and its goroutine serves until the server is stopped. *)
Definition serves : bool :=
  match ref_start.1 with
  | Done st =>
      all_answered (st_goroutine st) ref_start.2 &&
      match (run_ref (st_goroutine st) ref_start.2).1 with Done _ => true | Panicked _ => false end
  | Panicked _ => false
  end.

Lemma ref_serves : all_answered (Run 0 ref_config) ref_empty_world && serves = true.
Proof. vm_compute. reflexivity. Qed.

Lemma Run_registers_nil_witness :
  ∃ st s, ref_start.1 = Done st ∧ (run_ref (st_goroutine st) ref_start.2).1 = Done s ∧
    is_Some (gs_node s) ∧
    handle ref_unknown s (RpcDeleteVolume "node1:lvol-1" None) = Panic nil_dereference.
Proof.
  pose proof ref_serves as [Hall Hs]%andb_true_iff. unfold serves in Hs.
  pose proof (wp_ref_run (Run 0 ref_config) _ ref_empty_world Hall
    (Run_registers_nil _ 0 ref_config _)) as H.
  change (run ref_handler (Run 0 ref_config) ref_empty_world) with ref_start in H.
  destruct ref_start as [[st|why] w1]; [|discriminate]. cbn [fst snd] in *.
  apply andb_true_iff in Hs as [Hall' Hs]. destruct (H st eq_refl) as [_ Hgo].
  pose proof (wp_ref_run (st_goroutine st) _ w1 Hall' Hgo) as Hrun.
  change (run ref_handler (st_goroutine st) w1) with (run_ref (st_goroutine st) w1) in Hrun.
  destruct (run_ref (st_goroutine st) w1) as [[s|why] w2] eqn:Hr; [|discriminate].
  destruct (Hrun s eq_refl) as (_ & _ & Hn & Hnil). exists st, s.
  split; [reflexivity|]. split; [exact (f_equal fst Hr)|]. split; [exact Hn|].
  apply Hnil; [eexists; reflexivity|reflexivity].
Defined.
